(** * wimlib image extraction (src/extract.c): a shallow embedding

    The development follows the layout of [extract.c]: the extraction flags
    and command validation, the feature check, the stream planner, the file
    name sanitizer, and the stream extractors.  Integers that the C code
    only combines with [&], [|] and [~] are unbounded [Z] bit vectors;
    counters keep their C width and wrap.  Calls that leave [extract.c]
    (backend operations, libc, the resource reader, the warning and error
    sinks) are the nodes of a small program tree, so that a statement can
    quantify over every answer the environment may give. *)

From Stdlib Require Import ZArith List Bool Lia String Ascii DecimalString.
From stdpp Require Import base tactics option list functions gmap.

Set Warnings "-register-all".

Local Open Scope string_scope.
Local Open Scope list_scope.
Local Open Scope Z_scope.

(** ** Error codes ([enum wimlib_error_code]); [WIMLIB_ERR_SUCCESS] is 0. *)

Inductive wimlib_error_code : Type :=
| WIMLIB_ERR_SUCCESS
| WIMLIB_ERR_INVALID_PARAM
| WIMLIB_ERR_PATH_DOES_NOT_EXIST
| WIMLIB_ERR_NOMEM
| WIMLIB_ERR_OPEN
| WIMLIB_ERR_READ
| WIMLIB_ERR_WRITE
| WIMLIB_ERR_STAT
| WIMLIB_ERR_MKDIR
| WIMLIB_ERR_NOTDIR
| WIMLIB_ERR_NOT_A_REGULAR_FILE
| WIMLIB_ERR_READLINK
| WIMLIB_ERR_REPARSE_POINT_FIXUP_FAILED
| WIMLIB_ERR_UNSUPPORTED
| WIMLIB_ERR_NOT_PIPABLE
| WIMLIB_ERR_INVALID_PIPABLE_WIM
| WIMLIB_ERR_INVALID_IMAGE
| WIMLIB_ERR_IMAGE_COUNT
| WIMLIB_ERR_XML
| WIMLIB_ERR_OTHER (n : Z).

#[global] Instance wimlib_error_code_eq_dec : EqDecision wimlib_error_code.
Proof. solve_decision. Defined.

(** The C truth value of a status: [if (ret)]. *)
Definition failed (ret : wimlib_error_code) : bool :=
  match ret with WIMLIB_ERR_SUCCESS => false | _ => true end.

(** ** Extraction flags

    [extract.c] defines the two private flags itself; the public
    [WIMLIB_EXTRACT_FLAG_*] values come from [wimlib.h]. *)

Definition WIMLIB_EXTRACT_FLAG_MULTI_IMAGE : Z := 0x80000000.
Definition WIMLIB_EXTRACT_FLAG_FROM_PIPE : Z := 0x40000000.
Definition WIMLIB_EXTRACT_MASK_PUBLIC : Z := 0x3fffffff.

Inductive extract_flag : Type :=
| NTFS | HARDLINK | SYMLINK | SEQUENTIAL | UNIX_DATA | NO_ACLS | STRICT_ACLS
| RPFIX | NORPFIX | TO_STDOUT | REPLACE_INVALID_FILENAMES | ALL_CASE_CONFLICTS
| STRICT_TIMESTAMPS | STRICT_SHORT_NAMES | STRICT_SYMLINKS.

#[global] Instance extract_flag_eq_dec : EqDecision extract_flag.
Proof. solve_decision. Defined.

Definition all_extract_flags : list extract_flag :=
  [NTFS; HARDLINK; SYMLINK; SEQUENTIAL; UNIX_DATA; NO_ACLS; STRICT_ACLS;
   RPFIX; NORPFIX; TO_STDOUT; REPLACE_INVALID_FILENAMES; ALL_CASE_CONFLICTS;
   STRICT_TIMESTAMPS; STRICT_SHORT_NAMES; STRICT_SYMLINKS].

(** A layout gives each public flag its bit.  It is admissible when the
    bits are pairwise distinct and lie inside [WIMLIB_EXTRACT_MASK_PUBLIC]. *)
Definition flag_layout_ok (flag_bit : extract_flag -> Z) : bool :=
  forallb (fun f =>
    (0 <=? flag_bit f) && (flag_bit f <? 30) &&
    forallb (fun g => negb (flag_bit f =? flag_bit g) || bool_decide (f = g))
      all_extract_flags) all_extract_flags.

(** The layout used for the concrete runs below. *)
Definition sample_flag_bit (f : extract_flag) : Z :=
  match f with
  | NTFS => 0 | HARDLINK => 1 | SYMLINK => 2 | SEQUENTIAL => 4
  | UNIX_DATA => 5 | NO_ACLS => 6 | STRICT_ACLS => 7 | RPFIX => 8
  | NORPFIX => 9 | TO_STDOUT => 10 | REPLACE_INVALID_FILENAMES => 11
  | ALL_CASE_CONFLICTS => 12 | STRICT_TIMESTAMPS => 13
  | STRICT_SHORT_NAMES => 14 | STRICT_SYMLINKS => 15
  end.

(** [flags & mask] as a C condition. *)
Definition has_flag (flags mask : Z) : bool := negb (Z.land flags mask =? 0).

(** ** Strings of [tchar], warnings and errors *)

Definition tstring : Type := list Z.

Definition tstr (s : string) : tstring :=
  map (fun a => Z.of_nat (nat_of_ascii a)) (list_ascii_of_string s).

Inductive log_level : Type := LWARNING | LERROR.

(** ** Extraction commands ([struct wimlib_extract_command]) *)

Record wimlib_extract_command : Type := {
  wim_source_path : tstring;
  fs_dest_path : tstring;
  cmd_extract_flags : Z;
}.

Definition set_cmd_extract_flags (cmd : wimlib_extract_command) (flags : Z)
  : wimlib_extract_command :=
  {| wim_source_path := wim_source_path cmd;
     fs_dest_path := fs_dest_path cmd;
     cmd_extract_flags := flags |}.

(** [s[0] == T('\0')] on a C string. *)
Definition tstring_is_empty (s : tstring) : bool :=
  match s with [] => true | c :: _ => c =? 0 end.

(** ** Data model

    Dentries, inodes and lookup table entries live in three stores and
    point at each other by index, as the C structures do by address.  The
    records list the members that [extract.c] reads or writes. *)

Definition dentry_id : Type := nat.
Definition inode_id : Type := nat.
Definition lte_id : Type := nat.

(** [struct wim_features]: the counts of files needing each feature in
    [required_features]; read as truth values in [supported_features]. *)
Record wim_features : Type := {
  archive_files : Z;
  hidden_files : Z;
  system_files : Z;
  compressed_files : Z;
  encrypted_files : Z;
  not_context_indexed_files : Z;
  sparse_files : Z;
  named_data_streams : Z;
  hard_links : Z;
  reparse_points : Z;
  symlink_reparse_points : Z;
  other_reparse_points : Z;
  security_descriptors : Z;
  short_names : Z;
  unix_data : Z;
}.

(** A C integer used as a condition. *)
Definition nonzero (z : Z) : bool := negb (z =? 0).

(** [struct apply_operations]: the constant members, and for each callback
    that callers test against [NULL] whether it is present. *)
Record apply_operations : Type := {
  ops_name : string;
  path_max : Z;
  path_prefix : tstring;
  path_separator : Z;
  requires_target_in_paths : bool;
  requires_realtarget_in_paths : bool;
  realpath_works_on_nonexisting_files : bool;
  root_directory_is_special : bool;
  supports_case_sensitive_filenames : bool;
  has_target_is_root : bool;
  has_abort_extract : bool;
  has_finish_extract : bool;
  has_set_file_attributes : bool;
  has_set_timestamps : bool;
}.

Record wim_ads_entry : Type := {
  stream_name : list Z;
  ads_lte : option lte_id;
}.

Record wim_inode : Type := {
  i_attributes : Z;
  i_lte : option lte_id;
  i_ads_entries : list wim_ads_entry;
  i_nlink : Z;
  i_security_id : Z;
  i_reparse_tag : Z;
  i_not_rpfixed : bool;
  i_creation_time : Z;
  i_last_write_time : Z;
  i_last_access_time : Z;
}.

Record wim_dentry : Type := {
  d_inode : inode_id;
  file_name : list Z;
  short_name : list Z;
  parent : dentry_id;
  case_insensitive_conflict_list : list dentry_id;
  extraction_skipped : bool;
  was_hardlinked : bool;
  tmp_flag : bool;
  extraction_name : option tstring;
}.

Inductive resource_location_t : Type :=
| RESOURCE_NONEXISTENT
| RESOURCE_IN_WIM
| RESOURCE_IN_FILE_ON_DISK
| RESOURCE_IN_ATTACHED_BUFFER.

#[global] Instance resource_location_eq_dec : EqDecision resource_location_t.
Proof. solve_decision. Defined.

Record resource_entry_t : Type := {
  re_size : Z;
  re_flags : Z;
  re_offset : Z;
  re_original_size : Z;
}.

Record wim_lookup_table_entry : Type := {
  lte_hash : Z;
  resource_entry : resource_entry_t;
  resource_location : resource_location_t;
  file_on_disk : option tstring;
  compression_type : Z;
  is_pipable : bool;
  out_refcnt : Z;
  extracted_file : option tstring;
  inline_lte_dentries : list dentry_id;
  lte_dentries : list dentry_id;
  alloc_lte_dentries : Z;
}.

(** The dentry tree, as [for_dentry_in_tree] walks it. *)
Inductive dtree : Type :=
| DNode (d : dentry_id) (children : list dtree).

Definition dtree_root (t : dtree) : dentry_id := let 'DNode d _ := t in d.

(** [ctx->progress.extract] *)
Record extract_progress : Type := {
  total_bytes : Z;
  num_streams : Z;
  completed_bytes : Z;
}.

(** [struct apply_ctx] *)
Record apply_ctx : Type := {
  extract_flags : Z;
  ops : apply_operations;
  target : tstring;
  realtarget : option tstring;
  has_progress_func : bool;
  extract_root : dentry_id;
  supported_features : wim_features;
  root_dentry_is_special : bool;
  invalid_sequence : Z;
  stream_list : list lte_id;
  num_streams_remaining : Z;
  progress : extract_progress;
  next_progress : Z;
}.

(** ** Calls that leave [extract.c]

    [call] lists the callees that answer with an [int] status (or with a
    pointer that is only tested against [NULL]: the status is then
    [WIMLIB_ERR_SUCCESS] for a non-null pointer).  [data_call] lists the
    callees that fill a buffer or return a fresh string.
    [void_call] lists the callees whose result is not looked at. *)

Inductive progress_msg : Type :=
| WIMLIB_PROGRESS_MSG_EXTRACT_IMAGE_BEGIN
| WIMLIB_PROGRESS_MSG_EXTRACT_TREE_BEGIN
| WIMLIB_PROGRESS_MSG_EXTRACT_DIR_STRUCTURE_BEGIN
| WIMLIB_PROGRESS_MSG_EXTRACT_DIR_STRUCTURE_END
| WIMLIB_PROGRESS_MSG_EXTRACT_STREAMS
| WIMLIB_PROGRESS_MSG_APPLY_TIMESTAMPS
| WIMLIB_PROGRESS_MSG_EXTRACT_TREE_END
| WIMLIB_PROGRESS_MSG_EXTRACT_IMAGE_END.

(** Where [extract_wim_resource_to_fd] writes. *)
Inductive out_fd : Type :=
| STDOUT_FILENO
| TMP_FILE (name : tstring).

Inductive call : Type :=
(* the WIM, its lookup table and its resources *)
| select_wim_image (image : Z)
| wim_checksum_unhashed_streams
| inode_resolve_ltes (inode : inode_id) (force : bool)
| sort_stream_list_by_sequential_order
| extract_wim_resource_to_fd (lte : wim_lookup_table_entry) (fd : out_fd) (size : Z)
| read_partial_wim_resource_seek_only (lte : wim_lookup_table_entry) (size : Z)
| inode_get_unix_data (inode : inode_id)
| extract_tree_call (wim_source_path fs_dest_path : tstring) (extract_flags : Z)
(* memory *)
| REALLOC (nmemb : Z)
| memdup_lte (lte : wim_lookup_table_entry)
| memdup_name (name : tstring) (nbytes : Z)
| TSTRDUP (s : tstring)
| new_lookup_table_entry
(* libc *)
| topen (name : tstring)
| filedes_close (fd : out_fd)
| lseek_cur
| errno_is_EACCES            (* nonzero when [errno == EACCES] *)
| errno_is_EACCES_or_EPERM   (* nonzero when [errno == EACCES || errno == EPERM] *)
(* struct apply_operations *)
| start_extract (target : tstring)
| target_is_root (target : tstring)
| create_directory (path : tstring)
| create_file (path : tstring)
| create_hardlink (oldpath newpath : tstring)
| create_symlink (oldpath newpath : tstring)
| extract_unnamed_stream (path : tstring) (lte : wim_lookup_table_entry)
| extract_named_stream (path : tstring) (stream_name : list Z)
    (lte : option wim_lookup_table_entry)
| extract_encrypted_stream (path : tstring) (lte : wim_lookup_table_entry)
| set_file_attributes (path : tstring) (attributes : Z)
| set_short_name (path : tstring) (short_name : list Z)
| set_reparse_data (path : tstring) (rpbuf : list Z)
| set_security_descriptor (path : tstring) (security_id : Z) (strict : bool)
| set_unix_data (path : tstring) (inode : inode_id)
| set_timestamps (path : tstring) (creation last_write last_access : Z)
| finish_extract.

(** Callees that hand back data or fail with a status. *)
Inductive data_call : Type :=
| ttempnam
| realpath (target : tstring)
| wim_inode_readlink (inode : inode_id) (bufsize : Z)
    (lte_override : option wim_lookup_table_entry)
| wim_inode_get_reparse_data (inode : inode_id)
    (lte_override : option wim_lookup_table_entry).

Inductive void_call : Type :=
| LOG (lvl : log_level) (msg : string) (args : list Z)
| progress_func (msg : progress_msg) (info : extract_progress)
| tunlink (name : tstring)
| abort_extract.

Inductive prog (A : Type) : Type :=
| Ret (a : A)
| Call (c : call) (k : wimlib_error_code -> prog A)
| CallData (c : data_call) (k : wimlib_error_code + list Z -> prog A)
| Tell (c : void_call) (k : prog A).

Arguments Ret {A} a.
Arguments Call {A} c k.
Arguments CallData {A} c k.
Arguments Tell {A} c k.

Fixpoint prog_bind {A B : Type} (p : prog A) (f : A -> prog B) : prog B :=
  match p with
  | Ret a => f a
  | Call c k => Call c (fun r => prog_bind (k r) f)
  | CallData c k => CallData c (fun r => prog_bind (k r) f)
  | Tell c k => Tell c (prog_bind k f)
  end.

#[global] Instance prog_ret : MRet prog := fun A a => Ret a.
#[global] Instance prog_mbind : MBind prog := fun A B f p => prog_bind p f.

Definition WARNING (msg : string) : prog unit := Tell (LOG LWARNING msg []) (Ret tt).
Definition WARNING_lu (msg : string) (n : Z) : prog unit :=
  Tell (LOG LWARNING msg [n]) (Ret tt).
Definition ERROR (msg : string) : prog unit := Tell (LOG LERROR msg []) (Ret tt).
Definition call_status (c : call) : prog wimlib_error_code := Call c Ret.
Definition call_data (c : data_call) : prog (wimlib_error_code + list Z) :=
  CallData c Ret.
Definition tell (c : void_call) : prog unit := Tell c (Ret tt).

(** What the environment answered, in order. *)
Inductive io_event : Type :=
| EvCall (c : call) (r : wimlib_error_code)
| EvData (c : data_call) (r : wimlib_error_code + list Z)
| EvTell (c : void_call).

Inductive answer : Type :=
| AStatus (r : wimlib_error_code)
| AData (d : wimlib_error_code + list Z).

Definition answer_status (a : option answer) : wimlib_error_code :=
  match a with Some (AStatus r) => r | _ => WIMLIB_ERR_SUCCESS end.
Definition answer_data (a : option answer) : wimlib_error_code + list Z :=
  match a with Some (AData d) => d | _ => inr [] end.

(** [run p env] executes [p] against the answers [env], one per call that
    has an answer; when [env] is used up every further call succeeds. *)
Fixpoint run {A : Type} (p : prog A) (env : list answer) : list io_event * A :=
  match p with
  | Ret a => ([], a)
  | Call c k =>
      let r := answer_status (head env) in
      let '(t, a) := run (k r) (tail env) in (EvCall c r :: t, a)
  | CallData c k =>
      let r := answer_data (head env) in
      let '(t, a) := run (k r) (tail env) in (EvData c r :: t, a)
  | Tell c k => let '(t, a) := run k env in (EvTell c :: t, a)
  end.

(** [always p Q]: [Q] holds of the trace and result of every execution. *)
Fixpoint always {A : Type} (p : prog A) (Q : list io_event -> A -> Prop) : Prop :=
  match p with
  | Ret a => Q [] a
  | Call c k => forall r, always (k r) (fun t a => Q (EvCall c r :: t) a)
  | CallData c k => forall r, always (k r) (fun t a => Q (EvData c r :: t) a)
  | Tell c k => always k (fun t a => Q (EvTell c :: t) a)
  end.

(** [struct reparse_data] ([reparse.h]) *)
Record reparse_data : Type := {
  rptag : Z;
  substitute_name : list Z;
  substitute_name_nbytes : Z;
  print_name : list Z;
  print_name_nbytes : Z;
}.

(** ** Program state

    Everything an extraction mutates: the context, the feature tally that
    [extract_tree] keeps in a local, the three stores, the lookup table and
    what is left to read from the pipe.  The two scratch members of
    [struct wim_inode], [i_visited] and [i_extracted_file], are kept beside
    the inodes, indexed the same way, so that an inode of the store is the
    inode of the image throughout. *)

(** One attempt of [read_pwm_stream_header] to read from the pipe: the
    status of the [full_read] of the stream header, the header read, the
    status of the second [full_read] that follows a WIM header, and the
    offset [in_fd.offset] has after the header. *)
Record pwm_stream_hdr : Type := {
  hdr_magic : Z;
  hdr_uncompressed_size : Z;
  hdr_hash : Z;
  hdr_flags : Z;
}.

Record pipe_item : Type := {
  read_status : wimlib_error_code;
  stream_hdr : pwm_stream_hdr;
  rest_status : wimlib_error_code;
  data_offset : Z;
}.

Record state : Type := {
  ctx : apply_ctx;
  required_features : wim_features;
  dentries : dentry_id -> wim_dentry;
  inodes : inode_id -> wim_inode;
  i_visited : inode_id -> bool;
  i_extracted_file : inode_id -> option tstring;
  ltes : lte_id -> wim_lookup_table_entry;
  lookup_table : gmap Z lte_id;
  in_fd : list pipe_item;
}.

Definition set_ctx (c : apply_ctx) (s : state) : state :=
  {| ctx := c; required_features := required_features s;
     dentries := dentries s; inodes := inodes s;
     i_visited := i_visited s; i_extracted_file := i_extracted_file s;
     ltes := ltes s; lookup_table := lookup_table s; in_fd := in_fd s |}.
Definition set_required_features (f : wim_features) (s : state) : state :=
  {| ctx := ctx s; required_features := f;
     dentries := dentries s; inodes := inodes s;
     i_visited := i_visited s; i_extracted_file := i_extracted_file s;
     ltes := ltes s; lookup_table := lookup_table s; in_fd := in_fd s |}.
Definition set_dentry (d : dentry_id) (v : wim_dentry) (s : state) : state :=
  {| ctx := ctx s; required_features := required_features s;
     dentries := <[d := v]> (dentries s); inodes := inodes s;
     i_visited := i_visited s; i_extracted_file := i_extracted_file s;
     ltes := ltes s; lookup_table := lookup_table s; in_fd := in_fd s |}.
Definition set_i_visited (i : inode_id) (v : bool) (s : state) : state :=
  {| ctx := ctx s; required_features := required_features s;
     dentries := dentries s; inodes := inodes s;
     i_visited := <[i := v]> (i_visited s);
     i_extracted_file := i_extracted_file s;
     ltes := ltes s; lookup_table := lookup_table s; in_fd := in_fd s |}.
Definition set_i_extracted_file (i : inode_id) (v : option tstring) (s : state)
  : state :=
  {| ctx := ctx s; required_features := required_features s;
     dentries := dentries s; inodes := inodes s;
     i_visited := i_visited s;
     i_extracted_file := <[i := v]> (i_extracted_file s);
     ltes := ltes s; lookup_table := lookup_table s; in_fd := in_fd s |}.
Definition set_lte (l : lte_id) (v : wim_lookup_table_entry) (s : state) : state :=
  {| ctx := ctx s; required_features := required_features s;
     dentries := dentries s; inodes := inodes s;
     i_visited := i_visited s; i_extracted_file := i_extracted_file s;
     ltes := <[l := v]> (ltes s);
     lookup_table := lookup_table s; in_fd := in_fd s |}.
Definition set_in_fd (p : list pipe_item) (s : state) : state :=
  {| ctx := ctx s; required_features := required_features s;
     dentries := dentries s; inodes := inodes s;
     i_visited := i_visited s; i_extracted_file := i_extracted_file s;
     ltes := ltes s; lookup_table := lookup_table s; in_fd := p |}.

(** A stateful computation that may call out. *)
Definition act (A : Type) : Type := state -> prog (A * state).

#[global] Instance act_ret : MRet act := fun A a s => Ret (a, s).
#[global] Instance act_mbind : MBind act :=
  fun A B f m s => prog_bind (m s) (fun '(a, s') => f a s').

Definition get_state : act state := fun s => Ret (s, s).
Definition modify (f : state -> state) : act unit := fun s => Ret (tt, f s).
Definition lift {A} (p : prog A) : act A := fun s => prog_bind p (fun a => Ret (a, s)).

(** Field updates. *)
Definition dentry_set_skipped (v : bool) (d : wim_dentry) : wim_dentry :=
  {| d_inode := d_inode d; file_name := file_name d; short_name := short_name d;
     parent := parent d;
     case_insensitive_conflict_list := case_insensitive_conflict_list d;
     extraction_skipped := v; was_hardlinked := was_hardlinked d;
     tmp_flag := tmp_flag d; extraction_name := extraction_name d |}.
Definition dentry_set_was_hardlinked (v : bool) (d : wim_dentry) : wim_dentry :=
  {| d_inode := d_inode d; file_name := file_name d; short_name := short_name d;
     parent := parent d;
     case_insensitive_conflict_list := case_insensitive_conflict_list d;
     extraction_skipped := extraction_skipped d; was_hardlinked := v;
     tmp_flag := tmp_flag d; extraction_name := extraction_name d |}.
Definition dentry_set_tmp_flag (v : bool) (d : wim_dentry) : wim_dentry :=
  {| d_inode := d_inode d; file_name := file_name d; short_name := short_name d;
     parent := parent d;
     case_insensitive_conflict_list := case_insensitive_conflict_list d;
     extraction_skipped := extraction_skipped d;
     was_hardlinked := was_hardlinked d;
     tmp_flag := v; extraction_name := extraction_name d |}.
Definition dentry_set_extraction_name (v : option tstring) (d : wim_dentry)
  : wim_dentry :=
  {| d_inode := d_inode d; file_name := file_name d; short_name := short_name d;
     parent := parent d;
     case_insensitive_conflict_list := case_insensitive_conflict_list d;
     extraction_skipped := extraction_skipped d;
     was_hardlinked := was_hardlinked d;
     tmp_flag := tmp_flag d; extraction_name := v |}.

Definition lte_set_out_refcnt (v : Z) (e : wim_lookup_table_entry)
  : wim_lookup_table_entry :=
  {| lte_hash := lte_hash e; resource_entry := resource_entry e;
     resource_location := resource_location e; file_on_disk := file_on_disk e;
     compression_type := compression_type e; is_pipable := is_pipable e;
     out_refcnt := v; extracted_file := extracted_file e;
     inline_lte_dentries := inline_lte_dentries e;
     lte_dentries := lte_dentries e;
     alloc_lte_dentries := alloc_lte_dentries e |}.
Definition lte_set_extracted_file (v : option tstring) (e : wim_lookup_table_entry)
  : wim_lookup_table_entry :=
  {| lte_hash := lte_hash e; resource_entry := resource_entry e;
     resource_location := resource_location e; file_on_disk := file_on_disk e;
     compression_type := compression_type e; is_pipable := is_pipable e;
     out_refcnt := out_refcnt e; extracted_file := v;
     inline_lte_dentries := inline_lte_dentries e;
     lte_dentries := lte_dentries e;
     alloc_lte_dentries := alloc_lte_dentries e |}.
Definition lte_set_inline_lte_dentries (v : list dentry_id)
    (e : wim_lookup_table_entry) : wim_lookup_table_entry :=
  {| lte_hash := lte_hash e; resource_entry := resource_entry e;
     resource_location := resource_location e; file_on_disk := file_on_disk e;
     compression_type := compression_type e; is_pipable := is_pipable e;
     out_refcnt := out_refcnt e; extracted_file := extracted_file e;
     inline_lte_dentries := v;
     lte_dentries := lte_dentries e;
     alloc_lte_dentries := alloc_lte_dentries e |}.
Definition lte_set_lte_dentries (v : list dentry_id) (n : Z)
    (e : wim_lookup_table_entry) : wim_lookup_table_entry :=
  {| lte_hash := lte_hash e; resource_entry := resource_entry e;
     resource_location := resource_location e; file_on_disk := file_on_disk e;
     compression_type := compression_type e; is_pipable := is_pipable e;
     out_refcnt := out_refcnt e; extracted_file := extracted_file e;
     inline_lte_dentries := inline_lte_dentries e;
     lte_dentries := v;
     alloc_lte_dentries := n |}.
(** The members a pipe record overwrites, and the ones a temporary copy
    changes. *)
Definition lte_set_resource (re : resource_entry_t) (loc : resource_location_t)
    (ct : Z) (pipable : bool) (e : wim_lookup_table_entry)
  : wim_lookup_table_entry :=
  {| lte_hash := lte_hash e; resource_entry := re;
     resource_location := loc; file_on_disk := file_on_disk e;
     compression_type := ct; is_pipable := pipable;
     out_refcnt := out_refcnt e; extracted_file := extracted_file e;
     inline_lte_dentries := inline_lte_dentries e;
     lte_dentries := lte_dentries e;
     alloc_lte_dentries := alloc_lte_dentries e |}.
Definition lte_set_file_on_disk (name : tstring) (e : wim_lookup_table_entry)
  : wim_lookup_table_entry :=
  {| lte_hash := lte_hash e; resource_entry := resource_entry e;
     resource_location := RESOURCE_IN_FILE_ON_DISK; file_on_disk := Some name;
     compression_type := compression_type e; is_pipable := is_pipable e;
     out_refcnt := out_refcnt e; extracted_file := extracted_file e;
     inline_lte_dentries := inline_lte_dentries e;
     lte_dentries := lte_dentries e;
     alloc_lte_dentries := alloc_lte_dentries e |}.

Definition progress_set_total_bytes (v : Z) (p : extract_progress) : extract_progress :=
  {| total_bytes := v; num_streams := num_streams p;
     completed_bytes := completed_bytes p |}.
Definition progress_set_num_streams (v : Z) (p : extract_progress) : extract_progress :=
  {| total_bytes := total_bytes p; num_streams := v;
     completed_bytes := completed_bytes p |}.
Definition progress_set_completed_bytes (v : Z) (p : extract_progress)
  : extract_progress :=
  {| total_bytes := total_bytes p; num_streams := num_streams p;
     completed_bytes := v |}.

Definition ctx_set_progress (p : extract_progress) (c : apply_ctx) : apply_ctx :=
  {| extract_flags := extract_flags c; ops := ops c; target := target c;
     realtarget := realtarget c; has_progress_func := has_progress_func c;
     extract_root := extract_root c;
     supported_features := supported_features c;
     root_dentry_is_special := root_dentry_is_special c;
     invalid_sequence := invalid_sequence c; stream_list := stream_list c;
     num_streams_remaining := num_streams_remaining c;
     progress := p; next_progress := next_progress c |}.
Definition ctx_set_stream_list (l : list lte_id) (c : apply_ctx) : apply_ctx :=
  {| extract_flags := extract_flags c; ops := ops c; target := target c;
     realtarget := realtarget c; has_progress_func := has_progress_func c;
     extract_root := extract_root c;
     supported_features := supported_features c;
     root_dentry_is_special := root_dentry_is_special c;
     invalid_sequence := invalid_sequence c; stream_list := l;
     num_streams_remaining := num_streams_remaining c;
     progress := progress c; next_progress := next_progress c |}.
Definition ctx_set_num_streams_remaining (n : Z) (c : apply_ctx) : apply_ctx :=
  {| extract_flags := extract_flags c; ops := ops c; target := target c;
     realtarget := realtarget c; has_progress_func := has_progress_func c;
     extract_root := extract_root c;
     supported_features := supported_features c;
     root_dentry_is_special := root_dentry_is_special c;
     invalid_sequence := invalid_sequence c; stream_list := stream_list c;
     num_streams_remaining := n;
     progress := progress c; next_progress := next_progress c |}.
Definition ctx_set_invalid_sequence (n : Z) (c : apply_ctx) : apply_ctx :=
  {| extract_flags := extract_flags c; ops := ops c; target := target c;
     realtarget := realtarget c; has_progress_func := has_progress_func c;
     extract_root := extract_root c;
     supported_features := supported_features c;
     root_dentry_is_special := root_dentry_is_special c;
     invalid_sequence := n; stream_list := stream_list c;
     num_streams_remaining := num_streams_remaining c;
     progress := progress c; next_progress := next_progress c |}.
Definition ctx_set_next_progress (n : Z) (c : apply_ctx) : apply_ctx :=
  {| extract_flags := extract_flags c; ops := ops c; target := target c;
     realtarget := realtarget c; has_progress_func := has_progress_func c;
     extract_root := extract_root c;
     supported_features := supported_features c;
     root_dentry_is_special := root_dentry_is_special c;
     invalid_sequence := invalid_sequence c; stream_list := stream_list c;
     num_streams_remaining := num_streams_remaining c;
     progress := progress c; next_progress := n |}.
Definition ctx_set_realtarget (r : option tstring) (c : apply_ctx) : apply_ctx :=
  {| extract_flags := extract_flags c; ops := ops c; target := target c;
     realtarget := r; has_progress_func := has_progress_func c;
     extract_root := extract_root c;
     supported_features := supported_features c;
     root_dentry_is_special := root_dentry_is_special c;
     invalid_sequence := invalid_sequence c; stream_list := stream_list c;
     num_streams_remaining := num_streams_remaining c;
     progress := progress c; next_progress := next_progress c |}.
Definition ctx_set_supported_features (f : wim_features) (c : apply_ctx) : apply_ctx :=
  {| extract_flags := extract_flags c; ops := ops c; target := target c;
     realtarget := realtarget c; has_progress_func := has_progress_func c;
     extract_root := extract_root c;
     supported_features := f;
     root_dentry_is_special := root_dentry_is_special c;
     invalid_sequence := invalid_sequence c; stream_list := stream_list c;
     num_streams_remaining := num_streams_remaining c;
     progress := progress c; next_progress := next_progress c |}.
Definition ctx_set_root_dentry_is_special (b : bool) (c : apply_ctx) : apply_ctx :=
  {| extract_flags := extract_flags c; ops := ops c; target := target c;
     realtarget := realtarget c; has_progress_func := has_progress_func c;
     extract_root := extract_root c;
     supported_features := supported_features c;
     root_dentry_is_special := b;
     invalid_sequence := invalid_sequence c; stream_list := stream_list c;
     num_streams_remaining := num_streams_remaining c;
     progress := progress c; next_progress := next_progress c |}.

(** Fixed-width unsigned arithmetic. *)
Definition wrap (bits : Z) (z : Z) : Z := z mod 2 ^ bits.
Definition u32 : Z -> Z := wrap 32.
Definition u64 : Z -> Z := wrap 64.

(** ** What [extract.c] takes from the rest of the library

    Constants, inline helpers and tables that are declared in headers and
    files outside [extract.c], the build configuration, and the facts about
    the opened WIM that the extraction consults. *)
Record externals : Type := {
  (* The bit of each public flag ([wimlib.h]). *)
  flag_bit : extract_flag -> Z;
  (* [WIM_HDR_FLAG_RP_FIX] ([header.h]) and whether the library was built
     with [WITH_NTFS_3G]. *)
  WIM_HDR_FLAG_RP_FIX : Z;
  WITH_NTFS_3G : bool;
  (* Whether the library was built for [__WIN32__]; the widths of
     [unsigned long] and [size_t]. *)
  WIN32 : bool;
  ulong_bits : Z;
  size_t_bits : Z;
  (* [ARRAY_LEN(lte->inline_lte_dentries)] ([lookup_table.h]). *)
  INLINE_LTE_DENTRIES : Z;
  (* File attributes, reparse tags and resource flags ([dentry.h],
     [reparse.h], [resource.h]). *)
  FILE_ATTRIBUTE_ARCHIVE : Z;
  FILE_ATTRIBUTE_HIDDEN : Z;
  FILE_ATTRIBUTE_SYSTEM : Z;
  FILE_ATTRIBUTE_COMPRESSED : Z;
  FILE_ATTRIBUTE_ENCRYPTED : Z;
  FILE_ATTRIBUTE_NOT_CONTENT_INDEXED : Z;
  FILE_ATTRIBUTE_SPARSE_FILE : Z;
  FILE_ATTRIBUTE_DIRECTORY : Z;
  FILE_ATTRIBUTE_REPARSE_POINT : Z;
  WIM_IO_REPARSE_TAG_SYMLINK : Z;
  WIM_IO_REPARSE_TAG_MOUNT_POINT : Z;
  REPARSE_POINT_MAX_SIZE : Z;
  WIM_RESHDR_FLAG_METADATA : Z;
  WIM_RESHDR_FLAG_COMPRESSED : Z;
  PWM_MAGIC : Z;
  PWM_STREAM_MAGIC : Z;
  WIMLIB_COMPRESSION_TYPE_NONE : Z;
  (* [pwm->compression_type] of the WIM being read. *)
  compression_type_of_wim : Z;
  (* The three backends, what [start_extract] of a backend stores in
     [ctx->supported_features] for a target, the dentry [get_dentry] finds
     for a path of the selected image, the image's [<TOTALBYTES>], and the
     order [sort_stream_list_by_sequential_order] produces. *)
  win32_apply_ops : apply_operations;
  unix_apply_ops : apply_operations;
  ntfs_3g_apply_ops : apply_operations;
  start_extract_features : apply_operations -> tstring -> wim_features;
  get_dentry : tstring -> option dtree;
  wim_info_get_image_total_bytes : Z;
  stream_list_in_sequential_order : (lte_id -> wim_lookup_table_entry) -> list lte_id -> list lte_id;
  (* Inline helpers of [dentry.h], [lookup_table.h] and [encoding.h]. *)
  inode_unnamed_lte_resolved : wim_inode -> option lte_id;
  inode_stream_lte_resolved : wim_inode -> Z -> option lte_id;
  inode_is_encrypted_directory : wim_inode -> bool;
  inode_is_symlink : wim_inode -> bool;
  inode_has_named_stream : wim_inode -> bool;
  inode_has_unix_data : wim_inode -> bool;
  ads_entry_is_named_stream : wim_ads_entry -> bool;
  wim_resource_size : wim_lookup_table_entry -> Z;
  utf16le_to_tstr : list Z -> wimlib_error_code * tstring;
  (* The reparse buffer helpers of [reparse.c]. *)
  parse_reparse_data : list Z -> wimlib_error_code * reparse_data;
  parse_substitute_name : list Z -> Z -> Z -> Z;
  make_reparse_buffer : reparse_data -> wimlib_error_code * list Z;
}.

(** A configuration for the concrete runs below: a POSIX or Windows
    build with the usual attribute values, an inode whose unnamed stream is
    [i_lte] and whose ADS entries are named when their name is not empty,
    and a backend that takes the target as path prefix. *)
Definition sample_ops : apply_operations :=
  {| ops_name := "sample"; path_max := 4096; path_prefix := [];
     path_separator := 47;
     requires_target_in_paths := true;
     requires_realtarget_in_paths := false;
     realpath_works_on_nonexisting_files := false;
     root_directory_is_special := false;
     supports_case_sensitive_filenames := true;
     has_target_is_root := false;
     has_abort_extract := true;
     has_finish_extract := true;
     has_set_file_attributes := false;
     has_set_timestamps := true |}.

Definition all_features (n : Z) : wim_features :=
  {| archive_files := n; hidden_files := n; system_files := n;
     compressed_files := n; encrypted_files := n;
     not_context_indexed_files := n; sparse_files := n;
     named_data_streams := n; hard_links := n; reparse_points := n;
     symlink_reparse_points := n; other_reparse_points := n;
     security_descriptors := n; short_names := n; unix_data := n |}.

Definition sample_externals (win32 : bool) (features : wim_features)
    (image : tstring -> option dtree) : externals :=
  {| flag_bit := sample_flag_bit;
     WIM_HDR_FLAG_RP_FIX := 0x80;
     WITH_NTFS_3G := false;
     WIN32 := win32;
     ulong_bits := 64;
     size_t_bits := 64;
     INLINE_LTE_DENTRIES := 4;
     FILE_ATTRIBUTE_ARCHIVE := 0x20;
     FILE_ATTRIBUTE_HIDDEN := 0x2;
     FILE_ATTRIBUTE_SYSTEM := 0x4;
     FILE_ATTRIBUTE_COMPRESSED := 0x800;
     FILE_ATTRIBUTE_ENCRYPTED := 0x4000;
     FILE_ATTRIBUTE_NOT_CONTENT_INDEXED := 0x2000;
     FILE_ATTRIBUTE_SPARSE_FILE := 0x200;
     FILE_ATTRIBUTE_DIRECTORY := 0x10;
     FILE_ATTRIBUTE_REPARSE_POINT := 0x400;
     WIM_IO_REPARSE_TAG_SYMLINK := 0xA000000C;
     WIM_IO_REPARSE_TAG_MOUNT_POINT := 0xA0000003;
     REPARSE_POINT_MAX_SIZE := 16384;
     WIM_RESHDR_FLAG_METADATA := 0x2;
     WIM_RESHDR_FLAG_COMPRESSED := 0x4;
     PWM_MAGIC := 0x1;
     PWM_STREAM_MAGIC := 0x2;
     WIMLIB_COMPRESSION_TYPE_NONE := 0;
     compression_type_of_wim := 1;
     win32_apply_ops := sample_ops;
     unix_apply_ops := sample_ops;
     ntfs_3g_apply_ops := sample_ops;
     start_extract_features := fun _ _ => features;
     get_dentry := image;
     wim_info_get_image_total_bytes := 0;
     stream_list_in_sequential_order := fun _ l => l;
     inode_unnamed_lte_resolved := i_lte;
     inode_stream_lte_resolved := fun ino i =>
       if i =? 0 then i_lte ino
       else nth (Z.to_nat (i - 1)) (map ads_lte (i_ads_entries ino)) None;
     inode_is_encrypted_directory := fun ino =>
       Z.land (i_attributes ino) 0x4010 =? 0x4010;
     inode_is_symlink := fun ino =>
       has_flag (i_attributes ino) 0x400
       && ((i_reparse_tag ino =? 0xA000000C) || (i_reparse_tag ino =? 0xA0000003));
     inode_has_named_stream := fun ino =>
       existsb (fun e => negb (bool_decide (stream_name e = []))) (i_ads_entries ino);
     inode_has_unix_data := fun _ => false;
     ads_entry_is_named_stream := fun e => negb (bool_decide (stream_name e = []));
     wim_resource_size := fun e => re_original_size (resource_entry e);
     utf16le_to_tstr := fun name => (WIMLIB_ERR_SUCCESS, name);
     parse_reparse_data := fun _ =>
       (WIMLIB_ERR_SUCCESS,
        {| rptag := 0; substitute_name := []; substitute_name_nbytes := 0;
           print_name := []; print_name_nbytes := 0 |});
     parse_substitute_name := fun _ _ _ => -1;
     make_reparse_buffer := fun _ => (WIMLIB_ERR_SUCCESS, []);
  |}.

(** A small image: the directory 0 holds the files "x" (dentry 1) and "y"
    (dentry 2), two links to inode 1, whose unnamed stream is blob 0 of
    five bytes; inode 2 is a file with the same blob and a named stream in
    blob 1. *)
Definition mk_inode (attributes : Z) (lte : option lte_id)
    (ads : list wim_ads_entry) (nlink : Z) : wim_inode :=
  {| i_attributes := attributes; i_lte := lte; i_ads_entries := ads;
     i_nlink := nlink; i_security_id := -1; i_reparse_tag := 0;
     i_not_rpfixed := false; i_creation_time := 0; i_last_write_time := 0;
     i_last_access_time := 0 |}.

Definition mk_dentry (inode : inode_id) (name : string) (up : dentry_id)
  : wim_dentry :=
  {| d_inode := inode; file_name := tstr name; short_name := []; parent := up;
     case_insensitive_conflict_list := []; extraction_skipped := false;
     was_hardlinked := false; tmp_flag := false; extraction_name := None |}.

Definition mk_lte (hash size : Z) : wim_lookup_table_entry :=
  {| lte_hash := hash;
     resource_entry := {| re_size := size; re_flags := 0; re_offset := 0;
                          re_original_size := size |};
     resource_location := RESOURCE_IN_WIM; file_on_disk := None;
     compression_type := 0; is_pipable := false; out_refcnt := 0;
     extracted_file := None; inline_lte_dentries := repeat 0%nat 4;
     lte_dentries := []; alloc_lte_dentries := 0 |}.

Definition blank_ctx (flags : Z) (features : wim_features) : apply_ctx :=
  {| extract_flags := flags; ops := sample_ops; target := tstr "out";
     realtarget := None; has_progress_func := false; extract_root := 0%nat;
     supported_features := features; root_dentry_is_special := false;
     invalid_sequence := 0; stream_list := []; num_streams_remaining := 0;
     progress := {| total_bytes := 0; num_streams := 0; completed_bytes := 0 |};
     next_progress := 0 |}.

Definition sample_tree : dtree :=
  DNode 0%nat [DNode 1%nat []; DNode 2%nat []].

Definition sample_file : dtree := DNode 3%nat [].

Definition sample_state (flags : Z) (features : wim_features) : state :=
  {| ctx := blank_ctx flags features;
     required_features := all_features 0;
     dentries := fun d =>
       match d with
       | 0%nat => mk_dentry 0%nat "" 0%nat
       | 1%nat => mk_dentry 1%nat "x" 0%nat
       | 2%nat => mk_dentry 1%nat "y" 0%nat
       | _ => mk_dentry 2%nat "z" 0%nat
       end;
     inodes := fun i =>
       match i with
       | 0%nat => mk_inode 0x10 None [] 1
       | 1%nat => mk_inode 0 (Some 0%nat) [] 2
       | _ => mk_inode 0 (Some 0%nat)
                [{| stream_name := tstr "s"; ads_lte := Some 1%nat |}] 1
       end;
     i_visited := fun _ => false;
     i_extracted_file := fun _ => None;
     ltes := fun l => match l with 0%nat => mk_lte 7 5 | _ => mk_lte 8 3 end;
     lookup_table := {[ 7 := 0%nat; 8 := 1%nat ]};
     in_fd := [] |}.

(** [sample_state] at the start of an extraction from a pipe: blob 0 is
    referenced once, [n] streams are still to be extracted, and the pipe
    holds one record, the stream header of blob 0. *)
Definition sample_pipe_state (n : Z) : state :=
  let s := sample_state 0 (all_features 1) in
  set_in_fd
    [{| read_status := WIMLIB_ERR_SUCCESS;
        stream_hdr := {| hdr_magic := 0x2; hdr_uncompressed_size := 5;
                         hdr_hash := 7; hdr_flags := 0 |};
        rest_status := WIMLIB_ERR_SUCCESS; data_offset := 0 |}]
    (set_ctx (ctx_set_num_streams_remaining n (ctx s))
       (set_lte 0%nat (lte_set_out_refcnt 1 (ltes s 0%nat)) s)).

(** [sample_pipe_state] where the record of blob 0 carries the metadata
    flag. *)
Definition sample_metadata_pipe_state : state :=
  set_in_fd
    [{| read_status := WIMLIB_ERR_SUCCESS;
        stream_hdr := {| hdr_magic := 0x2; hdr_uncompressed_size := 5;
                         hdr_hash := 7; hdr_flags := 0x2 |};
        rest_status := WIMLIB_ERR_SUCCESS; data_offset := 0 |}]
    (sample_pipe_state 1).

(** [sample_state] when blob 0 has been referenced once already. *)
Definition sample_referenced_state : state :=
  let s := sample_state 0 (all_features 1) in
  set_lte 0%nat (lte_set_out_refcnt 1 (ltes s 0%nat)) s.

(** [sample_state] in a sequential extraction, once the names are
    calculated and the streams are planned: the dentries "x" and "y" have
    their extraction names, and blob 0 is referenced by both. *)
Definition sample_repeated_state : state :=
  let s := sample_state 0x10 (all_features 1) in
  let named d n s :=
    set_dentry d (dentry_set_extraction_name (Some (tstr n)) (dentries s d)) s in
  set_lte 0%nat
    (lte_set_inline_lte_dentries [1%nat; 2%nat; 0%nat; 0%nat]
       (lte_set_out_refcnt 2 (ltes s 0%nat)))
    (named 1%nat "x" (named 2%nat "y" s)).

(** [sample_repeated_state] at the start of an extraction from a pipe that
    holds the record of blob 0, with one stream to extract. *)
Definition sample_repeated_pipe_state : state :=
  set_in_fd (in_fd (sample_pipe_state 1))
    (set_ctx (ctx_set_num_streams_remaining 1 (ctx sample_repeated_state))
       sample_repeated_state).

(** [sample_state] where dentry 1 is named "a/b" and belongs to an inode
    of its own with the given attributes. *)
Definition sample_invalid_name_state (flags : Z) (features : wim_features)
    (attributes : Z) : state :=
  let s := set_dentry 1%nat (mk_dentry 3%nat "a/b" 0%nat)
             (sample_state flags features) in
  {| ctx := ctx s; required_features := required_features s;
     dentries := dentries s;
     inodes := <[3%nat := mk_inode attributes None [] 1]> (inodes s);
     i_visited := i_visited s; i_extracted_file := i_extracted_file s;
     ltes := ltes s; lookup_table := lookup_table s; in_fd := in_fd s |}.

Definition posix_image (features : wim_features) (root : dtree) : externals :=
  sample_externals false features (fun _ => Some root).

(** Concrete commands. *)
Definition posix_build : externals :=
  sample_externals false (all_features 1) (fun _ => None).

Definition subtree_cmd : wimlib_extract_command :=
  {| wim_source_path := tstr "dir"; fs_dest_path := tstr "out";
     cmd_extract_flags := 0 |}.

Definition unix_sequential_cmd : wimlib_extract_command :=
  {| wim_source_path := []; fs_dest_path := tstr "out";
     cmd_extract_flags := 0x30 (* UNIX_DATA | SEQUENTIAL *) |}.

Definition ntfs_hardlink_cmd : wimlib_extract_command :=
  {| wim_source_path := tstr "a"; fs_dest_path := tstr "out/a";
     cmd_extract_flags := 0x3 (* NTFS | HARDLINK *) |}.

Definition hardlink_cmd : wimlib_extract_command :=
  {| wim_source_path := tstr "a"; fs_dest_path := tstr "out/a";
     cmd_extract_flags := 0x2 (* HARDLINK *) |}.

Definition plain_cmd : wimlib_extract_command :=
  {| wim_source_path := tstr "b"; fs_dest_path := tstr "out/b";
     cmd_extract_flags := 0 |}.

(** * The WIMStruct and its settings ([wim.c])

    The functions of [wim.c] that work on the header and the output
    settings of a [WIMStruct].  The members of the structure that these
    functions do not touch are left out. *)
Module Wim.

Inductive error_code : Type :=
| WIMLIB_ERR_SUCCESS
| WIMLIB_ERR_INVALID_PARAM
| WIMLIB_ERR_INVALID_IMAGE
| WIMLIB_ERR_INVALID_COMPRESSION_TYPE
| WIMLIB_ERR_INVALID_CHUNK_SIZE
| WIMLIB_ERR_OTHER (n : Z).

(** [ret != 0] *)
Definition is_error (ret : error_code) : bool :=
  match ret with WIMLIB_ERR_SUCCESS => false | _ => true end.

(** What [wim.c] takes from headers that are not part of it: the values of
    [enum wimlib_compression_type], [is_power_of_2] ([util.h]), the
    [WIMLIB_CHANGE_*], [WIM_HDR_FLAG_*] and [WIMLIB_INIT_FLAG_*] bits, the
    two special image numbers, the string functions behind
    [wimlib_resolve_image] and the image names kept with the XML data. *)
Record constants : Type := {
  WIMLIB_COMPRESSION_TYPE_NONE : Z;
  WIMLIB_COMPRESSION_TYPE_XPRESS : Z;
  WIMLIB_COMPRESSION_TYPE_LZX : Z;
  WIMLIB_COMPRESSION_TYPE_LZMS : Z;
  is_power_of_2 : Z -> bool;
  WIMLIB_CHANGE_READONLY_FLAG : Z;
  WIMLIB_CHANGE_GUID : Z;
  WIMLIB_CHANGE_BOOT_INDEX : Z;
  WIMLIB_CHANGE_RPFIX_FLAG : Z;
  WIM_HDR_FLAG_READONLY : Z;
  WIM_HDR_FLAG_RP_FIX : Z;
  WIMLIB_NO_IMAGE : Z;
  WIMLIB_ALL_IMAGES : Z;
  (* [tstrcasecmp(a, b) == 0] *)
  tstrcasecmp_equal : tstring -> tstring -> bool;
  (* [tstrtol(s, &p, 10)]: the value and [p - s] *)
  tstrtol : tstring -> Z * nat;
  WIMLIB_INIT_FLAG_ASSUME_UTF8 : Z;
  WIMLIB_INIT_FLAG_DONT_ACQUIRE_PRIVILEGES : Z;
  WIMLIB_INIT_FLAG_STRICT_CAPTURE_PRIVILEGES : Z;
  WIMLIB_INIT_FLAG_STRICT_APPLY_PRIVILEGES : Z;
  WIMLIB_INIT_FLAG_DEFAULT_CASE_SENSITIVE : Z;
  WIMLIB_INIT_FLAG_DEFAULT_CASE_INSENSITIVE : Z;
  WITH_NTFS_3G : bool;
  WIN32 : bool;
}.

(** Information about the available compression types for the WIM format. *)
Record ctype_info : Type := {
  name : option string;
  min_chunk_size : Z;
  max_chunk_size : Z;
  default_nonsolid_chunk_size : Z;
  default_solid_chunk_size : Z;
}.

Record WIMStruct : Type := {
  hdr_flags : Z;
  hdr_guid : list Z;
  hdr_image_count : Z;
  hdr_boot_idx : Z;
  image_names : Z -> tstring;       (* [wimlib_get_image_name(wim, i)] *)
  out_compression_type : Z;
  out_chunk_size : Z;
  out_solid_compression_type : Z;
  out_solid_chunk_size : Z;
}.

(** [struct wimlib_wim_info], the members [wimlib_set_wim_info] reads. *)
Record wimlib_wim_info : Type := {
  guid : list Z;
  boot_index : Z;
  is_marked_readonly : bool;
  has_rpfix : bool;
}.

Definition set_hdr_flags (v : Z) (w : WIMStruct) : WIMStruct :=
  {| hdr_flags := v; hdr_guid := hdr_guid w; hdr_image_count := hdr_image_count w;
     hdr_boot_idx := hdr_boot_idx w; image_names := image_names w;
     out_compression_type := out_compression_type w;
     out_chunk_size := out_chunk_size w;
     out_solid_compression_type := out_solid_compression_type w;
     out_solid_chunk_size := out_solid_chunk_size w |}.
Definition set_hdr_guid (v : list Z) (w : WIMStruct) : WIMStruct :=
  {| hdr_flags := hdr_flags w; hdr_guid := v; hdr_image_count := hdr_image_count w;
     hdr_boot_idx := hdr_boot_idx w; image_names := image_names w;
     out_compression_type := out_compression_type w;
     out_chunk_size := out_chunk_size w;
     out_solid_compression_type := out_solid_compression_type w;
     out_solid_chunk_size := out_solid_chunk_size w |}.
Definition set_hdr_boot_idx (v : Z) (w : WIMStruct) : WIMStruct :=
  {| hdr_flags := hdr_flags w; hdr_guid := hdr_guid w;
     hdr_image_count := hdr_image_count w;
     hdr_boot_idx := v; image_names := image_names w;
     out_compression_type := out_compression_type w;
     out_chunk_size := out_chunk_size w;
     out_solid_compression_type := out_solid_compression_type w;
     out_solid_chunk_size := out_solid_chunk_size w |}.
Definition set_out_compression_type (v : Z) (w : WIMStruct) : WIMStruct :=
  {| hdr_flags := hdr_flags w; hdr_guid := hdr_guid w;
     hdr_image_count := hdr_image_count w;
     hdr_boot_idx := hdr_boot_idx w; image_names := image_names w;
     out_compression_type := v;
     out_chunk_size := out_chunk_size w;
     out_solid_compression_type := out_solid_compression_type w;
     out_solid_chunk_size := out_solid_chunk_size w |}.
Definition set_out_chunk_size (v : Z) (w : WIMStruct) : WIMStruct :=
  {| hdr_flags := hdr_flags w; hdr_guid := hdr_guid w;
     hdr_image_count := hdr_image_count w;
     hdr_boot_idx := hdr_boot_idx w; image_names := image_names w;
     out_compression_type := out_compression_type w;
     out_chunk_size := v;
     out_solid_compression_type := out_solid_compression_type w;
     out_solid_chunk_size := out_solid_chunk_size w |}.
Definition set_out_solid_compression_type (v : Z) (w : WIMStruct) : WIMStruct :=
  {| hdr_flags := hdr_flags w; hdr_guid := hdr_guid w;
     hdr_image_count := hdr_image_count w;
     hdr_boot_idx := hdr_boot_idx w; image_names := image_names w;
     out_compression_type := out_compression_type w;
     out_chunk_size := out_chunk_size w;
     out_solid_compression_type := v;
     out_solid_chunk_size := out_solid_chunk_size w |}.
Definition set_out_solid_chunk_size (v : Z) (w : WIMStruct) : WIMStruct :=
  {| hdr_flags := hdr_flags w; hdr_guid := hdr_guid w;
     hdr_image_count := hdr_image_count w;
     hdr_boot_idx := hdr_boot_idx w; image_names := image_names w;
     out_compression_type := out_compression_type w;
     out_chunk_size := out_chunk_size w;
     out_solid_compression_type := out_solid_compression_type w;
     out_solid_chunk_size := v |}.

(** [strstr(haystack, needle) != NULL] *)
Fixpoint is_prefix (p s : string) : bool :=
  match p, s with
  | EmptyString, _ => true
  | String a p', String b s' => Ascii.eqb a b && is_prefix p' s'
  | String _ _, EmptyString => false
  end.
Fixpoint strstr (haystack needle : string) : bool :=
  is_prefix needle haystack
  || match haystack with
     | EmptyString => false
     | String _ rest => strstr rest needle
     end.

(** The process-wide settings of [wimlib_global_init]. *)
Record globals : Type := {
  lib_initialized : bool;
  wimlib_mbs_is_utf8 : bool;
  default_ignore_case : bool;
}.

(** What [wimlib_global_init] does to the rest of the process. *)
Inductive init_event : Type :=
| pthread_mutex_lock
| pthread_mutex_unlock
| xml_global_init
| libntfs3g_global_init
| win32_global_init (init_flags : Z)
| iconv_global_init
| init_upcase.

Section WithConstants.

Variable K : constants.

Definition wim_ctype_info (ctype : Z) : ctype_info :=
  (* designated initializers: a later one for the same index wins *)
  if ctype =? WIMLIB_COMPRESSION_TYPE_LZMS K then
    {| name := Some "LZMS"; min_chunk_size := 32768; max_chunk_size := 1073741824;
       default_nonsolid_chunk_size := 131072;
       default_solid_chunk_size := 67108864 |}
  else if ctype =? WIMLIB_COMPRESSION_TYPE_LZX K then
    {| name := Some "LZX"; min_chunk_size := 32768; max_chunk_size := 2097152;
       default_nonsolid_chunk_size := 32768; default_solid_chunk_size := 32768 |}
  else if ctype =? WIMLIB_COMPRESSION_TYPE_XPRESS K then
    {| name := Some "XPRESS"; min_chunk_size := 4096; max_chunk_size := 65536;
       default_nonsolid_chunk_size := 32768; default_solid_chunk_size := 32768 |}
  else if ctype =? WIMLIB_COMPRESSION_TYPE_NONE K then
    {| name := Some "None"; min_chunk_size := 0; max_chunk_size := 0;
       default_nonsolid_chunk_size := 0; default_solid_chunk_size := 0 |}
  else
    {| name := None; min_chunk_size := 0; max_chunk_size := 0;
       default_nonsolid_chunk_size := 0; default_solid_chunk_size := 0 |}.

Definition ARRAY_LEN_wim_ctype_info : Z :=
  1 + Z.max (WIMLIB_COMPRESSION_TYPE_NONE K)
        (Z.max (WIMLIB_COMPRESSION_TYPE_XPRESS K)
           (Z.max (WIMLIB_COMPRESSION_TYPE_LZX K) (WIMLIB_COMPRESSION_TYPE_LZMS K))).

(** [(unsigned)ctype] *)
Definition unsigned (ctype : Z) : Z := ctype mod 2 ^ 32.

(** Is the specified compression type valid? *)
Definition wim_compression_type_valid (ctype : Z) : bool :=
  (unsigned ctype <? ARRAY_LEN_wim_ctype_info)
  && bool_decide (is_Some (name (wim_ctype_info (unsigned ctype)))).

(** Is the specified chunk size valid for the compression type? *)
Definition wim_chunk_size_valid (chunk_size : Z) (ctype : Z) : bool :=
  if negb ((chunk_size =? 0) || is_power_of_2 K chunk_size) then false
  else
    (min_chunk_size (wim_ctype_info (unsigned ctype)) <=? chunk_size)
    && (chunk_size <=? max_chunk_size (wim_ctype_info (unsigned ctype))).

Definition wim_default_nonsolid_chunk_size (ctype : Z) : Z :=
  default_nonsolid_chunk_size (wim_ctype_info (unsigned ctype)).

Definition wim_default_solid_chunk_size (ctype : Z) : Z :=
  default_solid_chunk_size (wim_ctype_info (unsigned ctype)).

Definition wim_default_solid_compression_type : Z :=
  WIMLIB_COMPRESSION_TYPE_LZMS K.

Definition wimlib_set_output_compression_type (wim : WIMStruct) (ctype : Z)
  : error_code * WIMStruct :=
  if negb (wim_compression_type_valid ctype)
  then (WIMLIB_ERR_INVALID_COMPRESSION_TYPE, wim) else
  let wim := set_out_compression_type ctype wim in
  (* Reset the chunk size if it's no longer valid. *)
  let wim :=
    if negb (wim_chunk_size_valid (out_chunk_size wim) ctype)
    then set_out_chunk_size (wim_default_nonsolid_chunk_size ctype) wim
    else wim in
  (WIMLIB_ERR_SUCCESS, wim).

Definition wimlib_set_output_pack_compression_type (wim : WIMStruct) (ctype : Z)
  : error_code * WIMStruct :=
  if negb (wim_compression_type_valid ctype)
  then (WIMLIB_ERR_INVALID_COMPRESSION_TYPE, wim) else
  (* Solid resources can't be uncompressed. *)
  if ctype =? WIMLIB_COMPRESSION_TYPE_NONE K
  then (WIMLIB_ERR_INVALID_COMPRESSION_TYPE, wim) else
  let wim := set_out_solid_compression_type ctype wim in
  (* Reset the chunk size if it's no longer valid. *)
  let wim :=
    if negb (wim_chunk_size_valid (out_solid_chunk_size wim) ctype)
    then set_out_solid_chunk_size (wim_default_solid_chunk_size ctype) wim
    else wim in
  (WIMLIB_ERR_SUCCESS, wim).

Definition wimlib_set_output_chunk_size (wim : WIMStruct) (chunk_size : Z)
  : error_code * WIMStruct :=
  if chunk_size =? 0 then
    (WIMLIB_ERR_SUCCESS,
     set_out_chunk_size
       (wim_default_nonsolid_chunk_size (out_compression_type wim)) wim)
  else if negb (wim_chunk_size_valid chunk_size (out_compression_type wim))
  then (WIMLIB_ERR_INVALID_CHUNK_SIZE, wim)
  else (WIMLIB_ERR_SUCCESS, set_out_chunk_size chunk_size wim).

Definition wimlib_set_output_pack_chunk_size (wim : WIMStruct) (chunk_size : Z)
  : error_code * WIMStruct :=
  if chunk_size =? 0 then
    (WIMLIB_ERR_SUCCESS,
     set_out_solid_chunk_size
       (wim_default_solid_chunk_size (out_solid_compression_type wim)) wim)
  else if negb (wim_chunk_size_valid chunk_size (out_solid_compression_type wim))
  then (WIMLIB_ERR_INVALID_CHUNK_SIZE, wim)
  else (WIMLIB_ERR_SUCCESS, set_out_solid_chunk_size chunk_size wim).

Definition wimlib_get_compression_type_string (ctype : Z) : string :=
  if negb (wim_compression_type_valid ctype) then "Invalid"
  else default "" (name (wim_ctype_info (unsigned ctype))).

(** [wimlib_set_wim_info] *)
Definition wimlib_set_wim_info (wim : WIMStruct) (info : wimlib_wim_info)
    (which : Z) : error_code * WIMStruct :=
  if negb (Z.land which
             (Z.lnot (Z.lor (WIMLIB_CHANGE_READONLY_FLAG K)
                        (Z.lor (WIMLIB_CHANGE_GUID K)
                           (Z.lor (WIMLIB_CHANGE_BOOT_INDEX K)
                              (WIMLIB_CHANGE_RPFIX_FLAG K))))) =? 0)
  then (WIMLIB_ERR_INVALID_PARAM, wim) else
  if has_flag which (WIMLIB_CHANGE_BOOT_INDEX K)
     && (hdr_image_count wim <? boot_index info)
  then (WIMLIB_ERR_INVALID_IMAGE, wim) else
  let wim :=
    if has_flag which (WIMLIB_CHANGE_READONLY_FLAG K) then
      if is_marked_readonly info
      then set_hdr_flags (Z.lor (hdr_flags wim) (WIM_HDR_FLAG_READONLY K)) wim
      else set_hdr_flags
             (Z.land (hdr_flags wim) (Z.lnot (WIM_HDR_FLAG_READONLY K))) wim
    else wim in
  let wim :=
    if has_flag which (WIMLIB_CHANGE_GUID K)
    then set_hdr_guid (guid info) wim else wim in
  let wim :=
    if has_flag which (WIMLIB_CHANGE_BOOT_INDEX K)
    then set_hdr_boot_idx (boot_index info) wim else wim in
  let wim :=
    if has_flag which (WIMLIB_CHANGE_RPFIX_FLAG K) then
      if has_rpfix info
      then set_hdr_flags (Z.lor (hdr_flags wim) (WIM_HDR_FLAG_RP_FIX K)) wim
      else set_hdr_flags
             (Z.land (hdr_flags wim) (Z.lnot (WIM_HDR_FLAG_RP_FIX K))) wim
    else wim in
  (WIMLIB_ERR_SUCCESS, wim).

(** [wimlib_resolve_image]: [NULL] is [None]; the names are looked at in
    the order of the images. *)
Fixpoint resolve_image_name (wim : WIMStruct) (image_name : tstring)
    (i : Z) (n : nat) : Z :=
  match n with
  | O => WIMLIB_NO_IMAGE K
  | S n' =>
      if bool_decide (image_name = image_names wim i) then i
      else resolve_image_name wim image_name (i + 1) n'
  end.

Definition wimlib_resolve_image (wim : WIMStruct)
    (image_name_or_num : option tstring) : Z :=
  match image_name_or_num with
  | None => WIMLIB_NO_IMAGE K
  | Some s =>
      if tstring_is_empty s then WIMLIB_NO_IMAGE K else
      if tstrcasecmp_equal K s (tstr "all") || tstrcasecmp_equal K s (tstr "*")
      then WIMLIB_ALL_IMAGES K else
      let '(image, consumed) := tstrtol K s in
      if negb (consumed =? 0)%nat && (consumed =? length s)%nat && (0 <? image)
      then
        if hdr_image_count wim <? image then WIMLIB_NO_IMAGE K else image
      else
        resolve_image_name wim s 1 (Z.to_nat (hdr_image_count wim))
  end.

(** [test_locale_ctype_utf8]: [ctype] is [nl_langinfo(CODESET)]. *)
Definition test_locale_ctype_utf8 (ctype : string) : bool :=
  if WIN32 K then false
  else
    negb (strstr ctype "UTF-8") || negb (strstr ctype "UTF8")
    || negb (strstr ctype "utf8") || negb (strstr ctype "utf-8").

(** [wimlib_global_init]: [codeset] is what [nl_langinfo] would answer,
    [win32_ret] what [win32_global_init] would. *)
Definition wimlib_global_init (init_flags : Z) (codeset : string)
    (win32_ret : error_code) (g : globals)
  : error_code * globals * list init_event :=
  if lib_initialized g then (WIMLIB_ERR_SUCCESS, g, @nil init_event) else
  (* pthread_mutex_lock; the flag is looked at again under the lock *)
  if negb (Z.land init_flags
             (Z.lnot (Z.lor (WIMLIB_INIT_FLAG_ASSUME_UTF8 K)
                (Z.lor (WIMLIB_INIT_FLAG_DONT_ACQUIRE_PRIVILEGES K)
                   (Z.lor (WIMLIB_INIT_FLAG_STRICT_CAPTURE_PRIVILEGES K)
                      (Z.lor (WIMLIB_INIT_FLAG_STRICT_APPLY_PRIVILEGES K)
                         (Z.lor (WIMLIB_INIT_FLAG_DEFAULT_CASE_SENSITIVE K)
                            (WIMLIB_INIT_FLAG_DEFAULT_CASE_INSENSITIVE K)))))))
           =? 0)
  then (WIMLIB_ERR_INVALID_PARAM, g, [pthread_mutex_lock; pthread_mutex_unlock])
  else
  let both := Z.lor (WIMLIB_INIT_FLAG_DEFAULT_CASE_SENSITIVE K)
                (WIMLIB_INIT_FLAG_DEFAULT_CASE_INSENSITIVE K) in
  if Z.land init_flags both =? both
  then (WIMLIB_ERR_INVALID_PARAM, g, [pthread_mutex_lock; pthread_mutex_unlock])
  else
  let assume := has_flag init_flags (WIMLIB_INIT_FLAG_ASSUME_UTF8 K) in
  let utf8 := if assume then wimlib_mbs_is_utf8 g
              else test_locale_ctype_utf8 codeset in
  let ntfs : list init_event :=
    if negb assume && WITH_NTFS_3G K && negb utf8
              then [libntfs3g_global_init] else [] in
  let before : list init_event :=
    [pthread_mutex_lock; xml_global_init] ++ ntfs
                ++ (if WIN32 K then [win32_global_init init_flags] else []) in
  if WIN32 K && is_error win32_ret then
    (win32_ret,
     {| lib_initialized := false; wimlib_mbs_is_utf8 := utf8;
        default_ignore_case := default_ignore_case g |},
     before ++ [pthread_mutex_unlock])
  else
    let ignore_case :=
      if has_flag init_flags (WIMLIB_INIT_FLAG_DEFAULT_CASE_SENSITIVE K) then false
      else if has_flag init_flags (WIMLIB_INIT_FLAG_DEFAULT_CASE_INSENSITIVE K)
      then true else default_ignore_case g in
    (WIMLIB_ERR_SUCCESS,
     {| lib_initialized := true; wimlib_mbs_is_utf8 := utf8;
        default_ignore_case := ignore_case |},
     before ++ [iconv_global_init; init_upcase; pthread_mutex_unlock]).

(** ** Vocabulary of the statements *)

(** The output settings fit together: both compression types are valid
    and each chunk size is valid for its type. *)
Definition output_settings_ok (wim : WIMStruct) : Prop :=
  wim_compression_type_valid (out_compression_type wim) = true /\
  wim_chunk_size_valid (out_chunk_size wim) (out_compression_type wim) = true /\
  wim_compression_type_valid (out_solid_compression_type wim) = true /\
  wim_chunk_size_valid (out_solid_chunk_size wim) (out_solid_compression_type wim)
  = true.

(** The enumerators are distinct array indices and [is_power_of_2] knows
    the default chunk sizes. *)
Definition constants_ok : Prop :=
  NoDup [WIMLIB_COMPRESSION_TYPE_NONE K; WIMLIB_COMPRESSION_TYPE_XPRESS K;
         WIMLIB_COMPRESSION_TYPE_LZX K; WIMLIB_COMPRESSION_TYPE_LZMS K] /\
  Forall (fun c => 0 <= c < 2 ^ 31)
    [WIMLIB_COMPRESSION_TYPE_NONE K; WIMLIB_COMPRESSION_TYPE_XPRESS K;
     WIMLIB_COMPRESSION_TYPE_LZX K; WIMLIB_COMPRESSION_TYPE_LZMS K] /\
  forall k, 0 <= k -> is_power_of_2 K (2 ^ k) = true.

End WithConstants.

(** The constants as [wimlib.h] and [wim.h] have them, for the examples. *)
Definition sample_constants : constants :=
  {| WIMLIB_COMPRESSION_TYPE_NONE := 0; WIMLIB_COMPRESSION_TYPE_XPRESS := 1;
     WIMLIB_COMPRESSION_TYPE_LZX := 2; WIMLIB_COMPRESSION_TYPE_LZMS := 3;
     is_power_of_2 := fun n => (0 <? n) && (Z.land n (n - 1) =? 0);
     WIMLIB_CHANGE_READONLY_FLAG := 1; WIMLIB_CHANGE_GUID := 2;
     WIMLIB_CHANGE_BOOT_INDEX := 4; WIMLIB_CHANGE_RPFIX_FLAG := 8;
     WIM_HDR_FLAG_READONLY := 0x4; WIM_HDR_FLAG_RP_FIX := 0x80;
     WIMLIB_NO_IMAGE := 0; WIMLIB_ALL_IMAGES := -1;
     tstrcasecmp_equal := fun a b => bool_decide (a = b);
     tstrtol := fun s =>
       match s with
       | [c] => if (48 <=? c) && (c <=? 57) then (c - 48, 1%nat) else (0, 0%nat)
       | _ => (0, 0%nat)
       end;
     WIMLIB_INIT_FLAG_ASSUME_UTF8 := 1;
     WIMLIB_INIT_FLAG_DONT_ACQUIRE_PRIVILEGES := 2;
     WIMLIB_INIT_FLAG_STRICT_CAPTURE_PRIVILEGES := 4;
     WIMLIB_INIT_FLAG_STRICT_APPLY_PRIVILEGES := 8;
     WIMLIB_INIT_FLAG_DEFAULT_CASE_SENSITIVE := 16;
     WIMLIB_INIT_FLAG_DEFAULT_CASE_INSENSITIVE := 32;
     WITH_NTFS_3G := false; WIN32 := false |}.

Definition sample_wim : WIMStruct :=
  {| hdr_flags := 0; hdr_guid := []; hdr_image_count := 2; hdr_boot_idx := 0;
     image_names := fun i => if i =? 1 then tstr "2" else tstr "base";
     out_compression_type := 2; out_chunk_size := 32768;
     out_solid_compression_type := 3; out_solid_chunk_size := 67108864 |}.

End Wim.

(** * The XML information of the images ([xml.c])

    [struct image_info] without the Windows information, which the
    functions below only carry along.  An array is a list of its slots;
    reading a slot that is not there, following a null pointer and a
    failed assertion give [None]. *)
Module Xml.

Inductive error_code : Type :=
| WIMLIB_ERR_SUCCESS
| WIMLIB_ERR_INVALID_PARAM
| WIMLIB_ERR_INVALID_IMAGE
| WIMLIB_ERR_IMAGE_NAME_COLLISION
| WIMLIB_ERR_NOMEM.

Record image_info : Type := {
  index : Z;
  dir_count : Z;
  file_count : Z;
  total_bytes : Z;
  hard_link_bytes : Z;
  creation_time : Z;
  last_modification_time : Z;
  name : option string;
  description : option string;
  display_name : option string;
  display_description : option string;
  flags : option string;
}.

(** What [CALLOC] and [memset(image_info, 0, ...)] leave. *)
Definition zero_image_info : image_info :=
  {| index := 0; dir_count := 0; file_count := 0; total_bytes := 0;
     hard_link_bytes := 0; creation_time := 0; last_modification_time := 0;
     name := None; description := None; display_name := None;
     display_description := None; flags := None |}.

Definition set_index (v : Z) (i : image_info) : image_info :=
  {| index := v; dir_count := dir_count i; file_count := file_count i;
     total_bytes := total_bytes i; hard_link_bytes := hard_link_bytes i;
     creation_time := creation_time i;
     last_modification_time := last_modification_time i; name := name i;
     description := description i; display_name := display_name i;
     display_description := display_description i; flags := flags i |}.
Definition set_counts (dirs files bytes links : Z) (i : image_info) : image_info :=
  {| index := index i; dir_count := dirs; file_count := files;
     total_bytes := bytes; hard_link_bytes := links;
     creation_time := creation_time i;
     last_modification_time := last_modification_time i; name := name i;
     description := description i; display_name := display_name i;
     display_description := display_description i; flags := flags i |}.
Definition set_creation_time (v : Z) (i : image_info) : image_info :=
  {| index := index i; dir_count := dir_count i; file_count := file_count i;
     total_bytes := total_bytes i; hard_link_bytes := hard_link_bytes i;
     creation_time := v;
     last_modification_time := last_modification_time i; name := name i;
     description := description i; display_name := display_name i;
     display_description := display_description i; flags := flags i |}.
Definition set_last_modification_time (v : Z) (i : image_info) : image_info :=
  {| index := index i; dir_count := dir_count i; file_count := file_count i;
     total_bytes := total_bytes i; hard_link_bytes := hard_link_bytes i;
     creation_time := creation_time i;
     last_modification_time := v; name := name i;
     description := description i; display_name := display_name i;
     display_description := display_description i; flags := flags i |}.
Definition set_name (v : option string) (i : image_info) : image_info :=
  {| index := index i; dir_count := dir_count i; file_count := file_count i;
     total_bytes := total_bytes i; hard_link_bytes := hard_link_bytes i;
     creation_time := creation_time i;
     last_modification_time := last_modification_time i; name := v;
     description := description i; display_name := display_name i;
     display_description := display_description i; flags := flags i |}.
Definition set_description (v : option string) (i : image_info) : image_info :=
  {| index := index i; dir_count := dir_count i; file_count := file_count i;
     total_bytes := total_bytes i; hard_link_bytes := hard_link_bytes i;
     creation_time := creation_time i;
     last_modification_time := last_modification_time i; name := name i;
     description := v; display_name := display_name i;
     display_description := display_description i; flags := flags i |}.
Definition set_flags (v : option string) (i : image_info) : image_info :=
  {| index := index i; dir_count := dir_count i; file_count := file_count i;
     total_bytes := total_bytes i; hard_link_bytes := hard_link_bytes i;
     creation_time := creation_time i;
     last_modification_time := last_modification_time i; name := name i;
     description := description i; display_name := display_name i;
     display_description := display_description i; flags := v |}.

(** [struct wim_info]: the array [images] and the number of its slots
    that are in use. *)
Record wim_info : Type := {
  num_images : Z;
  images : list image_info;
}.

(** Dentries and inodes as [calculate_dentry_statistics] looks at them:
    through [dentry_is_root], [dentry_is_first_in_inode],
    [inode_is_directory], and the sizes ([wim_resource_size]) of the
    lookup table entries that [inode_unnamed_lte] and [inode_stream_lte]
    find, [None] when they find none. *)
Record ads_entry : Type := {
  stream_name_len : Z;
  stream_lte : option Z;
}.
Record inode : Type := {
  is_directory : bool;
  unnamed_lte : option Z;
  link_count : Z;
  ads_entries : list ads_entry;
}.
Record dentry : Type := {
  is_root : bool;
  is_first_in_inode : bool;
  d_inode : inode;
}.

(** The [WIMStruct], as far as [xml.c] uses it.  The tree of an image is
    the list of its dentries in the order in which [for_dentry_in_tree]
    visits them. *)
Record WIMStruct : Type := {
  hdr_image_count : Z;
  info : option wim_info;
  image_metadata : list (list dentry);
}.

Definition set_info (v : option wim_info) (w : WIMStruct) : WIMStruct :=
  {| hdr_image_count := hdr_image_count w; info := v;
     image_metadata := image_metadata w |}.

(** [array[i]] for an [int i] *)
Definition slot {A} (array : list A) (i : Z) : option A :=
  if i <? 0 then None else array !! Z.to_nat i.

(** [array[i] = v] *)
Definition set_slot {A} (array : list A) (i : Z) (v : A) : option (list A) :=
  if (0 <=? i) && (i <? Z.of_nat (length array))
  then Some (<[Z.to_nat i := v]> array) else None.

(** [strcmp(a, b) == 0] *)
Definition strcmp_equal (a : option string) (b : string) : option bool :=
  a' ← a; Some (String.eqb a' b).

(** Frees memory allocated inside a struct image_info structure. *)
Definition destroy_image_info (i : image_info) : image_info := zero_image_info.

(** Makes space for another image in the XML information; [None] inside
    is the null pointer that a failed [CALLOC] gives. *)
Definition add_image_info_struct (calloc_ok : bool) (wi : wim_info)
  : option (option wim_info) :=
  if negb calloc_ok then Some None else
  (* memcpy of [num_images] slots *)
  if Z.of_nat (length (images wi)) <? num_images wi then None else
  Some (Some {| num_images := num_images wi + 1;
                images := take (Z.to_nat (num_images wi)) (images wi)
                          ++ [zero_image_info] |}).

(** The loop of [xml_delete_image], [count] rounds from [i]. *)
Fixpoint shift_images (array : list image_info) (i : Z) (count : nat)
  : option (list image_info) :=
  match count with
  | O => Some array
  | S count' =>
      next ← slot array (i + 1);
      array ← set_slot array i (set_index (u64 (index next - 1)) next);
      shift_images array (i + 1) count'
  end.

(** Removes an image from the XML information. *)
Definition xml_delete_image (wim_info_p : option wim_info) (image : Z)
  : option (option wim_info) :=
  wi ← wim_info_p;                                         (* wimlib_assert *)
  if negb ((1 <=? image) && (image <=? num_images wi)) then None else
  old ← slot (images wi) (image - 1);
  array ← set_slot (images wi) (image - 1) (destroy_image_info old);
  array ← shift_images array (image - 1) (Z.to_nat (num_images wi - image));
  if num_images wi - 1 =? 0 then Some None
  else Some (Some {| num_images := num_images wi - 1; images := array |}).

(** The loop of [xml_get_max_image_name_len]. *)
Fixpoint max_name_len_from (array : list image_info) (i : Z) (count : nat)
    (len : Z) : option Z :=
  match count with
  | O => Some len
  | S count' =>
      image ← slot array i;
      n ← name image;
      max_name_len_from array (i + 1) count'
        (Z.max len (Z.of_nat (String.length n)))
  end.

Definition xml_get_max_image_name_len (w : WIMStruct) : option Z :=
  wi ← info w;
  max_name_len_from (images wi) 0 (Z.to_nat (num_images wi)) 0.

Definition calculate_dentry_statistics (d : dentry) (i : image_info)
  : image_info :=
  let inode := d_inode d in
  (* The root directory is an exception: it is not counted. *)
  if is_root d then i else
  let i :=
    if is_directory inode
    then set_counts (u64 (dir_count i + 1)) (file_count i) (total_bytes i)
           (hard_link_bytes i) i
    else set_counts (dir_count i) (u64 (file_count i + 1)) (total_bytes i)
           (hard_link_bytes i) i in
  let i :=
    match unnamed_lte inode with
    | Some size =>
        let i := set_counts (dir_count i) (file_count i)
                   (u64 (total_bytes i + size)) (hard_link_bytes i) i in
        if negb (is_first_in_inode d)
        then set_counts (dir_count i) (file_count i) (total_bytes i)
               (u64 (hard_link_bytes i + size)) i
        else i
    | None => i
    end in
  if (2 <=? link_count inode) && is_first_in_inode d then
    fold_left
      (fun i ads =>
         if negb (stream_name_len ads =? 0) then
           match stream_lte ads with
           | Some size =>
               set_counts (dir_count i) (file_count i) (total_bytes i)
                 (u64 (hard_link_bytes i + u64 (link_count inode * size))) i
           | None => i
           end
         else i)
      (ads_entries inode) i
  else i.

(** [xml_update_image_info]; [now] is what [get_wim_timestamp] answers.
    The flags share their storage with the lookup table pointer used
    during the walk, and are put back after it. *)
Definition xml_update_image_info (w : WIMStruct) (image : Z) (now : Z)
  : option WIMStruct :=
  wi ← info w;
  image_info ← slot (images wi) (image - 1);
  let image_info := set_counts 0 0 0 0 image_info in
  tree ← slot (image_metadata w) (image - 1);
  let image_info :=
    fold_left (fun i d => calculate_dentry_statistics d i) tree image_info in
  let image_info := set_last_modification_time now image_info in
  array ← set_slot (images wi) (image - 1) image_info;
  Some (set_info (Some {| num_images := num_images wi; images := array |}) w).

(** Adds an image to the XML information.  The three booleans say
    whether the allocations succeed, [created] and [modified] are the two
    answers of [get_wim_timestamp]. *)
Definition xml_add_image (w : WIMStruct) (image_name : string)
    (calloc_info_ok calloc_images_ok strdup_ok : bool) (created modified : Z)
  : option (error_code * WIMStruct) :=
  (* If this is the first image, allocate the struct wim_info. *)
  if bool_decide (info w = None) && negb calloc_info_ok
  then Some (WIMLIB_ERR_NOMEM, w) else
  let wi := default {| num_images := 0; images := [] |} (info w) in
  added ← add_image_info_struct calloc_images_ok wi;
  match added with
  | None =>
      (* out_free_wim_info *)
      match info w with
      | Some _ =>
          Some (WIMLIB_ERR_NOMEM,
                set_info (Some {| num_images := num_images wi - 1;
                                  images := images wi |}) w)
      | None => Some (WIMLIB_ERR_NOMEM, w)
      end
  | Some wi' =>
      if negb strdup_ok then
        (* out_destroy_image_info, out_free_wim_info *)
        array ← set_slot (images wi') (num_images wi' - 1) zero_image_info;
        match info w with
        | Some _ =>
            Some (WIMLIB_ERR_NOMEM,
                  set_info (Some {| num_images := num_images wi' - 1;
                                    images := array |}) w)
        | None => Some (WIMLIB_ERR_NOMEM, w)
        end
      else
        image_info ← slot (images wi') (num_images wi' - 1);
        let image_info :=
          set_creation_time created
            (set_index (num_images wi') (set_name (Some image_name) image_info)) in
        array ← set_slot (images wi') (num_images wi' - 1) image_info;
        let w := set_info (Some {| num_images := num_images wi';
                                   images := array |}) w in
        w ← xml_update_image_info w (num_images wi') modified;
        Some (WIMLIB_ERR_SUCCESS, w)
  end.

(** Returns the name of the specified image. *)
Definition wimlib_get_image_name (w : WIMStruct) (image : Z)
  : option (option string) :=
  if (image <? 1) || (hdr_image_count w <? image) then Some None else
  wi ← info w;
  image_info ← slot (images wi) (image - 1);
  Some (name image_info).

(** Returns the description of the specified image. *)
Definition wimlib_get_image_description (w : WIMStruct) (image : Z)
  : option (option string) :=
  if (image <? 1) || (hdr_image_count w <? image) then Some None else
  wi ← info w;
  image_info ← slot (images wi) (image - 1);
  Some (description image_info).

(** The loop over the images [i], [i + 1], ... that looks for a name;
    [skip] is the image left out ([0] for none). *)
Fixpoint name_used_from (array : list image_info) (image_name : string)
    (skip : Z) (i : Z) (count : nat) : option (option Z) :=
  match count with
  | O => Some None
  | S count' =>
      if i =? skip then name_used_from array image_name skip (i + 1) count'
      else
        image_info ← slot array (i - 1);
        match strcmp_equal (name image_info) image_name with
        | None => None
        | Some true => Some (Some i)
        | Some false => name_used_from array image_name skip (i + 1) count'
        end
  end.

(** Determines if an image name is already used by some image in the WIM. *)
Definition wimlib_image_name_in_use (w : WIMStruct) (image_name : option string)
  : option bool :=
  match image_name, info w with
  | None, _ | _, None => Some false
  | Some n, Some wi =>
      found ← name_used_from (images wi) n 0 1 (Z.to_nat (num_images wi));
      Some (bool_decide (is_Some found))
  end.

(** Sets the name of an image in the WIM. *)
Definition wimlib_set_image_name (w : option WIMStruct) (image : Z)
    (image_name : option string) (strdup_ok : bool)
  : option (error_code * option WIMStruct) :=
  match w with
  | None => Some (WIMLIB_ERR_INVALID_PARAM, None)
  | Some w =>
      match image_name with
      | None | Some EmptyString => Some (WIMLIB_ERR_INVALID_PARAM, Some w)
      | Some n =>
          if (image <? 1) || (hdr_image_count w <? image)
          then Some (WIMLIB_ERR_INVALID_IMAGE, Some w) else
          wi ← info w;
          found ← name_used_from (images wi) n image 1
                    (Z.to_nat (hdr_image_count w));
          if bool_decide (is_Some found)
          then Some (WIMLIB_ERR_IMAGE_NAME_COLLISION, Some w) else
          if negb strdup_ok then Some (WIMLIB_ERR_NOMEM, Some w) else
          image_info ← slot (images wi) (image - 1);
          array ← set_slot (images wi) (image - 1) (set_name (Some n) image_info);
          Some (WIMLIB_ERR_SUCCESS,
                Some (set_info (Some {| num_images := num_images wi;
                                        images := array |}) w))
      end
  end.

(** Sets the description of an image in the WIM. *)
Definition wimlib_set_image_descripton (w : option WIMStruct) (image : Z)
    (image_description : option string) (strdup_ok : bool)
  : option (error_code * option WIMStruct) :=
  match w with
  | None => Some (WIMLIB_ERR_INVALID_PARAM, None)
  | Some w =>
      if (image <? 1) || (hdr_image_count w <? image)
      then Some (WIMLIB_ERR_INVALID_IMAGE, Some w) else
      if bool_decide (is_Some image_description) && negb strdup_ok
      then Some (WIMLIB_ERR_NOMEM, Some w) else
      wi ← info w;
      image_info ← slot (images wi) (image - 1);
      array ← set_slot (images wi) (image - 1)
                (set_description image_description image_info);
      Some (WIMLIB_ERR_SUCCESS,
            Some (set_info (Some {| num_images := num_images wi;
                                    images := array |}) w))
  end.

Definition wimlib_set_image_flags (w : WIMStruct) (image : Z)
    (image_flags : option string) (strdup_ok : bool)
  : option (error_code * WIMStruct) :=
  if (image <? 1) || (hdr_image_count w <? image)
  then Some (WIMLIB_ERR_INVALID_IMAGE, w) else
  if bool_decide (is_Some image_flags) && negb strdup_ok
  then Some (WIMLIB_ERR_NOMEM, w) else
  wi ← info w;
  image_info ← slot (images wi) (image - 1);
  array ← set_slot (images wi) (image - 1) (set_flags image_flags image_info);
  Some (WIMLIB_ERR_SUCCESS,
        set_info (Some {| num_images := num_images wi; images := array |}) w).

(** ** Vocabulary of the statements *)

(** The slots in use. *)
Definition live_images (wi : wim_info) : list image_info :=
  take (Z.to_nat (num_images wi)) (images wi).

(** The XML information agrees with the header: the array holds what the
    count says, every image in use has a name, and the header counts the
    same images. *)
Definition info_ok (w : WIMStruct) : Prop :=
  match info w with
  | None => hdr_image_count w = 0
  | Some wi =>
      0 <= num_images wi <= Z.of_nat (length (images wi)) /\
      hdr_image_count w = num_images wi /\
      Forall (fun i => is_Some (name i)) (live_images wi)
  end.

Definition image_names (w : WIMStruct) : list (option string) :=
  match info w with
  | None => []
  | Some wi => name <$> live_images wi
  end.

(** The images are numbered 1, 2, ... in the order of the array. *)
Definition numbered (l : list image_info) : Prop :=
  forall k i, l !! k = Some i -> index i = Z.of_nat k + 1.

Definition live_images_of (w : WIMStruct) : list image_info :=
  match info w with
  | None => []
  | Some wi => live_images wi
  end.

(** The dentries that [calculate_dentry_statistics] counts, the size of
    the unnamed stream of a dentry, and the dentries for which it adds the
    named streams to the hard link bytes. *)
Definition counted (tree : list dentry) : list dentry :=
  List.filter (fun d => negb (is_root d)) tree.

Definition unnamed_size (d : dentry) : Z := default 0 (unnamed_lte (d_inode d)).

Definition sum_sizes (l : list dentry) : Z :=
  fold_right (fun d acc => unnamed_size d + acc) 0 l.

Definition counts_named_streams (d : dentry) : bool :=
  (2 <=? link_count (d_inode d)) && is_first_in_inode d
  && existsb (fun ads => negb (stream_name_len ads =? 0)
                         && bool_decide (is_Some (stream_lte ads)))
       (ads_entries (d_inode d)).

(** An image that moved down one place. *)
Definition renumbered (x : image_info) : image_info :=
  set_index (u64 (index x - 1)) x.

(** What the walk keeps true of the counts of an image: they stay 64-bit
    numbers, the two counts together count the dentries seen, the total
    bytes are the sizes of their unnamed streams, and as long as no named
    stream was counted the hard link bytes are the total bytes without
    the first link of each inode. *)
Definition statistics_of (seen : list dentry) (old i : image_info) : Prop :=
  (0 <= dir_count i < 2 ^ 64 /\ 0 <= file_count i < 2 ^ 64 /\
   0 <= total_bytes i < 2 ^ 64 /\ 0 <= hard_link_bytes i < 2 ^ 64) /\
  u64 (dir_count i + file_count i) = u64 (Z.of_nat (length (counted seen))) /\
  total_bytes i = u64 (sum_sizes (counted seen)) /\
  (Forall (fun d => counts_named_streams d = false) (counted seen) ->
   u64 (hard_link_bytes i
        + sum_sizes (List.filter is_first_in_inode (counted seen)))
   = total_bytes i) /\
  index i = index old /\ creation_time i = creation_time old /\
  last_modification_time i = last_modification_time old /\
  name i = name old /\ description i = description old /\
  display_name i = display_name old /\
  display_description i = display_description old /\ flags i = flags old.

Definition sample_image (n : Z) (s : string) : image_info :=
  set_index n (set_name (Some s) zero_image_info).

Definition sample_info : wim_info :=
  {| num_images := 3;
     images := [sample_image 1 "base"; sample_image 2 "tools";
                sample_image 3 "full"] |}.

Definition sample_wim : WIMStruct :=
  {| hdr_image_count := 3;
     info := Some sample_info;
     image_metadata :=
       [[]; [];
        [ {| is_root := true; is_first_in_inode := true;
             d_inode := {| is_directory := true; unnamed_lte := None;
                           link_count := 1; ads_entries := [] |} |};
          {| is_root := false; is_first_in_inode := true;
             d_inode := {| is_directory := false; unnamed_lte := Some 100;
                           link_count := 2; ads_entries := [] |} |};
          {| is_root := false; is_first_in_inode := false;
             d_inode := {| is_directory := false; unnamed_lte := Some 100;
                           link_count := 2; ads_entries := [] |} |} ]] |}.

End Xml.

(** * Text files with sections ([textfile.c])

    A buffer is the list of its characters, a line of the file the list of
    the characters between two newlines.  The lines handed to a string set
    are pointers into the buffer in C; here a string set holds the strings
    they point at, that is the characters up to the first null character.
    The string sets of different sections are taken to be different
    objects. *)
Module Textfile.

Inductive error_code : Type :=
| WIMLIB_ERR_SUCCESS
| WIMLIB_ERR_NOMEM
| WIMLIB_ERR_OTHER (n : Z).     (* what a [mangle_line] callback answers *)

(** [struct string_set]: [num_strings] is the length of [strings]. *)
Record string_set : Type := {
  strings : list tstring;
  num_alloc_strings : Z;
}.

Record text_file_section : Type := {
  name : tstring;
  section_strings : string_set;
}.

Inductive warning : Type :=
| Unrecognized_section (line_no : Z) (line : tstring)
| Not_in_a_bracketed_section (line_no : Z).

(** What [textfile.c] takes from elsewhere: [istspace] (which depends on
    the locale), the flag of [textfile.h], the widths of [size_t] and
    [unsigned long], the size of a pointer, and whether [REALLOC] to a
    given number of bytes succeeds. *)
Record constants : Type := {
  istspace : Z -> bool;
  LOAD_TEXT_FILE_REMOVE_QUOTES : Z;
  size_t_bits : Z;
  ulong_bits : Z;
  sizeof_pointer : Z;
  REALLOC : Z -> bool;
}.

Definition NOT_IN_SECTION : Z := -1.
Definition IN_UNKNOWN_SECTION : Z := -2.

(** The string a pointer to these characters stands for. *)
Fixpoint cstr (s : tstring) : tstring :=
  match s with
  | [] => []
  | c :: s' => if c =? 0 then [] else c :: cstr s'
  end.

(** [tmemchr(s, c, n)] over the [n] characters [s]: the offset of the
    first [c]. *)
Fixpoint tmemchr (s : tstring) (c : Z) : option nat :=
  match s with
  | [] => None
  | x :: s' => if x =? c then Some O else S <$> tmemchr s' c
  end.

Definition set_section_strings (v : string_set) (s : text_file_section)
  : text_file_section :=
  {| name := name s; section_strings := v |}.

Section WithConstants.

Variable K : constants.

Definition size_t (z : Z) : Z := wrap (size_t_bits K) z.

Definition string_set_append (set : string_set) (str : tstring)
  : error_code * string_set :=
  let num_alloc_strings := num_alloc_strings set in
  if Z.of_nat (length (strings set)) =? num_alloc_strings then
    let num_alloc_strings :=
      Z.max (size_t (num_alloc_strings * 3) / 2) (size_t (num_alloc_strings + 4)) in
    if negb (REALLOC K (size_t (sizeof_pointer K * num_alloc_strings)))
    then (WIMLIB_ERR_NOMEM, set)
    else (WIMLIB_ERR_SUCCESS,
          {| strings := strings set ++ [str];
             num_alloc_strings := num_alloc_strings |})
  else (WIMLIB_ERR_SUCCESS,
        {| strings := strings set ++ [str];
           num_alloc_strings := num_alloc_strings |}).

(** The first loop of [parse_text_file]. *)
Fixpoint scan_sections (pos_sections : list text_file_section) (i : Z)
    (have_named_sections : bool) (current_section : Z) : bool * Z :=
  match pos_sections with
  | [] => (have_named_sections, current_section)
  | s :: rest =>
      if negb (tstring_is_empty (name s))
      then scan_sections rest (i + 1) true current_section
      else scan_sections rest (i + 1) have_named_sections i
  end.

(** Ignore leading whitespace. *)
Fixpoint skip_leading (line : tstring) : tstring :=
  match line with
  | [] => []
  | c :: line' => if istspace K c then skip_leading line' else line
  end.

(** Ignore trailing whitespace. *)
Definition skip_trailing (line : tstring) : tstring :=
  rev (skip_leading (rev line)).

(** The loop that looks a section name up. *)
Fixpoint find_section (section_name : tstring)
    (pos_sections : list text_file_section) (i : Z) : Z :=
  match pos_sections with
  | [] => IN_UNKNOWN_SECTION
  | s :: rest =>
      if bool_decide (cstr section_name = cstr (name s)) then i
      else find_section section_name rest (i + 1)
  end.

(** The body of the loop over the lines: the line without its newline
    goes in; out come the status to return, if the function returns here,
    the current section, the sections and the warnings. *)
Definition parse_line (line : tstring) (pos_sections : list text_file_section)
    (flags : Z) (mangle_line : option (tstring -> Z -> error_code * tstring))
    (have_named_sections : bool) (current_section : Z) (line_no : Z)
  : option error_code * Z * list text_file_section * list warning :=
  let line := skip_trailing (skip_leading line) in
  match line with
  | [] => (None, current_section, pos_sections, [])
  | first :: _ =>
      (* Ignore comments and empty lines. *)
      if (first =? 59) || (first =? 35)
      then (None, current_section, pos_sections, []) else
      (* Check for beginning of new section. *)
      if (first =? 91) && (List.last line 0 =? 93) && have_named_sections then
        let current_section :=
          find_section (removelast (tl line)) pos_sections 0 in
        (None, current_section, pos_sections,
         if current_section <? 0
         then [Unrecognized_section line_no (cstr line)] else [])
      else
      if current_section <? 0 then
        (None, current_section, pos_sections,
         if current_section =? NOT_IN_SECTION
         then [Not_in_a_bracketed_section line_no] else [])
      else
      let line :=
        if has_flag flags (LOAD_TEXT_FILE_REMOVE_QUOTES K)
           && ((first =? 34) || (first =? 39))
           && (2 <=? Z.of_nat (length line)) && (List.last line 0 =? first)
        then removelast (tl line) else line in
      let '(ret, str) :=
        match mangle_line with
        | Some f => f (cstr line) line_no
        | None => (WIMLIB_ERR_SUCCESS, cstr line)
        end in
      match ret with
      | WIMLIB_ERR_SUCCESS =>
          match pos_sections !! Z.to_nat current_section with
          | Some s =>
              let '(ret, set) := string_set_append (section_strings s) str in
              (match ret with WIMLIB_ERR_SUCCESS => None | _ => Some ret end,
               current_section,
               <[Z.to_nat current_section := set_section_strings set s]>
                 pos_sections,
               [])
          | None => (None, current_section, pos_sections, [])
          end
      | _ => (Some ret, current_section, pos_sections, [])
      end
  end.

(** The loop over the lines; [rest] is the buffer from [p] on, and every
    round takes at least the newline from it. *)
Fixpoint parse_lines (rounds : nat) (rest : tstring)
    (pos_sections : list text_file_section) (flags : Z)
    (mangle_line : option (tstring -> Z -> error_code * tstring))
    (have_named_sections : bool) (current_section : Z) (line_no : Z)
  : error_code * list text_file_section * list warning :=
  match rounds, rest with
  | O, _ | _, [] => (WIMLIB_ERR_SUCCESS, pos_sections, [])
  | S rounds', _ =>
      match tmemchr rest 10 with
      | None => (WIMLIB_ERR_SUCCESS, pos_sections, [])
      | Some nl =>
          let '(ret, current_section, pos_sections, warnings) :=
            parse_line (take nl rest) pos_sections flags mangle_line
              have_named_sections current_section line_no in
          match ret with
          | Some ret => (ret, pos_sections, warnings)
          | None =>
              let '(ret, pos_sections, more) :=
                parse_lines rounds' (drop (S nl) rest) pos_sections flags
                  mangle_line have_named_sections current_section
                  (wrap (ulong_bits K) (line_no + 1)) in
              (ret, pos_sections, warnings ++ more)
          end
      end
  end.

Definition parse_text_file (buf : tstring)
    (pos_sections : list text_file_section) (flags : Z)
    (mangle_line : option (tstring -> Z -> error_code * tstring))
  : error_code * list text_file_section * list warning :=
  let '(have_named_sections, current_section) :=
    scan_sections pos_sections 0 false NOT_IN_SECTION in
  parse_lines (length buf) buf pos_sections flags mangle_line
    have_named_sections current_section 1.

(** ** Vocabulary of the statements *)

(** The lines of a buffer that end in a newline, without it; [line] is
    the beginning of the current line, last character first. *)
Fixpoint split_lines (line : tstring) (buf : tstring) : list tstring :=
  match buf with
  | [] => []
  | c :: buf' =>
      if c =? 10 then rev line :: split_lines [] buf'
      else split_lines (c :: line) buf'
  end.

(** A line neither empty nor a comment. *)
Definition is_entry (line : tstring) : bool :=
  match line with
  | [] => false
  | first :: _ => negb ((first =? 59) || (first =? 35))
  end.

(** A string set has room for what it holds, and can grow. *)
Definition string_set_ok (set : string_set) : Prop :=
  Z.of_nat (length (strings set)) <= num_alloc_strings set /\
  num_alloc_strings set + 4 < 2 ^ size_t_bits K.

End WithConstants.

(** What parsing may do to the sections: their names stay, and what a
    section held stays at the front of what it holds. *)
Definition sections_extend (old new : list text_file_section) : Prop :=
  Forall2 (fun s s' =>
             name s' = name s /\
             strings (section_strings s) `prefix_of` strings (section_strings s'))
    old new.

Definition sample_constants : constants :=
  {| istspace := fun c => (c =? 32) || ((9 <=? c) && (c <=? 13));
     LOAD_TEXT_FILE_REMOVE_QUOTES := 1;
     size_t_bits := 64; ulong_bits := 64; sizeof_pointer := 8;
     REALLOC := fun _ => true |}.

End Textfile.

(** * The entry points of [extract.c]: what they call

    The functions that [wimlib_extract_files], [wimlib_extract_image] and
    [wimlib_extract_image_from_pipe] call, each with the type of what it
    hands back: a status, a flag that says whether an allocation or a
    system call succeeded, a string that may be null, or nothing.
    [do_wimlib_extract_files] is entered through
    [do_wimlib_extract_files_call]. *)

Inductive stat_answer : Type :=
| stat_failed (errno_is_ENOENT : bool)
| stat_ok (S_ISDIR : bool).

(** The header of the WIM that [open_wim_as_WIMStruct] read. *)
Record pipable_header : Type := {
  magic : Z;
  part_number : Z;
  image_count : Z;
}.

Inductive entry_call : Type :=
| verify_swm_set (num_additional_swms : Z)
| merge_lookup_tables (num_additional_swms : Z)
| unmerge_lookup_table
| CALLOC (nmemb : Z)
| canonicalize_wim_path (path : tstring)
| canonicalize_fs_path (path : tstring)
| FREE (p : option tstring)
| FREE_cmds_copy
| do_wimlib_extract_files_call (image : Z) (cmds : list wimlib_extract_command)
| for_lookup_table_entry_lte_free_extracted_file
| tstat (path : tstring)
| tmkdir (path : tstring)
| wimlib_get_image_name (image : Z)
| open_wim_as_WIMStruct (open_flags : Z)
| read_pwm_stream_header_call
| read_wim_xml_data
| wim_info_get_num_images
| wimlib_resolve_image (image_name_or_num : tstring)
| new_lookup_table_entry_call
| read_metadata_resource (image : Z)
| skip_pwm_stream_call (image : Z)
| wimlib_free
| ERROR_call (msg : string).

Definition entry_ret (c : entry_call) : Type :=
  match c with
  | verify_swm_set _ | do_wimlib_extract_files_call _ _ | read_wim_xml_data
  | read_metadata_resource _ | skip_pwm_stream_call _ => wimlib_error_code
  | CALLOC _ | new_lookup_table_entry_call | tmkdir _ => bool
  | canonicalize_wim_path _ | canonicalize_fs_path _
  | wimlib_get_image_name _ => option tstring
  | tstat _ => stat_answer
  | open_wim_as_WIMStruct _ => wimlib_error_code * pipable_header
  | read_pwm_stream_header_call => wimlib_error_code * Z
  | wim_info_get_num_images | wimlib_resolve_image _ => Z
  | merge_lookup_tables _ | unmerge_lookup_table | FREE _ | FREE_cmds_copy
  | for_lookup_table_entry_lte_free_extracted_file | wimlib_free
  | ERROR_call _ => unit
  end.

Inductive entry (A : Type) : Type :=
| Return (a : A)
| Enter (c : entry_call) (k : entry_ret c -> entry A).

Arguments Return {A} a.
Arguments Enter {A} c k.

Fixpoint entry_bind {A B : Type} (p : entry A) (f : A -> entry B) : entry B :=
  match p with
  | Return a => f a
  | Enter c k => Enter c (fun r => entry_bind (k r) f)
  end.

#[global] Instance entry_mret : MRet entry := fun A a => Return a.
#[global] Instance entry_mbind : MBind entry := fun A B f p => entry_bind p f.

Definition enter (c : entry_call) : entry (entry_ret c) := Enter c Return.

(** A call with what it handed back. *)
Inductive entry_event : Type :=
| Entered (c : entry_call) (r : entry_ret c).

(** [entry_run p answers] executes [p]; the [n]-th call gets the answer
    [answers n] has for it. *)
Fixpoint entry_run_from {A : Type} (p : entry A)
    (answers : nat -> forall c, entry_ret c) (n : nat) : list entry_event * A :=
  match p with
  | Return a => ([], a)
  | Enter c k =>
      let r := answers n c in
      let '(t, a) := entry_run_from (k r) answers (S n) in (Entered c r :: t, a)
  end.
Definition entry_run {A : Type} (p : entry A)
    (answers : nat -> forall c, entry_ret c) : list entry_event * A :=
  entry_run_from p answers O.

(** [entry_always p Q]: [Q] holds of the trace and result of every
    execution. *)
Fixpoint entry_always {A : Type} (p : entry A)
    (Q : list entry_event -> A -> Prop) : Prop :=
  match p with
  | Return a => Q [] a
  | Enter c k =>
      forall r, entry_always (k r) (fun t a => Q (Entered c r :: t) a)
  end.

(** What the entry points take from [wimlib.h] and [util.h]. *)
Record entry_constants : Type := {
  WIMLIB_ALL_IMAGES : Z;
  WIMLIB_NO_IMAGE : Z;
  OS_PREFERRED_PATH_SEPARATOR : Z;
  WIMLIB_OPEN_FLAG_FROM_PIPE : Z;
  WIMLIB_OPEN_FLAG_SPLIT_OK : Z;
}.

Definition sample_entry_constants : entry_constants :=
  {| WIMLIB_ALL_IMAGES := -1; WIMLIB_NO_IMAGE := 0;
     OS_PREFERRED_PATH_SEPARATOR := 47;
     WIMLIB_OPEN_FLAG_FROM_PIPE := 0x80000000;
     WIMLIB_OPEN_FLAG_SPLIT_OK := 2 |}.

(** The answers of a run in which everything succeeds, the target exists
    and the images have no usable names: the WIM that is opened has the
    magic number [posix_build] takes for [PWM_MAGIC] and one image, and
    every stream header read from the pipe is flagged as metadata. *)
Definition sample_answers (n : nat) (c : entry_call) : entry_ret c :=
  match c with
  | verify_swm_set _ | do_wimlib_extract_files_call _ _ | read_wim_xml_data
  | read_metadata_resource _ | skip_pwm_stream_call _ => WIMLIB_ERR_SUCCESS
  | CALLOC _ | new_lookup_table_entry_call | tmkdir _ => true
  | canonicalize_wim_path path | canonicalize_fs_path path => Some path
  | wimlib_get_image_name _ => None
  | tstat _ => stat_ok true
  | open_wim_as_WIMStruct _ =>
      (WIMLIB_ERR_SUCCESS,
       {| magic := 0x1; part_number := 1; image_count := 1 |})
  | read_pwm_stream_header_call => (WIMLIB_ERR_SUCCESS, 0x2)
  | wim_info_get_num_images => 1
  | wimlib_resolve_image _ => 1
  | merge_lookup_tables _ | unmerge_lookup_table | FREE _ | FREE_cmds_copy
  | for_lookup_table_entry_lte_free_extracted_file | wimlib_free
  | ERROR_call _ => tt
  end.

(** The same answers for a WIM whose first image is named "base" and
    whose other images are named "a/b". *)
Definition named_answers (n : nat) (c : entry_call) : entry_ret c :=
  match c as c' return entry_ret c' with
  | wimlib_get_image_name image =>
      Some (if image =? 1 then tstr "base" else tstr "a/b")
  | c' => sample_answers n c'
  end.


Section Extract.

Variable X : externals.

Abbreviation flag_bit := (flag_bit X).
Abbreviation WIM_HDR_FLAG_RP_FIX := (WIM_HDR_FLAG_RP_FIX X).
Abbreviation WITH_NTFS_3G := (WITH_NTFS_3G X).
Abbreviation WIN32 := (WIN32 X).
Abbreviation ulong_bits := (ulong_bits X).
Abbreviation size_t_bits := (size_t_bits X).
Abbreviation INLINE_LTE_DENTRIES := (INLINE_LTE_DENTRIES X).
Abbreviation FILE_ATTRIBUTE_ARCHIVE := (FILE_ATTRIBUTE_ARCHIVE X).
Abbreviation FILE_ATTRIBUTE_HIDDEN := (FILE_ATTRIBUTE_HIDDEN X).
Abbreviation FILE_ATTRIBUTE_SYSTEM := (FILE_ATTRIBUTE_SYSTEM X).
Abbreviation FILE_ATTRIBUTE_COMPRESSED := (FILE_ATTRIBUTE_COMPRESSED X).
Abbreviation FILE_ATTRIBUTE_ENCRYPTED := (FILE_ATTRIBUTE_ENCRYPTED X).
Abbreviation FILE_ATTRIBUTE_NOT_CONTENT_INDEXED := (FILE_ATTRIBUTE_NOT_CONTENT_INDEXED X).
Abbreviation FILE_ATTRIBUTE_SPARSE_FILE := (FILE_ATTRIBUTE_SPARSE_FILE X).
Abbreviation FILE_ATTRIBUTE_DIRECTORY := (FILE_ATTRIBUTE_DIRECTORY X).
Abbreviation FILE_ATTRIBUTE_REPARSE_POINT := (FILE_ATTRIBUTE_REPARSE_POINT X).
Abbreviation WIM_IO_REPARSE_TAG_SYMLINK := (WIM_IO_REPARSE_TAG_SYMLINK X).
Abbreviation WIM_IO_REPARSE_TAG_MOUNT_POINT := (WIM_IO_REPARSE_TAG_MOUNT_POINT X).
Abbreviation REPARSE_POINT_MAX_SIZE := (REPARSE_POINT_MAX_SIZE X).
Abbreviation WIM_RESHDR_FLAG_METADATA := (WIM_RESHDR_FLAG_METADATA X).
Abbreviation WIM_RESHDR_FLAG_COMPRESSED := (WIM_RESHDR_FLAG_COMPRESSED X).
Abbreviation PWM_MAGIC := (PWM_MAGIC X).
Abbreviation PWM_STREAM_MAGIC := (PWM_STREAM_MAGIC X).
Abbreviation WIMLIB_COMPRESSION_TYPE_NONE := (WIMLIB_COMPRESSION_TYPE_NONE X).
Abbreviation compression_type_of_wim := (compression_type_of_wim X).
Abbreviation win32_apply_ops := (win32_apply_ops X).
Abbreviation unix_apply_ops := (unix_apply_ops X).
Abbreviation ntfs_3g_apply_ops := (ntfs_3g_apply_ops X).
Abbreviation start_extract_features := (start_extract_features X).
Abbreviation get_dentry := (get_dentry X).
Abbreviation wim_info_get_image_total_bytes := (wim_info_get_image_total_bytes X).
Abbreviation stream_list_in_sequential_order := (stream_list_in_sequential_order X).
Abbreviation inode_unnamed_lte_resolved := (inode_unnamed_lte_resolved X).
Abbreviation inode_stream_lte_resolved := (inode_stream_lte_resolved X).
Abbreviation inode_is_encrypted_directory := (inode_is_encrypted_directory X).
Abbreviation inode_is_symlink := (inode_is_symlink X).
Abbreviation inode_has_named_stream := (inode_has_named_stream X).
Abbreviation inode_has_unix_data := (inode_has_unix_data X).
Abbreviation ads_entry_is_named_stream := (ads_entry_is_named_stream X).
Abbreviation wim_resource_size := (wim_resource_size X).
Abbreviation utf16le_to_tstr := (utf16le_to_tstr X).
Abbreviation parse_reparse_data := (parse_reparse_data X).
Abbreviation parse_substitute_name := (parse_substitute_name X).
Abbreviation make_reparse_buffer := (make_reparse_buffer X).

Hypothesis flag_bits_valid : flag_layout_ok flag_bit = true.

Definition FLAG (f : extract_flag) : Z := 2 ^ flag_bit f.

Abbreviation WIMLIB_EXTRACT_FLAG_NTFS := (FLAG NTFS).
Abbreviation WIMLIB_EXTRACT_FLAG_HARDLINK := (FLAG HARDLINK).
Abbreviation WIMLIB_EXTRACT_FLAG_SYMLINK := (FLAG SYMLINK).
Abbreviation WIMLIB_EXTRACT_FLAG_SEQUENTIAL := (FLAG SEQUENTIAL).
Abbreviation WIMLIB_EXTRACT_FLAG_UNIX_DATA := (FLAG UNIX_DATA).
Abbreviation WIMLIB_EXTRACT_FLAG_NO_ACLS := (FLAG NO_ACLS).
Abbreviation WIMLIB_EXTRACT_FLAG_STRICT_ACLS := (FLAG STRICT_ACLS).
Abbreviation WIMLIB_EXTRACT_FLAG_RPFIX := (FLAG RPFIX).
Abbreviation WIMLIB_EXTRACT_FLAG_NORPFIX := (FLAG NORPFIX).
Abbreviation WIMLIB_EXTRACT_FLAG_TO_STDOUT := (FLAG TO_STDOUT).
Abbreviation WIMLIB_EXTRACT_FLAG_REPLACE_INVALID_FILENAMES :=
  (FLAG REPLACE_INVALID_FILENAMES).
Abbreviation WIMLIB_EXTRACT_FLAG_ALL_CASE_CONFLICTS := (FLAG ALL_CASE_CONFLICTS).
Abbreviation WIMLIB_EXTRACT_FLAG_STRICT_TIMESTAMPS := (FLAG STRICT_TIMESTAMPS).
Abbreviation WIMLIB_EXTRACT_FLAG_STRICT_SHORT_NAMES := (FLAG STRICT_SHORT_NAMES).
Abbreviation WIMLIB_EXTRACT_FLAG_STRICT_SYMLINKS := (FLAG STRICT_SYMLINKS).

(** *** [check_extract_command]

    Validates one command; on success the command's flags are replaced by
    the adjusted ones. *)
Definition check_extract_command (cmd : wimlib_extract_command)
    (wim_header_flags : Z) : prog (wimlib_error_code * wimlib_extract_command) :=
  (* Empty destination path? *)
  if tstring_is_empty (fs_dest_path cmd) then
    mret (WIMLIB_ERR_INVALID_PARAM, cmd)
  else
  let extract_flags := cmd_extract_flags cmd in
  (* Check for invalid flag combinations *)
  if Z.land extract_flags
       (Z.lor WIMLIB_EXTRACT_FLAG_SYMLINK WIMLIB_EXTRACT_FLAG_HARDLINK)
     =? Z.lor WIMLIB_EXTRACT_FLAG_SYMLINK WIMLIB_EXTRACT_FLAG_HARDLINK then
    mret (WIMLIB_ERR_INVALID_PARAM, cmd)
  else if Z.land extract_flags
       (Z.lor WIMLIB_EXTRACT_FLAG_NO_ACLS WIMLIB_EXTRACT_FLAG_STRICT_ACLS)
     =? Z.lor WIMLIB_EXTRACT_FLAG_NO_ACLS WIMLIB_EXTRACT_FLAG_STRICT_ACLS then
    mret (WIMLIB_ERR_INVALID_PARAM, cmd)
  else if Z.land extract_flags
       (Z.lor WIMLIB_EXTRACT_FLAG_RPFIX WIMLIB_EXTRACT_FLAG_NORPFIX)
     =? Z.lor WIMLIB_EXTRACT_FLAG_RPFIX WIMLIB_EXTRACT_FLAG_NORPFIX then
    mret (WIMLIB_ERR_INVALID_PARAM, cmd)
  else if has_flag extract_flags WIMLIB_EXTRACT_FLAG_NTFS && negb WITH_NTFS_3G then
    _ ← ERROR "wimlib was compiled without support for NTFS-3g";
    mret (WIMLIB_ERR_UNSUPPORTED, cmd)
  else
  let extract_flags :=
    if Z.land extract_flags
         (Z.lor WIMLIB_EXTRACT_FLAG_RPFIX WIMLIB_EXTRACT_FLAG_NORPFIX) =? 0 then
      (* Do reparse point fixups by default if the WIM header says
         they are enabled and we are extracting a full image. *)
      if has_flag wim_header_flags WIM_HDR_FLAG_RP_FIX then
        Z.lor extract_flags WIMLIB_EXTRACT_FLAG_RPFIX
      else extract_flags
    else extract_flags in
  if Z.land extract_flags
       (Z.lor WIMLIB_EXTRACT_FLAG_UNIX_DATA WIMLIB_EXTRACT_FLAG_SEQUENTIAL)
     =? Z.lor WIMLIB_EXTRACT_FLAG_UNIX_DATA WIMLIB_EXTRACT_FLAG_SEQUENTIAL then
    if has_flag extract_flags WIMLIB_EXTRACT_FLAG_FROM_PIPE then
      _ ← WARNING "Setting UNIX file/owner group may be impossible on some symbolic links when applying from a pipe.";
      mret (WIMLIB_ERR_SUCCESS, set_cmd_extract_flags cmd extract_flags)
    else
      let extract_flags :=
        Z.land extract_flags (Z.lnot WIMLIB_EXTRACT_FLAG_SEQUENTIAL) in
      _ ← WARNING "Disabling sequential extraction for UNIX data mode";
      mret (WIMLIB_ERR_SUCCESS, set_cmd_extract_flags cmd extract_flags)
  else
    mret (WIMLIB_ERR_SUCCESS, set_cmd_extract_flags cmd extract_flags).

(** *** [do_wimlib_extract_files]

    The first loop validates the commands in place and watches for a mix of
    linked and unlinked commands; the second loop runs [extract_tree] on
    each command.  [extract_tree] is entered through [extract_tree_call]. *)
Fixpoint check_extract_commands (cmds : list wimlib_extract_command)
    (hdr_flags : Z) (found_link_cmd found_nolink_cmd : bool)
  : prog (wimlib_error_code * list wimlib_extract_command) :=
  match cmds with
  | [] => mret (WIMLIB_ERR_SUCCESS, [])
  | cmd :: rest =>
      '(ret, cmd') ← check_extract_command cmd hdr_flags;
      if failed ret then mret (ret, cmd' :: rest) else
      let linked :=
        has_flag (cmd_extract_flags cmd')
          (Z.lor WIMLIB_EXTRACT_FLAG_SYMLINK WIMLIB_EXTRACT_FLAG_HARDLINK) in
      let found_link_cmd := if linked then true else found_link_cmd in
      let found_nolink_cmd := if linked then found_nolink_cmd else true in
      if found_link_cmd && found_nolink_cmd then
        _ ← ERROR "Symlink or hardlink extraction mode must be set on all extraction commands";
        mret (WIMLIB_ERR_INVALID_PARAM, cmd' :: rest)
      else
        '(ret, rest') ← check_extract_commands rest hdr_flags
                           found_link_cmd found_nolink_cmd;
        mret (ret, cmd' :: rest')
  end.

Fixpoint execute_extract_commands (cmds : list wimlib_extract_command)
  : prog wimlib_error_code :=
  match cmds with
  | [] => mret WIMLIB_ERR_SUCCESS
  | cmd :: rest =>
      ret ← call_status (extract_tree_call (wim_source_path cmd)
                           (fs_dest_path cmd) (cmd_extract_flags cmd));
      if failed ret then mret ret else execute_extract_commands rest
  end.

Definition do_wimlib_extract_files (hdr_flags : Z) (image : Z)
    (cmds : list wimlib_extract_command)
  : prog (wimlib_error_code * list wimlib_extract_command) :=
  (* Select the image from which we are extracting files *)
  ret ← call_status (select_wim_image image);
  if failed ret then mret (ret, cmds) else
  (* Make sure there are no streams in the WIM that have not been
     checksummed yet. *)
  ret ← call_status wim_checksum_unhashed_streams;
  if failed ret then mret (ret, cmds) else
  (* Check for problems with the extraction commands *)
  '(ret, cmds') ← check_extract_commands cmds hdr_flags false false;
  if failed ret then mret (ret, cmds') else
  (* Execute the extraction commands *)
  ret ← execute_extract_commands cmds';
  mret (ret, cmds').

(** *** Tree walks

    Modelled from the spec: [for_dentry_in_tree] and
    [for_dentry_in_tree_depth] are defined in [dentry.c].  The first calls
    the visitor on a dentry before its children (pre-order), the second
    after them (post-order); both stop at the first nonzero status. *)
Fixpoint for_dentry_in_tree (root : dtree) (visitor : dtree -> act wimlib_error_code)
  : act wimlib_error_code :=
  let 'DNode _ children := root in
  ret ← visitor root;
  if failed ret then mret ret else
  (fix walk (cs : list dtree) : act wimlib_error_code :=
     match cs with
     | [] => mret WIMLIB_ERR_SUCCESS
     | c :: cs' =>
         ret ← for_dentry_in_tree c visitor;
         if failed ret then mret ret else walk cs'
     end) children.

Fixpoint for_dentry_in_tree_depth (root : dtree)
    (visitor : dtree -> act wimlib_error_code) : act wimlib_error_code :=
  let 'DNode _ children := root in
  ret ← (fix walk (cs : list dtree) : act wimlib_error_code :=
     match cs with
     | [] => mret WIMLIB_ERR_SUCCESS
     | c :: cs' =>
         ret ← for_dentry_in_tree_depth c visitor;
         if failed ret then mret ret else walk cs'
     end) children;
  if failed ret then mret ret else visitor root.

(** *** [dentry_resolve_and_zero_lte_refcnt]

    The stores keep every inode in resolved form; [inode_resolve_ltes]
    stands for the lookups and can still fail. *)
Definition dentry_resolve_and_zero_lte_refcnt (node : dtree) : act wimlib_error_code :=
  s ← get_state;
  let dentry := dentries s (dtree_root node) in
  let inode := inodes s (d_inode dentry) in
  if extraction_skipped dentry then mret WIMLIB_ERR_SUCCESS else
  let force := has_flag (extract_flags (ctx s)) WIMLIB_EXTRACT_FLAG_FROM_PIPE in
  ret ← lift (call_status (inode_resolve_ltes (d_inode dentry) force));
  if failed ret then mret ret else
  _ ← modify (fun s =>
         fold_left (fun s i =>
            match inode_stream_lte_resolved inode (Z.of_nat i) with
            | Some lte => set_lte lte (lte_set_out_refcnt 0 (ltes s lte)) s
            | None => s
            end)
           (seq 0 (S (length (i_ads_entries inode)))) s);
  mret WIMLIB_ERR_SUCCESS.

Definition is_linked_extraction (c : apply_ctx) : bool :=
  negb (0 =? Z.land (extract_flags c)
               (Z.lor WIMLIB_EXTRACT_FLAG_HARDLINK WIMLIB_EXTRACT_FLAG_SYMLINK)).

Definition can_extract_named_data_streams (c : apply_ctx) : bool :=
  nonzero (named_data_streams (supported_features c))
  && negb (is_linked_extraction c).

(** *** [ref_stream_to_extract] *)
Definition ref_stream_to_extract (lte : option lte_id) (dentry : dentry_id)
  : act wimlib_error_code :=
  match lte with
  | None => mret WIMLIB_ERR_SUCCESS
  | Some lte =>
    s ← get_state;
    let e := ltes s lte in
    _ ← (if negb (is_linked_extraction (ctx s))
            || ((out_refcnt e =? 0) && bool_decide (extracted_file e = None))
         then
           modify (fun s =>
             let p := progress (ctx s) in
             let p := progress_set_total_bytes
                        (u64 (total_bytes p + wim_resource_size e)) p in
             let p := progress_set_num_streams (u64 (num_streams p + 1)) p in
             set_ctx (ctx_set_progress p (ctx s)) s)
         else mret tt);
    _ ← (if out_refcnt e =? 0 then
           modify (fun s =>
             let c := ctx_set_stream_list (stream_list (ctx s) ++ [lte]) (ctx s) in
             let c := ctx_set_num_streams_remaining
                        (wrap ulong_bits (num_streams_remaining c + 1)) c in
             set_ctx c s)
         else mret tt);
    ret ← (if has_flag (extract_flags (ctx s)) WIMLIB_EXTRACT_FLAG_SEQUENTIAL then
           (* Append dentry to this stream's array of dentries referencing
              it.  Use inline array to avoid memory allocation until the
              number of dentries becomes too large. *)
           if out_refcnt e <? INLINE_LTE_DENTRIES then
             _ ← modify (set_lte lte
                    (lte_set_inline_lte_dentries
                       (<[Z.to_nat (out_refcnt e) := dentry]> (inline_lte_dentries e)) e));
             mret WIMLIB_ERR_SUCCESS
           else
             let '(prev_lte_dentries, alloc) :=
               if out_refcnt e =? INLINE_LTE_DENTRIES
               then (None, INLINE_LTE_DENTRIES)
               else (Some (lte_dentries e), alloc_lte_dentries e) in
             if out_refcnt e =? alloc then
               let alloc := wrap size_t_bits (alloc * 2) in
               r ← lift (call_status (REALLOC alloc));
               if failed r then mret WIMLIB_ERR_NOMEM else
               let grown :=
                 match prev_lte_dentries with
                 | Some old => take (Z.to_nat alloc) (old ++ repeat 0%nat (Z.to_nat alloc))
                 | None =>
                     (* memcpy of the inline array into the fresh block *)
                     take (Z.to_nat alloc)
                       (inline_lte_dentries e ++ repeat 0%nat (Z.to_nat alloc))
                 end in
               _ ← modify (set_lte lte
                      (lte_set_lte_dentries
                         (<[Z.to_nat (out_refcnt e) := dentry]> grown) alloc e));
               mret WIMLIB_ERR_SUCCESS
             else
               _ ← modify (set_lte lte
                      (lte_set_lte_dentries
                         (<[Z.to_nat (out_refcnt e) := dentry]> (lte_dentries e))
                         (alloc_lte_dentries e) e));
               mret WIMLIB_ERR_SUCCESS
         else mret WIMLIB_ERR_SUCCESS);
    if failed ret then mret ret else
    _ ← modify (fun s =>
           set_lte lte (lte_set_out_refcnt (u32 (out_refcnt (ltes s lte) + 1))
                          (ltes s lte)) s);
    mret WIMLIB_ERR_SUCCESS
  end.

(** *** [dentry_add_streams_to_extract] *)
Fixpoint ref_named_streams_to_extract (entries : list wim_ads_entry)
    (dentry : dentry_id) : act wimlib_error_code :=
  match entries with
  | [] => mret WIMLIB_ERR_SUCCESS
  | entry :: rest =>
      if negb (ads_entry_is_named_stream entry) then
        ref_named_streams_to_extract rest dentry
      else
        ret ← ref_stream_to_extract (ads_lte entry) dentry;
        if failed ret then mret ret else ref_named_streams_to_extract rest dentry
  end.

Definition dentry_add_streams_to_extract (node : dtree) : act wimlib_error_code :=
  s ← get_state;
  let dentry := dentries s (dtree_root node) in
  let inode := inodes s (d_inode dentry) in
  (* Don't process dentries marked as skipped. *)
  if extraction_skipped dentry then mret WIMLIB_ERR_SUCCESS else
  (* Don't process additional hard links. *)
  if i_visited s (d_inode dentry) && nonzero (hard_links (supported_features (ctx s)))
  then mret WIMLIB_ERR_SUCCESS else
  (* The unnamed data stream will always be extracted, except in an
     unlikely case. *)
  ret ← (if negb (inode_is_encrypted_directory inode) then
           ref_stream_to_extract (inode_unnamed_lte_resolved inode) (dtree_root node)
         else mret WIMLIB_ERR_SUCCESS);
  if failed ret then mret ret else
  (* Named data streams will be extracted only if supported in the current
     extraction mode and volume, and to avoid complications, if not doing
     a linked extraction. *)
  ret ← (if can_extract_named_data_streams (ctx s) then
           ref_named_streams_to_extract (i_ads_entries inode) (dtree_root node)
         else mret WIMLIB_ERR_SUCCESS);
  if failed ret then mret ret else
  _ ← modify (set_i_visited (d_inode dentry) true);
  mret WIMLIB_ERR_SUCCESS.

(** *** [update_extract_progress] *)
Definition update_extract_progress (lte : wim_lookup_table_entry) : act unit :=
  s ← get_state;
  let p := progress (ctx s) in
  let p := progress_set_completed_bytes
             (u64 (completed_bytes p + wim_resource_size lte)) p in
  _ ← modify (fun s => set_ctx (ctx_set_progress p (ctx s)) s);
  if has_progress_func (ctx s) && (next_progress (ctx s) <=? completed_bytes p) then
    _ ← lift (tell (progress_func WIMLIB_PROGRESS_MSG_EXTRACT_STREAMS p));
    if total_bytes p <=? completed_bytes p then
      modify (fun s => set_ctx (ctx_set_next_progress (2 ^ 64 - 1) (ctx s)) s)
    else
      let np := u64 (next_progress (ctx s) + total_bytes p / 128) in
      let np := if total_bytes p <? np then total_bytes p else np in
      modify (fun s => set_ctx (ctx_set_next_progress np (ctx s)) s)
  else mret tt.

Definition realtarget_chars (c : apply_ctx) : tstring := default [] (realtarget c).
Definition realtarget_nchars (c : apply_ctx) : Z := Z.of_nat (length (realtarget_chars c)).

(** The stream whose size [extract_symlink] and [extract_reparse_data]
    account for: [lte_override ? lte_override : inode_unnamed_lte_resolved(inode)]. *)
Definition override_or_unnamed (s : state) (inode : inode_id)
    (lte_override : option wim_lookup_table_entry) : option wim_lookup_table_entry :=
  match lte_override with
  | Some e => Some e
  | None => ltes s <$> inode_unnamed_lte_resolved (inodes s inode)
  end.

Definition account_for (lte : option wim_lookup_table_entry) : act unit :=
  match lte with Some e => update_extract_progress e | None => mret tt end.

(** *** [extract_symlink] (not built for Windows) *)
Definition extract_symlink (path : tstring) (inode : inode_id)
    (lte_override : option wim_lookup_table_entry) : act wimlib_error_code :=
  s ← get_state;
  let c := ctx s in
  let rpfix := has_flag (extract_flags c) WIMLIB_EXTRACT_FLAG_RPFIX in
  let bufsize := path_max (ops c) in
  (* If absolute symbolic link fixups requested, reserve space in the link
     target buffer for the absolute path of the target directory. *)
  let bufsize := if rpfix then bufsize - realtarget_nchars c else bufsize in
  (* Translate the WIM inode's reparse data into the link target. *)
  sret ← lift (call_data (wim_inode_readlink inode (bufsize - 1) lte_override));
  match sret with
  | inl _ => mret WIMLIB_ERR_READLINK
  | inr buf =>
      let fixed_target :=
        if rpfix && (nth 0 buf 0 =? 47) (* '/' *)
        then realtarget_chars c ++ buf else buf in
      ret ← lift (call_status (create_symlink fixed_target path));
      if failed ret then
        _ ← lift (ERROR "Failed to create symlink");
        mret ret
      else
        (* Account for reparse data consumed. *)
        _ ← account_for (override_or_unnamed s inode lte_override);
        mret WIMLIB_ERR_SUCCESS
  end.

(** *** [extract_inode]: create a file, directory, or symbolic link *)
Definition extract_inode (path : tstring) (inode : inode_id) : act wimlib_error_code :=
  s ← get_state;
  let sf := supported_features (ctx s) in
  if negb WIN32 && nonzero (symlink_reparse_points sf)
     && negb (nonzero (reparse_points sf)) && inode_is_symlink (inodes s inode)
  then extract_symlink path inode None
  else if has_flag (i_attributes (inodes s inode)) FILE_ATTRIBUTE_DIRECTORY then
    ret ← lift (call_status (create_directory path));
    _ ← (if failed ret then lift (ERROR "Failed to create the directory") else mret tt);
    mret ret
  else
    ret ← lift (call_status (create_file path));
    _ ← (if failed ret then lift (ERROR "Failed to create the file") else mret tt);
    mret ret.

Definition extract_hardlink (oldpath newpath : tstring) : act wimlib_error_code :=
  ret ← lift (call_status (create_hardlink oldpath newpath));
  _ ← (if failed ret then lift (ERROR "Failed to create hardlink") else mret tt);
  mret ret.

(** *** [try_extract_rpfix] (Windows only) *)
Definition try_extract_rpfix (rpbuf : list Z) (extract_root_realpath : tstring)
  : wimlib_error_code * list Z :=
  let extract_root_realpath_nchars := Z.of_nat (length extract_root_realpath) in
  let '(ret, rpdata) := parse_reparse_data rpbuf in
  if failed ret then (ret, rpbuf) else
  if (nth 0 extract_root_realpath 0 =? 0)
     || negb (nth 1 extract_root_realpath 0 =? 58)   (* ':' *)
     || negb (nth 2 extract_root_realpath 0 =? 92)   (* '\' *)
  then (WIMLIB_ERR_REPARSE_POINT_FIXUP_FAILED, rpbuf) else
  let ret := parse_substitute_name (substitute_name rpdata)
               (substitute_name_nbytes rpdata) (rptag rpdata) in
  if ret <? 0 then (WIMLIB_ERR_SUCCESS, rpbuf) else
  let stripped_nchars := ret in
  let target := substitute_name rpdata in
  let target_nchars := substitute_name_nbytes rpdata / 2 in
  let stripped_target := drop (Z.to_nat stripped_nchars) target in
  (* declared [wchar_t] in the source *)
  let stripped_target_nchars := wrap 16 (target_nchars - stripped_nchars) in
  (* Include \??\ prefix if it was present before *)
  let prefix := if stripped_nchars =? 6 then [92; 63; 63; 92] else [] in
  (* Print name excludes the \??\ if present. *)
  let new_print_name :=
    (* Get drive letter from real path to extract root, if a drive
       letter was present before. *)
    (if stripped_nchars =? 0 then [] else take 2 extract_root_realpath)
    (* Copy the rest of the extract root *)
    ++ take (Z.to_nat (extract_root_realpath_nchars - 2)) (drop 2 extract_root_realpath)
    (* Append the stripped target *)
    ++ take (Z.to_nat stripped_target_nchars) stripped_target in
  let new_target := prefix ++ new_print_name in
  let new_target_nchars := Z.of_nat (length new_target) in
  let new_print_name_nchars := Z.of_nat (length new_print_name) in
  if (REPARSE_POINT_MAX_SIZE <=? new_target_nchars * 2)
     || (REPARSE_POINT_MAX_SIZE <=? new_print_name_nchars * 2)
  then (WIMLIB_ERR_REPARSE_POINT_FIXUP_FAILED, rpbuf) else
  make_reparse_buffer
    {| rptag := rptag rpdata;
       substitute_name := new_target;
       substitute_name_nbytes := new_target_nchars * 2;
       print_name := new_print_name;
       print_name_nbytes := new_print_name_nchars * 2 |}.

(** *** [extract_reparse_data] *)
Definition extract_reparse_data (path : tstring) (inode : inode_id)
    (lte_override : option wim_lookup_table_entry) : act wimlib_error_code :=
  s ← get_state;
  let c := ctx s in
  let ino := inodes s inode in
  let error (ret : wimlib_error_code) : act wimlib_error_code :=
    _ ← lift (ERROR "Failed to set reparse data");
    mret ret in
  r ← lift (call_data (wim_inode_get_reparse_data inode lte_override));
  match r with
  | inl ret => error ret
  | inr rpbuf =>
    (* Fix up target of absolute symbolic link or junction points so
       that they point into the actual extraction target. *)
    '(ret, rpbuf) ←
      (if WIN32 && has_flag (extract_flags c) WIMLIB_EXTRACT_FLAG_RPFIX
          && ((i_reparse_tag ino =? WIM_IO_REPARSE_TAG_SYMLINK)
              || (i_reparse_tag ino =? WIM_IO_REPARSE_TAG_MOUNT_POINT))
          && negb (i_not_rpfixed ino)
       then
         let '(ret, rpbuf') := try_extract_rpfix rpbuf (realtarget_chars c) in
         if failed ret
            && negb (has_flag (extract_flags c) WIMLIB_EXTRACT_FLAG_STRICT_SYMLINKS)
         then
           _ ← lift (WARNING "Reparse point fixup failed");
           mret (WIMLIB_ERR_SUCCESS, rpbuf')
         else mret (ret, rpbuf')
       else mret (WIMLIB_ERR_SUCCESS, rpbuf));
    if failed ret then error ret else
    ret ← lift (call_status (set_reparse_data path rpbuf));
    (* On Windows, the SeCreateSymbolicLink privilege is required to create
       symbolic links.  To be more friendly towards non-Administrator users,
       we merely warn the user if symbolic links cannot be created due to
       insufficient permissions or privileges, unless
       WIMLIB_EXTRACT_FLAG_STRICT_SYMLINKS was provided. *)
    ret ←
      (if WIN32 && failed ret && inode_is_symlink ino then
         denied ← lift (call_status errno_is_EACCES_or_EPERM);
         if failed denied
            && negb (has_flag (extract_flags c) WIMLIB_EXTRACT_FLAG_STRICT_SYMLINKS)
         then
           _ ← lift (WARNING "Can't set reparse data: Access denied!");
           mret WIMLIB_ERR_SUCCESS
         else mret ret
       else mret ret);
    if failed ret then error ret else
    (* Account for reparse data consumed. *)
    _ ← account_for (override_or_unnamed s inode lte_override);
    mret WIMLIB_ERR_SUCCESS
  end.

(** *** [extract_streams]: extract zero or more streams to a file

    [lte_spec], when given, restricts the call to the copies of that
    stream, and [lte_override] is handed to the backend in its place. *)
Fixpoint extract_named_streams (path : tstring) (entries : list wim_ads_entry)
    (lte_spec : option lte_id) (lte_override : wim_lookup_table_entry)
  : act wimlib_error_code :=
  match entries with
  | [] => mret WIMLIB_ERR_SUCCESS
  | entry :: rest =>
      if negb (ads_entry_is_named_stream entry) then
        extract_named_streams path rest lte_spec lte_override
      else
      match ads_lte entry with
      | None => extract_named_streams path rest lte_spec lte_override
      | Some lte =>
          if bool_decide (is_Some lte_spec) && negb (bool_decide (lte_spec = Some lte))
          then extract_named_streams path rest lte_spec lte_override
          else
            s ← get_state;
            let e := match lte_spec with
                     | Some _ => lte_override
                     | None => ltes s lte
                     end in
            ret ← lift (call_status
                     (extract_named_stream path (stream_name entry) (Some e)));
            if failed ret then
              _ ← lift (ERROR "Failed to extract data");
              mret ret
            else
              _ ← update_extract_progress e;
              extract_named_streams path rest lte_spec lte_override
      end
  end.

Definition extract_streams (path : tstring) (dentry : dentry_id)
    (lte_spec : option lte_id) (lte_override : wim_lookup_table_entry)
  : act wimlib_error_code :=
  s ← get_state;
  let inode := d_inode (dentries s dentry) in
  let ino := inodes s inode in
  let sf := supported_features (ctx s) in
  if was_hardlinked (dentries s dentry) then mret WIMLIB_ERR_SUCCESS else
  (* Unnamed data stream. *)
  ret ←
    match inode_unnamed_lte_resolved ino with
    | Some lte =>
        if negb (bool_decide (is_Some lte_spec)) || bool_decide (lte_spec = Some lte)
        then
          let e := match lte_spec with
                   | Some _ => lte_override
                   | None => ltes s lte
                   end in
          if negb (has_flag (i_attributes ino)
                     (Z.lor FILE_ATTRIBUTE_DIRECTORY FILE_ATTRIBUTE_REPARSE_POINT))
          then
            ret ← (if has_flag (i_attributes ino) FILE_ATTRIBUTE_ENCRYPTED
                      && nonzero (encrypted_files sf)
                   then lift (call_status (extract_encrypted_stream path e))
                   else lift (call_status (extract_unnamed_stream path e)));
            if failed ret then
              _ ← lift (ERROR "Failed to extract data");
              mret ret
            else
              _ ← update_extract_progress e;
              mret WIMLIB_ERR_SUCCESS
          else if has_flag (i_attributes ino) FILE_ATTRIBUTE_REPARSE_POINT then
            ret ← (if nonzero (reparse_points sf)
                   then extract_reparse_data path inode (Some e)
                   else if negb WIN32 && inode_is_symlink ino
                           && nonzero (symlink_reparse_points sf)
                   then extract_symlink path inode (Some e)
                   else mret WIMLIB_ERR_SUCCESS);
            mret ret
          else mret WIMLIB_ERR_SUCCESS
        else mret WIMLIB_ERR_SUCCESS
    | None => mret WIMLIB_ERR_SUCCESS
    end;
  if failed ret then mret ret else
  (* Named data streams. *)
  if can_extract_named_data_streams (ctx s) then
    extract_named_streams path (i_ads_entries ino) lte_spec lte_override
  else mret WIMLIB_ERR_SUCCESS.

(** *** Attributes, short names, security and timestamps *)
Definition extract_file_attributes (path : tstring) (dentry : dentry_id)
  : act wimlib_error_code :=
  s ← get_state;
  if has_set_file_attributes (ops (ctx s)) then
    if bool_decide (dentry = extract_root (ctx s)) && root_dentry_is_special (ctx s)
    then mret WIMLIB_ERR_SUCCESS else
    ret ← lift (call_status (set_file_attributes path
                   (i_attributes (inodes s (d_inode (dentries s dentry))))));
    if failed ret then
      _ ← lift (ERROR "Failed to set attributes");
      mret ret
    else mret WIMLIB_ERR_SUCCESS
  else mret WIMLIB_ERR_SUCCESS.

Definition extract_short_name (path : tstring) (dentry : dentry_id)
  : act wimlib_error_code :=
  s ← get_state;
  (* The root of the dentry tree being extracted may not be extracted to
     its original name, so its short name should be ignored. *)
  if bool_decide (dentry = extract_root (ctx s)) then mret WIMLIB_ERR_SUCCESS else
  if nonzero (short_names (supported_features (ctx s))) then
    ret ← lift (call_status (set_short_name path (short_name (dentries s dentry))));
    if failed ret
       && has_flag (extract_flags (ctx s)) WIMLIB_EXTRACT_FLAG_STRICT_SHORT_NAMES
    then
      _ ← lift (ERROR "Failed to set short name");
      mret ret
    else mret WIMLIB_ERR_SUCCESS
  else mret WIMLIB_ERR_SUCCESS.

(** A negative [int] result. *)
Definition is_negative (r : wimlib_error_code) : bool :=
  match r with WIMLIB_ERR_OTHER n => n <? 0 | _ => false end.

Definition extract_security (path : tstring) (dentry : dentry_id)
  : act wimlib_error_code :=
  s ← get_state;
  let c := ctx s in
  let inode := d_inode (dentries s dentry) in
  let strict := has_flag (extract_flags c) WIMLIB_EXTRACT_FLAG_STRICT_ACLS in
  if has_flag (extract_flags c) WIMLIB_EXTRACT_FLAG_NO_ACLS
  then mret WIMLIB_ERR_SUCCESS else
  if bool_decide (extract_root c = dentry) && root_dentry_is_special c
  then mret WIMLIB_ERR_SUCCESS else
  if negb WIN32 && has_flag (extract_flags c) WIMLIB_EXTRACT_FLAG_UNIX_DATA then
    ret ← lift (call_status (inode_get_unix_data inode));
    ret ← (if is_negative ret then mret WIMLIB_ERR_SUCCESS
           else if failed ret then mret ret
           else lift (call_status (set_unix_data path inode)));
    if failed ret then
      if strict then
        _ ← lift (ERROR "Failed to set UNIX owner, group, and/or mode");
        mret ret
      else
        _ ← lift (WARNING "Failed to set UNIX owner, group, and/or/mode");
        mret WIMLIB_ERR_SUCCESS
    else mret WIMLIB_ERR_SUCCESS
  else if nonzero (security_descriptors (supported_features c))
          && negb (i_security_id (inodes s inode) =? -1) then
    ret ← lift (call_status (set_security_descriptor path
                   (i_security_id (inodes s inode)) strict));
    if failed ret then
      if strict then
        _ ← lift (ERROR "Failed to set security descriptor");
        mret ret
      else
        eacces ← lift (call_status errno_is_EACCES);
        _ ← (if failed eacces then mret tt
             else lift (WARNING "Failed to set security descriptor"));
        mret WIMLIB_ERR_SUCCESS
    else mret WIMLIB_ERR_SUCCESS
  else mret WIMLIB_ERR_SUCCESS.

Definition extract_timestamps (path : tstring) (dentry : dentry_id)
  : act wimlib_error_code :=
  s ← get_state;
  let c := ctx s in
  let ino := inodes s (d_inode (dentries s dentry)) in
  if bool_decide (extract_root c = dentry) && root_dentry_is_special c
  then mret WIMLIB_ERR_SUCCESS else
  if has_set_timestamps (ops c) then
    ret ← lift (call_status (set_timestamps path (i_creation_time ino)
                   (i_last_write_time ino) (i_last_access_time ino)));
    if failed ret then
      if has_flag (extract_flags c) WIMLIB_EXTRACT_FLAG_STRICT_TIMESTAMPS then
        _ ← lift (ERROR "Failed to set timestamps");
        mret ret
      else
        _ ← lift (WARNING "Failed to set timestamps");
        mret WIMLIB_ERR_SUCCESS
    else mret WIMLIB_ERR_SUCCESS
  else mret WIMLIB_ERR_SUCCESS.

(** *** [dentry_is_supported]: whether a dentry can be extracted at all *)
Definition dentry_is_supported (inode : wim_inode) (sf : wim_features) : bool :=
  if has_flag (i_attributes inode) FILE_ATTRIBUTE_REPARSE_POINT then
    if nonzero (reparse_points sf) then true
    else if nonzero (symlink_reparse_points sf) && inode_is_symlink inode then true
    else false
  else true.

(** *** [build_extraction_path]

    The walk from the dentry up to the extraction root follows [parent].
    Every step adds at least one character to the path, so a walk of more
    than [path_max] steps ends in the "path too long" answer; the walk is
    cut there. *)
Fixpoint ancestors_upto (fuel : nat) (s : state) (root d : dentry_id)
    (acc : list dentry_id) : option (list dentry_id) :=
  if bool_decide (d = root) then Some acc else
  match fuel with
  | O => None
  | S fuel' => ancestors_upto fuel' s root (parent (dentries s d)) (d :: acc)
  end.

Definition extraction_name_chars (d : wim_dentry) : tstring :=
  default [] (extraction_name d).
Definition extraction_name_nchars (d : wim_dentry) : Z :=
  Z.of_nat (length (extraction_name_chars d)).

Definition build_extraction_path (dentry : dentry_id) : act (option tstring) :=
  s ← get_state;
  let c := ctx s in
  if extraction_skipped (dentries s dentry) then mret None else
  let target_prefix :=
    if requires_realtarget_in_paths (ops c) then realtarget_chars c
    else if requires_target_in_paths (ops c) then target c
    else [] in
  let too_long : act (option tstring) :=
    _ ← lift (WARNING "Path too long to extract");
    mret None in
  match ancestors_upto (Z.to_nat (path_max (ops c))) s (extract_root c) dentry [] with
  | None => too_long
  | Some ancestor_list =>
      let path_nchars :=
        Z.of_nat (length (path_prefix (ops c)))
        + Z.of_nat (length target_prefix)
        + fold_right (fun d n => extraction_name_nchars (dentries s d) + 1 + n)
            0 ancestor_list
        + 1 (* null terminator *) in
      if path_max (ops c) <? path_nchars then too_long else
      mret (Some (path_prefix (ops c) ++ target_prefix
                  ++ concat (map (fun d => path_separator (ops c)
                                    :: extraction_name_chars (dentries s d))
                               ancestor_list)))
  end.

(** *** Linked extraction of several images *)
Fixpoint drop_while (f : Z -> bool) (p : tstring) : tstring :=
  match p with
  | [] => []
  | c :: p' => if f c then drop_while f p' else p
  end.
Definition skip_separators (sep : Z) (p : tstring) : tstring :=
  drop_while (fun c => bool_decide (c = sep)) p.
Definition skip_component (sep : Z) (p : tstring) : tstring :=
  drop_while (fun c => negb (bool_decide (c = sep))) p.

(** [get_num_path_components], by recursion on the length of the path. *)
Fixpoint num_path_components_from (fuel : nat) (sep : Z) (path : tstring) : Z :=
  match fuel with
  | O => 0
  | S fuel' =>
      match skip_separators sep path with
      | [] => 0
      | p => 1 + num_path_components_from fuel' sep (skip_component sep p)
      end
  end.
Definition get_num_path_components (path : tstring) (sep : Z) : Z :=
  num_path_components_from (S (length path)) sep path.

Definition extract_multiimage_symlink (oldpath newpath : tstring)
    (dentry : dentry_id) : act wimlib_error_code :=
  s ← get_state;
  let c := ctx s in
  let sep := path_separator (ops c) in
  let num_raw_path_components :=
    match ancestors_upto (Z.to_nat (path_max (ops c))) s (extract_root c) dentry [] with
    | Some l => Z.of_nat (length l)
    | None => 0
    end in
  let num_target_path_components :=
    if requires_realtarget_in_paths (ops c)
    then get_num_path_components (realtarget_chars c) sep
    else if requires_target_in_paths (ops c)
    then get_num_path_components (target c) sep
    else 0 in
  let '(num_raw_path_components, num_target_path_components) :=
    if has_flag (extract_flags c) WIMLIB_EXTRACT_FLAG_MULTI_IMAGE
    then (num_raw_path_components + 1,
          wrap size_t_bits (num_target_path_components - 1))
    else (num_raw_path_components, num_target_path_components) in
  let p_old := skip_separators sep oldpath in
  (* while (--num_target_path_components) *)
  let p_old :=
    Nat.iter (Z.to_nat (wrap size_t_bits (num_target_path_components - 1)))
      (fun p => skip_separators sep (skip_component sep p)) p_old in
  let symlink_target :=
    concat (repeat [46; 46; sep] (Z.to_nat num_raw_path_components)) ++ p_old in
  ret ← lift (call_status (create_symlink symlink_target newpath));
  _ ← (if failed ret then lift (ERROR "Failed to create symlink") else mret tt);
  mret ret.

(** *** [do_dentry_extract_skeleton]

    Creates the file or directory, its empty named streams, attributes and
    short name; or links it to an already extracted file. *)
Fixpoint extract_empty_named_streams (path : tstring)
    (entries : list wim_ads_entry) : act wimlib_error_code :=
  match entries with
  | [] => mret WIMLIB_ERR_SUCCESS
  | entry :: rest =>
      if negb (ads_entry_is_named_stream entry) then
        extract_empty_named_streams path rest
      else if bool_decide (is_Some (ads_lte entry)) then
        extract_empty_named_streams path rest
      else
        ret ← lift (call_status (extract_named_stream path (stream_name entry) None));
        if failed ret then
          _ ← lift (ERROR "failed to create empty named data stream");
          mret ret
        else extract_empty_named_streams path rest
  end.

Definition do_dentry_extract_skeleton (path : tstring) (dentry : dentry_id)
  : act wimlib_error_code :=
  s ← get_state;
  let c := ctx s in
  let inode := d_inode (dentries s dentry) in
  let ino := inodes s inode in
  let unnamed_lte := inode_unnamed_lte_resolved ino in
  let hardlink (oldpath : tstring) : act wimlib_error_code :=
    ret ← extract_hardlink oldpath path;
    if failed ret then mret ret else
    _ ← modify (fun s =>
           set_dentry dentry (dentry_set_was_hardlinked true (dentries s dentry)) s);
    mret WIMLIB_ERR_SUCCESS in
  let symlink (oldpath : tstring) : act wimlib_error_code :=
    ret ← extract_multiimage_symlink oldpath path dentry;
    if failed ret then mret ret else
    _ ← modify (fun s =>
           set_dentry dentry (dentry_set_was_hardlinked true (dentries s dentry)) s);
    mret WIMLIB_ERR_SUCCESS in
  match (if is_linked_extraction c
         then unnamed_lte ≫= (fun l => extracted_file (ltes s l))
         else None) with
  | Some oldpath =>
      if has_flag (extract_flags c) WIMLIB_EXTRACT_FLAG_HARDLINK
      then hardlink oldpath else symlink oldpath
  | None =>
  (* Create hard link if this dentry corresponds to an already-extracted
     inode. *)
  match i_extracted_file s inode with
  | Some oldpath => hardlink oldpath
  | None =>
  (* Skip symlinks unless they can be extracted as reparse points rather
     than created directly. *)
  if inode_is_symlink ino && negb (nonzero (reparse_points (supported_features c)))
  then mret WIMLIB_ERR_SUCCESS else
  (* Create this file or directory unless it's the extraction root, which
     was already created if necessary. *)
  ret ← (if negb (bool_decide (dentry = extract_root c))
         then extract_inode path inode else mret WIMLIB_ERR_SUCCESS);
  if failed ret then mret ret else
  (* Create empty named data streams. *)
  ret ← (if can_extract_named_data_streams c
         then extract_empty_named_streams path (i_ads_entries ino)
         else mret WIMLIB_ERR_SUCCESS);
  if failed ret then mret ret else
  (* Set file attributes (if supported). *)
  ret ← extract_file_attributes path dentry;
  if failed ret then mret ret else
  (* Set or remove file short name (if supported). *)
  ret ← extract_short_name path dentry;
  if failed ret then mret ret else
  (* If inode has multiple links and hard links are supported in this
     extraction mode and volume, save the path to the extracted file in
     case it's needed to create a hard link. *)
  if is_linked_extraction c then
    match unnamed_lte with
    | Some l =>
        r ← lift (call_status (TSTRDUP path));
        if failed r then
          _ ← modify (fun s => set_lte l (lte_set_extracted_file None (ltes s l)) s);
          mret WIMLIB_ERR_NOMEM
        else
          _ ← modify (fun s =>
                 set_lte l (lte_set_extracted_file (Some path) (ltes s l)) s);
          mret WIMLIB_ERR_SUCCESS
    | None => mret WIMLIB_ERR_SUCCESS
    end
  else if (1 <? i_nlink ino) && nonzero (hard_links (supported_features c)) then
    r ← lift (call_status (TSTRDUP path));
    if failed r then
      _ ← modify (set_i_extracted_file inode None);
      mret WIMLIB_ERR_NOMEM
    else
      _ ← modify (set_i_extracted_file inode (Some path));
      mret WIMLIB_ERR_SUCCESS
  else mret WIMLIB_ERR_SUCCESS
  end
  end.

Definition dentry_extract_skeleton (node : dtree) : act wimlib_error_code :=
  path ← build_extraction_path (dtree_root node);
  match path with
  | None => mret WIMLIB_ERR_SUCCESS
  | Some path => do_dentry_extract_skeleton path (dtree_root node)
  end.

(** A stream descriptor for the calls of [extract_streams] that pass a
    null [lte_spec]; the override is never looked at in that case. *)
Definition null_lte : wim_lookup_table_entry :=
  {| lte_hash := 0;
     resource_entry := {| re_size := 0; re_flags := 0; re_offset := 0;
                          re_original_size := 0 |};
     resource_location := RESOURCE_NONEXISTENT; file_on_disk := None;
     compression_type := 0; is_pipable := false; out_refcnt := 0;
     extracted_file := None; inline_lte_dentries := [];
     lte_dentries := []; alloc_lte_dentries := 0 |}.

(** *** [dentry_extract]

    Create a file or directory, then immediately extract all streams. *)
Definition dentry_extract (node : dtree) : act wimlib_error_code :=
  path ← build_extraction_path (dtree_root node);
  match path with
  | None => mret WIMLIB_ERR_SUCCESS
  | Some path =>
      ret ← do_dentry_extract_skeleton path (dtree_root node);
      if failed ret then mret ret else
      extract_streams path (dtree_root node) None null_lte
  end.

(** *** [extract_stream_instances]

    Extract all instances of the stream [lte] that are being extracted in
    this call of [extract_tree].  [can_seek] tells whether the WIM file
    descriptor is seekable; if it is not and the stream is needed more than
    once, the stream goes to a temporary file first. *)
Fixpoint extract_instances (refs : list dentry_id) (lte : lte_id)
    (lte_override : wim_lookup_table_entry) : act wimlib_error_code :=
  match refs with
  | [] => mret WIMLIB_ERR_SUCCESS
  | dentry :: rest =>
      s ← get_state;
      if tmp_flag (dentries s dentry) then extract_instances rest lte lte_override else
      path ← build_extraction_path dentry;
      match path with
      | None => extract_instances rest lte lte_override
      | Some path =>
          ret ← extract_streams path dentry (Some lte) lte_override;
          if failed ret then mret ret else
          _ ← modify (fun s =>
                 set_dentry dentry (dentry_set_tmp_flag true (dentries s dentry)) s);
          extract_instances rest lte lte_override
      end
  end.

Definition clear_tmp_flags (refs : list dentry_id) : act unit :=
  modify (fun s =>
    fold_left (fun s d => set_dentry d (dentry_set_tmp_flag false (dentries s d)) s)
      refs s).

(** [lte_dentries[0 .. out_refcnt - 1]] *)
Definition referencing_dentries (e : wim_lookup_table_entry) : list dentry_id :=
  let lte_dentries :=
    if out_refcnt e <=? INLINE_LTE_DENTRIES
    then inline_lte_dentries e else lte_dentries e in
  map (fun i => nth i lte_dentries 0%nat) (seq 0 (Z.to_nat (out_refcnt e))).

Definition extract_stream_instances (lte : lte_id) (can_seek : bool)
  : act wimlib_error_code :=
  s ← get_state;
  let e := ltes s lte in
  let refs := referencing_dentries e in
  (* Extract all instances of the stream, reading either from the stream
     in the WIM file or from the temporary file containing the stream.
     dentry->tmp_flag is used to ensure that each dentry is processed only
     once regardless of how many times this stream appears in the streams
     of the corresponding inode. *)
  let instances (lte_override : wim_lookup_table_entry) : act wimlib_error_code :=
    ret ← extract_instances refs lte lte_override;
    _ ← clear_tmp_flags refs;
    mret ret in
  if can_seek || (out_refcnt e <? 2) then instances e else
  (* Need to extract stream to temporary file. *)
  name ← lift (call_data ttempnam);
  match name with
  | inl _ =>
      _ ← lift (ERROR "Failed to create temporary filename");
      mret WIMLIB_ERR_OPEN
  | inr stream_tmp_filename =>
      r ← lift (call_status (memdup_lte e));
      if failed r then mret WIMLIB_ERR_NOMEM else
      let lte_tmp := lte_set_file_on_disk stream_tmp_filename e in
      raw_fd ← lift (call_status (topen stream_tmp_filename));
      if failed raw_fd then
        _ ← lift (ERROR "Failed to open temporary file");
        mret WIMLIB_ERR_OPEN
      else
      ret ← lift (call_status
               (extract_wim_resource_to_fd e (TMP_FILE stream_tmp_filename)
                  (wim_resource_size e)));
      closed ← lift (call_status (filedes_close (TMP_FILE stream_tmp_filename)));
      let ret := if failed closed && negb (failed ret) then WIMLIB_ERR_WRITE else ret in
      if failed ret then
        _ ← lift (tell (tunlink stream_tmp_filename));
        mret ret
      else
        ret ← instances lte_tmp;
        _ ← lift (tell (tunlink stream_tmp_filename));
        mret ret
  end.

(** *** [extract_stream_list] *)
Fixpoint extract_each_stream (l : list lte_id) (can_seek : bool)
  : act wimlib_error_code :=
  match l with
  | [] => mret WIMLIB_ERR_SUCCESS
  | lte :: rest =>
      ret ← extract_stream_instances lte can_seek;
      if failed ret then mret ret else extract_each_stream rest can_seek
  end.

Definition extract_stream_list : act wimlib_error_code :=
  (* can_seek = (lseek(ctx->wim->in_fd.fd, 0, SEEK_CUR) != -1) *)
  r ← lift (call_status lseek_cur);
  s ← get_state;
  extract_each_stream (stream_list (ctx s)) (negb (failed r)).

(** *** [read_pwm_stream_header]

    Modelled from the spec: [full_read] is defined in [file_io.c]; a read
    from a pipe that has nothing left fails (error kind [READ]). *)
Definition read_pwm_stream_header (lte : wim_lookup_table_entry)
    (allow_header : bool) : act (wimlib_error_code * wim_lookup_table_entry) :=
  s ← get_state;
  let read_error (ret : wimlib_error_code)
    : act (wimlib_error_code * wim_lookup_table_entry) :=
    _ ← lift (ERROR "Error reading pipable WIM from pipe");
    mret (ret, lte) in
  match in_fd s with
  | [] => read_error WIMLIB_ERR_READ
  | item :: rest =>
      _ ← modify (set_in_fd rest);
      if failed (read_status item) then read_error (read_status item) else
      let stream_hdr := stream_hdr item in
      if allow_header && (hdr_magic stream_hdr =? PWM_MAGIC) then
        if failed (rest_status item) then read_error (rest_status item) else
        mret (WIMLIB_ERR_SUCCESS,
              lte_set_resource (resource_entry lte) RESOURCE_NONEXISTENT
                (compression_type lte) (is_pipable lte) lte)
      else if negb (hdr_magic stream_hdr =? PWM_STREAM_MAGIC) then
        _ ← lift (ERROR "Data read on pipe is invalid (expected stream header).");
        mret (WIMLIB_ERR_INVALID_PIPABLE_WIM, lte)
      else
        let compressed := has_flag (hdr_flags stream_hdr) WIM_RESHDR_FLAG_COMPRESSED in
        mret (WIMLIB_ERR_SUCCESS,
              {| lte_hash := hdr_hash stream_hdr;
                 resource_entry :=
                   {| re_size := if compressed then 0
                                 else hdr_uncompressed_size stream_hdr;
                      re_flags := hdr_flags stream_hdr;
                      re_offset := data_offset item;
                      re_original_size := hdr_uncompressed_size stream_hdr |};
                 resource_location := RESOURCE_IN_WIM;
                 file_on_disk := file_on_disk lte;
                 compression_type :=
                   if compressed then compression_type_of_wim
                   else WIMLIB_COMPRESSION_TYPE_NONE;
                 is_pipable := true;
                 out_refcnt := out_refcnt lte;
                 extracted_file := extracted_file lte;
                 inline_lte_dentries := inline_lte_dentries lte;
                 lte_dentries := lte_dentries lte;
                 alloc_lte_dentries := alloc_lte_dentries lte |})
  end.

(** Skip over an unneeded stream in a pipable WIM being read from a pipe. *)
Definition skip_pwm_stream (lte : wim_lookup_table_entry) : act wimlib_error_code :=
  lift (call_status (read_partial_wim_resource_seek_only lte (wim_resource_size lte))).

(** *** [extract_streams_from_pipe]

    [reads] bounds the iterations of the [while] loop: every iteration
    takes one item from the pipe, so the caller passes one more than the
    number of items. *)
Fixpoint extract_streams_from_pipe_loop (reads : nat)
    (found_lte : wim_lookup_table_entry) : act wimlib_error_code :=
  s ← get_state;
  if num_streams_remaining (ctx s) =? 0 then mret WIMLIB_ERR_SUCCESS else
  match reads with
  | O => mret WIMLIB_ERR_READ
  | S reads' =>
      '(ret, found_lte) ← read_pwm_stream_header found_lte true;
      if failed ret then mret ret else
      s ← get_state;
      let needed_lte :=
        if negb (bool_decide (resource_location found_lte = RESOURCE_NONEXISTENT))
           && negb (has_flag (re_flags (resource_entry found_lte))
                      WIM_RESHDR_FLAG_METADATA)
        then
          match lookup_table s !! lte_hash found_lte with
          | Some needed =>
              if nonzero (out_refcnt (ltes s needed)) then Some needed else None
          | None => None
          end
        else None in
      match needed_lte with
      | Some needed =>
          _ ← modify (fun s =>
                 set_lte needed
                   (lte_set_resource (resource_entry found_lte)
                      (resource_location found_lte) (compression_type found_lte)
                      (is_pipable found_lte) (ltes s needed)) s);
          ret ← extract_stream_instances needed false;
          if failed ret then mret ret else
          _ ← modify (fun s =>
                 set_ctx (ctx_set_num_streams_remaining
                            (wrap ulong_bits (num_streams_remaining (ctx s) - 1))
                            (ctx s)) s);
          extract_streams_from_pipe_loop reads' found_lte
      | None =>
          if negb (bool_decide (resource_location found_lte = RESOURCE_NONEXISTENT))
          then
            ret ← skip_pwm_stream found_lte;
            if failed ret then mret ret else
            extract_streams_from_pipe_loop reads' found_lte
          else extract_streams_from_pipe_loop reads' found_lte
      end
  end.

Definition extract_streams_from_pipe : act wimlib_error_code :=
  r ← lift (call_status new_lookup_table_entry);
  if failed r then mret WIMLIB_ERR_NOMEM else
  s ← get_state;
  extract_streams_from_pipe_loop (S (length (in_fd s))) null_lte.

(** *** [dentry_extract_final]: security and timestamps *)
Definition dentry_extract_final (node : dtree) : act wimlib_error_code :=
  path ← build_extraction_path (dtree_root node);
  match path with
  | None => mret WIMLIB_ERR_SUCCESS
  | Some path =>
      ret ← extract_security path (dtree_root node);
      if failed ret then mret ret else
      extract_timestamps path (dtree_root node)
  end.

(** *** [extract_dentry_to_stdout]

    We return an error if the dentry does not correspond to a regular
    file.  Otherwise we extract the unnamed data stream only. *)
Definition extract_dentry_to_stdout (dentry : dentry_id) : act wimlib_error_code :=
  s ← get_state;
  let ino := inodes s (d_inode (dentries s dentry)) in
  if has_flag (i_attributes ino)
       (Z.lor FILE_ATTRIBUTE_REPARSE_POINT FILE_ATTRIBUTE_DIRECTORY)
  then
    _ ← lift (ERROR "not a regular file and therefore cannot be extracted to standard output");
    mret WIMLIB_ERR_NOT_A_REGULAR_FILE
  else
    match inode_unnamed_lte_resolved ino with
    | Some lte =>
        lift (call_status
                (extract_wim_resource_to_fd (ltes s lte) STDOUT_FILENO
                   (wim_resource_size (ltes s lte))))
    | None => mret WIMLIB_ERR_SUCCESS
    end.

(** *** [file_name_valid]

    Returns whether the name is valid and, with [fix], the name with every
    offending code unit replaced. *)
Definition replacement_char : Z := if WIN32 then 0xfffd else 63 (* '?' *).

Definition forbidden_char (c : Z) : bool :=
  (WIN32 &&
   ((c =? 92) (* '\' *) || (c =? 58) (* ':' *) || (c =? 42) (* '*' *)
    || (c =? 63) (* '?' *) || (c =? 34) (* double quote *)
    || (c =? 60) (* '<' *) || (c =? 62) (* '>' *) || (c =? 124) (* '|' *)))
  || (c =? 47) (* '/' *) || (c =? 0).

Fixpoint file_name_valid_chars (name : list Z) (fix_ : bool) : bool * list Z :=
  match name with
  | [] => (true, [])
  | c :: rest =>
      if forbidden_char c then
        if fix_ then
          let '(ok, rest') := file_name_valid_chars rest fix_ in
          (ok, replacement_char :: rest')
        else (false, name)
      else
        let '(ok, rest') := file_name_valid_chars rest fix_ in
        (ok, c :: rest')
  end.

Definition file_name_valid (name : list Z) (fix_ : bool) : bool * list Z :=
  let num_chars := length name in
  if (num_chars =? 0)%nat then (true, name) else
  let '(ok, name') := file_name_valid_chars name fix_ in
  if negb ok then (false, name') else
  if WIN32 then
    let last := nth (num_chars - 1) name' 0 in
    if (last =? 32) (* ' ' *) || (last =? 46) (* '.' *) then
      if fix_ then (true, <[(num_chars - 1)%nat := replacement_char]> name')
      else (false, name')
    else (true, name')
  else (true, name').

Definition dentry_is_dot_or_dotdot (dentry : wim_dentry) : bool :=
  let file_name := file_name dentry in
  negb (bool_decide (file_name = []))
  && (nth 0 file_name 0 =? 46)
  && ((nth 1 file_name 0 =? 0)
      || ((nth 1 file_name 0 =? 46) && (nth 2 file_name 0 =? 0))).

Definition dentry_mark_skipped (node : dtree) : act wimlib_error_code :=
  _ ← modify (fun s =>
         set_dentry (dtree_root node)
           (dentry_set_skipped true (dentries s (dtree_root node))) s);
  mret WIMLIB_ERR_SUCCESS.

(** [tsprintf(..., T(" (invalid filename #%lu)"), n)] *)
Definition invalid_filename_suffix (n : Z) : tstring :=
  tstr " (invalid filename #"
  ++ tstr (DecimalString.NilZero.string_of_uint (N.to_uint (Z.to_N n)))
  ++ tstr ")".

(** *** [dentry_calculate_extraction_path]

    Calculate the actual filename component at which a WIM dentry will be
    extracted, handling invalid filenames "properly". *)
Definition dentry_calculate_extraction_path (node : dtree) : act wimlib_error_code :=
  s ← get_state;
  let c := ctx s in
  let d := dtree_root node in
  let dentry := dentries s d in
  let skip_dentry : act wimlib_error_code :=
    for_dentry_in_tree node dentry_mark_skipped in
  let out_replace : act wimlib_error_code :=
    let '(_, utf16_name_copy) := file_name_valid (file_name dentry) true in
    let '(ret, tchar_name) :=
      if WIN32 then (WIMLIB_ERR_SUCCESS, utf16_name_copy)
      else utf16le_to_tstr utf16_name_copy in
    if failed ret then mret ret else
    let n := wrap ulong_bits (invalid_sequence c + 1) in
    _ ← modify (fun s => set_ctx (ctx_set_invalid_sequence n (ctx s)) s);
    let fixed_name := tchar_name ++ invalid_filename_suffix n in
    r ← lift (call_status
           (memdup_name fixed_name (2 * Z.of_nat (length fixed_name) + 2)));
    if failed r then
      _ ← modify (fun s =>
             set_dentry d (dentry_set_extraction_name None (dentries s d)) s);
      mret WIMLIB_ERR_NOMEM
    else
      _ ← modify (fun s =>
             set_dentry d (dentry_set_extraction_name (Some fixed_name)
                             (dentries s d)) s);
      mret WIMLIB_ERR_SUCCESS in
  if bool_decide (d = extract_root c) || extraction_skipped dentry
  then mret WIMLIB_ERR_SUCCESS else
  if negb (dentry_is_supported (inodes s (d_inode dentry)) (supported_features c))
  then skip_dentry else
  if dentry_is_dot_or_dotdot dentry then
    (* WIM files shouldn't contain . or .. entries.  But if they are
       there, don't attempt to extract them. *)
    _ ← lift (WARNING "Skipping extraction of unexpected . or .. file");
    skip_dentry
  else
  match (if WIN32 && negb (supports_case_sensitive_filenames (ops c))
         then case_insensitive_conflict_list dentry else []) with
  | other :: _ =>
      if has_flag (extract_flags c) WIMLIB_EXTRACT_FLAG_ALL_CASE_CONFLICTS then
        _ ← lift (WARNING "has the same case-insensitive name as another file; extracting dummy name instead");
        out_replace
      else
        _ ← lift (WARNING "Not extracting: has same case-insensitive name as another file");
        skip_dentry
  | [] =>
      if (file_name_valid (file_name dentry) false).1 then
        if WIN32 then
          _ ← modify (fun s =>
                 set_dentry d (dentry_set_extraction_name (Some (file_name dentry))
                                 (dentries s d)) s);
          mret WIMLIB_ERR_SUCCESS
        else
          let '(ret, name) := utf16le_to_tstr (file_name dentry) in
          if failed ret then mret ret else
          _ ← modify (fun s =>
                 set_dentry d (dentry_set_extraction_name (Some name)
                                 (dentries s d)) s);
          mret WIMLIB_ERR_SUCCESS
      else if has_flag (extract_flags c) WIMLIB_EXTRACT_FLAG_REPLACE_INVALID_FILENAMES
      then
        _ ← lift (WARNING "has an invalid filename that is not supported on this platform; extracting dummy name instead");
        out_replace
      else
        _ ← lift (WARNING "Not extracting: has an invalid filename that is not supported on this platform");
        skip_dentry
  end.

(** *** Feature tally *)
Definition dentry_reset_needs_extraction (node : dtree) : act wimlib_error_code :=
  _ ← modify (fun s =>
         let d := dtree_root node in
         let inode := d_inode (dentries s d) in
         let s := set_dentry d
                    (dentry_set_extraction_name None
                       (dentry_set_was_hardlinked false
                          (dentry_set_skipped false (dentries s d)))) s in
         set_i_extracted_file inode None (set_i_visited inode false s));
  mret WIMLIB_ERR_SUCCESS.

Definition zero_features : wim_features :=
  {| archive_files := 0; hidden_files := 0; system_files := 0;
     compressed_files := 0; encrypted_files := 0;
     not_context_indexed_files := 0; sparse_files := 0;
     named_data_streams := 0; hard_links := 0; reparse_points := 0;
     symlink_reparse_points := 0; other_reparse_points := 0;
     security_descriptors := 0; short_names := 0; unix_data := 0 |}.

Definition dentry_tally_features (node : dtree) : act wimlib_error_code :=
  _ ← modify (fun s =>
         let dentry := dentries s (dtree_root node) in
         let inode := inodes s (d_inode dentry) in
         let f := required_features s in
         let inc (cond : bool) (n : Z) : Z :=
           if cond then wrap ulong_bits (n + 1) else n in
         let attr (mask : Z) : bool := has_flag (i_attributes inode) mask in
         let rp := attr FILE_ATTRIBUTE_REPARSE_POINT in
         let f :=
           {| archive_files := inc (attr FILE_ATTRIBUTE_ARCHIVE) (archive_files f);
              hidden_files := inc (attr FILE_ATTRIBUTE_HIDDEN) (hidden_files f);
              system_files := inc (attr FILE_ATTRIBUTE_SYSTEM) (system_files f);
              compressed_files :=
                inc (attr FILE_ATTRIBUTE_COMPRESSED) (compressed_files f);
              encrypted_files :=
                inc (attr FILE_ATTRIBUTE_ENCRYPTED) (encrypted_files f);
              not_context_indexed_files :=
                inc (attr FILE_ATTRIBUTE_NOT_CONTENT_INDEXED)
                  (not_context_indexed_files f);
              sparse_files := inc (attr FILE_ATTRIBUTE_SPARSE_FILE) (sparse_files f);
              named_data_streams :=
                inc (inode_has_named_stream inode) (named_data_streams f);
              hard_links := inc (i_visited s (d_inode dentry)) (hard_links f);
              reparse_points := inc rp (reparse_points f);
              symlink_reparse_points :=
                inc (rp && inode_is_symlink inode) (symlink_reparse_points f);
              other_reparse_points :=
                inc (rp && negb (inode_is_symlink inode)) (other_reparse_points f);
              security_descriptors :=
                inc (negb (i_security_id inode =? -1)) (security_descriptors f);
              short_names := inc (negb (bool_decide (short_name dentry = [])))
                               (short_names f);
              unix_data := inc (inode_has_unix_data inode) (unix_data f) |} in
         set_i_visited (d_inode dentry) true (set_required_features f s));
  mret WIMLIB_ERR_SUCCESS.

Definition dentry_clear_inode_visited (node : dtree) : act wimlib_error_code :=
  _ ← modify (fun s =>
         set_i_visited (d_inode (dentries s (dtree_root node))) false s);
  mret WIMLIB_ERR_SUCCESS.

(** Tally the features necessary to extract a dentry tree. *)
Definition dentry_tree_get_features (root : dtree) : act unit :=
  _ ← modify (set_required_features zero_features);
  _ ← for_dentry_in_tree root dentry_tally_features;
  _ ← for_dentry_in_tree root dentry_clear_inode_visited;
  mret tt.

(** *** [do_feature_check] *)
Definition do_feature_check (required supported : wim_features)
    (extract_flags : Z) (ops : apply_operations) : prog wimlib_error_code :=
  let missing (f : wim_features -> Z) : bool :=
    nonzero (f required) && negb (nonzero (f supported)) in
  let warn_if (cond : bool) (msg : string) (n : Z) : prog unit :=
    if cond then WARNING_lu msg n else mret tt in
  _ ← warn_if (missing archive_files)
        "files are marked as archived, but this attribute is not supported in this extraction mode or volume."
        (archive_files required);
  _ ← warn_if (missing hidden_files)
        "files are marked as hidden, but this attribute is not supported in this extraction mode or volume."
        (hidden_files required);
  _ ← warn_if (missing system_files)
        "files are marked as system files, but this attribute is not supported in this extraction mode or volume."
        (system_files required);
  _ ← warn_if (missing compressed_files)
        "files are marked as being transparently compressed, but transparent compression is not supported in this extraction mode or volume.  These files will be extracted as uncompressed."
        (compressed_files required);
  _ ← warn_if (missing encrypted_files)
        "files are marked as being encrypted, but encryption is not supported in this extraction mode or volume.  These files will be extracted as raw encrypted data instead."
        (encrypted_files required);
  _ ← warn_if (missing not_context_indexed_files)
        "files are marked as not content indexed, but this attribute is not supported in this extraction mode or volume."
        (not_context_indexed_files required);
  _ ← warn_if (missing sparse_files)
        "files are marked as sparse, but creating sparse files is not supported in this extraction mode or volume.  These files will be extracted as non-sparse."
        (not_context_indexed_files required);
  _ ← warn_if (missing named_data_streams)
        "files contain one or more alternate (named) data streams, which are not supported in this extraction mode or volume.  Alternate data streams will NOT be extracted."
        (named_data_streams required);
  _ ← warn_if
        (has_flag extract_flags
           (Z.lor WIMLIB_EXTRACT_FLAG_HARDLINK WIMLIB_EXTRACT_FLAG_SYMLINK)
         && nonzero (named_data_streams required)
         && nonzero (named_data_streams supported))
        "files contain one or more alternate (named) data streams, which are not supported in linked extraction mode.  Alternate data streams will NOT be extracted."
        (named_data_streams required);
  _ ← warn_if (missing hard_links)
        "files are hard links, but hard links are not supported in this extraction mode or volume.  Hard links will be extracted as duplicate copies of the linked files."
        (hard_links required);
  _ ← (if missing reparse_points then
         if nonzero (symlink_reparse_points supported) then
           warn_if (nonzero (other_reparse_points required))
             "files are reparse points that are neither symbolic links nor junction points and are not supported in this extraction mode or volume.  These reparse points will not be extracted."
             (other_reparse_points required)
         else
           WARNING_lu
             "files are reparse points, which are not supported in this extraction mode or volume and will not be extracted."
             (reparse_points required)
       else mret tt);
  _ ← warn_if (missing security_descriptors)
        "files have Windows NT security descriptors, but extracting security descriptors is not supported in this extraction mode or volume.  No security descriptors will be extracted."
        (security_descriptors required);
  _ ← warn_if (missing short_names)
        "files have short (DOS) names, but extracting short names is not supported in this extraction mode or volume.  Short names will not be extracted."
        (short_names required);
  if has_flag extract_flags WIMLIB_EXTRACT_FLAG_UNIX_DATA && missing unix_data then
    _ ← ERROR "UNIX data not supported in this extraction mode or volume";
    mret WIMLIB_ERR_UNSUPPORTED
  else if has_flag extract_flags WIMLIB_EXTRACT_FLAG_STRICT_SHORT_NAMES
          && missing short_names then
    _ ← ERROR "Short names are not supported in this extraction mode or volume";
    mret WIMLIB_ERR_UNSUPPORTED
  else if has_flag extract_flags WIMLIB_EXTRACT_FLAG_STRICT_TIMESTAMPS
          && negb (has_set_timestamps ops) then
    _ ← ERROR "Timestamps are not supported in this extraction mode or volume";
    mret WIMLIB_ERR_UNSUPPORTED
  else if (Z.land extract_flags
             (Z.lor WIMLIB_EXTRACT_FLAG_STRICT_ACLS WIMLIB_EXTRACT_FLAG_UNIX_DATA)
           =? WIMLIB_EXTRACT_FLAG_STRICT_ACLS)
          && missing security_descriptors then
    _ ← ERROR "Security descriptors not supported in this extraction mode or volume.";
    mret WIMLIB_ERR_UNSUPPORTED
  else if has_flag extract_flags WIMLIB_EXTRACT_FLAG_HARDLINK
          && negb (nonzero (hard_links supported)) then
    _ ← ERROR "Hard link extraction mode requested, but extraction mode or volume does not support hard links!";
    mret WIMLIB_ERR_UNSUPPORTED
  else if has_flag extract_flags WIMLIB_EXTRACT_FLAG_SYMLINK
          && negb (nonzero (symlink_reparse_points supported)) then
    _ ← ERROR "Symbolic link extraction mode requested, but extraction mode or volume does not support symbolic links!";
    mret WIMLIB_ERR_UNSUPPORTED
  else mret WIMLIB_ERR_SUCCESS.

(** *** [extract_tree]

    Extract a file or directory tree from the currently selected WIM image.
    The labels of the C function nest, so each stage is followed by the
    cleanup of the labels below it:  [out_dentry_reset_needs_extraction]
    resets the scratch fields, [out_finish_or_abort_extract] tells the
    backend.  Freeing memory is not modelled. *)
Definition select_apply_operations (extract_flags : Z) : apply_operations :=
  if WITH_NTFS_3G && has_flag extract_flags WIMLIB_EXTRACT_FLAG_NTFS
  then ntfs_3g_apply_ops
  else if WIN32 then win32_apply_ops else unix_apply_ops.

Definition initial_ctx (target : tstring) (extract_flags : Z)
    (has_progress_func : bool) (root : dentry_id) : apply_ctx :=
  {| extract_flags := extract_flags;
     ops := select_apply_operations extract_flags;
     target := target;
     realtarget := None;
     has_progress_func := has_progress_func;
     extract_root := root;
     supported_features := zero_features;
     root_dentry_is_special := false;
     invalid_sequence := 0;
     stream_list := [];
     num_streams_remaining := 0;
     progress := {| total_bytes := 0; num_streams := 0; completed_bytes := 0 |};
     next_progress := 0 |}.

Definition send_progress (msg : progress_msg) : act unit :=
  s ← get_state;
  if has_progress_func (ctx s)
  then lift (tell (progress_func msg (progress (ctx s))))
  else mret tt.

(** [out_finish_or_abort_extract] *)
Definition finish_or_abort_extract (ret : wimlib_error_code) : act wimlib_error_code :=
  s ← get_state;
  if failed ret then
    _ ← (if has_abort_extract (ops (ctx s)) then lift (tell abort_extract) else mret tt);
    mret ret
  else if has_finish_extract (ops (ctx s)) then lift (call_status finish_extract)
  else mret ret.

(** [out_dentry_reset_needs_extraction] and below *)
Definition reset_and_finish (root : dtree) (ret : wimlib_error_code)
  : act wimlib_error_code :=
  _ ← for_dentry_in_tree root dentry_reset_needs_extraction;
  finish_or_abort_extract ret.

(** "Finally, the important part: extract the tree of files."  The two
    branches of the C [if] are named after its comments. *)

(** Sequential extraction requested, so two passes are needed
    (one for directory structure, one for streams.) *)
Definition extract_in_two_passes (root : dtree) : act wimlib_error_code :=
  s ← get_state;
  _ ← send_progress WIMLIB_PROGRESS_MSG_EXTRACT_DIR_STRUCTURE_BEGIN;
  ret ← for_dentry_in_tree root dentry_extract_skeleton;
  if failed ret then mret ret else
  _ ← send_progress WIMLIB_PROGRESS_MSG_EXTRACT_DIR_STRUCTURE_END;
  if has_flag (extract_flags (ctx s)) WIMLIB_EXTRACT_FLAG_FROM_PIPE
  then extract_streams_from_pipe
  else extract_stream_list.

(** Sequential extraction was not requested, so we can make do with one
    pass where we both create the files and extract streams. *)
Definition extract_in_one_pass (root : dtree) : act wimlib_error_code :=
  _ ← send_progress WIMLIB_PROGRESS_MSG_EXTRACT_DIR_STRUCTURE_BEGIN;
  ret ← for_dentry_in_tree root dentry_extract;
  if failed ret then mret ret else
  _ ← send_progress WIMLIB_PROGRESS_MSG_EXTRACT_DIR_STRUCTURE_END;
  mret WIMLIB_ERR_SUCCESS.

Definition extract_tree_files (root : dtree) : act wimlib_error_code :=
  s ← get_state;
  if has_flag (extract_flags (ctx s))
       (Z.lor WIMLIB_EXTRACT_FLAG_SEQUENTIAL WIMLIB_EXTRACT_FLAG_FROM_PIPE)
  then extract_in_two_passes root
  else extract_in_one_pass root.

(** From the sort of the stream list to the end message; the callers run
    the cleanup. *)
Definition extract_tree_body (wim_source_path target : tstring) (root : dtree)
  : act wimlib_error_code :=
  s ← get_state;
  let extract_flags := extract_flags (ctx s) in
  let ops := ops (ctx s) in
  (* If a sequential extraction was specified, sort the streams to be
     extracted by their position in the WIM file so that the WIM file can
     be read sequentially. *)
  ret ← (if Z.land extract_flags
              (Z.lor WIMLIB_EXTRACT_FLAG_SEQUENTIAL WIMLIB_EXTRACT_FLAG_FROM_PIPE)
            =? WIMLIB_EXTRACT_FLAG_SEQUENTIAL
         then
           r ← lift (call_status sort_stream_list_by_sequential_order);
           if failed r then mret r else
           _ ← modify (fun s =>
                  set_ctx (ctx_set_stream_list
                             (stream_list_in_sequential_order (ltes s)
                                (stream_list (ctx s))) (ctx s)) s);
           mret WIMLIB_ERR_SUCCESS
         else mret WIMLIB_ERR_SUCCESS);
  if failed ret then mret ret else
  ret ← (if realpath_works_on_nonexisting_files ops
            && (has_flag extract_flags WIMLIB_EXTRACT_FLAG_RPFIX
                || requires_realtarget_in_paths ops)
         then
           r ← lift (call_data (realpath target));
           match r with
           | inl _ => mret WIMLIB_ERR_NOMEM
           | inr p =>
               _ ← modify (fun s => set_ctx (ctx_set_realtarget (Some p) (ctx s)) s);
               mret WIMLIB_ERR_SUCCESS
           end
         else mret WIMLIB_ERR_SUCCESS);
  if failed ret then mret ret else
  _ ← send_progress (if tstring_is_empty wim_source_path
                     then WIMLIB_PROGRESS_MSG_EXTRACT_IMAGE_BEGIN
                     else WIMLIB_PROGRESS_MSG_EXTRACT_TREE_BEGIN);
  s ← get_state;
  ret ← (if negb (root_dentry_is_special (ctx s)) then
           path ← build_extraction_path (dtree_root root);
           match path with
           | Some path =>
               extract_inode path (d_inode (dentries s (dtree_root root)))
           | None => mret WIMLIB_ERR_SUCCESS
           end
         else mret WIMLIB_ERR_SUCCESS);
  if failed ret then mret ret else
  (* If we need to fix up the targets of absolute symbolic links
     (WIMLIB_EXTRACT_FLAG_RPFIX) or the extraction mode requires paths to
     be absolute, use realpath() (or its replacement on Windows) to get
     the absolute path to the extraction target. *)
  s ← get_state;
  ret ← (if negb (bool_decide (is_Some (realtarget (ctx s))))
            && ((has_flag extract_flags WIMLIB_EXTRACT_FLAG_RPFIX
                 && nonzero (symlink_reparse_points (required_features s)))
                || requires_realtarget_in_paths ops)
         then
           r ← lift (call_data (realpath target));
           match r with
           | inl _ => mret WIMLIB_ERR_NOMEM
           | inr p =>
               _ ← modify (fun s => set_ctx (ctx_set_realtarget (Some p) (ctx s)) s);
               mret WIMLIB_ERR_SUCCESS
           end
         else mret WIMLIB_ERR_SUCCESS);
  if failed ret then mret ret else
  (* Finally, the important part: extract the tree of files. *)
  ret ← extract_tree_files root;
  if failed ret then mret ret else
  (* If the total number of bytes to extract was miscalculated, just jump
     to the calculated number in order to avoid confusing the progress
     function.  This should only occur when extracting from a pipe. *)
  s ← get_state;
  _ ← (if has_progress_func (ctx s)
          && (completed_bytes (progress (ctx s)) <? total_bytes (progress (ctx s)))
       then
         _ ← modify (fun s =>
                set_ctx (ctx_set_progress
                           (progress_set_completed_bytes
                              (total_bytes (progress (ctx s))) (progress (ctx s)))
                           (ctx s)) s);
         send_progress WIMLIB_PROGRESS_MSG_EXTRACT_STREAMS
       else mret tt);
  (* Apply security descriptors and timestamps.  This is done at the end,
     and in a depth-first manner, to prevent timestamps from getting
     changed by subsequent extract operations and to minimize the chance
     of the restored security descriptors getting in our way. *)
  _ ← send_progress WIMLIB_PROGRESS_MSG_APPLY_TIMESTAMPS;
  ret ← for_dentry_in_tree_depth root dentry_extract_final;
  if failed ret then mret ret else
  _ ← send_progress (if tstring_is_empty wim_source_path
                     then WIMLIB_PROGRESS_MSG_EXTRACT_IMAGE_END
                     else WIMLIB_PROGRESS_MSG_EXTRACT_TREE_END);
  mret WIMLIB_ERR_SUCCESS.

Definition extract_tree (wim_source_path target : tstring) (extract_flags : Z)
    (has_progress_func : bool) : act wimlib_error_code :=
  (* Translate the path to extract into the corresponding
     `struct wim_dentry', which will be the root of the
     "dentry tree" to extract. *)
  match get_dentry wim_source_path with
  | None =>
      _ ← lift (ERROR "Path does not exist in WIM image");
      mret WIMLIB_ERR_PATH_DOES_NOT_EXIST
  | Some root =>
      (* Start initializing the apply_ctx; select the apply_operations. *)
      _ ← modify (set_ctx (initial_ctx target extract_flags has_progress_func
                             (dtree_root root)));
      s ← get_state;
      let ops := ops (ctx s) in
      (* Call the start_extract() callback. *)
      ret ← lift (call_status (start_extract target));
      _ ← modify (fun s =>
             set_ctx (ctx_set_supported_features
                        (start_extract_features ops target) (ctx s)) s);
      if failed ret then mret ret else
      _ ← dentry_tree_get_features root;
      s ← get_state;
      ret ← lift (do_feature_check (required_features s)
                    (supported_features (ctx s)) extract_flags ops);
      if failed ret then finish_or_abort_extract ret else
      (* Figure out whether the root dentry is being extracted to the root of
         a volume and therefore needs to be treated "specially". *)
      _ ← (if has_target_is_root ops && root_directory_is_special ops then
             r ← lift (call_status (target_is_root target));
             modify (fun s =>
               set_ctx (ctx_set_root_dentry_is_special (failed r) (ctx s)) s)
           else mret tt);
      (* Calculate the actual filename component of each extracted dentry. *)
      ret ← for_dentry_in_tree root dentry_calculate_extraction_path;
      if failed ret then reset_and_finish root ret else
      (* Build the list of the streams that need to be extracted and
         initialize ctx.progress.extract with stream information. *)
      ret ← for_dentry_in_tree root dentry_resolve_and_zero_lte_refcnt;
      if failed ret then reset_and_finish root ret else
      ret ← for_dentry_in_tree root dentry_add_streams_to_extract;
      if failed ret then reset_and_finish root ret else
      _ ← (if has_flag extract_flags WIMLIB_EXTRACT_FLAG_FROM_PIPE then
             modify (fun s =>
               set_ctx (ctx_set_progress
                          (progress_set_total_bytes wim_info_get_image_total_bytes
                             (progress (ctx s))) (ctx s)) s)
           else mret tt);
      (* Handle the special case of extracting a file to standard
         output.  In that case, "root" should be a single file, not a
         directory tree. *)
      if has_flag extract_flags WIMLIB_EXTRACT_FLAG_TO_STDOUT then
        ret ← extract_dentry_to_stdout (dtree_root root);
        reset_and_finish root ret   (* goto out_teardown_stream_list *)
      else
        ret ← extract_tree_body wim_source_path target root;
        reset_and_finish root ret
  end.

(** ** Vocabulary of the statements *)

(** A trace of calls whose result is not looked at. *)
Definition only_tells (t : list io_event) : Prop :=
  forall e, In e t -> exists c, e = EvTell c.

(** The flags a command leaves [check_extract_command] with, bit by bit. *)
Definition validated_bit (flags hdr_flags : Z) (n : Z) : bool :=
  let rp_default :=
    negb (Z.testbit flags (flag_bit RPFIX)) &&
    negb (Z.testbit flags (flag_bit NORPFIX)) &&
    has_flag hdr_flags WIM_HDR_FLAG_RP_FIX in
  let seq_dropped :=
    Z.testbit flags (flag_bit UNIX_DATA) &&
    Z.testbit flags (flag_bit SEQUENTIAL) &&
    negb (Z.testbit flags 30) in
  (Z.testbit flags n || (rp_default && (flag_bit RPFIX =? n)))
  && negb (seq_dropped && (flag_bit SEQUENTIAL =? n)).

Definition linked_cmd (cmd : wimlib_extract_command) : bool :=
  has_flag (cmd_extract_flags cmd)
    (Z.lor WIMLIB_EXTRACT_FLAG_SYMLINK WIMLIB_EXTRACT_FLAG_HARDLINK).

(** The feature check's hard errors, in the words of the specification:
    a strict flag whose feature is required and unsupported (short names,
    timestamps, security descriptors without UNIX_DATA), HARDLINK without
    hard links, SYMLINK without symlink reparse points, UNIX_DATA required
    and unsupported. *)
Definition feature_missing (f : wim_features -> Z) (required supported : wim_features)
  : bool :=
  nonzero (f required) && negb (nonzero (f supported)).

Definition strict_feature_missing (required supported : wim_features)
    (extract_flags : Z) (ops : apply_operations) : bool :=
  (has_flag extract_flags WIMLIB_EXTRACT_FLAG_STRICT_SHORT_NAMES
   && feature_missing short_names required supported)
  || (has_flag extract_flags WIMLIB_EXTRACT_FLAG_STRICT_TIMESTAMPS
      && negb (has_set_timestamps ops))
  || (has_flag extract_flags WIMLIB_EXTRACT_FLAG_STRICT_ACLS
      && negb (has_flag extract_flags WIMLIB_EXTRACT_FLAG_UNIX_DATA)
      && feature_missing security_descriptors required supported).

Definition feature_hard_error (required supported : wim_features)
    (extract_flags : Z) (ops : apply_operations) : bool :=
  strict_feature_missing required supported extract_flags ops
  || (has_flag extract_flags WIMLIB_EXTRACT_FLAG_HARDLINK
      && negb (nonzero (hard_links supported)))
  || (has_flag extract_flags WIMLIB_EXTRACT_FLAG_SYMLINK
      && negb (nonzero (symlink_reparse_points supported)))
  || (has_flag extract_flags WIMLIB_EXTRACT_FLAG_UNIX_DATA
      && feature_missing unix_data required supported).

Definition is_warning (e : io_event) : Prop :=
  exists msg args, e = EvTell (LOG LWARNING msg args).
Definition is_log (e : io_event) : Prop :=
  exists lvl msg args, e = EvTell (LOG lvl msg args).

(** The state in which [extract_tree] runs the feature check: the fresh
    context with the backend's features, and the tally of the tree. *)
Definition state_at_feature_check (target : tstring) (extract_flags : Z)
    (has_progress_func : bool) (root : dtree) (s : state) : state :=
  (run (dentry_tree_get_features root
          (set_ctx (ctx_set_supported_features
                      (start_extract_features
                         (select_apply_operations extract_flags) target)
                      (initial_ctx target extract_flags has_progress_func
                         (dtree_root root))) s)) []).2.2.

(** What may happen before [extract_tree] starts to write: the backend is
    started and asked about the target, streams are resolved, memory is
    allocated, warnings and errors are printed.  And what may happen once
    it has stopped: the backend is told to finish or to abort. *)
Definition prep_event (e : io_event) : Prop :=
  match e with
  | EvCall (start_extract _) _
  | EvCall (target_is_root _) _
  | EvCall (inode_resolve_ltes _ _) _
  | EvCall (REALLOC _) _
  | EvCall (memdup_name _ _) _
  | EvTell (LOG _ _ _) => True
  | _ => False
  end.

Definition end_event (e : io_event) : Prop :=
  match e with
  | EvCall finish_extract _ | EvTell abort_extract => True
  | _ => False
  end.

(** The extraction leaves the inodes alone, never moves a dentry to
    another inode and never renames one. *)
Definition same_image (s s' : state) : Prop :=
  (forall d, d_inode (dentries s' d) = d_inode (dentries s d) /\
             file_name (dentries s' d) = file_name (dentries s d)) /\
  inodes s' = inodes s.

Definition root_inode (root : dtree) (s : state) : wim_inode :=
  inodes s (d_inode (dentries s (dtree_root root))).

(** Computations that call nothing. *)
Definition silent {A} (m : act A) : Prop := forall s, exists r, m s = Ret r.

(** [obeys P R m]: every call of [m] satisfies [P], and [m] takes a state
    to one related to it by [R]. *)
Definition obeys {A} (P : io_event -> Prop) (R : state -> state -> Prop)
    (m : act A) : Prop :=
  forall s, always (m s) (fun t r => Forall P t /\ R s r.2).

(** A property of traces that one more warning in front does not break. *)
Definition warn_closed {A} (Q : list io_event -> A -> Prop) : Prop :=
  forall w t a, is_warning w -> Q t a -> Q (w :: t) a.

(** ** Vocabulary of the planning pass *)

(** The nodes of a tree in the order [for_dentry_in_tree] visits them. *)
Fixpoint dtree_nodes (t : dtree) : list dtree :=
  let 'DNode _ children := t in
  t :: (fix nodes (cs : list dtree) : list dtree :=
          match cs with
          | [] => []
          | c :: cs' => dtree_nodes c ++ nodes cs'
          end) children.

Definition dtree_dentries (t : dtree) : list dentry_id :=
  map dtree_root (dtree_nodes t).

(** What the planning pass reads and never writes. *)
Definition same_plan_inputs (s s' : state) : Prop :=
  dentries s' = dentries s /\ inodes s' = inodes s /\
  extract_flags (ctx s') = extract_flags (ctx s) /\
  supported_features (ctx s') = supported_features (ctx s).

(** The streams of an inode that the planning pass takes a reference to,
    in the order it does: the unnamed stream unless the inode is an
    encrypted directory, then the named streams when they can be
    extracted. *)
Definition named_streams (entries : list wim_ads_entry) : list lte_id :=
  flat_map (fun entry =>
              if ads_entry_is_named_stream entry then option_list (ads_lte entry)
              else []) entries.

Definition streams_referenced (c : apply_ctx) (ino : wim_inode) : list lte_id :=
  (if inode_is_encrypted_directory ino then []
   else option_list (inode_unnamed_lte_resolved ino))
  ++ (if can_extract_named_data_streams c then named_streams (i_ads_entries ino)
      else []).

(** The dentries that contribute references, given those found so far: a
    skipped dentry does not, and where the backend has hard links only the
    first dentry of an inode does. *)
Definition plan_step (s : state) (acc : list dentry_id) (d : dentry_id)
  : list dentry_id :=
  if extraction_skipped (dentries s d) then acc
  else if nonzero (hard_links (supported_features (ctx s)))
          && bool_decide (d_inode (dentries s d)
                            ∈ map (fun d' => d_inode (dentries s d')) acc)
  then acc
  else acc ++ [d].

Definition planned_dentries (s : state) (ds : list dentry_id) : list dentry_id :=
  fold_left (plan_step s) ds [].

Definition references_of (s : state) (ds : list dentry_id) : list lte_id :=
  flat_map (fun d => streams_referenced (ctx s) (inodes s (d_inode (dentries s d))))
    ds.

Definition planned_references (s : state) (root : dtree) : list lte_id :=
  references_of s (planned_dentries s (dtree_dentries root)).

(** What holds between two visits of the planning pass: [visited] lists
    the dentries seen so far, [s0] is the state the pass started in. *)
Definition plan_invariant (s0 : state) (visited : list dentry_id) (s : state)
  : Prop :=
  let acc := planned_dentries s0 visited in
  same_plan_inputs s0 s /\
  (forall i, i_visited s i
             = bool_decide (i ∈ map (fun d => d_inode (dentries s0 d)) acc)) /\
  (forall B, out_refcnt (ltes s B)
             = u32 (out_refcnt (ltes s0 B)
                    + Z.of_nat (count_occ Nat.eq_dec (references_of s0 acc) B))).

(** ** Vocabulary of command validation *)

(** The status [check_extract_command] gives a command, read off its tests
    in order. *)
Definition command_verdict (cmd : wimlib_extract_command) : wimlib_error_code :=
  let given f := Z.testbit (cmd_extract_flags cmd) (flag_bit f) in
  if tstring_is_empty (fs_dest_path cmd)
     || (given SYMLINK && given HARDLINK)
     || (given NO_ACLS && given STRICT_ACLS)
     || (given RPFIX && given NORPFIX)
  then WIMLIB_ERR_INVALID_PARAM
  else if given NTFS && negb WITH_NTFS_3G then WIMLIB_ERR_UNSUPPORTED
  else WIMLIB_ERR_SUCCESS.

(** A list of commands without a mix: none of them asks for SYMLINK or
    HARDLINK, or all of them do. *)
Definition unmixed (cmds : list wimlib_extract_command) : bool :=
  negb (existsb linked_cmd cmds
        && existsb (fun c => negb (linked_cmd c)) cmds).

(** Where the validation loop of [do_wimlib_extract_files] stops in a list
    with a mix, and with what: the commands [checked] before the one it
    stops at are valid and without a mix; the command [c] it stops at is
    either invalid itself, and its verdict is the status, or valid and
    completes the mix, and the status is INVALID_PARAM. *)
Definition first_rejection (cmds : list wimlib_extract_command)
    (ret : wimlib_error_code) : Prop :=
  exists checked c rest,
    cmds = checked ++ c :: rest /\
    Forall (fun c => command_verdict c = WIMLIB_ERR_SUCCESS) checked /\
    unmixed checked = true /\
    if failed (command_verdict c) then ret = command_verdict c
    else unmixed (checked ++ [c]) = false /\ ret = WIMLIB_ERR_INVALID_PARAM.

(** ** Vocabulary of file names *)

Definition allowed_chars (name : list Z) : bool :=
  forallb (fun c => negb (forbidden_char c)) name.

Definition ends_in_space_or_dot (name : list Z) : bool :=
  let last := nth (length name - 1) name 0 in
  (last =? 32) || (last =? 46).

(** The name [dentry_calculate_extraction_path] makes up for a dentry
    whose own name cannot be used: the repaired name in the platform's
    encoding, or the status of the conversion that failed. *)
Definition repaired_name (dentry : wim_dentry) : wimlib_error_code * tstring :=
  let fixed := (file_name_valid (file_name dentry) true).2 in
  if WIN32 then (WIMLIB_ERR_SUCCESS, fixed) else utf16le_to_tstr fixed.

(** Modelled from the spec: the code units that make a filename invalid,
    which are the slash and NUL everywhere and, on Windows, also the
    backslash, the colon, the asterisk, the question mark, the double
    quote, the angle brackets and the vertical bar. *)
Definition spec_offending (c : Z) : bool :=
  bool_decide (c ∈ [47; 0])
  || (WIN32 && bool_decide (c ∈ [92; 58; 42; 63; 34; 60; 62; 124])).

(** Modelled from the spec: a filename is invalid when it holds an
    offending code unit or, on Windows, ends in a space or a dot. *)
Definition spec_invalid_name (name : list Z) : Prop :=
  Exists (fun c => spec_offending c = true) name \/
  (WIN32 = true /\ exists front c, name = front ++ [c] /\ c ∈ [32; 46]).

(** Modelled from the spec: the filename with each offending code unit
    replaced by U+FFFD (Windows) or by a question mark (POSIX); on
    Windows the space or dot a name ends in is replaced as well. *)
Definition spec_replaced_name (name : list Z) : list Z :=
  let replacement := if WIN32 then 0xfffd else 63 in
  let replace c := if spec_offending c then replacement else c in
  match reverse name with
  | c :: front =>
      if WIN32 && bool_decide (c ∈ [32; 46])
      then map replace (reverse front) ++ [replacement]
      else map replace name
  | [] => []
  end.

Definition warning_event (msg : string) : io_event :=
  EvTell (LOG LWARNING msg []).

(** ** Vocabulary of the final pass *)

(** Calls that set security information. *)
Definition security_event (e : io_event) : Prop :=
  match e with
  | EvCall (inode_get_unix_data _) _
  | EvCall (set_unix_data _ _) _
  | EvCall (set_security_descriptor _ _ _) _ => True
  | _ => False
  end.

(** ** Vocabulary of stream extraction *)

(** An event allowed while the copies of one stream are written out from
    the descriptor [ov]: every call that reads stream data names [ov], and
    nothing touches a temporary file. *)
Definition instance_event (ov : wim_lookup_table_entry) (e : io_event) : Prop :=
  match e with
  | EvCall (extract_unnamed_stream _ l) _
  | EvCall (extract_encrypted_stream _ l) _ => l = ov
  | EvCall (extract_named_stream _ _ l) _ => l = Some ov
  | EvData (wim_inode_readlink _ _ l) _
  | EvData (wim_inode_get_reparse_data _ l) _ => l = Some ov
  | EvCall (extract_wim_resource_to_fd _ _ _) _
  | EvCall (topen _) _
  | EvCall (filedes_close _) _
  | EvCall (memdup_lte _) _
  | EvData ttempnam _
  | EvTell (tunlink _) => False
  | _ => True
  end.

(** What writing out the copies of a stream leaves alone. *)
Definition stream_frame (s s' : state) : Prop :=
  in_fd s' = in_fd s /\ lookup_table s' = lookup_table s /\
  ltes s' = ltes s /\ inodes s' = inodes s /\
  stream_list (ctx s') = stream_list (ctx s) /\
  num_streams_remaining (ctx s') = num_streams_remaining (ctx s) /\
  extract_flags (ctx s') = extract_flags (ctx s).

(** The ways [extract_stream_instances] can go when it has to copy the
    stream [e] to a temporary file first: no name, no memory, the file
    cannot be opened, or the file is written, closed, read back for every
    copy and unlinked. *)
Definition tmp_file_trace (e : wim_lookup_table_entry) (t : list io_event)
    (ret : wimlib_error_code) : Prop :=
  (exists err,
     t = [EvData ttempnam (inl err);
          EvTell (LOG LERROR "Failed to create temporary filename" [])] /\
     ret = WIMLIB_ERR_OPEN) \/
  exists name,
    (exists r,
       failed r = true /\
       t = [EvData ttempnam (inr name); EvCall (memdup_lte e) r] /\
       ret = WIMLIB_ERR_NOMEM) \/
    (exists r0 r,
       failed r0 = false /\ failed r = true /\
       t = [EvData ttempnam (inr name); EvCall (memdup_lte e) r0;
            EvCall (topen name) r;
            EvTell (LOG LERROR "Failed to open temporary file" [])] /\
       ret = WIMLIB_ERR_OPEN) \/
    (exists r0 r1 written closed t_copies,
       failed r0 = false /\ failed r1 = false /\
       t = [EvData ttempnam (inr name); EvCall (memdup_lte e) r0;
            EvCall (topen name) r1;
            EvCall (extract_wim_resource_to_fd e (TMP_FILE name)
                      (wim_resource_size e)) written;
            EvCall (filedes_close (TMP_FILE name)) closed]
           ++ t_copies ++ [EvTell (tunlink name)] /\
       Forall (instance_event (lte_set_file_on_disk name e)) t_copies /\
       (failed written || failed closed = true ->
        t_copies = [] /\ failed ret = true)).

(** Every stream descriptor an event hands over satisfies [P]. *)
Definition stream_data_event (P : wim_lookup_table_entry -> Prop) (e : io_event)
  : Prop :=
  match e with
  | EvCall (extract_unnamed_stream _ l) _
  | EvCall (extract_encrypted_stream _ l) _
  | EvCall (extract_wim_resource_to_fd l _ _) _
  | EvCall (extract_named_stream _ _ (Some l)) _
  | EvData (wim_inode_readlink _ _ (Some l)) _
  | EvData (wim_inode_get_reparse_data _ (Some l)) _ => P l
  | _ => True
  end.

Definition not_metadata (l : wim_lookup_table_entry) : Prop :=
  has_flag (re_flags (resource_entry l)) WIM_RESHDR_FLAG_METADATA = false.

(** ** The entry points

    [wimlib_extract_files], [wimlib_extract_image] and
    [wimlib_extract_image_from_pipe] with the functions between them and
    [do_wimlib_extract_files].  Assertions ([wimlib_assert]) are left
    out. *)

Variable Y : entry_constants.

(** An element of [cmds_copy]: the two paths are null until they are
    filled in. *)
Record cmd_copy : Type := {
  copy_wim_source_path : option tstring;
  copy_fs_dest_path : option tstring;
  copy_extract_flags : Z;
}.

(** What [CALLOC] leaves. *)
Definition zero_cmd_copy : cmd_copy :=
  {| copy_wim_source_path := None; copy_fs_dest_path := None;
     copy_extract_flags := 0 |}.

Definition cmd_of_copy (c : cmd_copy) : wimlib_extract_command :=
  {| wim_source_path := default [] (copy_wim_source_path c);
     fs_dest_path := default [] (copy_fs_dest_path c);
     cmd_extract_flags := copy_extract_flags c |}.

(** The loop of [wimlib_extract_files] that fills [cmds_copy]: whether it
    got to the end, [all_flags], and the array. *)
Fixpoint copy_commands (cmds : list wimlib_extract_command)
    (default_extract_flags all_flags : Z) : entry (bool * Z * list cmd_copy) :=
  match cmds with
  | [] => mret (true, all_flags, [])
  | cmd :: rest =>
      let flags :=
        Z.land (Z.lor default_extract_flags (cmd_extract_flags cmd))
          WIMLIB_EXTRACT_MASK_PUBLIC in
      let all_flags := Z.lor all_flags flags in
      let untouched := map (fun _ => zero_cmd_copy) rest in
      src ← enter (canonicalize_wim_path (wim_source_path cmd));
      match src with
      | None =>
          mret (false, all_flags,
                {| copy_wim_source_path := None; copy_fs_dest_path := None;
                   copy_extract_flags := flags |} :: untouched)
      | Some _ =>
          dst ← enter (canonicalize_fs_path (fs_dest_path cmd));
          match dst with
          | None =>
              mret (false, all_flags,
                    {| copy_wim_source_path := src; copy_fs_dest_path := None;
                       copy_extract_flags := flags |} :: untouched)
          | Some _ =>
              '(ok, all_flags, copies) ←
                 copy_commands rest default_extract_flags all_flags;
              mret (ok, all_flags,
                    {| copy_wim_source_path := src; copy_fs_dest_path := dst;
                       copy_extract_flags := flags |} :: copies)
          end
      end
  end.

(** [out_free_cmds_copy] *)
Fixpoint free_commands (copies : list cmd_copy) : entry unit :=
  match copies with
  | [] => mret tt
  | c :: rest =>
      _ ← enter (FREE (copy_wim_source_path c));
      _ ← enter (FREE (copy_fs_dest_path c));
      free_commands rest
  end.

Definition wimlib_extract_files (image : Z) (cmds : list wimlib_extract_command)
    (default_extract_flags : Z) (num_additional_swms : Z)
  : entry wimlib_error_code :=
  let default_extract_flags :=
    Z.land default_extract_flags WIMLIB_EXTRACT_MASK_PUBLIC in
  ret ← enter (verify_swm_set num_additional_swms);
  if failed ret then mret ret else
  if (length cmds =? 0)%nat then mret ret else
  _ ← (if nonzero num_additional_swms
       then enter (merge_lookup_tables num_additional_swms) else mret tt);
  cmds_copy ← enter (CALLOC (Z.of_nat (length cmds)));
  ret ← (if negb cmds_copy then mret WIMLIB_ERR_NOMEM else
         '(ok, all_flags, copies) ←
            copy_commands cmds default_extract_flags 0;
         ret ← (if negb ok then mret WIMLIB_ERR_NOMEM else
                ret ← enter (do_wimlib_extract_files_call image
                               (map cmd_of_copy copies));
                _ ← (if has_flag all_flags
                          (Z.lor WIMLIB_EXTRACT_FLAG_SYMLINK
                             WIMLIB_EXTRACT_FLAG_HARDLINK)
                     then enter for_lookup_table_entry_lte_free_extracted_file
                     else mret tt);
                mret ret);
         (* out_free_cmds_copy *)
         _ ← free_commands copies;
         _ ← enter FREE_cmds_copy;
         mret ret);
  (* out_restore_lookup_table *)
  _ ← (if nonzero num_additional_swms
       then enter unmerge_lookup_table else mret tt);
  mret ret.

Definition extract_single_image (image : Z) (target : tstring)
    (extract_flags : Z) : entry wimlib_error_code :=
  target_copy ← enter (canonicalize_fs_path target);
  match target_copy with
  | None => mret WIMLIB_ERR_NOMEM
  | Some path =>
      let cmd := {| wim_source_path := [];
                    fs_dest_path := path;
                    cmd_extract_flags := extract_flags |} in
      ret ← enter (do_wimlib_extract_files_call image [cmd]);
      _ ← enter (FREE target_copy);
      mret ret
  end.

(** The characters [filename_forbidden_chars] lists: less-than,
    greater-than, colon, double quote, slash, backslash, bar, question mark
    and star on Windows, the slash elsewhere. *)
Definition filename_forbidden_chars : tstring :=
  if WIN32 then [60; 62; 58; 34; 47; 92; 124; 63; 42] else [47].

(** [tstrpbrk(s, accept) != NULL] *)
Definition tstrpbrk (s accept : tstring) : bool :=
  existsb (fun c => existsb (Z.eqb c) accept) s.

(** This function checks if it is okay to use a WIM image's name as a
    directory name. *)
Definition image_name_ok_as_dir (image_name : option tstring) : bool :=
  match image_name with
  | None => false
  | Some n =>
      negb (tstring_is_empty n)
      && negb (tstrpbrk n filename_forbidden_chars)
      && negb (bool_decide (n = [46]))
      && negb (bool_decide (n = [46; 46]))
  end.

(** [tsprintf(..., T("%d"), image)] for an image number *)
Definition image_number_chars (image : Z) : tstring :=
  tstr (DecimalString.NilZero.string_of_uint (N.to_uint (Z.to_N image))).

(** The loop of [extract_all_images], [count] images from [image] on. *)
Fixpoint extract_images_from (count : nat) (image : Z) (target : tstring)
    (extract_flags : Z) : entry wimlib_error_code :=
  match count with
  | O => mret WIMLIB_ERR_SUCCESS
  | S count' =>
      image_name ← enter (wimlib_get_image_name image);
      let subdir :=
        if image_name_ok_as_dir image_name then default [] image_name
        else
          (* Image name is empty or contains forbidden characters.
             Use image number instead. *)
          image_number_chars image in
      ret ← extract_single_image image
              (target ++ [OS_PREFERRED_PATH_SEPARATOR Y] ++ subdir)
              extract_flags;
      if failed ret then mret ret
      else extract_images_from count' (image + 1) target extract_flags
  end.

(** Extracts all images from the WIM to the directory [target], with the
    images placed in subdirectories named by their image names. *)
Definition extract_all_images (hdr_image_count : Z) (target : tstring)
    (extract_flags : Z) : entry wimlib_error_code :=
  let extract_flags := Z.lor extract_flags WIMLIB_EXTRACT_FLAG_MULTI_IMAGE in
  if has_flag extract_flags WIMLIB_EXTRACT_FLAG_NTFS then
    _ ← enter (ERROR_call "Cannot extract multiple images in NTFS extraction mode.");
    mret WIMLIB_ERR_INVALID_PARAM
  else
  stbuf ← enter (tstat target);
  ret ← match stbuf with
        | stat_failed true =>
            made ← enter (tmkdir target);
            if negb made then
              _ ← enter (ERROR_call "Failed to create directory");
              mret WIMLIB_ERR_MKDIR
            else mret WIMLIB_ERR_SUCCESS
        | stat_failed false =>
            _ ← enter (ERROR_call "Failed to stat");
            mret WIMLIB_ERR_STAT
        | stat_ok false =>
            _ ← enter (ERROR_call "is not a directory");
            mret WIMLIB_ERR_NOTDIR
        | stat_ok true => mret WIMLIB_ERR_SUCCESS
        end;
  if failed ret then mret ret else
  extract_images_from (Z.to_nat hdr_image_count) 1 target extract_flags.

Definition do_wimlib_extract_image (hdr_image_count : Z) (image : Z)
    (target : tstring) (extract_flags : Z) (num_additional_swms : Z)
  : entry wimlib_error_code :=
  ret ← (if has_flag extract_flags WIMLIB_EXTRACT_FLAG_FROM_PIPE
         then mret WIMLIB_ERR_SUCCESS
         else
           ret ← enter (verify_swm_set num_additional_swms);
           if failed ret then mret ret else
           _ ← (if nonzero num_additional_swms
                then enter (merge_lookup_tables num_additional_swms)
                else mret tt);
           mret WIMLIB_ERR_SUCCESS);
  if failed ret then mret ret else
  ret ← (if image =? WIMLIB_ALL_IMAGES Y
         then extract_all_images hdr_image_count target extract_flags
         else extract_single_image image target extract_flags);
  _ ← (if has_flag extract_flags
            (Z.lor WIMLIB_EXTRACT_FLAG_SYMLINK WIMLIB_EXTRACT_FLAG_HARDLINK)
       then enter for_lookup_table_entry_lte_free_extracted_file
       else mret tt);
  _ ← (if nonzero num_additional_swms
       then enter unmerge_lookup_table else mret tt);
  mret ret.

Definition wimlib_extract_image (hdr_image_count : Z) (image : Z)
    (target : tstring) (extract_flags : Z) (num_additional_swms : Z)
  : entry wimlib_error_code :=
  let extract_flags := Z.land extract_flags WIMLIB_EXTRACT_MASK_PUBLIC in
  do_wimlib_extract_image hdr_image_count image target extract_flags
    num_additional_swms.

(** The loop of [wimlib_extract_image_from_pipe] that loads the metadata
    resources, [count] of them from image [i] on. *)
Fixpoint load_metadata_resources (count : nat) (i : Z) (image : Z)
  : entry wimlib_error_code :=
  match count with
  | O => mret WIMLIB_ERR_SUCCESS
  | S count' =>
      metadata_lte ← enter new_lookup_table_entry_call;
      if negb metadata_lte then mret WIMLIB_ERR_NOMEM else
      '(ret, flags) ← enter read_pwm_stream_header_call;
      if failed ret then mret ret else
      if negb (has_flag flags WIM_RESHDR_FLAG_METADATA) then
        _ ← enter (ERROR_call "Expected metadata resource, but found non-metadata stream.");
        mret WIMLIB_ERR_INVALID_PIPABLE_WIM
      else
      ret ← (if i =? image
             then
               (* Metadata resource is for the images being extracted. *)
               enter (read_metadata_resource i)
             else
               (* Skip over it. *)
               enter (skip_pwm_stream_call i));
      if failed ret then mret ret
      else load_metadata_resources count' (i + 1) image
  end.

(** What [wimlib_extract_image_from_pipe] does between opening the WIM
    and freeing it. *)
Definition extract_image_from_open_pipe (hdr : pipable_header)
    (image_num_or_name : option tstring) (target : tstring) (extract_flags : Z)
  : entry wimlib_error_code :=
  (* Sanity check to make sure this is a pipable WIM. *)
  if negb (magic hdr =? PWM_MAGIC) then
    _ ← enter (ERROR_call "The WIM being read is not pipable!");
    mret WIMLIB_ERR_NOT_PIPABLE
  else
  if negb (part_number hdr =? 1) then
    _ ← enter (ERROR_call "The first part of the split WIM must be sent over the pipe first.");
    mret WIMLIB_ERR_INVALID_PIPABLE_WIM
  else
  '(ret, flags) ← enter read_pwm_stream_header_call;
  if failed ret then mret ret else
  if negb (has_flag flags WIM_RESHDR_FLAG_METADATA) then
    _ ← enter (ERROR_call "Expected XML data, but found non-metadata stream.");
    mret WIMLIB_ERR_INVALID_PIPABLE_WIM
  else
  ret ← enter read_wim_xml_data;
  if failed ret then mret ret else
  num_images ← enter wim_info_get_num_images;
  if negb (num_images =? image_count hdr) then
    _ ← enter (ERROR_call "Image count in XML data is not the same as in WIM header.");
    mret WIMLIB_ERR_XML
  else
  (* Get image index. *)
  resolved ←
    match image_num_or_name with
    | Some s =>
        image ← enter (wimlib_resolve_image s);
        if image =? WIMLIB_NO_IMAGE Y then
          _ ← enter (ERROR_call "is not a valid image in the pipable WIM!");
          mret (WIMLIB_ERR_INVALID_IMAGE, image)
        else if image =? WIMLIB_ALL_IMAGES Y then
          _ ← enter (ERROR_call "Applying all images from a pipe is not supported.");
          mret (WIMLIB_ERR_INVALID_IMAGE, image)
        else mret (WIMLIB_ERR_SUCCESS, image)
    | None =>
        if negb (image_count hdr =? 1) then
          _ ← enter (ERROR_call "No image was specified, but the pipable WIM did not contain exactly 1 image");
          mret (WIMLIB_ERR_INVALID_IMAGE, 0)
        else mret (WIMLIB_ERR_SUCCESS, 1)
    end;
  let '(ret, image) := resolved in
  if failed ret then mret ret else
  (* Load the needed metadata resource. *)
  ret ← load_metadata_resources (Z.to_nat (image_count hdr)) 1 image;
  if failed ret then mret ret else
  (* Extract the image. *)
  let extract_flags := Z.lor extract_flags WIMLIB_EXTRACT_FLAG_FROM_PIPE in
  do_wimlib_extract_image (image_count hdr) image target extract_flags 0.

Definition wimlib_extract_image_from_pipe (image_num_or_name : option tstring)
    (target : tstring) (extract_flags : Z) : entry wimlib_error_code :=
  let extract_flags := Z.land extract_flags WIMLIB_EXTRACT_MASK_PUBLIC in
  if has_flag extract_flags WIMLIB_EXTRACT_FLAG_TO_STDOUT
  then mret WIMLIB_ERR_INVALID_PARAM else
  let extract_flags := Z.lor extract_flags WIMLIB_EXTRACT_FLAG_SEQUENTIAL in
  '(ret, hdr) ← enter (open_wim_as_WIMStruct
                         (Z.lor (WIMLIB_OPEN_FLAG_FROM_PIPE Y)
                            (WIMLIB_OPEN_FLAG_SPLIT_OK Y)));
  if failed ret then mret ret else
  ret ← extract_image_from_open_pipe hdr image_num_or_name target extract_flags;
  (* Clean up and return. *)
  _ ← enter wimlib_free;
  mret ret.

(** *** Vocabulary of the statements about the entry points *)

(** The merges ([true]) and unmerges ([false]) of a trace, in order. *)
Definition table_events (t : list entry_event) : list bool :=
  flat_map (fun e => match e with
                     | Entered (merge_lookup_tables _) _ => [true]
                     | Entered unmerge_lookup_table _ => [false]
                     | _ => []
                     end) t.

(** The strings that the two canonicalize functions allocated, and the
    pointers other than null that were freed, in order. *)
Definition allocated_paths (t : list entry_event) : list tstring :=
  flat_map (fun e => match e with
                     | Entered (canonicalize_wim_path _) r => option_list r
                     | Entered (canonicalize_fs_path _) r => option_list r
                     | _ => []
                     end) t.

Definition freed_paths (t : list entry_event) : list tstring :=
  flat_map (fun e => match e with
                     | Entered (FREE p) _ => option_list p
                     | _ => []
                     end) t.

(** The calls of [do_wimlib_extract_files]: image and commands. *)
Definition extractions (t : list entry_event)
  : list (Z * list wimlib_extract_command) :=
  flat_map (fun e => match e with
                     | Entered (do_wimlib_extract_files_call image cmds) _ =>
                         [(image, cmds)]
                     | _ => []
                     end) t.

(** The paths handed to [canonicalize_fs_path]. *)
Definition destinations (t : list entry_event) : list tstring :=
  flat_map (fun e => match e with
                     | Entered (canonicalize_fs_path p) _ => [p]
                     | _ => []
                     end) t.

Definition frees_of_wim (t : list entry_event) : nat :=
  length (flat_map (fun e => match e with
                             | Entered wimlib_free _ => [tt]
                             | _ => []
                             end) t).

(** A name for the directory of an image that stays below the target:
    not empty, not [.] or [..], and without a forbidden character. *)
Definition safe_component (n : tstring) : Prop :=
  n <> [] /\ n <> [46] /\ n <> [46; 46] /\
  Forall (fun c => c ∉ filename_forbidden_chars) n.

(** The decimal digits. *)
Definition is_digit (c : Z) : Prop := 48 <= c <= 57.

(** The images whose name was asked for, with the answers, in order. *)
Definition image_names_asked (t : list entry_event) : list (Z * option tstring) :=
  flat_map (fun e => match e with
                     | Entered (wimlib_get_image_name image) r =>
                         [((image, r) : Z * option tstring)]
                     | _ => []
                     end) t.

(** An image name that can be the name of a directory: not empty, not
    [.] or [..], and without a forbidden character. *)
Definition usable_as_dir (n : tstring) : Prop :=
  tstring_is_empty n = false /\ n <> [46] /\ n <> [46; 46] /\
  Forall (fun c => c ∉ filename_forbidden_chars) n.

(** The directory of an image below the target: its name when it has one
    that is usable, its number in decimal otherwise. *)
Definition image_directory (image : Z) (name : option tstring)
    (subdir : tstring) : Prop :=
  (exists n, name = Some n /\ usable_as_dir n /\ subdir = n) \/
  ((forall n, name = Some n -> ~ usable_as_dir n) /\
   subdir = image_number_chars image /\ Forall is_digit subdir).

(** A part of a trace that touches neither the lookup tables nor the WIM
    and runs no extraction. *)
Definition plain_trace (t : list entry_event) : Prop :=
  table_events t = [] /\ frees_of_wim t = 0%nat /\ extractions t = [].

(** The strings an array of copied commands points at. *)
Definition copy_paths (copies : list cmd_copy) : list tstring :=
  flat_map (fun c => option_list (copy_wim_source_path c)
                     ++ option_list (copy_fs_dest_path c)) copies.

(** The images [image], [image + 1], ... up to [count] of them. *)
Definition images_from (image : Z) (count : nat) : list Z :=
  map (fun j => image + Z.of_nat j) (seq 0 count).


(** A part of a trace without any of the events the statements about the
    entry points look at. *)
Definition silent_trace (t : list entry_event) : Prop :=
  table_events t = [] /\ frees_of_wim t = 0%nat /\ freed_paths t = [] /\
  allocated_paths t = [] /\ destinations t = [] /\ extractions t = [].

(** *** Vocabulary of the extraction to standard output *)

Definition is_error (e : io_event) : Prop :=
  exists msg args, e = EvTell (LOG LERROR msg args).

(** A call of the preparation that failed, with the status [extract_tree]
    returns for it: that of [start_extract] or [inode_resolve_ltes], NOMEM
    for an allocation. *)
Definition failing_call (ret : wimlib_error_code) (e : io_event) : Prop :=
  match e with
  | EvCall (start_extract _) status
  | EvCall (inode_resolve_ltes _ _) status =>
      failed status = true /\ ret = status
  | EvCall (REALLOC _) status
  | EvCall (memdup_name _ _) status =>
      failed status = true /\ ret = WIMLIB_ERR_NOMEM
  | _ => False
  end.

(** Why the preparation of [extract_tree] ended with the status [ret]: a
    call in its trace [t] failed; or the feature check printed an error
    and gave UNSUPPORTED; or the name of one of the dentries [ds], as it
    is in the image [s] or with its invalid characters replaced, could not
    be converted. *)
Definition prep_failure (s : state) (ds : list dentry_id) (t : list io_event)
    (ret : wimlib_error_code) : Prop :=
  Exists (failing_call ret) t \/
  (ret = WIMLIB_ERR_UNSUPPORTED /\ Exists is_error t) \/
  (WIN32 = false /\
   exists d name,
     In d ds /\
     (name = file_name (dentries s d) \/
      name = (file_name_valid (file_name (dentries s d)) true).2) /\
     ret = (utf16le_to_tstr name).1).

(** How [extract_tree] ends once it has the status [status]: after a
    failure with [abort_extract], if the backend has it, and the same
    status; otherwise with [finish_extract], if the backend has it, whose
    status it returns. *)
Definition extraction_end (status : wimlib_error_code) (t_end : list io_event)
    (ret : wimlib_error_code) : Prop :=
  if failed status then
    ret = status /\ (t_end = [] \/ t_end = [EvTell abort_extract])
  else
    (t_end = [] /\ ret = status) \/ t_end = [EvCall finish_extract ret].

(** What a run of [extract_tree] with TO_STDOUT looks like from outside:
    preparation, then at most one event on standard output, then the end
    of the extraction.  Either the preparation failed, for one of the
    reasons above, and nothing is written; or the root dentry was looked
    at in a state [s_out] that still describes the image: a directory or
    reparse point gives one error message and NOT_A_REGULAR_FILE, any
    other root has its unnamed stream, if it has one, written to standard
    output, and the status of that is the status the extraction ends
    with. *)
Definition stdout_outcome (root : dtree) (s : state) (t : list io_event)
    (ret : wimlib_error_code) : Prop :=
  exists t_prep t_out t_end,
    t = t_prep ++ t_out ++ t_end /\
    Forall prep_event t_prep /\ Forall end_event t_end /\
    ((t_out = [] /\ failed ret = true /\
      prep_failure s (dtree_dentries root) t_prep ret) \/
     exists s_out status,
       same_image s s_out /\ extraction_end status t_end ret /\
       if has_flag (i_attributes (root_inode root s))
            (Z.lor FILE_ATTRIBUTE_REPARSE_POINT FILE_ATTRIBUTE_DIRECTORY)
       then
         t_out = [EvTell (LOG LERROR
                    "not a regular file and therefore cannot be extracted to standard output"
                    [])] /\
         status = WIMLIB_ERR_NOT_A_REGULAR_FILE
       else
         match inode_unnamed_lte_resolved (root_inode root s_out) with
         | Some lte =>
             t_out = [EvCall (extract_wim_resource_to_fd (ltes s_out lte)
                                STDOUT_FILENO
                                (wim_resource_size (ltes s_out lte))) status]
         | None => t_out = [] /\ status = WIMLIB_ERR_SUCCESS
         end).


(** *** Vocabulary of the claims about the planning pass *)

Definition not_skipped (s : state) (d : dentry_id) : Prop :=
  extraction_skipped (dentries s d) = false.
#[global] Instance not_skipped_dec s d : Decision (not_skipped s d) :=
  decide (extraction_skipped (dentries s d) = false).

(** Modelled from the spec: the blobs of the pairs (d, s) of a dentry [d]
    of the tree that is not skipped and a stream [s] of its inode, the
    unnamed stream and every named one. *)
Definition spec_references (s : state) (root : dtree) : list lte_id :=
  flat_map (fun d =>
              let ino := inodes s (d_inode (dentries s d)) in
              option_list (inode_unnamed_lte_resolved ino)
              ++ named_streams (i_ads_entries ino))
    (filter (not_skipped s) (dtree_dentries root)).

(** The conditions under which the planning pass counts every such pair:
    no inode is counted for one dentry only (the backend has no hard
    links, or no two dentries that are not skipped share an inode), named
    streams are extracted, and no dentry that is not skipped is an
    encrypted directory. *)
Definition every_pair_counted (s : state) (root : dtree) : Prop :=
  (nonzero (hard_links (supported_features (ctx s))) = false \/
   NoDup (map (fun d => d_inode (dentries s d))
            (filter (not_skipped s) (dtree_dentries root)))) /\
  can_extract_named_data_streams (ctx s) = true /\
  forall d, In d (dtree_dentries root) -> not_skipped s d ->
    inode_is_encrypted_directory (inodes s (d_inode (dentries s d))) = false.

(** ** Vocabulary of the claim about the pipe *)

(** The answers [run p env] has not used. *)
Fixpoint leftover {A : Type} (p : prog A) (env : list answer) : list answer :=
  match p with
  | Ret _ => env
  | Call _ k => leftover (k (answer_status (head env))) (tail env)
  | CallData _ k => leftover (k (answer_data (head env))) (tail env)
  | Tell _ k => leftover k env
  end.


(** * Properties *)

(** ** Executions *)

Lemma always_mono {A} (p : prog A) (Q Q' : list io_event -> A -> Prop) :
  (forall t a, Q t a -> Q' t a) -> always p Q -> always p Q'.
Proof.
  revert Q Q'. induction p as [a|c k IH|c k IH|c k IH]; simpl; intros Q Q' HQ Hp.
  - auto.
  - intros r. eapply IH; [|apply Hp]. simpl. auto.
  - intros r. eapply IH; [|apply Hp]. simpl. auto.
  - eapply IH; [|apply Hp]. simpl. auto.
Qed.

Lemma always_bind {A B} (p : prog A) (f : A -> prog B)
    (Q : list io_event -> B -> Prop) :
  always p (fun t a => always (f a) (fun t' b => Q (t ++ t') b)) ->
  always (prog_bind p f) Q.
Proof.
  revert Q. induction p as [a|c k IH|c k IH|c k IH]; simpl; intros Q Hp.
  - exact Hp.
  - intros r. apply IH. apply Hp.
  - intros r. apply IH. apply Hp.
  - apply IH. apply Hp.
Qed.

Lemma always_run {A} (p : prog A) (Q : list io_event -> A -> Prop) env :
  always p Q -> Q (run p env).1 (run p env).2.
Proof.
  revert Q env. induction p as [a|c k IH|c k IH|c k IH]; simpl; intros Q env Hp.
  - exact Hp.
  - specialize (IH _ _ (tail env) (Hp (answer_status (head env)))).
    destruct (run _ _); exact IH.
  - specialize (IH _ _ (tail env) (Hp (answer_data (head env)))).
    destruct (run _ _); exact IH.
  - specialize (IH _ env Hp). destruct (run _ _); exact IH.
Qed.

Lemma failed_false ret : failed ret = false -> ret = WIMLIB_ERR_SUCCESS.
Proof. by destruct ret. Qed.

Lemma silent_run {A} (m : act A) s : silent m -> m s = Ret (run (m s) []).2.
Proof. intros H. destruct (H s) as [r ->]. done. Qed.

Lemma silent_ret {A} (a : A) : silent (mret a).
Proof. intros s. by eexists. Qed.

Lemma silent_bind {A B} (m : act A) (f : A -> act B) :
  silent m -> (forall a, silent (f a)) -> silent (m ≫= f).
Proof.
  intros Hm Hf s. unfold mbind, act_mbind. destruct (Hm s) as [[a s'] ->].
  simpl. apply Hf.
Qed.

Lemma silent_modify f : silent (modify f).
Proof. intros s. by eexists. Qed.

Lemma dtree_induction (P : dtree -> Prop) :
  (forall d children, Forall P children -> P (DNode d children)) ->
  forall t, P t.
Proof.
  intros H. fix IH 1. intros [d children]. apply H.
  induction children as [|c cs IHcs]; constructor; [apply IH|apply IHcs].
Qed.

Lemma silent_for_dentry_in_tree root visitor :
  (forall node, silent (visitor node)) -> silent (for_dentry_in_tree root visitor).
Proof.
  intros Hv. induction root as [d children IH] using dtree_induction.
  cbn [for_dentry_in_tree]. apply silent_bind; [apply Hv|].
  intros ret. destruct (failed ret); [apply silent_ret|].
  induction IH as [|c cs Hc _ IHcs]; [apply silent_ret|].
  apply silent_bind; [exact Hc|].
  intros ret'. destruct (failed ret'); [apply silent_ret|exact IHcs].
Qed.

Lemma silent_dentry_tree_get_features root : silent (dentry_tree_get_features root).
Proof.
  unfold dentry_tree_get_features.
  apply silent_bind; [apply silent_modify|]. intros _.
  apply silent_bind.
  { apply silent_for_dentry_in_tree. intros node.
    unfold dentry_tally_features.
    apply silent_bind; [apply silent_modify|]. intros _. apply silent_ret. }
  intros _. apply silent_bind.
  { apply silent_for_dentry_in_tree. intros node.
    unfold dentry_clear_inode_visited.
    apply silent_bind; [apply silent_modify|]. intros _. apply silent_ret. }
  intros _. apply silent_ret.
Qed.

Ltac act_unfold :=
  unfold mbind, mret, act_mbind, act_ret, prog_mbind, prog_ret,
    get_state, modify, lift, call_status, call_data, tell.

Section Obeys.
Context (P : io_event -> Prop) (R : state -> state -> Prop).
Context (R_refl : forall s, R s s).
Context (R_trans : forall s1 s2 s3, R s1 s2 -> R s2 s3 -> R s1 s3).

Lemma obeys_ret {A} (a : A) : obeys P R (mret a).
Proof. intros s. simpl. auto. Qed.

Lemma obeys_bind {A B} (m : act A) (f : A -> act B) :
  obeys P R m -> (forall a, obeys P R (f a)) -> obeys P R (m ≫= f).
Proof.
  intros Hm Hf s. unfold mbind, act_mbind. apply always_bind.
  eapply always_mono; [|apply Hm]. intros t [a s'] [Ht HR]. simpl in HR.
  eapply always_mono; [|apply Hf]. intros t' r [Ht' HR']. split.
  - by apply Forall_app.
  - eauto.
Qed.

Lemma obeys_get_state : obeys P R get_state.
Proof. intros s. simpl. auto. Qed.

Lemma obeys_modify f : (forall s, R s (f s)) -> obeys P R (modify f).
Proof. intros Hf s. simpl. auto. Qed.

Lemma obeys_lift {A} (p : prog A) :
  always p (fun t _ => Forall P t) -> obeys P R (lift p).
Proof.
  intros Hp s. unfold lift. apply always_bind.
  eapply always_mono; [|exact Hp]. intros t a Ht. simpl.
  rewrite app_nil_r. auto.
Qed.

Lemma obeys_call c :
  (forall r, P (EvCall c r)) -> obeys P R (lift (call_status c)).
Proof. intros Hc. apply obeys_lift. simpl. intros r. repeat constructor. apply Hc. Qed.

Lemma obeys_call_data c :
  (forall r, P (EvData c r)) -> obeys P R (lift (call_data c)).
Proof. intros Hc. apply obeys_lift. simpl. intros r. repeat constructor. apply Hc. Qed.

Lemma obeys_tell c : P (EvTell c) -> obeys P R (lift (tell c)).
Proof. intros Hc. apply obeys_lift. simpl. repeat constructor. apply Hc. Qed.

Lemma obeys_WARNING msg : P (EvTell (LOG LWARNING msg [])) -> obeys P R (lift (WARNING msg)).
Proof. intros Hc. apply obeys_lift. simpl. repeat constructor. apply Hc. Qed.

Lemma obeys_ERROR msg : P (EvTell (LOG LERROR msg [])) -> obeys P R (lift (ERROR msg)).
Proof. intros Hc. apply obeys_lift. simpl. repeat constructor. apply Hc. Qed.

End Obeys.

(** ** Flag arithmetic *)

Lemma all_extract_flags_complete f : In f all_extract_flags.
Proof. destruct f; simpl; tauto. Qed.

Lemma flag_bit_range f : 0 <= flag_bit f < 30.
Proof.
  unfold flag_layout_ok in flag_bits_valid.
  rewrite forallb_forall in flag_bits_valid.
  specialize (flag_bits_valid f (all_extract_flags_complete f)).
  apply andb_prop in flag_bits_valid as [H _].
  apply andb_prop in H as [H1 H2]. lia.
Qed.

Lemma flag_bit_inj f g : flag_bit f = flag_bit g -> f = g.
Proof.
  intros Hfg. unfold flag_layout_ok in flag_bits_valid.
  rewrite forallb_forall in flag_bits_valid.
  specialize (flag_bits_valid f (all_extract_flags_complete f)).
  apply andb_prop in flag_bits_valid as [_ H].
  rewrite forallb_forall in H.
  specialize (H g (all_extract_flags_complete g)).
  apply orb_prop in H as [H|H].
  - apply negb_true_iff in H. lia.
  - by apply bool_decide_eq_true in H.
Qed.

Lemma land_pow2 x k :
  0 <= k -> Z.land x (2 ^ k) = if Z.testbit x k then 2 ^ k else 0.
Proof.
  intros Hk. apply Z.bits_inj'. intros n Hn.
  rewrite Z.land_spec, Z.pow2_bits_eqb by lia.
  destruct (Z.eqb_spec k n) as [->|Hne].
  - destruct (Z.testbit x n) eqn:E; simpl.
    + rewrite Z.pow2_bits_eqb, Z.eqb_refl by lia. done.
    + by rewrite Z.bits_0.
  - rewrite andb_false_r. destruct (Z.testbit x k).
    + rewrite Z.pow2_bits_eqb by lia. symmetry. by apply Z.eqb_neq.
    + by rewrite Z.bits_0.
Qed.

Lemma has_flag_pow2 x k : 0 <= k -> has_flag x (2 ^ k) = Z.testbit x k.
Proof.
  intros Hk. unfold has_flag. rewrite land_pow2 by done.
  destruct (Z.testbit x k); [|done].
  assert (0 < 2 ^ k) by (apply Z.pow_pos_nonneg; lia).
  apply negb_true_iff, Z.eqb_neq. lia.
Qed.

Lemma has_flag_FLAG x f : has_flag x (FLAG f) = Z.testbit x (flag_bit f).
Proof. apply has_flag_pow2, flag_bit_range. Qed.

Lemma has_flag_lor x m1 m2 :
  has_flag x (Z.lor m1 m2) = has_flag x m1 || has_flag x m2.
Proof.
  unfold has_flag. rewrite Z.land_lor_distr_r.
  destruct (Z.eqb_spec (Z.land x m1) 0) as [->|H1]; simpl.
  - by rewrite Z.lor_0_l.
  - apply negb_true_iff, Z.eqb_neq. intros H0.
    apply Z.lor_eq_0_iff in H0. tauto.
Qed.

Lemma both_flags_pow2 x a b :
  0 <= a -> 0 <= b ->
  (Z.land x (Z.lor (2 ^ a) (2 ^ b)) =? Z.lor (2 ^ a) (2 ^ b))
  = Z.testbit x a && Z.testbit x b.
Proof.
  intros Ha Hb. rewrite Z.land_lor_distr_r, !land_pow2 by done.
  assert (0 < 2 ^ a) by (apply Z.pow_pos_nonneg; lia).
  assert (0 < 2 ^ b) by (apply Z.pow_pos_nonneg; lia).
  destruct (Z.testbit x a) eqn:Ea, (Z.testbit x b) eqn:Eb;
    cbv beta iota; cbn [andb].
  - apply Z.eqb_refl.
  - rewrite ?Z.lor_0_r. apply Z.eqb_neq. intros Heq.
    assert (Hbit : Z.testbit (2 ^ a) b = true).
    { rewrite Heq, Z.lor_spec, !Z.pow2_bits_eqb, Z.eqb_refl by lia.
      apply orb_true_r. }
    rewrite Z.pow2_bits_eqb in Hbit by lia.
    apply Z.eqb_eq in Hbit. congruence.
  - rewrite ?Z.lor_0_l. apply Z.eqb_neq. intros Heq.
    assert (Hbit : Z.testbit (2 ^ b) a = true).
    { rewrite Heq, Z.lor_spec, !Z.pow2_bits_eqb, Z.eqb_refl by lia. done. }
    rewrite Z.pow2_bits_eqb in Hbit by lia.
    apply Z.eqb_eq in Hbit. congruence.
  - rewrite ?Z.lor_0_l. apply Z.eqb_neq. intros Heq. symmetry in Heq.
    apply Z.lor_eq_0_iff in Heq. lia.
Qed.

Lemma both_flags x f g :
  (Z.land x (Z.lor (FLAG f) (FLAG g)) =? Z.lor (FLAG f) (FLAG g))
  = Z.testbit x (flag_bit f) && Z.testbit x (flag_bit g).
Proof. apply both_flags_pow2; apply flag_bit_range. Qed.

Lemma no_flags x f g :
  (Z.land x (Z.lor (FLAG f) (FLAG g)) =? 0)
  = negb (Z.testbit x (flag_bit f)) && negb (Z.testbit x (flag_bit g)).
Proof.
  pose proof (has_flag_lor x (FLAG f) (FLAG g)) as H.
  rewrite !has_flag_FLAG in H. unfold has_flag in H.
  rewrite <- negb_orb, <- H. by rewrite negb_involutive.
Qed.

Lemma testbit_set_flag x f n :
  0 <= n ->
  Z.testbit (Z.lor x (FLAG f)) n = Z.testbit x n || (flag_bit f =? n).
Proof.
  intros Hn. unfold FLAG.
  rewrite Z.lor_spec, Z.pow2_bits_eqb; [done|apply flag_bit_range].
Qed.

Lemma testbit_clear_flag x f n :
  0 <= n ->
  Z.testbit (Z.land x (Z.lnot (FLAG f))) n
  = Z.testbit x n && negb (flag_bit f =? n).
Proof.
  intros Hn. unfold FLAG.
  rewrite Z.land_spec, Z.lnot_spec, Z.pow2_bits_eqb;
    [done|apply flag_bit_range|done].
Qed.

Lemma has_flag_FROM_PIPE x :
  has_flag x WIMLIB_EXTRACT_FLAG_FROM_PIPE = Z.testbit x 30.
Proof. change WIMLIB_EXTRACT_FLAG_FROM_PIPE with (2 ^ 30). by apply has_flag_pow2. Qed.

(** ** Command validation *)

Lemma check_extract_command_spec cmd hdr_flags :
  always (check_extract_command cmd hdr_flags) (fun t '(ret, cmd') =>
    only_tells t /\
    wim_source_path cmd' = wim_source_path cmd /\
    fs_dest_path cmd' = fs_dest_path cmd /\
    (ret = WIMLIB_ERR_SUCCESS \/
     ret = WIMLIB_ERR_INVALID_PARAM \/
     (ret = WIMLIB_ERR_UNSUPPORTED /\ WITH_NTFS_3G = false /\
      Z.testbit (cmd_extract_flags cmd) (flag_bit NTFS) = true)) /\
    (failed ret = true -> cmd' = cmd) /\
    (ret = WIMLIB_ERR_SUCCESS -> forall n, 0 <= n ->
       Z.testbit (cmd_extract_flags cmd') n
       = validated_bit (cmd_extract_flags cmd) hdr_flags n) /\
    (ret = WIMLIB_ERR_SUCCESS ->
       t = if Z.testbit (cmd_extract_flags cmd) (flag_bit UNIX_DATA)
               && Z.testbit (cmd_extract_flags cmd) (flag_bit SEQUENTIAL)
           then [EvTell (LOG LWARNING
                   (if Z.testbit (cmd_extract_flags cmd) 30
                    then "Setting UNIX file/owner group may be impossible on some symbolic links when applying from a pipe."
                    else "Disabling sequential extraction for UNIX data mode")
                   [])]
           else [])).
Proof.
  unfold check_extract_command.
  assert (Hnil : only_tells []) by (by intros ? []).
  destruct (tstring_is_empty _) eqn:Hdest; [simpl; naive_solver|].
  rewrite !both_flags, no_flags.
  destruct (_ && _) eqn:Hlink; [simpl; naive_solver|].
  destruct (Z.testbit _ (flag_bit NO_ACLS) && _) eqn:Hacl; [simpl; naive_solver|].
  destruct (Z.testbit _ (flag_bit RPFIX) && _) eqn:Hrp; [simpl; naive_solver|].
  rewrite has_flag_FLAG.
  destruct (Z.testbit _ (flag_bit NTFS) && negb WITH_NTFS_3G) eqn:Hntfs.
  { apply andb_prop in Hntfs as [Hn1 Hn2]. apply negb_true_iff in Hn2.
    simpl. split; [|naive_solver].
    intros e [<-|[]]. eauto. }
  set (f := cmd_extract_flags cmd) in *. cbv zeta.
  match goal with
  | |- context [Z.testbit ?x (flag_bit UNIX_DATA) && _] => set (f1 := x)
  end.
  assert (Hf1 : forall n, 0 <= n -> Z.testbit f1 n =
            Z.testbit f n || (negb (Z.testbit f (flag_bit RPFIX)) &&
              negb (Z.testbit f (flag_bit NORPFIX)) &&
              has_flag hdr_flags WIM_HDR_FLAG_RP_FIX && (flag_bit RPFIX =? n))).
  { intros n Hn. subst f1.
    destruct (negb (Z.testbit f (flag_bit RPFIX)) && _) eqn:E1; cbn [andb].
    - destruct (has_flag hdr_flags _); cbn [andb].
      + by apply testbit_set_flag.
      + by rewrite orb_false_r.
    - by rewrite orb_false_r. }
  clearbody f1.
  pose proof (flag_bit_range RPFIX) as HR.
  pose proof (flag_bit_range SEQUENTIAL) as HS.
  pose proof (flag_bit_range UNIX_DATA) as HU.
  assert (HfU : Z.testbit f1 (flag_bit UNIX_DATA) = Z.testbit f (flag_bit UNIX_DATA)).
  { rewrite Hf1 by lia. destruct (Z.eqb_spec (flag_bit RPFIX) (flag_bit UNIX_DATA)) as [E|E].
    - by apply flag_bit_inj in E.
    - by rewrite andb_false_r, orb_false_r. }
  assert (HfS : Z.testbit f1 (flag_bit SEQUENTIAL) = Z.testbit f (flag_bit SEQUENTIAL)).
  { rewrite Hf1 by lia. destruct (Z.eqb_spec (flag_bit RPFIX) (flag_bit SEQUENTIAL)) as [E|E].
    - by apply flag_bit_inj in E.
    - by rewrite andb_false_r, orb_false_r. }
  assert (HfP : Z.testbit f1 30 = Z.testbit f 30).
  { rewrite Hf1 by lia. destruct (Z.eqb_spec (flag_bit RPFIX) 30) as [E|E]; [lia|].
    by rewrite andb_false_r, orb_false_r. }
  rewrite has_flag_FROM_PIPE, HfU, HfS, HfP.
  unfold validated_bit. fold f.
  destruct (Z.testbit f (flag_bit UNIX_DATA) && Z.testbit f (flag_bit SEQUENTIAL)) eqn:Hus.
  - destruct (Z.testbit f 30) eqn:Hpipe; simpl.
    + split; [intros e [<-|[]]; eauto|]. repeat split; auto; try done.
      intros _ n Hn. rewrite Hf1 by done. by rewrite andb_true_r.
    + split; [intros e [<-|[]]; eauto|]. repeat split; auto; try done.
      intros _ n Hn. rewrite testbit_clear_flag, Hf1 by done. done.
  - simpl. repeat split; auto; try done.
    intros _ n Hn. rewrite Hf1 by done. by rewrite andb_true_r.
Qed.

Lemma check_extract_command_run cmd hdr_flags env :
  let r := run (check_extract_command cmd hdr_flags) env in
  r.2.1 = WIMLIB_ERR_SUCCESS ->
  (forall n, 0 <= n ->
     Z.testbit (cmd_extract_flags r.2.2) n
     = validated_bit (cmd_extract_flags cmd) hdr_flags n) /\
  r.1 = (if Z.testbit (cmd_extract_flags cmd) (flag_bit UNIX_DATA)
            && Z.testbit (cmd_extract_flags cmd) (flag_bit SEQUENTIAL)
         then [EvTell (LOG LWARNING
                 (if Z.testbit (cmd_extract_flags cmd) 30
                  then "Setting UNIX file/owner group may be impossible on some symbolic links when applying from a pipe."
                  else "Disabling sequential extraction for UNIX data mode")
                 [])]
         else []).
Proof.
  intros r Hret. subst r.
  pose proof (always_run _ _ env (check_extract_command_spec cmd hdr_flags)) as H.
  destruct (run _ _) as [t [ret cmd']]. simpl in *.
  destruct H as (_ & _ & _ & _ & _ & Hbits & Htrace). auto.
Qed.

Lemma validated_bit_RPFIX flags hdr_flags :
  Z.testbit flags (flag_bit RPFIX) = false ->
  Z.testbit flags (flag_bit NORPFIX) = false ->
  validated_bit flags hdr_flags (flag_bit RPFIX)
  = has_flag hdr_flags WIM_HDR_FLAG_RP_FIX.
Proof.
  intros H1 H2. unfold validated_bit. rewrite H1, H2, Z.eqb_refl. cbn [negb andb orb].
  destruct (Z.eqb_spec (flag_bit SEQUENTIAL) (flag_bit RPFIX)) as [E|E].
  - apply flag_bit_inj in E. discriminate.
  - rewrite !andb_false_r. cbn [negb]. by rewrite !andb_true_r.
Qed.

(** C7 (what the code does): with neither RPFIX nor NORPFIX given, a
    command that passes validation leaves it with RPFIX set exactly when
    the header flag [WIM_HDR_FLAG_RP_FIX] is set; the source path of the
    command, empty for a full image or not, plays no part. *)
Theorem check_extract_command_rpfix_default cmd hdr_flags env :
  has_flag (cmd_extract_flags cmd) WIMLIB_EXTRACT_FLAG_RPFIX = false ->
  has_flag (cmd_extract_flags cmd) WIMLIB_EXTRACT_FLAG_NORPFIX = false ->
  (run (check_extract_command cmd hdr_flags) env).2.1 = WIMLIB_ERR_SUCCESS ->
  has_flag (cmd_extract_flags (run (check_extract_command cmd hdr_flags) env).2.2)
    WIMLIB_EXTRACT_FLAG_RPFIX
  = has_flag hdr_flags WIM_HDR_FLAG_RP_FIX.
Proof.
  rewrite !has_flag_FLAG. intros H1 H2 Hret.
  destruct (check_extract_command_run cmd hdr_flags env Hret) as [Hbits _].
  rewrite Hbits by apply flag_bit_range.
  by apply validated_bit_RPFIX.
Qed.


Lemma validated_bit_other flags hdr_flags n :
  n <> flag_bit RPFIX -> n <> flag_bit SEQUENTIAL ->
  validated_bit flags hdr_flags n = Z.testbit flags n.
Proof.
  intros H1 H2. unfold validated_bit.
  destruct (Z.eqb_spec (flag_bit RPFIX) n) as [E|_]; [congruence|].
  destruct (Z.eqb_spec (flag_bit SEQUENTIAL) n) as [E|_]; [congruence|].
  by rewrite !andb_false_r, orb_false_r, andb_true_r.
Qed.

Lemma validated_bit_flag flags hdr_flags f :
  f <> RPFIX -> f <> SEQUENTIAL ->
  validated_bit flags hdr_flags (flag_bit f) = Z.testbit flags (flag_bit f).
Proof.
  intros H1 H2. apply validated_bit_other; intros E; apply flag_bit_inj in E; congruence.
Qed.

Lemma validated_bit_FROM_PIPE flags hdr_flags :
  validated_bit flags hdr_flags 30 = Z.testbit flags 30.
Proof.
  pose proof (flag_bit_range RPFIX). pose proof (flag_bit_range SEQUENTIAL).
  apply validated_bit_other; lia.
Qed.

Lemma validated_bit_SEQUENTIAL flags hdr_flags :
  Z.testbit flags (flag_bit UNIX_DATA) = true ->
  Z.testbit flags (flag_bit SEQUENTIAL) = true ->
  validated_bit flags hdr_flags (flag_bit SEQUENTIAL) = Z.testbit flags 30.
Proof.
  intros HU HS. unfold validated_bit. rewrite HU, HS, Z.eqb_refl. cbn [andb orb].
  rewrite andb_true_r. apply negb_involutive.
Qed.

Lemma extract_tree_files_one_pass root s :
  has_flag (extract_flags (ctx s)) WIMLIB_EXTRACT_FLAG_SEQUENTIAL = false ->
  has_flag (extract_flags (ctx s)) WIMLIB_EXTRACT_FLAG_FROM_PIPE = false ->
  extract_tree_files root s = extract_in_one_pass root s.
Proof.
  intros H1 H2. unfold extract_tree_files, mbind, act_mbind, get_state. simpl.
  by rewrite has_flag_lor, H1, H2.
Qed.

(** C10: a command with UNIX_DATA and SEQUENTIAL that passes validation
    and is not FROM_PIPE comes out with SEQUENTIAL cleared, UNIX_DATA
    kept, and one warning as the only output, and [extract_tree] then
    takes its one-pass branch for these flags; with FROM_PIPE the flag
    SEQUENTIAL stays set. *)
Theorem unix_data_disables_sequential cmd hdr_flags env :
  has_flag (cmd_extract_flags cmd) WIMLIB_EXTRACT_FLAG_UNIX_DATA = true ->
  has_flag (cmd_extract_flags cmd) WIMLIB_EXTRACT_FLAG_SEQUENTIAL = true ->
  (run (check_extract_command cmd hdr_flags) env).2.1 = WIMLIB_ERR_SUCCESS ->
  let t := (run (check_extract_command cmd hdr_flags) env).1 in
  let flags' :=
    cmd_extract_flags (run (check_extract_command cmd hdr_flags) env).2.2 in
  if has_flag (cmd_extract_flags cmd) WIMLIB_EXTRACT_FLAG_FROM_PIPE then
    has_flag flags' WIMLIB_EXTRACT_FLAG_SEQUENTIAL = true /\
    has_flag flags' WIMLIB_EXTRACT_FLAG_FROM_PIPE = true
  else
    has_flag flags' WIMLIB_EXTRACT_FLAG_SEQUENTIAL = false /\
    has_flag flags' WIMLIB_EXTRACT_FLAG_UNIX_DATA = true /\
    t = [EvTell (LOG LWARNING
           "Disabling sequential extraction for UNIX data mode" [])] /\
    forall root s, extract_flags (ctx s) = flags' ->
      extract_tree_files root s = extract_in_one_pass root s.
Proof.
  rewrite !has_flag_FLAG, !has_flag_FROM_PIPE. intros HU HS Hret t flags'.
  destruct (check_extract_command_run cmd hdr_flags env Hret) as [Hbits Htrace].
  fold t in Htrace. fold flags' in Hbits.
  assert (Hseq : Z.testbit flags' (flag_bit SEQUENTIAL)
                 = Z.testbit (cmd_extract_flags cmd) 30).
  { rewrite Hbits by apply flag_bit_range. by apply validated_bit_SEQUENTIAL. }
  assert (Hpipe : Z.testbit flags' 30 = Z.testbit (cmd_extract_flags cmd) 30).
  { rewrite Hbits by lia. apply validated_bit_FROM_PIPE. }
  assert (Hunix : Z.testbit flags' (flag_bit UNIX_DATA) = true).
  { rewrite Hbits by apply flag_bit_range.
    rewrite validated_bit_flag by done. done. }
  rewrite HU, HS in Htrace. cbn [andb] in Htrace.
  destruct (Z.testbit (cmd_extract_flags cmd) 30) eqn:E.
  - rewrite has_flag_FLAG, has_flag_FROM_PIPE. by rewrite Hseq, Hpipe.
  - rewrite !has_flag_FLAG. repeat split; try done.
    intros root s Hs. apply extract_tree_files_one_pass.
    + by rewrite Hs, has_flag_FLAG.
    + by rewrite Hs, has_flag_FROM_PIPE.
Qed.

(** ** Mixed linked and unlinked commands *)

Lemma linked_cmd_bits cmd cmd' :
  Z.testbit (cmd_extract_flags cmd') (flag_bit SYMLINK)
    = Z.testbit (cmd_extract_flags cmd) (flag_bit SYMLINK) ->
  Z.testbit (cmd_extract_flags cmd') (flag_bit HARDLINK)
    = Z.testbit (cmd_extract_flags cmd) (flag_bit HARDLINK) ->
  linked_cmd cmd' = linked_cmd cmd.
Proof.
  intros H1 H2. unfold linked_cmd. rewrite !has_flag_lor, !has_flag_FLAG.
  by rewrite H1, H2.
Qed.

(** ** The feature check *)

Lemma only_first_flag x f g :
  f <> g ->
  (Z.land x (Z.lor (FLAG f) (FLAG g)) =? FLAG f)
  = Z.testbit x (flag_bit f) && negb (Z.testbit x (flag_bit g)).
Proof.
  intros Hfg. unfold FLAG.
  pose proof (flag_bit_range f) as Hf. pose proof (flag_bit_range g) as Hg.
  assert (Hne : flag_bit f <> flag_bit g) by (intros E; by apply flag_bit_inj in E).
  rewrite Z.land_lor_distr_r, !land_pow2 by lia.
  assert (0 < 2 ^ flag_bit f) by (apply Z.pow_pos_nonneg; lia).
  assert (0 < 2 ^ flag_bit g) by (apply Z.pow_pos_nonneg; lia).
  destruct (Z.testbit x (flag_bit f)) eqn:Ef, (Z.testbit x (flag_bit g)) eqn:Eg;
    cbv beta iota; cbn [andb negb].
  - apply Z.eqb_neq. intros Heq.
    assert (Hbit : Z.testbit (2 ^ flag_bit f) (flag_bit g) = true).
    { rewrite <- Heq, Z.lor_spec, !Z.pow2_bits_eqb, Z.eqb_refl by lia.
      apply orb_true_r. }
    rewrite Z.pow2_bits_eqb in Hbit by lia. apply Z.eqb_eq in Hbit. congruence.
  - rewrite ?Z.lor_0_r. apply Z.eqb_refl.
  - rewrite ?Z.lor_0_l. apply Z.eqb_neq. intros Heq.
    assert (Hbit : Z.testbit (2 ^ flag_bit g) (flag_bit f) = true).
    { rewrite Heq, Z.pow2_bits_eqb, Z.eqb_refl by lia. done. }
    rewrite Z.pow2_bits_eqb in Hbit by lia. apply Z.eqb_eq in Hbit. congruence.
  - rewrite ?Z.lor_0_l. apply Z.eqb_neq. lia.
Qed.

Lemma always_bind_warn {A} (c : bool) msg n (k : unit -> prog A) Q :
  warn_closed Q -> always (k tt) Q ->
  always (prog_bind (if c then WARNING_lu msg n else mret tt) k) Q.
Proof.
  intros HQ Hk. destruct c; simpl; [|done].
  eapply always_mono; [|exact Hk]. intros t a. apply HQ. by exists msg, [n].
Qed.

Lemma do_feature_check_spec required supported extract_flags ops :
  always (do_feature_check required supported extract_flags ops) (fun t ret =>
    ret = (if feature_hard_error required supported extract_flags ops
           then WIMLIB_ERR_UNSUPPORTED else WIMLIB_ERR_SUCCESS) /\
    Forall is_log t /\
    (ret = WIMLIB_ERR_SUCCESS -> Forall is_warning t)).
Proof.
  assert (Hclosed : forall v, warn_closed (A := wimlib_error_code) (fun t ret =>
            ret = v /\ Forall is_log t /\
            (ret = WIMLIB_ERR_SUCCESS -> Forall is_warning t))).
  { intros v w t a Hw (-> & Hlog & Hwarn). split; [done|]. split.
    - constructor; [|done]. destruct Hw as (m & l & ->). by exists LWARNING, m, l.
    - intros E. constructor; auto. }
  unfold do_feature_check. cbv zeta. unfold mbind, prog_mbind.
  do 10 (apply always_bind_warn; [apply Hclosed|]).
  assert (Hrp : forall (p : prog unit) (k : unit -> prog wimlib_error_code) Q,
            warn_closed Q -> always (k tt) Q ->
            (p = mret tt \/ exists msg n, p = WARNING_lu msg n) ->
            always (prog_bind p k) Q).
  { intros p k Q HQ Hk [->|(m & n & ->)]; simpl; [done|].
    eapply always_mono; [|exact Hk]. intros t a. apply HQ. by exists m, [n]. }
  apply Hrp; [apply Hclosed| |].
  2:{ repeat (match goal with |- context [if ?c then _ else _] => destruct c end);
      eauto. }
  do 2 (apply always_bind_warn; [apply Hclosed|]).
  unfold feature_hard_error, strict_feature_missing, feature_missing.
  rewrite only_first_flag by done. rewrite !has_flag_FLAG.
  set (b_unix := Z.testbit extract_flags (flag_bit UNIX_DATA)).
  set (b_short := Z.testbit extract_flags (flag_bit STRICT_SHORT_NAMES)).
  set (b_time := Z.testbit extract_flags (flag_bit STRICT_TIMESTAMPS)).
  set (b_acl := Z.testbit extract_flags (flag_bit STRICT_ACLS)).
  set (b_hard := Z.testbit extract_flags (flag_bit HARDLINK)).
  set (b_sym := Z.testbit extract_flags (flag_bit SYMLINK)).
  set (m_unix := nonzero (unix_data required) && negb (nonzero (unix_data supported))).
  set (m_short := nonzero (short_names required) && negb (nonzero (short_names supported))).
  set (m_sd := nonzero (security_descriptors required)
               && negb (nonzero (security_descriptors supported))).
  set (n_hard := negb (nonzero (hard_links supported))).
  set (n_sym := negb (nonzero (symlink_reparse_points supported))).
  set (n_time := negb (has_set_timestamps ops)).
  assert (Herr : forall msg, Forall is_log [EvTell (LOG LERROR msg [])]).
  { intros msg. constructor; [|constructor]. by exists LERROR, msg, []. }
  destruct b_unix, m_unix, b_short, m_short, b_time, n_time, b_acl, m_sd,
    b_hard, n_hard, b_sym, n_sym; simpl;
    (split; [reflexivity|split; [auto|intros; try discriminate; constructor]]).
Qed.

Lemma extract_tree_feature_gate wim_source_path target extract_flags
    has_progress_func root s :
  get_dentry wim_source_path = Some root ->
  let s1 := state_at_feature_check target extract_flags has_progress_func root s in
  feature_hard_error (required_features s1) (supported_features (ctx s1))
    extract_flags (select_apply_operations extract_flags) = true ->
  always (extract_tree wim_source_path target extract_flags has_progress_func s)
    (fun t a =>
       failed a.1 = true /\
       (forall e, In e t ->
          (exists status, e = EvCall (start_extract target) status)
          \/ is_log e \/ e = EvTell abort_extract) /\
       (a.1 = WIMLIB_ERR_UNSUPPORTED
        \/ In (EvCall (start_extract target) a.1) t)).
Proof.
  intros Hroot s1 Herr. unfold extract_tree. rewrite Hroot.
  act_unfold. cbn [prog_bind]. intros r.
  destruct (failed r) eqn:Hr.
  { cbn. split; [done|]. split; [|right; by left].
    intros e [<-|[]]. left. eauto. }
  cbn [prog_bind].
  rewrite (silent_run (dentry_tree_get_features root) _
             (silent_dentry_tree_get_features root)).
  match goal with |- context [Ret (run ?p []).2] => set (res := (run p []).2) end.
  assert (Hres : res.2 = s1) by reflexivity.
  destruct res as [[] s1']. simpl in Hres. subst s1'. cbn [prog_bind].
  apply always_bind. apply always_bind.
  eapply always_mono; [|apply do_feature_check_spec].
  intros t ret (Hret & Hlog & _).
  change (ops (ctx (set_ctx (initial_ctx target extract_flags has_progress_func
                               (dtree_root root)) s)))
    with (select_apply_operations extract_flags) in Hret.
  rewrite Herr in Hret. subst ret. cbn.
  assert (Hsplit : forall t', (forall e, In e t' -> e = EvTell abort_extract) ->
            forall e, In e (EvCall (start_extract target) r :: (t ++ []) ++ t') ->
              (exists status, e = EvCall (start_extract target) status)
              \/ is_log e \/ e = EvTell abort_extract).
  { intros t' Ht' e [<-|He]; [left; eauto|].
    rewrite app_nil_r in He. apply in_app_or in He as [He|He].
    - right; left. rewrite Forall_forall in Hlog. by apply Hlog, list_elem_of_In.
    - right; right. by apply Ht'. }
  unfold finish_or_abort_extract. act_unfold. cbn.
  destruct (has_abort_extract _); cbn.
  - split; [done|]. split; [|by left]. apply Hsplit. by intros e [<-|[]].
  - split; [done|]. split; [|by left]. apply Hsplit. by intros e [].
Qed.

(** ** Extraction to standard output *)

























(** C6: [do_feature_check] answers UNSUPPORTED exactly in the cases the
    specification lists (a strict flag whose feature is required and
    unsupported: short names, timestamps, security descriptors without
    UNIX_DATA; HARDLINK without hard links; SYMLINK without symlink reparse
    points; UNIX_DATA required and unsupported); otherwise it answers 0
    after printing warnings only.  In [extract_tree] a hard error ends the
    extraction: the status is that of the check (or of a [start_extract]
    that failed), and besides messages only [start_extract] and
    [abort_extract] are called. *)
Theorem feature_check_hard_errors :
  (forall required supported extract_flags ops env,
     let r := run (do_feature_check required supported extract_flags ops) env in
     r.2 = (if feature_hard_error required supported extract_flags ops
            then WIMLIB_ERR_UNSUPPORTED else WIMLIB_ERR_SUCCESS) /\
     Forall is_log r.1 /\
     (feature_hard_error required supported extract_flags ops = false ->
      Forall is_warning r.1)) /\
  (forall wim_source_path target extract_flags has_progress_func root s env,
     get_dentry wim_source_path = Some root ->
     let s1 := state_at_feature_check target extract_flags has_progress_func root s in
     feature_hard_error (required_features s1) (supported_features (ctx s1))
       extract_flags (select_apply_operations extract_flags) = true ->
     let r := run (extract_tree wim_source_path target extract_flags
                     has_progress_func s) env in
     failed r.2.1 = true /\
     (forall e, In e r.1 ->
        (exists status, e = EvCall (start_extract target) status)
        \/ is_log e \/ e = EvTell abort_extract) /\
     (r.2.1 = WIMLIB_ERR_UNSUPPORTED
      \/ In (EvCall (start_extract target) r.2.1) r.1)).
Proof.
  split.
  - intros required supported extract_flags ops env r. subst r.
    pose proof (always_run _ _ env
      (do_feature_check_spec required supported extract_flags ops)) as H.
    cbv beta in H. destruct H as (Hret & Hlog & Hwarn).
    repeat split; try done. intros Herr. apply Hwarn.
    by rewrite Hret, Herr.
  - intros wim_source_path target extract_flags has_progress_func root s env
      Hroot s1 Herr r. subst r.
    exact (always_run _ _ env
      (extract_tree_feature_gate wim_source_path target extract_flags
         has_progress_func root s Hroot Herr)).
Qed.

(** ** The planning pass *)

(** Reads the members of a state that was built by the setters. *)
Ltac state_simpl :=
  repeat (cbn [ctx ltes dentries inodes i_visited i_extracted_file
               required_features lookup_table in_fd
               set_lte set_ctx set_dentry set_i_visited set_i_extracted_file
               set_in_fd set_required_features
               ctx_set_progress ctx_set_stream_list ctx_set_num_streams_remaining
               ctx_set_next_progress ctx_set_invalid_sequence
               progress stream_list num_streams_remaining next_progress
               extract_flags supported_features has_progress_func ops
               invalid_sequence extract_root target realtarget
               total_bytes num_streams completed_bytes
               progress_set_total_bytes progress_set_num_streams
               progress_set_completed_bytes
               lte_set_out_refcnt lte_set_inline_lte_dentries lte_set_lte_dentries
               lte_set_extracted_file
               out_refcnt extracted_file inline_lte_dentries lte_dentries
               alloc_lte_dentries
               dentry_set_skipped dentry_set_was_hardlinked dentry_set_tmp_flag
               dentry_set_extraction_name
               extraction_skipped was_hardlinked tmp_flag extraction_name
               d_inode file_name short_name parent
               fst snd];
          rewrite ?fn_lookup_insert).

Lemma ref_stream_to_extract_spec lte dentry s :
  always (ref_stream_to_extract (Some lte) dentry s) (fun t r =>
    let e := ltes s lte in
    let c := ctx s in
    let c' := ctx r.2 in
    same_plan_inputs s r.2 /\ i_visited r.2 = i_visited s /\
    (forall B, B <> lte -> ltes r.2 B = ltes s B) /\
    extracted_file (ltes r.2 lte) = extracted_file e /\
    (r.1 = WIMLIB_ERR_SUCCESS /\
       out_refcnt (ltes r.2 lte) = u32 (out_refcnt e + 1) \/
     r.1 = WIMLIB_ERR_NOMEM /\
       has_flag (extract_flags c) WIMLIB_EXTRACT_FLAG_SEQUENTIAL = true /\
       ltes r.2 lte = e) /\
    stream_list c' =
      (if out_refcnt e =? 0 then stream_list c ++ [lte] else stream_list c) /\
    num_streams_remaining c' =
      (if out_refcnt e =? 0 then wrap ulong_bits (num_streams_remaining c + 1)
       else num_streams_remaining c) /\
    total_bytes (progress c') =
      (if negb (is_linked_extraction c)
          || ((out_refcnt e =? 0) && bool_decide (extracted_file e = None))
       then u64 (total_bytes (progress c) + wim_resource_size e)
       else total_bytes (progress c)) /\
    num_streams (progress c') =
      (if negb (is_linked_extraction c)
          || ((out_refcnt e =? 0) && bool_decide (extracted_file e = None))
       then u64 (num_streams (progress c) + 1)
       else num_streams (progress c))).
Proof.
  unfold ref_stream_to_extract. act_unfold. cbv zeta.
  cbn [prog_bind].
  destruct (negb (is_linked_extraction (ctx s)) || _) eqn:E1;
    destruct (out_refcnt (ltes s lte) =? 0) eqn:E2;
    destruct (has_flag (extract_flags (ctx s)) WIMLIB_EXTRACT_FLAG_SEQUENTIAL) eqn:E3;
    cbn [prog_bind always failed fst snd].
  all: try destruct (out_refcnt (ltes s lte) <? INLINE_LTE_DENTRIES) eqn:E4;
    cbn [prog_bind always failed fst snd].
  all: try destruct (out_refcnt (ltes s lte) =? INLINE_LTE_DENTRIES) eqn:E5;
    cbn [prog_bind always failed fst snd].
  all: try match goal with
       | |- context [if ?c then _ else _] => destruct c eqn:E6
       end; cbn [prog_bind always failed fst snd].
  all: try (intros r; destruct (failed r) eqn:E7); cbn [prog_bind always failed fst snd].
  all: unfold same_plan_inputs; state_simpl.
  all: repeat (split; [done|]).
  all: try (split; [intros B HB; by rewrite ?fn_lookup_insert_ne by done|]).
  all: try (split; [done|]).
  all: try (split; [by left|]).
  all: try (split; [by right|]).
  all: try done.
Qed.

Lemma same_plan_inputs_refl s : same_plan_inputs s s.
Proof. by repeat split. Qed.

Lemma same_plan_inputs_trans s1 s2 s3 :
  same_plan_inputs s1 s2 -> same_plan_inputs s2 s3 -> same_plan_inputs s1 s3.
Proof. intros (?&?&?&?) (?&?&?&?). repeat split; congruence. Qed.

Lemma always_act_bind {A B} (m : act A) (f : A -> act B) s
    (Q : list io_event -> B * state -> Prop) :
  always (m s) (fun t r => always (f r.1 r.2) (fun t' b => Q (t ++ t') b)) ->
  always ((m ≫= f) s) Q.
Proof.
  intros H. unfold mbind, act_mbind. apply always_bind.
  eapply always_mono; [|exact H]. by intros t [a s'].
Qed.

Lemma u32_succ b n : u32 (u32 (b + Z.of_nat n) + 1) = u32 (b + Z.of_nat (n + 1)).
Proof.
  unfold u32, wrap. rewrite Zplus_mod_idemp_l. f_equal. lia.
Qed.

(** [counted s base cnt]: every reference count is [base] plus the [cnt]
    references taken so far, as a 32-bit number. *)
Lemma ref_stream_to_extract_count o dentry s (base : lte_id -> Z) (cnt : lte_id -> nat) :
  (forall B, out_refcnt (ltes s B) = u32 (base B + Z.of_nat (cnt B))) ->
  always (ref_stream_to_extract o dentry s) (fun t r =>
    same_plan_inputs s r.2 /\ i_visited r.2 = i_visited s /\
    (r.1 = WIMLIB_ERR_SUCCESS \/
     r.1 = WIMLIB_ERR_NOMEM /\
       has_flag (extract_flags (ctx s)) WIMLIB_EXTRACT_FLAG_SEQUENTIAL = true) /\
    (r.1 = WIMLIB_ERR_SUCCESS ->
     forall B, out_refcnt (ltes r.2 B)
               = u32 (base B + Z.of_nat (cnt B + count_occ Nat.eq_dec (option_list o) B)))).
Proof.
  intros Hcnt. destruct o as [lte|].
  - eapply always_mono; [|apply ref_stream_to_extract_spec].
    intros t [ret s'] (Hin & Hvis & Hother & _ & Hret & _). cbn [fst snd] in *.
    split; [done|]. split; [done|]. split.
    { destruct Hret as [[-> _]|(-> & Hseq & _)]; auto. }
    intros ->. destruct Hret as [[_ Hrc]|[? _]]; [|done]. intros B.
    change (option_list (Some lte)) with [lte].
    destruct (Nat.eq_dec lte B) as [->|Hne].
    + rewrite count_occ_cons_eq by done. cbn [count_occ].
      rewrite Hrc, Hcnt. apply u32_succ.
    + rewrite count_occ_cons_neq by done. cbn [count_occ].
      rewrite Hother by done. rewrite Hcnt. by rewrite Nat.add_0_r.
  - cbn. split; [apply same_plan_inputs_refl|]. split; [done|]. split; [by left|].
    intros _ B. by rewrite Nat.add_0_r.
Qed.

Lemma ref_named_streams_to_extract_count entries dentry :
  forall s (base : lte_id -> Z) (cnt : lte_id -> nat),
  (forall B, out_refcnt (ltes s B) = u32 (base B + Z.of_nat (cnt B))) ->
  always (ref_named_streams_to_extract entries dentry s) (fun t r =>
    same_plan_inputs s r.2 /\ i_visited r.2 = i_visited s /\
    (r.1 = WIMLIB_ERR_SUCCESS \/
     r.1 = WIMLIB_ERR_NOMEM /\
       has_flag (extract_flags (ctx s)) WIMLIB_EXTRACT_FLAG_SEQUENTIAL = true) /\
    (r.1 = WIMLIB_ERR_SUCCESS ->
     forall B, out_refcnt (ltes r.2 B)
               = u32 (base B + Z.of_nat
                   (cnt B + count_occ Nat.eq_dec (named_streams entries) B)))).
Proof.
  induction entries as [|entry rest IH]; intros s base cnt Hcnt.
  - cbn. split; [apply same_plan_inputs_refl|]. split; [done|]. split; [by left|].
    intros _ B. by rewrite Nat.add_0_r.
  - cbn [ref_named_streams_to_extract named_streams flat_map].
    destruct (ads_entry_is_named_stream entry) eqn:Hnamed; cbn [negb].
    + apply always_act_bind.
      eapply always_mono; [|apply (ref_stream_to_extract_count _ _ _ base cnt Hcnt)].
      intros t [ret s1] (Hin & Hvis & Hret & Hrc). cbn [fst snd] in *.
      destruct Hret as [->|[-> Hseq]]; cbn [failed].
      * specialize (Hrc eq_refl).
        eapply always_mono; [|apply (IH s1 base _ Hrc)].
        intros t' [ret' s2] (Hin' & Hvis' & Hret' & Hrc'). cbn [fst snd] in *.
        split; [by eapply same_plan_inputs_trans|]. split; [congruence|].
        split.
        { destruct Hret' as [->|[-> Hseq]]; [by left|right]. split; [done|].
          destruct Hin as (_ & _ & <- & _). done. }
        intros Hs B. rewrite (Hrc' Hs B). f_equal. f_equal.
        rewrite count_occ_app. fold (named_streams rest). by rewrite Nat.add_assoc.
      * cbn. split; [done|]. split; [done|]. split; [by right|]. done.
    + eapply always_mono; [|apply (IH s base cnt Hcnt)].
      intros t' [ret' s2] H. exact H.
Qed.

Lemma planned_dentries_snoc s visited d :
  planned_dentries s (visited ++ [d]) = plan_step s (planned_dentries s visited) d.
Proof. unfold planned_dentries. by rewrite fold_left_app. Qed.

Lemma references_of_snoc s acc d :
  references_of s (acc ++ [d])
  = references_of s acc
    ++ streams_referenced (ctx s) (inodes s (d_inode (dentries s d))).
Proof.
  unfold references_of. rewrite flat_map_app. cbn [flat_map].
  by rewrite app_nil_r.
Qed.

Lemma can_extract_named_data_streams_inputs s0 s :
  same_plan_inputs s0 s ->
  can_extract_named_data_streams (ctx s) = can_extract_named_data_streams (ctx s0).
Proof.
  intros (_ & _ & Hf & Hsf).
  unfold can_extract_named_data_streams, is_linked_extraction. by rewrite Hf, Hsf.
Qed.

Lemma dentry_add_streams_to_extract_step s0 visited node s :
  plan_invariant s0 visited s ->
  always (dentry_add_streams_to_extract node s) (fun t r =>
    if failed r.1
    then r.1 = WIMLIB_ERR_NOMEM /\
         has_flag (extract_flags (ctx s0)) WIMLIB_EXTRACT_FLAG_SEQUENTIAL = true
    else plan_invariant s0 (visited ++ [dtree_root node]) r.2).
Proof.
  intros (Hin & Hvis & Hcnt). pose proof Hin as (Hd & Hi & Hf & Hsf).
  set (d := dtree_root node).
  unfold dentry_add_streams_to_extract. fold d.
  apply always_act_bind. cbn [get_state always fst snd app].
  rewrite Hd, Hi, Hsf.
  destruct (extraction_skipped (dentries s0 d)) eqn:Hskip.
  { cbn. unfold plan_invariant. rewrite planned_dentries_snoc. unfold plan_step.
    by rewrite Hskip. }
  destruct (i_visited s (d_inode (dentries s0 d))
            && nonzero (hard_links (supported_features (ctx s0)))) eqn:Hhl.
  { cbn. unfold plan_invariant. rewrite planned_dentries_snoc. unfold plan_step.
    rewrite Hskip. rewrite Hvis, andb_comm in Hhl. by rewrite Hhl. }
  rewrite (can_extract_named_data_streams_inputs s0 s Hin).
  set (ino := inodes s0 (d_inode (dentries s0 d))).
  set (acc := planned_dentries s0 visited) in *.
  set (base := fun B => out_refcnt (ltes s0 B)).
  assert (Hseq : forall s1, same_plan_inputs s s1 ->
            has_flag (extract_flags (ctx s1)) WIMLIB_EXTRACT_FLAG_SEQUENTIAL = true ->
            has_flag (extract_flags (ctx s0)) WIMLIB_EXTRACT_FLAG_SEQUENTIAL = true).
  { intros s1 (_ & _ & Hf1 & _) H. by rewrite <- Hf, <- Hf1. }
  apply always_act_bind.
  assert (H1 : always
    ((if negb (inode_is_encrypted_directory ino)
      then ref_stream_to_extract (inode_unnamed_lte_resolved ino) d
      else mret WIMLIB_ERR_SUCCESS) s)
    (fun t r =>
       same_plan_inputs s r.2 /\ i_visited r.2 = i_visited s /\
       (r.1 = WIMLIB_ERR_SUCCESS \/
        r.1 = WIMLIB_ERR_NOMEM /\
          has_flag (extract_flags (ctx s)) WIMLIB_EXTRACT_FLAG_SEQUENTIAL = true) /\
       (r.1 = WIMLIB_ERR_SUCCESS ->
        forall B, out_refcnt (ltes r.2 B)
          = u32 (base B + Z.of_nat
              (count_occ Nat.eq_dec (references_of s0 acc) B
               + count_occ Nat.eq_dec
                   (if inode_is_encrypted_directory ino then []
                    else option_list (inode_unnamed_lte_resolved ino)) B))))).
  { destruct (inode_is_encrypted_directory ino); cbn [negb].
    - cbn. split; [apply same_plan_inputs_refl|]. split; [done|]. split; [by left|].
      intros _ B. by rewrite Nat.add_0_r.
    - apply (ref_stream_to_extract_count _ _ _ base _ Hcnt). }
  eapply always_mono; [|exact H1]. clear H1.
  intros t1 [ret1 s1] (Hin1 & Hvis1 & Hret1 & Hcnt1). cbn [fst snd] in *.
  destruct Hret1 as [->|[-> Hs1]]; cbn [failed].
  2:{ cbn. split; [done|]. by rewrite <- Hf. }
  specialize (Hcnt1 eq_refl).
  apply always_act_bind.
  assert (H2 : always
    ((if can_extract_named_data_streams (ctx s0)
      then ref_named_streams_to_extract (i_ads_entries ino) d
      else mret WIMLIB_ERR_SUCCESS) s1)
    (fun t r =>
       same_plan_inputs s1 r.2 /\ i_visited r.2 = i_visited s1 /\
       (r.1 = WIMLIB_ERR_SUCCESS \/
        r.1 = WIMLIB_ERR_NOMEM /\
          has_flag (extract_flags (ctx s1)) WIMLIB_EXTRACT_FLAG_SEQUENTIAL = true) /\
       (r.1 = WIMLIB_ERR_SUCCESS ->
        forall B, out_refcnt (ltes r.2 B)
          = u32 (base B + Z.of_nat
              (count_occ Nat.eq_dec (references_of s0 acc) B
               + count_occ Nat.eq_dec
                   (if inode_is_encrypted_directory ino then []
                    else option_list (inode_unnamed_lte_resolved ino)) B
               + count_occ Nat.eq_dec
                   (if can_extract_named_data_streams (ctx s0)
                    then named_streams (i_ads_entries ino) else []) B))))).
  { destruct (can_extract_named_data_streams (ctx s0)).
    - apply (ref_named_streams_to_extract_count _ _ _ base _ Hcnt1).
    - cbn. split; [apply same_plan_inputs_refl|]. split; [done|]. split; [by left|].
      intros _ B. by rewrite Nat.add_0_r. }
  eapply always_mono; [|exact H2]. clear H2.
  intros t2 [ret2 s2] (Hin2 & Hvis2 & Hret2 & Hcnt2). cbn [fst snd] in *.
  destruct Hret2 as [->|[-> Hs2]]; cbn [failed].
  2:{ cbn. split; [done|]. eapply Hseq; [exact Hin1|done]. }
  specialize (Hcnt2 eq_refl).
  cbn. unfold plan_invariant. rewrite planned_dentries_snoc. fold acc.
  unfold plan_step. rewrite Hskip.
  rewrite Hvis, andb_comm in Hhl. fold acc in Hhl. rewrite Hhl.
  split; [|split].
  - eapply same_plan_inputs_trans; [exact Hin|].
    eapply same_plan_inputs_trans; [exact Hin1|].
    destruct Hin2 as (?&?&?&?). by repeat split.
  - intros i. rewrite map_app. cbn [map].
    cbn [snd set_i_visited i_visited]. unfold insert, fn_insert.
    destruct (decide (d_inode (dentries s0 d) = i)) as [<-|Hne].
    + symmetry. apply bool_decide_eq_true, elem_of_app. right.
      apply list_elem_of_here.
    + rewrite Hvis2, Hvis1, Hvis. apply bool_decide_ext.
      rewrite elem_of_app, list_elem_of_singleton.
      split; [by left|]. intros [?|?]; [done|congruence].
  - intros B. cbn [snd ltes set_i_visited]. rewrite Hcnt2. rewrite references_of_snoc, count_occ_app.
    fold ino. unfold streams_referenced. rewrite count_occ_app.
    by rewrite Nat.add_assoc.
Qed.

Lemma dtree_dentries_node d children :
  dtree_dentries (DNode d children) = d :: flat_map dtree_dentries children.
Proof.
  unfold dtree_dentries. cbn [dtree_nodes map dtree_root]. f_equal.
  induction children as [|c cs IH]; [done|].
  cbn [flat_map]. rewrite map_app. by rewrite IH.
Qed.

(** A pre-order walk threads an invariant that is indexed by the dentries
    visited so far, and stops with the status of the visit that failed. *)
Lemma for_dentry_in_tree_invariant (Inv : list dentry_id -> state -> Prop)
    (E : wimlib_error_code -> Prop) visitor :
  (forall node visited s, Inv visited s ->
     always (visitor node s) (fun t r =>
       if failed r.1 then E r.1 else Inv (visited ++ [dtree_root node]) r.2)) ->
  forall root visited s, Inv visited s ->
    always (for_dentry_in_tree root visitor s) (fun t r =>
      if failed r.1 then E r.1 else Inv (visited ++ dtree_dentries root) r.2).
Proof.
  intros Hv root. induction root as [d children IH] using dtree_induction.
  intros visited s HI. rewrite dtree_dentries_node.
  cbn [for_dentry_in_tree]. apply always_act_bind.
  eapply always_mono; [|apply (Hv (DNode d children) visited s HI)].
  intros t [ret s1]. cbn [fst snd dtree_root].
  destruct (failed ret) eqn:Hret.
  { intros HE. cbn. by rewrite Hret. }
  intros HI1. clear HI s.
  replace (visited ++ d :: flat_map dtree_dentries children)
    with ((visited ++ [d]) ++ flat_map dtree_dentries children)
    by (by rewrite <- app_assoc).
  generalize dependent s1. generalize (visited ++ [d]). clear Hret ret t.
  induction IH as [|c cs Hc _ IHcs]; intros acc s1 HI1.
  - cbn. by rewrite app_nil_r.
  - apply always_act_bind.
    eapply always_mono; [|apply (Hc acc s1 HI1)].
    intros t [ret s2]. cbn [fst snd].
    destruct (failed ret) eqn:Hret.
    { intros HE. cbn. by rewrite Hret. }
    intros HI2. cbn [flat_map]. rewrite app_assoc.
    eapply always_mono; [|apply (IHcs _ s2 HI2)].
    by intros t' [ret' s3].
Qed.

Lemma plan_invariant_start s :
  (forall B, 0 <= out_refcnt (ltes s B) < 2 ^ 32) ->
  (forall i, i_visited s i = false) ->
  plan_invariant s [] s.
Proof.
  intros Hrange Hvis. split; [apply same_plan_inputs_refl|]. split.
  - intros i. rewrite Hvis. symmetry. apply bool_decide_eq_false.
    cbn. apply not_elem_of_nil.
  - intros B. cbn. rewrite Z.add_0_r. unfold u32, wrap.
    symmetry. apply Z.mod_small. apply Hrange.
Qed.

Lemma planning_pass_spec root s :
  (forall B, 0 <= out_refcnt (ltes s B) < 2 ^ 32) ->
  (forall i, i_visited s i = false) ->
  always (for_dentry_in_tree root dentry_add_streams_to_extract s) (fun t r =>
    if failed r.1
    then r.1 = WIMLIB_ERR_NOMEM /\
         has_flag (extract_flags (ctx s)) WIMLIB_EXTRACT_FLAG_SEQUENTIAL = true
    else plan_invariant s (dtree_dentries root) r.2).
Proof.
  intros Hrange Hvis.
  apply (for_dentry_in_tree_invariant (plan_invariant s)
           (fun ret => ret = WIMLIB_ERR_NOMEM /\
              has_flag (extract_flags (ctx s)) WIMLIB_EXTRACT_FLAG_SEQUENTIAL = true)
           dentry_add_streams_to_extract
           (fun node visited s1 => dentry_add_streams_to_extract_step s visited node s1)
           root [] s).
  by apply plan_invariant_start.
Qed.

(** After a planning pass that did not run out of memory, the reference
    count of every blob has grown, as a 32-bit number, by the number of
    references the counted dentries hold to it; outside SEQUENTIAL mode the
    pass cannot fail. *)
Theorem planning_pass_reference_counts root s env :
  (forall B, 0 <= out_refcnt (ltes s B) < 2 ^ 32) ->
  (forall i, i_visited s i = false) ->
  let r := run (for_dentry_in_tree root dentry_add_streams_to_extract s) env in
  (has_flag (extract_flags (ctx s)) WIMLIB_EXTRACT_FLAG_SEQUENTIAL = false ->
   r.2.1 = WIMLIB_ERR_SUCCESS) /\
  (r.2.1 = WIMLIB_ERR_SUCCESS \/ r.2.1 = WIMLIB_ERR_NOMEM) /\
  (r.2.1 = WIMLIB_ERR_SUCCESS ->
   forall B, out_refcnt (ltes r.2.2 B)
             = u32 (out_refcnt (ltes s B)
                    + Z.of_nat (count_occ Nat.eq_dec (planned_references s root) B))).
Proof.
  intros Hrange Hvis r.
  pose proof (always_run _ _ env (planning_pass_spec root s Hrange Hvis)) as H.
  fold r in H. cbv beta in H.
  destruct (failed r.2.1) eqn:Hf.
  - destruct H as [Hret Hseq]. rewrite Hret. split; [congruence|].
    split; [by right|done].
  - apply failed_false in Hf. rewrite Hf. split; [done|]. split; [by left|].
    intros _. apply H.
Qed.

(** One reference to a blob: it joins the stream list, and the streams
    that remain, exactly when its count was zero; its size joins the byte
    total on every reference of a normal extraction, but in a linked one
    only when the count was zero and no file was extracted from it yet.
    The call fails only in SEQUENTIAL mode, with NOMEM, without counting
    the reference; otherwise the count grows by one. *)
Theorem ref_stream_to_extract_accounting lte dentry s env :
  let r := run (ref_stream_to_extract (Some lte) dentry s) env in
  let e := ltes s lte in
  let c := ctx s in
  let c' := ctx r.2.2 in
  let first := out_refcnt e =? 0 in
  let counted :=
    negb (is_linked_extraction c)
    || (first && bool_decide (extracted_file e = None)) in
  stream_list c' = (if first then stream_list c ++ [lte] else stream_list c) /\
  num_streams_remaining c'
  = (if first then wrap ulong_bits (num_streams_remaining c + 1)
     else num_streams_remaining c) /\
  total_bytes (progress c')
  = (if counted then u64 (total_bytes (progress c) + wim_resource_size e)
     else total_bytes (progress c)) /\
  num_streams (progress c')
  = (if counted then u64 (num_streams (progress c) + 1)
     else num_streams (progress c)) /\
  (forall B, B <> lte -> ltes r.2.2 B = ltes s B) /\
  (r.2.1 = WIMLIB_ERR_SUCCESS /\
     out_refcnt (ltes r.2.2 lte) = u32 (out_refcnt e + 1) \/
   r.2.1 = WIMLIB_ERR_NOMEM /\
     has_flag (extract_flags c) WIMLIB_EXTRACT_FLAG_SEQUENTIAL = true /\
     ltes r.2.2 lte = e).
Proof.
  intros r e c c' first counted.
  pose proof (always_run _ _ env (ref_stream_to_extract_spec lte dentry s)) as H.
  fold r in H. cbv beta zeta in H.
  destruct H as (_ & _ & Hother & _ & Hret & Hlist & Hrem & Hbytes & Hnum).
  repeat split; assumption.
Qed.

(** ** Command validation *)

Lemma check_extract_command_verdict_spec cmd hdr_flags :
  always (check_extract_command cmd hdr_flags) (fun t r => r.1 = command_verdict cmd).
Proof.
  unfold check_extract_command, command_verdict.
  destruct (tstring_is_empty _); [done|]. cbn [orb].
  rewrite !both_flags, has_flag_FLAG.
  destruct (Z.testbit _ (flag_bit SYMLINK) && _); [done|]. cbn [orb].
  destruct (Z.testbit _ (flag_bit NO_ACLS) && _); [done|]. cbn [orb].
  destruct (Z.testbit _ (flag_bit RPFIX) && _); [done|].
  destruct (Z.testbit _ (flag_bit NTFS) && _); [done|]. cbv zeta.
  repeat match goal with
         | |- context [if ?c then _ else _] => destruct c
         end; done.
Qed.

(** [check_extract_command] rejects a command with INVALID_PARAM exactly
    when its destination is empty or it asks for both flags of one of the
    pairs SYMLINK/HARDLINK, NO_ACLS/STRICT_ACLS, RPFIX/NORPFIX; otherwise
    with UNSUPPORTED exactly when it asks for NTFS in a build without
    NTFS-3g; otherwise it accepts it.  A rejected command is left as it
    was; an accepted one keeps its paths and every flag other than RPFIX
    and SEQUENTIAL. *)
Theorem check_extract_command_verdict cmd hdr_flags env :
  let r := run (check_extract_command cmd hdr_flags) env in
  r.2.1 = command_verdict cmd /\
  (failed r.2.1 = true -> r.2.2 = cmd) /\
  wim_source_path r.2.2 = wim_source_path cmd /\
  fs_dest_path r.2.2 = fs_dest_path cmd /\
  (forall n, 0 <= n -> n <> flag_bit RPFIX -> n <> flag_bit SEQUENTIAL ->
     Z.testbit (cmd_extract_flags r.2.2) n = Z.testbit (cmd_extract_flags cmd) n).
Proof.
  intros r.
  pose proof (always_run _ _ env (check_extract_command_verdict_spec cmd hdr_flags)) as Hv.
  pose proof (always_run _ _ env (check_extract_command_spec cmd hdr_flags)) as Hs.
  fold r in Hv, Hs. destruct r as [t [ret cmd']]. cbn [fst snd] in *.
  destruct Hs as (_ & Hsrc & Hdst & _ & Hfail & Hbits & _).
  repeat split; try done.
  intros n Hn H1 H2. destruct (failed ret) eqn:Hf.
  - by rewrite (Hfail eq_refl).
  - rewrite (Hbits (failed_false _ Hf) n Hn). by apply validated_bit_other.
Qed.

(** ** File names *)

Lemma replacement_char_allowed : forbidden_char replacement_char = false.
Proof. unfold forbidden_char, replacement_char. by destruct WIN32. Qed.

Lemma file_name_valid_chars_fix name :
  (file_name_valid_chars name true).1 = true /\
  Forall (fun c => forbidden_char c = false) (file_name_valid_chars name true).2.
Proof.
  induction name as [|c rest [IH1 IH2]]; [by split|].
  cbn [file_name_valid_chars].
  destruct (file_name_valid_chars rest true) as [ok rest'].
  destruct (forbidden_char c) eqn:Hc; cbn [fst snd] in *; split; try done.
  - constructor; [apply replacement_char_allowed|done].
  - by constructor.
Qed.

Lemma file_name_valid_chars_length name fix_ :
  length (file_name_valid_chars name fix_).2 = length name.
Proof.
  induction name as [|c rest IH]; [done|]. cbn [file_name_valid_chars].
  destruct (file_name_valid_chars rest fix_) as [ok rest'].
  destruct (forbidden_char c), fix_; cbn [fst snd length] in *; congruence.
Qed.

Lemma file_name_valid_chars_allowed name fix_ :
  Forall (fun c => forbidden_char c = false) name ->
  file_name_valid_chars name fix_ = (true, name).
Proof.
  induction 1 as [|c rest Hc _ IH]; [done|].
  cbn [file_name_valid_chars]. by rewrite Hc, IH.
Qed.

Lemma file_name_valid_chars_check name :
  (file_name_valid_chars name false).2 = name /\
  ((file_name_valid_chars name false).1 = true ->
   Forall (fun c => forbidden_char c = false) name).
Proof.
  induction name as [|c rest [IH1 IH2]]; [by split|].
  cbn [file_name_valid_chars].
  destruct (file_name_valid_chars rest false) as [ok rest'].
  destruct (forbidden_char c) eqn:Hc; cbn [fst snd] in *; split; try done.
  - congruence.
  - intros Hok. constructor; auto.
Qed.

Lemma allowed_chars_Forall name :
  allowed_chars name = true <-> Forall (fun c => forbidden_char c = false) name.
Proof.
  unfold allowed_chars. induction name as [|c rest IH]; cbn [forallb].
  - split; [constructor|done].
  - rewrite andb_true_iff, negb_true_iff, IH. split.
    + intros [? ?]. by constructor.
    + by inversion 1.
Qed.

Lemma file_name_valid_chars_verdict name :
  (file_name_valid_chars name false).1 = allowed_chars name.
Proof.
  unfold allowed_chars. induction name as [|c rest IH]; [done|].
  cbn [file_name_valid_chars forallb].
  destruct (file_name_valid_chars rest false) as [ok rest'].
  destruct (forbidden_char c); cbn [fst negb andb] in *; done.
Qed.

Lemma file_name_valid_check name :
  file_name_valid name false
  = (allowed_chars name && negb (WIN32 && ends_in_space_or_dot name), name).
Proof.
  unfold file_name_valid.
  destruct (Nat.eqb_spec (length name) 0) as [Hlen|Hlen].
  { apply nil_length_inv in Hlen as ->. unfold ends_in_space_or_dot. cbn.
    by rewrite andb_false_r. }
  pose proof (file_name_valid_chars_verdict name) as Hv.
  pose proof (file_name_valid_chars_check name) as [Hsame _].
  destruct (file_name_valid_chars name false) as [ok name']. cbn [fst snd] in *.
  subst name' ok. destruct (allowed_chars name); cbn [negb andb]; [|done].
  unfold ends_in_space_or_dot. destruct WIN32; cbn [andb]; [|done].
  by destruct (_ || _).
Qed.

Lemma file_name_valid_repair name :
  name <> [] ->
  file_name_valid name true
  = (true,
     let name' := (file_name_valid_chars name true).2 in
     if WIN32 && ends_in_space_or_dot name'
     then <[(length name - 1)%nat := replacement_char]> name' else name').
Proof.
  intros Hne. unfold file_name_valid.
  destruct (Nat.eqb_spec (length name) 0) as [Hlen|Hlen].
  { by apply nil_length_inv in Hlen. }
  pose proof (file_name_valid_chars_fix name) as [Hok _].
  pose proof (file_name_valid_chars_length name true) as Hl.
  destruct (file_name_valid_chars name true) as [ok name']. cbn [fst snd] in *.
  subst ok. cbn [negb]. unfold ends_in_space_or_dot. rewrite Hl.
  destruct WIN32; cbn [andb]; [|done]. by destruct (_ || _).
Qed.

(** Repairing a name always succeeds, keeps its length, gives a name that
    passes the check, and changes nothing in a name that passed already;
    checking never changes the name. *)
Theorem file_name_valid_fix name :
  let fixed := (file_name_valid name true).2 in
  (file_name_valid name true).1 = true /\
  length fixed = length name /\
  (file_name_valid fixed false).1 = true /\
  (file_name_valid name false).2 = name /\
  ((file_name_valid name false).1 = true -> fixed = name).
Proof.
  intros fixed. destruct (decide (name = [])) as [->|Hne].
  { by repeat split. }
  subst fixed. rewrite file_name_valid_repair by done.
  rewrite !file_name_valid_check. cbn [fst snd].
  pose proof (file_name_valid_chars_fix name) as [_ Hall].
  pose proof (file_name_valid_chars_length name true) as Hl.
  set (name' := (file_name_valid_chars name true).2) in *.
  assert (Hpos : (length name - 1 < length name')%nat).
  { rewrite Hl. destruct name; [done|]. cbn [length]. lia. }
  split; [done|]. split.
  { destruct (_ && _); [by rewrite length_insert|done]. }
  split.
  { destruct (WIN32 && ends_in_space_or_dot name') eqn:Hbad.
    - apply andb_true_iff. split.
      + apply allowed_chars_Forall, Forall_insert; [done|].
        apply replacement_char_allowed.
      + apply andb_true_iff in Hbad as [Hw _]. rewrite Hw. cbn [andb].
        unfold ends_in_space_or_dot. rewrite length_insert, Hl.
        rewrite nth_lookup, list_lookup_insert_eq by done. cbn [default].
        unfold replacement_char. by rewrite Hw.
    - rewrite Hbad. cbn [negb]. rewrite andb_true_r.
      by apply allowed_chars_Forall. }
  split; [done|].
  intros Hvalid. apply andb_true_iff in Hvalid as [Hallowed Hlast].
  assert (Hsame : name' = name).
  { subst name'. apply allowed_chars_Forall in Hallowed.
    by rewrite file_name_valid_chars_allowed. }
  rewrite Hsame. apply negb_true_iff in Hlast. by rewrite Hlast.
Qed.

(** ** Names that cannot be extracted *)

Lemma silent_always {A} (m : act A) s (P : A * state -> Prop) :
  silent m -> always (m s) (fun _ r => P r) -> exists r, m s = Ret r /\ P r.
Proof. intros Hm H. destruct (Hm s) as [r Hr]. rewrite Hr in H. by exists r. Qed.

Lemma silent_dentry_mark_skipped node : silent (dentry_mark_skipped node).
Proof.
  unfold dentry_mark_skipped. apply silent_bind; [apply silent_modify|].
  intros _. apply silent_ret.
Qed.

(** Marking a subtree as skipped touches the skip marks of its dentries
    and nothing else. *)
Lemma mark_subtree_skipped node s :
  exists s',
    for_dentry_in_tree node dentry_mark_skipped s = Ret (WIMLIB_ERR_SUCCESS, s') /\
    ctx s' = ctx s /\ inodes s' = inodes s /\ ltes s' = ltes s /\
    i_visited s' = i_visited s /\
    forall d', dentries s' d'
               = if bool_decide (d' ∈ dtree_dentries node)
                 then dentry_set_skipped true (dentries s d') else dentries s d'.
Proof.
  set (Inv := fun (visited : list dentry_id) (s' : state) =>
    ctx s' = ctx s /\ inodes s' = inodes s /\ ltes s' = ltes s /\
    i_visited s' = i_visited s /\
    forall d', dentries s' d'
               = if bool_decide (d' ∈ visited)
                 then dentry_set_skipped true (dentries s d') else dentries s d').
  assert (Hstep : forall node visited s1, Inv visited s1 ->
     always (dentry_mark_skipped node s1) (fun t r =>
       if failed r.1 then False else Inv (visited ++ [dtree_root node]) r.2)).
  { intros n visited s1 (Hc & Hi & Hl & Hv & Hd). cbn.
    repeat (split; [done|]). intros d'. cbn [snd dentries set_dentry].
    unfold insert, fn_insert.
    destruct (decide (dtree_root n = d')) as [<-|Hne].
    - rewrite bool_decide_eq_true_2
        by (apply elem_of_app; right; apply list_elem_of_here).
      rewrite Hd. by destruct (bool_decide _).
    - rewrite Hd. apply (f_equal (fun b : bool => if b then _ else _)).
      apply bool_decide_ext. rewrite elem_of_app, list_elem_of_singleton.
      split; [by left|]. intros [?|?]; [done|congruence]. }
  assert (Hstart : Inv [] s).
  { repeat (split; [done|]). intros d'. by rewrite bool_decide_eq_false_2
      by apply not_elem_of_nil. }
  pose proof (for_dentry_in_tree_invariant Inv (fun _ => False)
                dentry_mark_skipped Hstep node [] s Hstart) as H.
  apply silent_always in H;
    [|apply silent_for_dentry_in_tree, silent_dentry_mark_skipped].
  destruct H as ([ret s'] & Hrun & H). cbn [fst snd app] in H.
  destruct (failed ret) eqn:Hf; [done|]. apply failed_false in Hf as ->.
  exists s'. split; [done|]. exact H.
Qed.

Lemma invalid_name_spec node s :
  let d := dtree_root node in
  let dentry := dentries s d in
  let c := ctx s in
  d <> extract_root c ->
  extraction_skipped dentry = false ->
  dentry_is_supported (inodes s (d_inode dentry)) (supported_features c) = true ->
  dentry_is_dot_or_dotdot dentry = false ->
  (WIN32 && negb (supports_case_sensitive_filenames (ops c)) = true ->
   case_insensitive_conflict_list dentry = []) ->
  (file_name_valid (file_name dentry) false).1 = false ->
  always (dentry_calculate_extraction_path node s) (fun t r =>
    if has_flag (extract_flags c) WIMLIB_EXTRACT_FLAG_REPLACE_INVALID_FILENAMES
    then
      let n := wrap ulong_bits (invalid_sequence c + 1) in
      if failed (repaired_name dentry).1
      then t = [warning_event "has an invalid filename that is not supported on this platform; extracting dummy name instead"]
           /\ r = ((repaired_name dentry).1, s)
      else
        invalid_sequence (ctx r.2) = n /\
        extraction_skipped (dentries r.2 d) = false /\
        (forall d', d' <> d -> dentries r.2 d' = dentries s d') /\
        (r.1 = WIMLIB_ERR_SUCCESS /\
           extraction_name (dentries r.2 d)
           = Some ((repaired_name dentry).2 ++ invalid_filename_suffix n) \/
         r.1 = WIMLIB_ERR_NOMEM /\ extraction_name (dentries r.2 d) = None)
    else
      t = [warning_event "Not extracting: has an invalid filename that is not supported on this platform"] /\
      r.1 = WIMLIB_ERR_SUCCESS /\ ctx r.2 = ctx s /\
      forall d', dentries r.2 d'
                 = if bool_decide (d' ∈ dtree_dentries node)
                   then dentry_set_skipped true (dentries s d')
                   else dentries s d').
Proof.
  intros d dentry c Hroot Hskip Hsup Hdot Hcase Hname.
  unfold dentry_calculate_extraction_path. fold d.
  apply always_act_bind. cbn [get_state always fst snd app].
  fold dentry c. rewrite bool_decide_eq_false_2 by done.
  rewrite Hskip, Hsup, Hdot. cbn [orb negb].
  assert (Hlist : (if WIN32 && negb (supports_case_sensitive_filenames (ops c))
                   then case_insensitive_conflict_list dentry else []) = []).
  { destruct (WIN32 && _) eqn:E; [by apply Hcase|done]. }
  rewrite Hlist, Hname.
  destruct (has_flag (extract_flags c) _) eqn:Hflag.
  - apply always_act_bind. cbn [lift WARNING prog_bind always fst snd app].
    unfold repaired_name, tstring.
    destruct (file_name_valid (file_name dentry) true) as [ok fixed].
    cbn [snd].
    destruct (if WIN32 then (WIMLIB_ERR_SUCCESS, fixed) else utf16le_to_tstr fixed)
      as [ret tchar_name] eqn:Hconv.
    cbn [fst snd]. destruct (failed ret) eqn:Hret; [by cbn|].
    act_unfold. cbn [prog_bind always]. intros res.
    destruct (failed res) eqn:Hres; cbn [prog_bind always fst snd];
      state_simpl.
    + split; [done|]. split; [done|]. split.
      { intros d' Hne. by rewrite fn_lookup_insert_ne. }
      right. split; [done|]. done.
    + split; [done|]. split; [done|]. split.
      { intros d' Hne. by rewrite fn_lookup_insert_ne. }
      left. split; [done|]. done.
  - apply always_act_bind. cbn [lift WARNING prog_bind always fst snd app].
    destruct (mark_subtree_skipped node s) as (s' & Hrun & Hc & _ & _ & _ & Hd).
    rewrite Hrun. cbn. done.
Qed.

(** A dentry that reaches the name check with a name the platform cannot
    take: without REPLACE_INVALID_FILENAMES its whole subtree is marked as
    skipped, after one warning, and nothing else changes; with the flag it
    gets the repaired name followed by " (invalid filename #N)", where N is
    the next value of the context's counter, unless the conversion of the
    name or the allocation of the copy fails. *)
Theorem invalid_name_skipped_or_replaced node s env :
  let d := dtree_root node in
  let dentry := dentries s d in
  let c := ctx s in
  d <> extract_root c ->
  extraction_skipped dentry = false ->
  dentry_is_supported (inodes s (d_inode dentry)) (supported_features c) = true ->
  dentry_is_dot_or_dotdot dentry = false ->
  (WIN32 && negb (supports_case_sensitive_filenames (ops c)) = true ->
   case_insensitive_conflict_list dentry = []) ->
  (file_name_valid (file_name dentry) false).1 = false ->
  let r := run (dentry_calculate_extraction_path node s) env in
  if has_flag (extract_flags c) WIMLIB_EXTRACT_FLAG_REPLACE_INVALID_FILENAMES
  then
    let n := wrap ulong_bits (invalid_sequence c + 1) in
    if failed (repaired_name dentry).1
    then r.1 = [warning_event "has an invalid filename that is not supported on this platform; extracting dummy name instead"]
         /\ r.2 = ((repaired_name dentry).1, s)
    else
      invalid_sequence (ctx r.2.2) = n /\
      extraction_skipped (dentries r.2.2 d) = false /\
      (forall d', d' <> d -> dentries r.2.2 d' = dentries s d') /\
      (r.2.1 = WIMLIB_ERR_SUCCESS /\
         extraction_name (dentries r.2.2 d)
         = Some ((repaired_name dentry).2 ++ invalid_filename_suffix n) \/
       r.2.1 = WIMLIB_ERR_NOMEM /\ extraction_name (dentries r.2.2 d) = None)
  else
    r.1 = [warning_event "Not extracting: has an invalid filename that is not supported on this platform"] /\
    r.2.1 = WIMLIB_ERR_SUCCESS /\ ctx r.2.2 = ctx s /\
    forall d', dentries r.2.2 d'
               = if bool_decide (d' ∈ dtree_dentries node)
                 then dentry_set_skipped true (dentries s d')
                 else dentries s d'.
Proof.
  intros d dentry c Hroot Hskip Hsup Hdot Hcase Hname r.
  exact (always_run _ _ env
           (invalid_name_spec node s Hroot Hskip Hsup Hdot Hcase Hname)).
Qed.

(** ** The final pass *)

Lemma build_extraction_path_spec dentry s :
  always (build_extraction_path dentry s) (fun t r =>
    r.2 = s /\
    (t = [] \/ t = [warning_event "Path too long to extract"]) /\
    forall path, r.1 = Some path ->
      t = [] /\
      extraction_skipped (dentries s dentry) = false /\
      Z.of_nat (length path) + 1 <= path_max (ops (ctx s)) /\
      exists rest,
        path = path_prefix (ops (ctx s))
               ++ (if requires_realtarget_in_paths (ops (ctx s))
                   then realtarget_chars (ctx s)
                   else if requires_target_in_paths (ops (ctx s))
                   then target (ctx s) else [])
               ++ rest).
Proof.
  unfold build_extraction_path. act_unfold. cbn [prog_bind].
  destruct (extraction_skipped (dentries s dentry)) eqn:Hskip;
    [cbn; split; [done|]; split; [by left|done]|].
  destruct (ancestors_upto _ _ _ _ _) as [ancestor_list|];
    [|cbn; split; [done|]; split; [by right|done]].
  match goal with |- context [if ?c then _ else _] => destruct c eqn:Hlen end;
    [cbn; split; [done|]; split; [by right|done]|].
  cbn. split; [done|]. split; [by left|].
  intros path [= <-]. split; [done|]. split; [done|].
  split; [|by eexists].
  apply Z.ltb_ge in Hlen. rewrite !length_app, !Nat2Z.inj_add.
  match goal with
  | H : ?a + ?b + ?n + 1 <= _ |- _ + (_ + Z.of_nat (length ?l)) + 1 <= _ =>
      assert (Hsum : Z.of_nat (length l) = n); [|lia]
  end.
  clear. induction ancestor_list as [|d l IH]; [done|].
  cbn [map concat fold_right]. rewrite length_app, Nat2Z.inj_add, IH.
  unfold extraction_name_nchars. cbn [length]. lia.
Qed.

(** Runs a computation whose branches are all written out. *)
Ltac always_crush :=
  repeat first
    [ progress cbn [prog_bind always fst snd app]
    | match goal with
      | |- always ?p _ =>
          match p with
          | context [if ?c then _ else _] => destruct c eqn:?
          end
      | |- forall _ : wimlib_error_code, _ => intro
      end ].

Lemma extract_security_spec path dentry s :
  always (extract_security path dentry s) (fun t r =>
    r.2 = s /\
    (has_flag (extract_flags (ctx s)) WIMLIB_EXTRACT_FLAG_NO_ACLS = true ->
     t = [] /\ r.1 = WIMLIB_ERR_SUCCESS) /\
    (has_flag (extract_flags (ctx s)) WIMLIB_EXTRACT_FLAG_STRICT_ACLS = false ->
     r.1 = WIMLIB_ERR_SUCCESS)).
Proof.
  unfold extract_security. act_unfold. unfold WARNING, ERROR. cbv zeta.
  always_crush; repeat split; try done; try congruence.
Qed.

Lemma extract_timestamps_spec path dentry s :
  always (extract_timestamps path dentry s) (fun t r =>
    r.2 = s /\ Forall (fun e => ~ security_event e) t /\
    (has_flag (extract_flags (ctx s)) WIMLIB_EXTRACT_FLAG_STRICT_TIMESTAMPS = false ->
     r.1 = WIMLIB_ERR_SUCCESS)).
Proof.
  unfold extract_timestamps. act_unfold. unfold WARNING, ERROR. cbv zeta.
  always_crush; repeat split; try done; try congruence;
    repeat (constructor; [by intros []|]); constructor.
Qed.

Lemma dentry_extract_final_spec node s :
  always (dentry_extract_final node s) (fun t r =>
    r.2 = s /\
    (has_flag (extract_flags (ctx s)) WIMLIB_EXTRACT_FLAG_STRICT_ACLS = false ->
     has_flag (extract_flags (ctx s)) WIMLIB_EXTRACT_FLAG_STRICT_TIMESTAMPS = false ->
     r.1 = WIMLIB_ERR_SUCCESS) /\
    (has_flag (extract_flags (ctx s)) WIMLIB_EXTRACT_FLAG_NO_ACLS = true ->
     Forall (fun e => ~ security_event e) t) /\
    (extraction_skipped (dentries s (dtree_root node)) = true ->
     t = [] /\ r.1 = WIMLIB_ERR_SUCCESS)).
Proof.
  unfold dentry_extract_final. apply always_act_bind.
  assert (Hskip : extraction_skipped (dentries s (dtree_root node)) = true ->
            build_extraction_path (dtree_root node) s = Ret (None, s)).
  { intros H. unfold build_extraction_path. act_unfold. cbn [prog_bind].
    by rewrite H. }
  destruct (extraction_skipped (dentries s (dtree_root node))) eqn:Hs.
  { rewrite Hskip by done. cbn. by repeat split. }
  clear Hskip.
  eapply always_mono; [|apply build_extraction_path_spec].
  intros t [[path|] s1] (-> & Ht & Hp); cbn [fst snd] in *.
  2:{ cbn. rewrite app_nil_r. repeat split; try done.
      intros _. destruct Ht as [->| ->]; [constructor|].
      constructor; [by intros []|constructor]. }
  destruct (Hp path eq_refl) as (-> & _). cbn [app].
  apply always_act_bind.
  eapply always_mono; [|apply extract_security_spec].
  intros t1 [ret1 s2] (-> & Hno & Hlen). cbn [fst snd] in *.
  destruct (failed ret1) eqn:Hf1.
  { cbn. rewrite app_nil_r. split; [done|]. split.
    { intros H1 _. rewrite (Hlen H1) in Hf1. done. }
    split; [|done]. intros H. destruct (Hno H) as [-> _]. constructor. }
  eapply always_mono; [|apply extract_timestamps_spec].
  intros t2 [ret2 s3] (-> & Hsec & Hlen2). cbn [fst snd] in *.
  split; [done|]. split; [auto|]. split; [|done].
  intros H. destruct (Hno H) as [-> _]. done.
Qed.

(** [build_extraction_path] gives no path for a skipped dentry; a path it
    gives fits, with its terminator, in the [path_max] characters of the
    caller's buffer and starts with the backend's prefix and the target;
    the state is left as it was and the only thing it may say is that the
    path is too long. *)
Theorem build_extraction_path_fits dentry s env :
  let r := run (build_extraction_path dentry s) env in
  let c := ctx s in
  r.2.2 = s /\
  (r.1 = [] \/ r.1 = [warning_event "Path too long to extract"]) /\
  (extraction_skipped (dentries s dentry) = true -> r.2.1 = None) /\
  forall path, r.2.1 = Some path ->
    r.1 = [] /\
    Z.of_nat (length path) + 1 <= path_max (ops c) /\
    exists rest,
      path = path_prefix (ops c)
             ++ (if requires_realtarget_in_paths (ops c) then realtarget_chars c
                 else if requires_target_in_paths (ops c) then target c else [])
             ++ rest.
Proof.
  intros r c.
  pose proof (always_run _ _ env (build_extraction_path_spec dentry s)) as H.
  fold r in H. cbv beta in H. destruct H as (Hs & Ht & Hp).
  split; [done|]. split; [done|]. split.
  - intros Hskip. destruct r.2.1 as [path|] eqn:E; [|done].
    destruct (Hp path eq_refl) as (_ & Hns & _). congruence.
  - intros path Hpath. destruct (Hp path Hpath) as (? & _ & ? & ?). done.
Qed.

(** The final pass over a dentry changes nothing in the state.  Unless
    STRICT_ACLS or STRICT_TIMESTAMPS is given it succeeds whatever the
    backend answers; with NO_ACLS it makes no call that sets security
    information; for a skipped dentry it does nothing. *)
Theorem final_pass_lenient node s env :
  let r := run (dentry_extract_final node s) env in
  let flags := extract_flags (ctx s) in
  r.2.2 = s /\
  (has_flag flags WIMLIB_EXTRACT_FLAG_STRICT_ACLS = false ->
   has_flag flags WIMLIB_EXTRACT_FLAG_STRICT_TIMESTAMPS = false ->
   r.2.1 = WIMLIB_ERR_SUCCESS) /\
  (has_flag flags WIMLIB_EXTRACT_FLAG_NO_ACLS = true ->
   Forall (fun e => ~ security_event e) r.1) /\
  (extraction_skipped (dentries s (dtree_root node)) = true ->
   r.1 = [] /\ r.2.1 = WIMLIB_ERR_SUCCESS).
Proof.
  intros r flags.
  exact (always_run _ _ env (dentry_extract_final_spec node s)).
Qed.

(** ** Writing out the copies of a stream *)

Lemma stream_frame_refl s : stream_frame s s.
Proof. by repeat split. Qed.

Lemma stream_frame_trans s1 s2 s3 :
  stream_frame s1 s2 -> stream_frame s2 s3 -> stream_frame s1 s3.
Proof.
  intros (?&?&?&?&?&?&?) (?&?&?&?&?&?&?). repeat split; congruence.
Qed.

Lemma stream_frame_fold_left {A} (f : state -> A -> state) (l : list A) s :
  (forall s a, stream_frame s (f s a)) -> stream_frame s (fold_left f l s).
Proof.
  intros Hf. revert s. induction l as [|a l IH]; intros s; [apply stream_frame_refl|].
  cbn [fold_left]. eapply stream_frame_trans; [apply Hf|apply IH].
Qed.

(** One step of the structural proof that a computation keeps to
    [instance_event] and [stream_frame]. *)
Ltac stream_step :=
  lazymatch goal with
  | |- obeys _ _ (mret _) => apply obeys_ret, stream_frame_refl
  | |- obeys _ _ (mbind _ _) =>
      apply (obeys_bind _ _ stream_frame_trans); [|intros ?]
  | |- obeys _ _ get_state => apply obeys_get_state, stream_frame_refl
  | |- obeys _ _ (modify _) => apply obeys_modify; intros ?; by repeat split
  | |- obeys _ _ (lift (call_status _)) =>
      apply (obeys_call _ _ stream_frame_refl); intros ?; done
  | |- obeys _ _ (lift (call_data _)) =>
      apply (obeys_call_data _ _ stream_frame_refl); intros ?; done
  | |- obeys _ _ (lift (tell _)) => apply (obeys_tell _ _ stream_frame_refl); done
  | |- obeys _ _ (lift (WARNING _)) =>
      apply (obeys_WARNING _ _ stream_frame_refl); done
  | |- obeys _ _ (lift (ERROR _)) =>
      apply (obeys_ERROR _ _ stream_frame_refl); done
  | |- obeys _ _ (if ?c then _ else _) => destruct c
  | |- obeys _ _ (match ?x with _ => _ end) => destruct x
  end.

Lemma update_extract_progress_stream ov e :
  obeys (instance_event ov) stream_frame (update_extract_progress e).
Proof. unfold update_extract_progress. repeat stream_step. Qed.

Lemma account_for_stream ov o :
  obeys (instance_event ov) stream_frame (account_for o).
Proof.
  destruct o; cbn [account_for]; [apply update_extract_progress_stream|stream_step].
Qed.

Lemma build_extraction_path_stream ov dentry :
  obeys (instance_event ov) stream_frame (build_extraction_path dentry).
Proof. unfold build_extraction_path. cbv zeta. repeat stream_step. Qed.

Lemma extract_symlink_stream ov path inode :
  obeys (instance_event ov) stream_frame (extract_symlink path inode (Some ov)).
Proof.
  unfold extract_symlink. cbv zeta.
  repeat first [apply account_for_stream | stream_step].
Qed.

Lemma extract_reparse_data_stream ov path inode :
  obeys (instance_event ov) stream_frame (extract_reparse_data path inode (Some ov)).
Proof.
  unfold extract_reparse_data. cbv zeta.
  repeat first [apply account_for_stream | stream_step].
Qed.

Lemma extract_named_streams_stream ov path entries lte :
  obeys (instance_event ov) stream_frame
    (extract_named_streams path entries (Some lte) ov).
Proof.
  induction entries as [|entry rest IH]; cbn [extract_named_streams].
  - stream_step.
  - repeat first [exact IH | apply update_extract_progress_stream | stream_step].
Qed.

Lemma extract_streams_stream ov path dentry lte :
  obeys (instance_event ov) stream_frame (extract_streams path dentry (Some lte) ov).
Proof.
  unfold extract_streams. cbv zeta.
  repeat first [ apply extract_named_streams_stream
               | apply extract_reparse_data_stream
               | apply extract_symlink_stream
               | apply update_extract_progress_stream
               | stream_step ].
Qed.

Lemma extract_instances_stream ov refs lte :
  obeys (instance_event ov) stream_frame (extract_instances refs lte ov).
Proof.
  induction refs as [|dentry rest IH]; cbn [extract_instances].
  - stream_step.
  - repeat first [ exact IH | apply build_extraction_path_stream
                 | apply extract_streams_stream | stream_step ].
Qed.

Lemma clear_tmp_flags_stream ov refs :
  obeys (instance_event ov) stream_frame (clear_tmp_flags refs).
Proof.
  unfold clear_tmp_flags. apply obeys_modify. intros s.
  apply stream_frame_fold_left. intros s' d. by repeat split.
Qed.

Lemma extract_stream_instances_spec lte can_seek s :
  always (extract_stream_instances lte can_seek s) (fun t r =>
    let e := ltes s lte in
    stream_frame s r.2 /\
    if can_seek || (out_refcnt e <? 2) then Forall (instance_event e) t
    else tmp_file_trace e t r.1).
Proof.
  unfold extract_stream_instances. apply always_act_bind.
  cbn [get_state always fst snd app]. cbv zeta.
  set (e := ltes s lte).
  assert (Hinst : forall ov,
    obeys (instance_event ov) stream_frame
      (ret ← extract_instances (referencing_dentries e) lte ov;
       _ ← clear_tmp_flags (referencing_dentries e);
       mret ret)).
  { intros ov.
    repeat first [ apply extract_instances_stream | apply clear_tmp_flags_stream
                 | stream_step ]. }
  destruct (can_seek || (out_refcnt e <? 2)) eqn:Hdirect.
  { eapply always_mono; [|apply Hinst]. by intros t r [Ht Hf]. }
  apply always_act_bind. cbn [lift call_data prog_bind always fst snd].
  intros [err|name]; cbn [app].
  - cbn. split; [apply stream_frame_refl|]. left. by exists err.
  - apply always_act_bind. cbn [lift call_status prog_bind always fst snd].
    intros r0. cbn [app]. destruct (failed r0) eqn:Hr0.
    { cbn. split; [apply stream_frame_refl|]. right. exists name. left.
      by exists r0. }
    apply always_act_bind. cbn [lift call_status prog_bind always fst snd].
    intros r1. cbn [app]. destruct (failed r1) eqn:Hr1.
    { cbn. split; [apply stream_frame_refl|]. right. exists name. right. left.
      by exists r0, r1. }
    apply always_act_bind. cbn [lift call_status prog_bind always fst snd].
    intros written. cbn [app].
    apply always_act_bind. cbn [lift call_status prog_bind always fst snd].
    intros closed. cbn [app].
    destruct (failed (if failed closed && negb (failed written)
                      then WIMLIB_ERR_WRITE else written)) eqn:Hcopy.
    + cbn. split; [apply stream_frame_refl|]. right. exists name. do 2 right.
      exists r0, r1, written, closed, []. repeat split; try done.
    + apply always_act_bind.
      eapply always_mono; [|apply (Hinst (lte_set_file_on_disk name e))].
      intros t [ret s1] [Ht Hf]. cbn. split; [exact Hf|].
      right. exists name. do 2 right.
      exists r0, r1, written, closed, t. repeat split; try done.
      all: exfalso.
      all: destruct (failed written) eqn:Hw, (failed closed) eqn:Hc; cbn in *;
        congruence.
Qed.


(** ** Streams from a pipe *)

Lemma instance_event_stream_data (P : wim_lookup_table_entry -> Prop) ov t :
  P ov -> Forall (instance_event ov) t -> Forall (stream_data_event P) t.
Proof.
  intros Hov Ht. eapply Forall_impl; [exact Ht|]. intros ev Hev.
  destruct ev as [c r|c r|c]; [destruct c|destruct c|destruct c];
    cbn in *; try done; try (by subst).
Qed.

Lemma tmp_file_trace_stream_data (P : wim_lookup_table_entry -> Prop) e t ret :
  P e -> (forall name, P (lte_set_file_on_disk name e)) ->
  tmp_file_trace e t ret -> Forall (stream_data_event P) t.
Proof.
  intros He Htmp [(err & -> & _)|(name & [(r & _ & -> & _)|[(r0 & r & _ & _ & -> & _)|H]])].
  - by repeat constructor.
  - by repeat constructor.
  - by repeat constructor.
  - destruct H as (r0 & r1 & written & closed & t_copies & _ & _ & -> & Hc & _).
    repeat (constructor; [done|]). apply Forall_app. split.
    + eapply instance_event_stream_data; [apply Htmp|exact Hc].
    + by repeat constructor.
Qed.

Lemma read_pwm_stream_header_spec lte allow_header s :
  always (read_pwm_stream_header lte allow_header s) (fun t r =>
    Forall (stream_data_event not_metadata) t /\
    ctx r.2 = ctx s /\ ltes r.2 = ltes s /\ lookup_table r.2 = lookup_table s /\
    (exists k, in_fd r.2 = drop k (in_fd s)) /\
    (failed r.1.1 = false ->
     (length (in_fd r.2) < length (in_fd s))%nat /\
     (resource_location r.1.2 <> RESOURCE_NONEXISTENT ->
      exists item, head (in_fd s) = Some item /\
        re_flags (resource_entry r.1.2) = hdr_flags (stream_hdr item) /\
        lte_hash r.1.2 = hdr_hash (stream_hdr item)))).
Proof.
  unfold read_pwm_stream_header. act_unfold. unfold ERROR. cbv zeta.
  cbn [prog_bind]. destruct (in_fd s) as [|item rest] eqn:Hfd.
  { cbn. repeat split; try done; try by repeat constructor. by exists 0%nat. }
  cbn [prog_bind].
  assert (Hk : exists k, rest = drop k (item :: rest)) by (by exists 1%nat).
  repeat match goal with
         | |- always ?p _ =>
             match p with
             | context [if ?c then _ else _] => destruct c eqn:?
             end
         end; cbn; repeat split; try done; try by repeat constructor.
  all: try lia.
  all: try congruence.
  all: intros _; exists item; by repeat split.
Qed.

Lemma drop_drop_suffix {A} (l : list A) k1 l1 k2 l2 :
  l1 = drop k1 l -> l2 = drop k2 l1 -> exists k, l2 = drop k l.
Proof. intros -> ->. exists (k1 + k2)%nat. by rewrite drop_drop. Qed.

Lemma extract_streams_from_pipe_loop_spec reads :
  forall found s,
  always (extract_streams_from_pipe_loop reads found s) (fun t r =>
    Forall (stream_data_event not_metadata) t /\
    (exists k, in_fd r.2 = drop k (in_fd s)) /\
    (r.1 = WIMLIB_ERR_SUCCESS -> num_streams_remaining (ctx r.2) = 0)).
Proof.
  induction reads as [|reads IH]; intros found s.
  - cbn [extract_streams_from_pipe_loop]. apply always_act_bind.
    cbn [get_state always fst snd app].
    destruct (num_streams_remaining (ctx s) =? 0) eqn:Hrem; cbn.
    + split; [done|]. split; [by exists 0%nat|]. intros _. by apply Z.eqb_eq.
    + split; [done|]. split; [by exists 0%nat|]. done.
  - cbn [extract_streams_from_pipe_loop]. apply always_act_bind.
    cbn [get_state always fst snd app].
    destruct (num_streams_remaining (ctx s) =? 0) eqn:Hrem.
    { cbn. split; [done|]. split; [by exists 0%nat|]. intros _. by apply Z.eqb_eq. }
    apply always_act_bind.
    eapply always_mono; [|apply read_pwm_stream_header_spec].
    intros t1 [[ret found'] s1] (Ht1 & Hc1 & Hl1 & Hlt1 & [k1 Hk1] & Hok).
    cbn [fst snd] in *.
    destruct (failed ret) eqn:Hret.
    { cbn. rewrite app_nil_r. split; [done|]. split; [by exists k1|].
      intros ->. done. }
    specialize (Hok eq_refl) as [_ Hitem].
    apply always_act_bind. cbn [get_state always fst snd app].
    assert (Hrec : forall s2 t2, (exists k, in_fd s2 = drop k (in_fd s)) ->
      Forall (stream_data_event not_metadata) t2 ->
      always (extract_streams_from_pipe_loop reads found' s2) (fun t' b =>
        Forall (stream_data_event not_metadata) (t2 ++ t') /\
        (exists k, in_fd b.2 = drop k (in_fd s)) /\
        (b.1 = WIMLIB_ERR_SUCCESS -> num_streams_remaining (ctx b.2) = 0))).
    { intros s2 t2 [k2 Hk2] Ht2. eapply always_mono; [|apply IH].
      intros t' b (Ht' & [k' Hk'] & Hdone). split; [by apply Forall_app|].
      split; [|done]. eapply drop_drop_suffix; [exact Hk2|exact Hk']. }
    destruct (negb (bool_decide (resource_location found' = RESOURCE_NONEXISTENT)))
      eqn:Hloc; cbn [andb].
    2:{ apply Hrec; [by exists k1|done]. }
    assert (Hskip : always
      ((skip_pwm_stream found'
        ≫= λ ret0, if failed ret0 then mret ret0
                   else extract_streams_from_pipe_loop reads found') s1)
      (fun t' b =>
        Forall (stream_data_event not_metadata) (t1 ++ t') /\
        (exists k, in_fd b.2 = drop k (in_fd s)) /\
        (b.1 = WIMLIB_ERR_SUCCESS -> num_streams_remaining (ctx b.2) = 0))).
    { apply always_act_bind. unfold skip_pwm_stream.
      cbn [lift call_status prog_bind always fst snd]. intros r0.
      destruct (failed r0) eqn:Hr0.
      - cbn. split.
        { apply Forall_app. split; [done|]. by repeat constructor. }
        split; [by exists k1|]. intros ->. done.
      - eapply always_mono;
          [|apply (Hrec s1 (t1 ++ [EvCall (read_partial_wim_resource_seek_only found'
                                            (wim_resource_size found')) r0]))].
        + intros t' b H. cbv beta in H. by rewrite <- app_assoc in H.
        + by exists k1.
        + apply Forall_app. split; [done|]. by repeat constructor. }
    destruct (has_flag (re_flags (resource_entry found')) WIM_RESHDR_FLAG_METADATA)
      eqn:Hmeta; cbn [negb]; [exact Hskip|].
    destruct (lookup_table s1 !! lte_hash found') as [needed|]; [|exact Hskip].
    destruct (nonzero (out_refcnt (ltes s1 needed))); [|exact Hskip].
    clear Hskip.
    apply always_act_bind. cbn [modify always fst snd app].
    set (s2 := set_lte needed _ s1).
    apply always_act_bind.
    eapply always_mono; [|apply extract_stream_instances_spec].
    intros t2 [ret2 s3] [Hframe Hev]. cbn [fst snd] in *.
    assert (Hnm : not_metadata (ltes s2 needed)).
    { unfold s2, not_metadata. cbn [ltes set_lte]. rewrite fn_lookup_insert.
      exact Hmeta. }
    assert (Ht2 : Forall (stream_data_event not_metadata) t2).
    { cbn [orb] in Hev. destruct (out_refcnt (ltes s2 needed) <? 2).
      - by eapply instance_event_stream_data.
      - eapply tmp_file_trace_stream_data; [exact Hnm| |exact Hev].
        intros name. exact Hnm. }
    destruct Hframe as (Hfd3 & _).
    assert (Hk3 : exists k, in_fd s3 = drop k (in_fd s)).
    { exists k1. by rewrite Hfd3. }
    destruct (failed ret2) eqn:Hret2.
    { cbn. rewrite app_nil_r. split; [by apply Forall_app|].
      split; [done|]. intros ->. done. }
    apply always_act_bind. cbn [modify always fst snd app].
    eapply always_mono; [|apply (Hrec _ (t1 ++ t2))].
    + intros t' b H. cbv beta in H. by rewrite <- app_assoc in H.
    + done.
    + by apply Forall_app.
Qed.

Lemma always_bind_inv {A B} (p : prog A) (f : A -> prog B)
    (Q : list io_event -> B -> Prop) :
  always (prog_bind p f) Q ->
  always p (fun t a => always (f a) (fun t' b => Q (t ++ t') b)).
Proof.
  revert Q. induction p as [a|c k IH|c k IH|c k IH]; simpl; intros Q Hp.
  - exact Hp.
  - intros r. apply (IH r (fun t b => Q (EvCall c r :: t) b)). apply Hp.
  - intros r. apply (IH r (fun t b => Q (EvData c r :: t) b)). apply Hp.
  - apply (IH (fun t b => Q (EvTell c :: t) b)). apply Hp.
Qed.

Lemma always_and {A} (p : prog A) (Q1 Q2 : list io_event -> A -> Prop) :
  always p Q1 -> always p Q2 -> always p (fun t a => Q1 t a /\ Q2 t a).
Proof.
  revert Q1 Q2. induction p as [a|c k IH|c k IH|c k IH]; simpl; intros Q1 Q2 H1 H2.
  - done.
  - intros r. apply (IH r (fun t a => Q1 (EvCall c r :: t) a)
                          (fun t a => Q2 (EvCall c r :: t) a)); [apply H1|apply H2].
  - intros r. apply (IH r (fun t a => Q1 (EvData c r :: t) a)
                          (fun t a => Q2 (EvData c r :: t) a)); [apply H1|apply H2].
  - apply (IH (fun t a => Q1 (EvTell c :: t) a)
              (fun t a => Q2 (EvTell c :: t) a)); [apply H1|apply H2].
Qed.

Lemma always_act_bind_inv {A B} (m : act A) (f : A -> act B) s
    (Q : list io_event -> B * state -> Prop) :
  always ((m ≫= f) s) Q ->
  always (m s) (fun t r => always (f r.1 r.2) (fun t' b => Q (t ++ t') b)).
Proof.
  intros H. unfold mbind, act_mbind in H. apply always_bind_inv in H.
  eapply always_mono; [|exact H]. by intros t [a s'].
Qed.

Lemma extract_streams_from_pipe_spec s :
  always (extract_streams_from_pipe s) (fun t r =>
    Forall (stream_data_event not_metadata) t /\
    (exists k, in_fd r.2 = drop k (in_fd s)) /\
    (r.1 = WIMLIB_ERR_SUCCESS -> num_streams_remaining (ctx r.2) = 0)).
Proof.
  unfold extract_streams_from_pipe. apply always_act_bind.
  cbn [lift call_status prog_bind always fst snd]. intros r0.
  destruct (failed r0).
  { cbn. split; [by repeat constructor|]. split; [by exists 0%nat|]. done. }
  apply always_act_bind. cbn [get_state always fst snd app].
  eapply always_mono; [|apply extract_streams_from_pipe_loop_spec].
  intros t r (Ht & Hk & Hdone). split; [|done].
  constructor; [done|exact Ht].
Qed.

(** Extraction from a pipe ends with success only when no stream remains
    to be extracted; it consumes records from the front of the pipe only;
    and no stream descriptor it hands to the backend or writes to a
    temporary file comes from a record flagged as metadata. *)
Theorem extract_streams_from_pipe_exit s env :
  let r := run (extract_streams_from_pipe s) env in
  Forall (stream_data_event not_metadata) r.1 /\
  (exists k, in_fd r.2.2 = drop k (in_fd s)) /\
  (r.2.1 = WIMLIB_ERR_SUCCESS -> num_streams_remaining (ctx r.2.2) = 0).
Proof.
  intros r. exact (always_run _ _ env (extract_streams_from_pipe_spec s)).
Qed.

(** Every stream that is still to be extracted costs a record of the
    pipe: a round of the loop takes one record and extracts at most one
    stream. *)
Lemma extract_streams_from_pipe_loop_records reads :
  forall found s,
  0 <= num_streams_remaining (ctx s) < 2 ^ ulong_bits ->
  always (extract_streams_from_pipe_loop reads found s) (fun t r =>
    r.1 = WIMLIB_ERR_SUCCESS ->
    num_streams_remaining (ctx s) + Z.of_nat (length (in_fd r.2))
    <= Z.of_nat (length (in_fd s))).
Proof.
  induction reads as [|reads IH]; intros found s Hnum.
  - cbn [extract_streams_from_pipe_loop]. apply always_act_bind.
    cbn [get_state always fst snd app].
    destruct (Z.eqb_spec (num_streams_remaining (ctx s)) 0) as [E|E]; cbn.
    + intros _. lia.
    + discriminate.
  - cbn [extract_streams_from_pipe_loop]. apply always_act_bind.
    cbn [get_state always fst snd app].
    destruct (Z.eqb_spec (num_streams_remaining (ctx s)) 0) as [E|E].
    { cbn. intros _. lia. }
    apply always_act_bind.
    eapply always_mono; [|apply read_pwm_stream_header_spec].
    intros t1 [[ret found'] s1] (_ & Hc1 & _ & _ & _ & Hok).
    cbn [fst snd] in *.
    destruct (failed ret) eqn:Hret.
    { cbn. intros ->. done. }
    specialize (Hok eq_refl) as [Hlen _].
    apply always_act_bind. cbn [get_state always fst snd app].
    assert (Hrec : forall s2,
      num_streams_remaining (ctx s2) = num_streams_remaining (ctx s) ->
      in_fd s2 = in_fd s1 ->
      always (extract_streams_from_pipe_loop reads found' s2) (fun t' b =>
        b.1 = WIMLIB_ERR_SUCCESS ->
        num_streams_remaining (ctx s) + Z.of_nat (length (in_fd b.2))
        <= Z.of_nat (length (in_fd s)))).
    { intros s2 Hn2 Hfd2. eapply always_mono; [|apply IH; by rewrite Hn2].
      intros t' b H Hb. specialize (H Hb). rewrite Hn2, Hfd2 in H. lia. }
    assert (Hskip : always
      ((skip_pwm_stream found'
        ≫= λ ret0, if failed ret0 then mret ret0
                   else extract_streams_from_pipe_loop reads found') s1)
      (fun t' b =>
        b.1 = WIMLIB_ERR_SUCCESS ->
        num_streams_remaining (ctx s) + Z.of_nat (length (in_fd b.2))
        <= Z.of_nat (length (in_fd s)))).
    { apply always_act_bind. unfold skip_pwm_stream.
      cbn [lift call_status prog_bind always fst snd]. intros r0.
      destruct (failed r0) eqn:Hr0; [cbn; intros ->; done|].
      apply Hrec; [by rewrite Hc1|done]. }
    destruct (negb (bool_decide (resource_location found' = RESOURCE_NONEXISTENT)));
      cbn [andb].
    2:{ apply Hrec; [by rewrite Hc1|done]. }
    destruct (has_flag (re_flags (resource_entry found')) WIM_RESHDR_FLAG_METADATA);
      cbn [negb]; [exact Hskip|].
    destruct (lookup_table s1 !! lte_hash found') as [needed|]; [|exact Hskip].
    destruct (nonzero (out_refcnt (ltes s1 needed))); [|exact Hskip].
    clear Hskip Hrec.
    apply always_act_bind. cbn [modify always fst snd app].
    apply always_act_bind.
    eapply always_mono; [|apply extract_stream_instances_spec].
    intros t2 [ret2 s3] [Hframe _]. cbn [fst snd] in *.
    destruct Hframe as (Hfd3 & _ & _ & _ & _ & Hn3 & _).
    cbn [in_fd ctx set_lte] in Hfd3, Hn3.
    destruct (failed ret2) eqn:Hret2; [cbn; intros ->; done|].
    apply always_act_bind. cbn [modify always fst snd app].
    assert (Hdec : wrap ulong_bits (num_streams_remaining (ctx s3) - 1)
                   = num_streams_remaining (ctx s) - 1).
    { rewrite Hn3, Hc1. unfold wrap. apply Z.mod_small. lia. }
    eapply always_mono; [|apply IH].
    + intros t' b H Hb. specialize (H Hb). cbn [fst snd] in H.
      cbn [ctx in_fd set_ctx ctx_set_num_streams_remaining
           num_streams_remaining] in H.
      rewrite Hdec, Hfd3 in H. lia.
    + state_simpl. rewrite Hdec. lia.
Qed.

(** Extraction from a pipe cannot succeed on fewer records than there
    are streams left to extract: a successful call has taken at least
    [num_streams_remaining] records from the pipe, so a pipe that holds
    fewer ends the call with a failure. *)
Theorem extract_streams_from_pipe_needs_records s env :
  0 <= num_streams_remaining (ctx s) < 2 ^ ulong_bits ->
  let r := run (extract_streams_from_pipe s) env in
  (r.2.1 = WIMLIB_ERR_SUCCESS ->
   num_streams_remaining (ctx s) + Z.of_nat (length (in_fd r.2.2))
   <= Z.of_nat (length (in_fd s))) /\
  (Z.of_nat (length (in_fd s)) < num_streams_remaining (ctx s) ->
   failed r.2.1 = true).
Proof.
  intros Hnum r.
  assert (H : r.2.1 = WIMLIB_ERR_SUCCESS ->
              num_streams_remaining (ctx s) + Z.of_nat (length (in_fd r.2.2))
              <= Z.of_nat (length (in_fd s))).
  { subst r. apply (always_run _ (fun t r =>
      r.1 = WIMLIB_ERR_SUCCESS ->
      num_streams_remaining (ctx s) + Z.of_nat (length (in_fd r.2))
      <= Z.of_nat (length (in_fd s)))).
    unfold extract_streams_from_pipe. apply always_act_bind.
    cbn [lift call_status prog_bind always fst snd]. intros r0.
    destruct (failed r0); [cbn; discriminate|].
    apply always_act_bind. cbn [get_state always fst snd app].
    by apply extract_streams_from_pipe_loop_records. }
  split; [exact H|].
  intros Hshort. destruct (failed r.2.1) eqn:Hf; [done|].
  specialize (H (failed_false _ Hf)). lia.
Qed.

(** ** The entry points *)

Lemma entry_always_mono {A} (p : entry A) (Q Q' : list entry_event -> A -> Prop) :
  (forall t a, Q t a -> Q' t a) -> entry_always p Q -> entry_always p Q'.
Proof.
  revert Q Q'. induction p as [a|c k IH]; intros Q Q' HQ; cbn; [by apply HQ|].
  intros H r. eapply IH; [|apply H]. intros t a. apply HQ.
Qed.

Lemma entry_always_bind {A B} (p : entry A) (f : A -> entry B)
    (Q : list entry_event -> B -> Prop) :
  entry_always p (fun t a => entry_always (f a) (fun t' b => Q (t ++ t') b)) ->
  entry_always (p ≫= f) Q.
Proof.
  revert Q. induction p as [a|c k IH]; intros Q; cbn; [done|].
  intros H r. apply (IH r (fun t b => Q (Entered c r :: t) b)), H.
Qed.

Lemma entry_always_enter (c : entry_call) (Q : list entry_event -> entry_ret c -> Prop) :
  (forall r, Q [Entered c r] r) -> entry_always (enter c) Q.
Proof. intros H r. apply H. Qed.

Lemma entry_always_run {A} (p : entry A) (Q : list entry_event -> A -> Prop) :
  entry_always p Q ->
  forall answers n, Q (entry_run_from p answers n).1 (entry_run_from p answers n).2.
Proof.
  revert Q. induction p as [a|c k IH]; intros Q H answers n; cbn; [done|].
  specialize (IH _ _ (H (answers n c)) answers (S n)).
  by destruct (entry_run_from (k (answers n c)) answers (S n)).
Qed.

Lemma table_events_app t t' : table_events (t ++ t') = table_events t ++ table_events t'.
Proof. apply flat_map_app. Qed.
Lemma allocated_paths_app t t' :
  allocated_paths (t ++ t') = allocated_paths t ++ allocated_paths t'.
Proof. apply flat_map_app. Qed.
Lemma freed_paths_app t t' : freed_paths (t ++ t') = freed_paths t ++ freed_paths t'.
Proof. apply flat_map_app. Qed.
Lemma extractions_app t t' : extractions (t ++ t') = extractions t ++ extractions t'.
Proof. apply flat_map_app. Qed.
Lemma destinations_app t t' : destinations (t ++ t') = destinations t ++ destinations t'.
Proof. apply flat_map_app. Qed.
Lemma frees_of_wim_app t t' : frees_of_wim (t ++ t') = (frees_of_wim t + frees_of_wim t')%nat.
Proof. unfold frees_of_wim. by rewrite flat_map_app, length_app. Qed.

Lemma plain_trace_app t t' : plain_trace t -> plain_trace t' -> plain_trace (t ++ t').
Proof.
  intros (H1 & H2 & H3) (H1' & H2' & H3'). unfold plain_trace.
  by rewrite table_events_app, frees_of_wim_app, extractions_app, H1, H2, H3,
    H1', H2', H3'.
Qed.

Ltac entry_step :=
  first [ apply entry_always_bind
        | apply entry_always_enter; intros ? ].

Lemma copy_paths_zero {A} (l : list A) :
  copy_paths (map (fun _ => zero_cmd_copy) l) = [].
Proof. induction l as [|x l IH]; [done|]. cbn. exact IH. Qed.

Lemma copy_commands_spec cmds d : forall all_flags,
  entry_always (copy_commands cmds d all_flags)
    (fun t r =>
       plain_trace t /\ freed_paths t = [] /\
       allocated_paths t = copy_paths r.2 /\
       length r.2 = length cmds /\
       (r.1.1 = true ->
        Forall2 (fun cmd c =>
                   copy_extract_flags c
                   = Z.land (Z.lor d (cmd_extract_flags cmd))
                       WIMLIB_EXTRACT_MASK_PUBLIC)
          cmds r.2)).
Proof.
  induction cmds as [|cmd rest IH]; intros all_flags; cbn [copy_commands].
  - cbn. repeat split; try done; intros _; constructor.
  - entry_step. entry_step. destruct r as [src|].
    2:{ cbn [entry_always mret entry_mret fst snd].
        rewrite app_nil_r. repeat split; try done.
        - cbn. by rewrite copy_paths_zero.
        - cbn. by rewrite length_map. }
    entry_step. entry_step. destruct r as [dst|].
    2:{ cbn [entry_always mret entry_mret fst snd].
        rewrite app_nil_r. repeat split; try done.
        - cbn. by rewrite copy_paths_zero.
        - cbn. by rewrite length_map. }
    entry_step. eapply entry_always_mono; [|apply IH].
    intros t [[ok all'] copies] (Hplain & Hfreed & Halloc & Hlen & Hok).
    cbn [entry_always mret entry_mret fst snd] in *. rewrite app_nil_r.
    split.
    { apply (plain_trace_app [_; _]); [done|exact Hplain]. }
    split.
    { change (freed_paths ([Entered (canonicalize_wim_path (wim_source_path cmd)) (Some src)]
                           ++ [Entered (canonicalize_fs_path (fs_dest_path cmd)) (Some dst)]
                           ++ t)) with (freed_paths t). exact Hfreed. }
    split.
    { change (allocated_paths
                ([Entered (canonicalize_wim_path (wim_source_path cmd)) (Some src)]
                 ++ [Entered (canonicalize_fs_path (fs_dest_path cmd)) (Some dst)]
                 ++ t))
        with (src :: dst :: allocated_paths t).
      rewrite Halloc. done. }
    split; [cbn; by rewrite Hlen|].
    intros Hk. constructor; [done|by apply Hok].
Qed.

Lemma free_commands_spec copies :
  entry_always (free_commands copies)
    (fun t _ =>
       plain_trace t /\ allocated_paths t = [] /\ freed_paths t = copy_paths copies).
Proof.
  induction copies as [|c rest IH]; cbn [free_commands]; [by cbn|].
  entry_step. entry_step. entry_step. entry_step.
  eapply entry_always_mono; [|apply IH].
  intros t [] (Hplain & Halloc & Hfreed). split.
  { apply (plain_trace_app [_]); [done|].
    apply (plain_trace_app [_]); [done|exact Hplain]. }
  split.
  { rewrite !allocated_paths_app, Halloc. done. }
  rewrite !freed_paths_app, Hfreed. cbn. fold (copy_paths rest).
  by rewrite !app_nil_r, <- app_assoc.
Qed.

Lemma mask_public_idem d f :
  Z.land (Z.lor (Z.land d WIMLIB_EXTRACT_MASK_PUBLIC) f) WIMLIB_EXTRACT_MASK_PUBLIC
  = Z.land (Z.lor d f) WIMLIB_EXTRACT_MASK_PUBLIC.
Proof.
  rewrite !Z.land_lor_distr_l, <- Z.land_assoc, Z.land_diag. done.
Qed.

Lemma mask_public_internal f :
  Z.land (Z.land f WIMLIB_EXTRACT_MASK_PUBLIC)
    (Z.lor WIMLIB_EXTRACT_FLAG_FROM_PIPE WIMLIB_EXTRACT_FLAG_MULTI_IMAGE) = 0.
Proof.
  rewrite <- Z.land_assoc.
  change (Z.land WIMLIB_EXTRACT_MASK_PUBLIC
            (Z.lor WIMLIB_EXTRACT_FLAG_FROM_PIPE WIMLIB_EXTRACT_FLAG_MULTI_IMAGE))
    with 0.
  apply Z.land_0_r.
Qed.

Lemma wimlib_extract_files_spec image cmds default_extract_flags num_additional_swms :
  entry_always
    (wimlib_extract_files image cmds default_extract_flags num_additional_swms)
    (fun t ret =>
       (table_events t = [] \/
        table_events t = [true; false] /\ num_additional_swms <> 0) /\
       frees_of_wim t = 0%nat /\
       freed_paths t = allocated_paths t /\
       (extractions t = [] \/
        exists cmds',
          extractions t = [(image, cmds')] /\
          Forall2 (fun cmd cmd' =>
                     cmd_extract_flags cmd'
                     = Z.land (Z.lor default_extract_flags (cmd_extract_flags cmd))
                         WIMLIB_EXTRACT_MASK_PUBLIC)
            cmds cmds')).
Proof.
  unfold wimlib_extract_files. entry_step. entry_step.
  destruct (failed r); [by cbn; auto|].
  destruct (length cmds =? 0)%nat; [by cbn; auto|].
  entry_step.
  set (tables := if nonzero num_additional_swms then [true; false] else []).
  apply (entry_always_mono _
           (fun t _ => (frees_of_wim t = 0%nat /\ extractions t = []) /\
                       freed_paths t = [] /\ allocated_paths t = [] /\
                       table_events t
                       = (if nonzero num_additional_swms then [true] else []))).
  2:{ destruct (nonzero num_additional_swms); [apply entry_always_enter; intros []|];
        cbn; done. }
  intros t1 _ (Hp1 & Hf1 & Ha1 & Ht1).
  entry_step. entry_step. entry_step.
  apply (entry_always_mono _
           (fun t _ => table_events t = [] /\ frees_of_wim t = 0%nat /\
                       freed_paths t = allocated_paths t /\
                       (extractions t = [] \/
                        exists cmds',
                          extractions t = [(image, cmds')] /\
                          Forall2 (fun cmd cmd' =>
                                     cmd_extract_flags cmd'
                                     = Z.land (Z.lor default_extract_flags
                                                 (cmd_extract_flags cmd))
                                         WIMLIB_EXTRACT_MASK_PUBLIC)
                            cmds cmds'))).
  2:{ destruct r0; cbn [negb]; [|cbn; repeat split; auto].
      entry_step. eapply entry_always_mono; [|apply copy_commands_spec].
      intros t2 [[ok all_flags] copies] (Hp2 & Hf2 & Ha2 & Hlen & Hok).
      cbn [fst snd] in *. entry_step.
      apply (entry_always_mono _
               (fun t _ => table_events t = [] /\ frees_of_wim t = 0%nat /\
                           freed_paths t = [] /\ allocated_paths t = [] /\
                           (extractions t = [] \/
                            ok = true /\
                            extractions t = [(image, map cmd_of_copy copies)]))).
      2:{ destruct ok; cbn [negb]; [|cbn; repeat split; auto].
          entry_step. entry_step. entry_step.
          destruct (has_flag all_flags _);
            [apply entry_always_enter; intros []|]; cbn; auto 10. }
      intros t3 ret3 (Ht3 & Hw3 & Hf3 & Ha3 & He3).
      entry_step. eapply entry_always_mono; [|apply free_commands_spec].
      intros t4 [] (Hp4 & Ha4 & Hf4).
      entry_step. entry_step. cbn [entry_always mret entry_mret].
      destruct Hp2 as (Ht2 & Hw2 & He2). destruct Hp4 as (Ht4 & Hw4 & He4).
      rewrite !table_events_app, !frees_of_wim_app, !freed_paths_app,
        !allocated_paths_app, !extractions_app.
      rewrite Ht2, Ht3, Ht4, Hw2, Hw3, Hw4, Hf2, Hf3, Hf4, Ha2, Ha3, Ha4, He2, He4.
      cbn [app]. rewrite !app_nil_r.
      split; [done|]. split; [done|]. split; [done|].
      destruct He3 as [->|[-> ->]]; [by left|]. right.
      exists (map cmd_of_copy copies). split; [done|].
      specialize (Hok eq_refl). rewrite Forall2_fmap_r.
      eapply Forall2_impl; [exact Hok|]. intros cmd c Hc. cbn.
      by rewrite Hc, mask_public_idem. }
  intros t5 ret5 (Ht5 & Hw5 & Hf5 & He5).
  entry_step.
  apply (entry_always_mono _
           (fun t _ => (frees_of_wim t = 0%nat /\ extractions t = []) /\
                       freed_paths t = [] /\ allocated_paths t = [] /\
                       table_events t
                       = (if nonzero num_additional_swms then [false] else []))).
  2:{ destruct (nonzero num_additional_swms); [apply entry_always_enter; intros []|];
        cbn; done. }
  intros t6 _ (Hp6 & Hf6 & Ha6 & Ht6).
  cbn [entry_always mret entry_mret].
  rewrite !table_events_app, !frees_of_wim_app, !freed_paths_app,
    !allocated_paths_app, !extractions_app.
  rewrite Ht1, Ht5, Ht6, Hf1, Hf5, Hf6, Ha1, Ha6.
  destruct Hp1 as [Hw1 He1]. destruct Hp6 as [Hw6 He6].
  rewrite Hw1, Hw5, Hw6, He1, He6. cbn [app]. rewrite !app_nil_r.
  split.
  { unfold nonzero. destruct (Z.eqb_spec num_additional_swms 0); cbn; auto. }
  split; [done|]. split; [done|]. exact He5.
Qed.

(** [wimlib_extract_files] gives back what it takes: the lookup tables of
    the additional parts are merged at most once and then unmerged again,
    every string the canonicalize functions allocated is freed, in every
    execution and whatever the outcome.  [do_wimlib_extract_files] is
    entered at most once, for the image asked for, and the flags of the
    commands it gets are those of the caller, with the defaults, masked to
    the public ones: a caller cannot pass FROM_PIPE or MULTI_IMAGE. *)
Theorem wimlib_extract_files_releases image cmds default_extract_flags
    num_additional_swms :
  entry_always
    (wimlib_extract_files image cmds default_extract_flags num_additional_swms)
    (fun t ret =>
       (table_events t = [] \/ table_events t = [true; false]) /\
       freed_paths t = allocated_paths t /\
       (length (extractions t) <= 1)%nat /\
       Forall (fun x =>
                 x.1 = image /\
                 Forall2 (fun cmd cmd' =>
                            cmd_extract_flags cmd'
                            = Z.land (Z.lor default_extract_flags
                                        (cmd_extract_flags cmd))
                                WIMLIB_EXTRACT_MASK_PUBLIC)
                   cmds x.2 /\
                 Forall (fun cmd' =>
                           Z.land (cmd_extract_flags cmd')
                             (Z.lor WIMLIB_EXTRACT_FLAG_FROM_PIPE
                                WIMLIB_EXTRACT_FLAG_MULTI_IMAGE) = 0) x.2)
         (extractions t)).
Proof.
  eapply entry_always_mono; [|apply wimlib_extract_files_spec].
  intros t ret (Htables & _ & Hfreed & Hext).
  split; [destruct Htables as [?|[? _]]; auto|]. split; [done|].
  destruct Hext as [->|(cmds' & -> & Hflags)]; [split; [cbn; lia|constructor]|].
  split; [cbn; lia|]. constructor; [|constructor].
  split; [done|]. split; [done|].
  clear -Hflags. induction Hflags as [|cmd cmd' l l' H _ IH]; constructor; [|done].
  rewrite H. apply mask_public_internal.
Qed.

Lemma tstr_String a s : tstr (String a s) = Z.of_nat (nat_of_ascii a) :: tstr s.
Proof. reflexivity. Qed.

Lemma string_of_uint_digits d :
  Forall is_digit (tstr (DecimalString.NilEmpty.string_of_uint d)).
Proof.
  induction d; cbn [DecimalString.NilEmpty.string_of_uint];
    try (rewrite tstr_String; constructor;
         [unfold is_digit; split; apply Z.leb_le; reflexivity|done]).
  apply Forall_nil_2.
Qed.

Lemma image_number_chars_digits image :
  image_number_chars image <> [] /\ Forall is_digit (image_number_chars image).
Proof.
  unfold image_number_chars, DecimalString.NilZero.string_of_uint.
  destruct (N.to_uint (Z.to_N image)) as [|d|d|d|d|d|d|d|d|d|d] eqn:Hd.
  { split; [done|]. repeat constructor; apply Z.leb_le; reflexivity. }
  all: split; [cbn [DecimalString.NilEmpty.string_of_uint]; by rewrite tstr_String|].
  all: apply string_of_uint_digits.
Qed.

Lemma digits_safe n :
  n <> [] -> Forall is_digit n -> safe_component n.
Proof.
  intros Hne Hd. unfold safe_component. split; [done|].
  split; [intros ->; apply Forall_cons in Hd as [Hd _]; unfold is_digit in Hd; lia|].
  split; [intros ->; apply Forall_cons in Hd as [Hd _]; unfold is_digit in Hd; lia|].
  eapply Forall_impl; [exact Hd|]. intros c Hc Hin. unfold is_digit in Hc.
  unfold filename_forbidden_chars in Hin.
  destruct WIN32; repeat (apply elem_of_cons in Hin as [->|Hin]; [lia|]);
    by apply elem_of_nil in Hin.
Qed.

Lemma image_name_ok_as_dir_safe n :
  image_name_ok_as_dir (Some n) = true -> safe_component n.
Proof.
  unfold image_name_ok_as_dir. rewrite !andb_true_iff, !negb_true_iff.
  intros [[[Hempty Hbrk] Hdot] Hdotdot].
  apply bool_decide_eq_false in Hdot, Hdotdot.
  split; [by intros ->|]. split; [done|]. split; [done|].
  apply Forall_forall. intros c Hin Hforb.
  assert (Hex : tstrpbrk n filename_forbidden_chars = true); [|congruence].
  unfold tstrpbrk. apply existsb_exists. exists c.
  split; [by apply list_elem_of_In|].
  apply existsb_exists. exists c. split; [by apply list_elem_of_In|].
  apply Z.eqb_refl.
Qed.

Lemma extract_single_image_spec image target extract_flags :
  entry_always (extract_single_image image target extract_flags)
    (fun t ret =>
       table_events t = [] /\ frees_of_wim t = 0%nat /\
       freed_paths t = allocated_paths t /\ destinations t = [target] /\
       (extractions t = [] /\ ret = WIMLIB_ERR_NOMEM \/
        exists path r,
          t = [Entered (canonicalize_fs_path target) (Some path);
               Entered (do_wimlib_extract_files_call image
                          [{| wim_source_path := []; fs_dest_path := path;
                              cmd_extract_flags := extract_flags |}]) r;
               Entered (FREE (Some path)) tt] /\ ret = r)).
Proof.
  unfold extract_single_image. entry_step. entry_step.
  destruct r as [path|]; [|cbn; repeat split; auto].
  entry_step. entry_step. entry_step. entry_step. destruct r0.
  cbn. repeat split; try done. right. by exists path, r.
Qed.

Lemma images_from_S image count :
  images_from image (S count) = image :: images_from (image + 1) count.
Proof.
  unfold images_from. cbn [seq map]. rewrite Z.add_0_r. f_equal.
  rewrite <- seq_shift, map_map. apply map_ext. intros j. lia.
Qed.

Lemma extract_images_from_spec count : forall image target extract_flags,
  entry_always (extract_images_from count image target extract_flags)
    (fun t ret =>
       table_events t = [] /\ frees_of_wim t = 0%nat /\
       freed_paths t = allocated_paths t /\
       Forall (fun p => exists subdir,
                 p = target ++ [OS_PREFERRED_PATH_SEPARATOR Y] ++ subdir /\
                 safe_component subdir) (destinations t) /\
       Forall (fun x => exists path,
                 x.2 = [{| wim_source_path := []; fs_dest_path := path;
                           cmd_extract_flags := extract_flags |}])
         (extractions t) /\
       exists done : nat,
         (done <= count)%nat /\
         (extractions t).*1 = images_from image done /\
         (ret = WIMLIB_ERR_SUCCESS -> done = count)).
Proof.
  induction count as [|count IH]; intros image target extract_flags;
    cbn [extract_images_from].
  { cbn. repeat split; try done. exists 0%nat. by repeat split. }
  entry_step. entry_step.
  set (subdir := if image_name_ok_as_dir r then default [] r
                 else image_number_chars image).
  assert (Hsafe : safe_component subdir).
  { subst subdir. destruct (image_name_ok_as_dir r) eqn:Hok.
    - destruct r as [n|]; [|done]. by apply image_name_ok_as_dir_safe.
    - apply digits_safe; apply image_number_chars_digits. }
  entry_step. eapply entry_always_mono; [|apply extract_single_image_spec].
  intros t1 ret1 (Ht1 & Hw1 & Hf1 & Hd1 & He1).
  destruct (failed ret1) eqn:Hfail.
  - cbn [entry_always mret entry_mret]. rewrite app_nil_r.
    rewrite table_events_app, frees_of_wim_app, freed_paths_app,
      allocated_paths_app, destinations_app, extractions_app.
    rewrite Ht1, Hw1, Hf1, Hd1. cbn [app].
    split; [done|]. split; [done|]. split; [done|].
    split; [constructor; [by exists subdir|constructor]|].
    destruct He1 as [[He1 ->]|(path & r1 & -> & <-)].
    + rewrite He1. split; [constructor|]. exists 0%nat.
      split; [lia|]. split; [done|]. done.
    + cbn. split; [constructor; [by exists path|constructor]|].
      exists 1%nat. split; [lia|]. split.
      * by rewrite images_from_S.
      * intros ->. done.
  - eapply entry_always_mono; [|apply IH].
    intros t2 ret2 (Ht2 & Hw2 & Hf2 & Hd2 & He2 & done & Hle & Himgs & Hall).
    rewrite !table_events_app, !frees_of_wim_app, !freed_paths_app,
      !allocated_paths_app, !destinations_app, !extractions_app.
    rewrite Ht1, Hw1, Hf1, Hd1, Ht2, Hw2, Hf2. cbn [app].
    split; [done|]. split; [done|]. split; [done|].
    split; [constructor; [by exists subdir|exact Hd2]|].
    destruct He1 as [[He1 ->]|(path & r1 & -> & <-)]; [done|].
    cbn [extractions flat_map app]. split.
    + constructor; [by exists path|exact He2].
    + exists (S done). split; [lia|]. split.
      * rewrite images_from_S. cbn. by rewrite Himgs.
      * intros Hs. by rewrite (Hall Hs).
Qed.

Lemma extract_all_images_spec hdr_image_count target extract_flags :
  entry_always (extract_all_images hdr_image_count target extract_flags)
    (fun t ret =>
       table_events t = [] /\ frees_of_wim t = 0%nat /\
       freed_paths t = allocated_paths t /\
       Forall (fun p => exists subdir,
                 p = target ++ [OS_PREFERRED_PATH_SEPARATOR Y] ++ subdir /\
                 safe_component subdir) (destinations t) /\
       Forall (fun x => exists path,
                 x.2 = [{| wim_source_path := []; fs_dest_path := path;
                           cmd_extract_flags :=
                             Z.lor extract_flags WIMLIB_EXTRACT_FLAG_MULTI_IMAGE |}])
         (extractions t) /\
       (exists done : nat,
          (done <= Z.to_nat hdr_image_count)%nat /\
          (extractions t).*1 = images_from 1 done /\
          (ret = WIMLIB_ERR_SUCCESS -> done = Z.to_nat hdr_image_count)) /\
       (has_flag (Z.lor extract_flags WIMLIB_EXTRACT_FLAG_MULTI_IMAGE)
          WIMLIB_EXTRACT_FLAG_NTFS = true ->
        ret = WIMLIB_ERR_INVALID_PARAM /\ extractions t = [] /\
        destinations t = [])).
Proof.
  unfold extract_all_images.
  destruct (has_flag (Z.lor extract_flags WIMLIB_EXTRACT_FLAG_MULTI_IMAGE)
              WIMLIB_EXTRACT_FLAG_NTFS) eqn:Hntfs.
  { entry_step. entry_step. cbn. repeat split; try done.
    exists 0%nat. repeat split; [lia|done]. }
  entry_step. entry_step. entry_step.
  apply (entry_always_mono _
           (fun t ret => table_events t = [] /\ frees_of_wim t = 0%nat /\
                         freed_paths t = [] /\ allocated_paths t = [] /\
                         destinations t = [] /\ extractions t = [])).
  2:{ destruct r as [[]|[]]; repeat entry_step;
        try (destruct (negb r)); repeat entry_step; cbn; done. }
  intros t1 ret1 (Ht1 & Hw1 & Hf1 & Ha1 & Hd1 & He1).
  destruct (failed ret1) eqn:Hfail.
  { cbn [entry_always mret entry_mret].
    rewrite app_nil_r.
    change (?f ([Entered (tstat target) r] ++ t1)) with (f t1).
    rewrite Ht1, Hw1, Hf1, Ha1, Hd1, He1.
    repeat split; try done. exists 0%nat. split; [lia|]. split; [done|].
    intros ->. done. }
  eapply entry_always_mono; [|apply extract_images_from_spec].
  intros t2 ret2 (Ht2 & Hw2 & Hf2 & Hd2 & He2 & Hdone).
  rewrite !table_events_app, !frees_of_wim_app, !freed_paths_app,
    !allocated_paths_app, !destinations_app, !extractions_app.
  rewrite Ht1, Hw1, Hf1, Ha1, Hd1, He1, Ht2, Hw2, Hf2. cbn [app].
  repeat split; try done.
Qed.

Lemma entry_always_and {A} (p : entry A) (Q1 Q2 : list entry_event -> A -> Prop) :
  entry_always p Q1 -> entry_always p Q2 ->
  entry_always p (fun t a => Q1 t a /\ Q2 t a).
Proof.
  revert Q1 Q2. induction p as [a|c k IH]; intros Q1 Q2 H1 H2; cbn; [done|].
  intros r. apply (IH r _ _ (H1 r) (H2 r)).
Qed.

Lemma image_names_asked_app t t' :
  image_names_asked (t ++ t') = image_names_asked t ++ image_names_asked t'.
Proof. apply flat_map_app. Qed.

Lemma image_name_ok_as_dir_usable n :
  image_name_ok_as_dir (Some n) = true <-> usable_as_dir n.
Proof.
  unfold image_name_ok_as_dir, usable_as_dir.
  rewrite !andb_true_iff, !negb_true_iff, !bool_decide_eq_false.
  assert (Hbrk : tstrpbrk n filename_forbidden_chars = false
                 <-> Forall (fun c => c ∉ filename_forbidden_chars) n).
  { unfold tstrpbrk. rewrite <- not_true_iff_false, existsb_exists, Forall_forall.
    split.
    - intros Hno c Hc Hin. apply Hno. exists c.
      split; [by apply list_elem_of_In|].
      apply existsb_exists. exists c. split; [by apply list_elem_of_In|].
      apply Z.eqb_refl.
    - intros Hall (c & Hc & Hex). apply existsb_exists in Hex as (c' & Hc' & Heq).
      apply Z.eqb_eq in Heq. subst c'.
      apply (Hall c); by apply list_elem_of_In. }
  rewrite Hbrk. tauto.
Qed.

Lemma image_directory_subdir image name :
  let subdir := if image_name_ok_as_dir name then default [] name
                else image_number_chars image in
  image_directory image name subdir /\ safe_component subdir.
Proof.
  cbv zeta. destruct (image_name_ok_as_dir name) eqn:Hok.
  - destruct name as [n|]; [|done]. split.
    + left. exists n. split; [done|]. split; [|done].
      by apply image_name_ok_as_dir_usable.
    + by apply image_name_ok_as_dir_safe.
  - split.
    + right. split.
      * intros n -> Hn. apply image_name_ok_as_dir_usable in Hn. congruence.
      * split; [done|]. apply image_number_chars_digits.
    + apply digits_safe; apply image_number_chars_digits.
Qed.

Lemma extract_single_image_names image target extract_flags :
  entry_always (extract_single_image image target extract_flags)
    (fun t _ => image_names_asked t = [] /\ destinations t = [target] /\
                (length (extractions t) <= 1)%nat).
Proof.
  unfold extract_single_image. entry_step. entry_step.
  destruct r as [path|]; [|cbn; repeat split; lia].
  entry_step. entry_step. entry_step. entry_step. cbn. repeat split; lia.
Qed.

Lemma extract_images_from_names count : forall image target extract_flags,
  entry_always (extract_images_from count image target extract_flags)
    (fun t _ =>
       (image_names_asked t).*1
       = images_from image (length (image_names_asked t)) /\
       (length (image_names_asked t) <= count)%nat /\
       (length (extractions t) <= length (image_names_asked t))%nat /\
       Forall2 (fun p x => exists subdir,
                  p = target ++ [OS_PREFERRED_PATH_SEPARATOR Y] ++ subdir /\
                  image_directory x.1 x.2 subdir /\ safe_component subdir)
         (destinations t) (image_names_asked t)).
Proof.
  induction count as [|count IH]; intros image target extract_flags;
    cbn [extract_images_from].
  { cbn. split; [done|]. split; [lia|]. split; [lia|]. constructor. }
  entry_step. entry_step.
  pose proof (image_directory_subdir image r) as Hdir. cbv zeta in Hdir.
  set (subdir := if image_name_ok_as_dir r then default [] r
                 else image_number_chars image) in *.
  entry_step. eapply entry_always_mono; [|apply extract_single_image_names].
  intros t1 ret1 (Hn1 & Hd1 & He1).
  assert (Hone : Forall2 (fun p x => exists subdir,
                   p = target ++ [OS_PREFERRED_PATH_SEPARATOR Y] ++ subdir /\
                   image_directory x.1 x.2 subdir /\ safe_component subdir)
                   [target ++ [OS_PREFERRED_PATH_SEPARATOR Y] ++ subdir]
                   [(image, r)]).
  { constructor; [|constructor]. exists subdir. by destruct Hdir. }
  destruct (failed ret1).
  - cbn [entry_always mret entry_mret]. rewrite app_nil_r.
    rewrite image_names_asked_app, destinations_app, extractions_app, Hn1, Hd1.
    cbn [image_names_asked destinations extractions flat_map app length
         fmap list_fmap fst].
    split; [by rewrite images_from_S|]. split; [lia|]. split; [lia|].
    exact Hone.
  - eapply entry_always_mono; [|apply IH].
    intros t2 ret2 (Hi2 & Hl2 & He2 & Hd2).
    rewrite !image_names_asked_app, !destinations_app, !extractions_app,
      Hn1, Hd1, !length_app.
    cbn [image_names_asked destinations extractions flat_map app].
    split.
    { cbn [length fmap list_fmap fst]. rewrite images_from_S. f_equal.
      exact Hi2. }
    split; [cbn [length]; lia|]. split; [cbn [length]; lia|].
    constructor; [|exact Hd2]. exists subdir. by destruct Hdir.
Qed.

Lemma extract_all_images_names hdr_image_count target extract_flags :
  entry_always (extract_all_images hdr_image_count target extract_flags)
    (fun t _ =>
       (image_names_asked t).*1
       = images_from 1 (length (image_names_asked t)) /\
       (length (image_names_asked t) <= Z.to_nat hdr_image_count)%nat /\
       (length (extractions t) <= length (image_names_asked t))%nat /\
       Forall2 (fun p x => exists subdir,
                  p = target ++ [OS_PREFERRED_PATH_SEPARATOR Y] ++ subdir /\
                  image_directory x.1 x.2 subdir /\ safe_component subdir)
         (destinations t) (image_names_asked t)).
Proof.
  unfold extract_all_images.
  destruct (has_flag (Z.lor extract_flags WIMLIB_EXTRACT_FLAG_MULTI_IMAGE)
              WIMLIB_EXTRACT_FLAG_NTFS).
  { entry_step. entry_step. cbn. split; [done|]. split; [lia|].
    split; [lia|]. constructor. }
  entry_step. entry_step. entry_step.
  apply (entry_always_mono _
           (fun t ret => image_names_asked t = [] /\ destinations t = [] /\
                         extractions t = [])).
  2:{ destruct r as [[]|[]]; repeat entry_step;
        try (destruct (negb r)); repeat entry_step; cbn; done. }
  intros t1 ret1 (Hn1 & Hd1 & He1).
  destruct (failed ret1).
  { cbn [entry_always mret entry_mret]. rewrite app_nil_r.
    change (?f ([Entered (tstat target) r] ++ t1)) with (f t1).
    rewrite Hn1, Hd1, He1. cbn. split; [done|]. split; [lia|].
    split; [lia|]. constructor. }
  eapply entry_always_mono; [|apply extract_images_from_names].
  intros t2 ret2 (Hi2 & Hl2 & He2 & Hd2).
  rewrite !image_names_asked_app, !destinations_app, !extractions_app,
    Hn1, Hd1, He1. cbn [app].
  done.
Qed.

(** Extracting all images puts every image in a directory of its own
    directly below the target.  The names of the images are asked for in
    order from 1, and to every name asked for there is one path built:
    the target, a separator, and the name that [wimlib_get_image_name]
    gave for that image, or, when that name is null, empty, [.], [..] or
    has a forbidden character, the number of the image in decimal; that
    last part is never empty, [.] or [..] and has no forbidden character.
    The images are extracted in order from 1 and the first failure stops
    the loop; every command carries MULTI_IMAGE; with NTFS nothing is
    extracted, no name is asked for and no path is built. *)
Theorem extract_all_images_destinations hdr_image_count target extract_flags :
  entry_always (extract_all_images hdr_image_count target extract_flags)
    (fun t ret =>
       (image_names_asked t).*1
       = images_from 1 (length (image_names_asked t)) /\
       (length (image_names_asked t) <= Z.to_nat hdr_image_count)%nat /\
       Forall2 (fun p x => exists subdir,
                  p = target ++ [OS_PREFERRED_PATH_SEPARATOR Y] ++ subdir /\
                  image_directory x.1 x.2 subdir /\ safe_component subdir)
         (destinations t) (image_names_asked t) /\
       Forall (fun x => exists path,
                 x.2 = [{| wim_source_path := []; fs_dest_path := path;
                           cmd_extract_flags :=
                             Z.lor extract_flags WIMLIB_EXTRACT_FLAG_MULTI_IMAGE |}])
         (extractions t) /\
       (exists done : nat,
          (done <= length (image_names_asked t))%nat /\
          (extractions t).*1 = images_from 1 done /\
          (ret = WIMLIB_ERR_SUCCESS -> done = Z.to_nat hdr_image_count)) /\
       (has_flag (Z.lor extract_flags WIMLIB_EXTRACT_FLAG_MULTI_IMAGE)
          WIMLIB_EXTRACT_FLAG_NTFS = true ->
        ret = WIMLIB_ERR_INVALID_PARAM /\ extractions t = [] /\
        destinations t = [] /\ image_names_asked t = []) /\
       freed_paths t = allocated_paths t).
Proof.
  eapply entry_always_mono;
    [|apply (entry_always_and _ _ _
               (extract_all_images_spec hdr_image_count target extract_flags)
               (extract_all_images_names hdr_image_count target extract_flags))].
  intros t ret [(_ & _ & Hf & Hd & He & (done & Hle & Himgs & Hall) & Hntfs)
                  (Hi & Hl & Hext & Hdir)].
  split; [done|]. split; [done|]. split; [done|]. split; [done|].
  assert (Hlen : length (extractions t) = done).
  { rewrite <- (length_fmap fst), Himgs. unfold images_from.
    by rewrite length_map, length_seq. }
  split.
  { exists done. split; [lia|done]. }
  split; [|done].
  intros Hn. destruct (Hntfs Hn) as (-> & He0 & Hd0).
  repeat split; try done. rewrite Hd0 in Hdir. by inversion Hdir.
Qed.

Lemma do_wimlib_extract_image_spec hdr_image_count image target extract_flags
    num_additional_swms :
  entry_always
    (do_wimlib_extract_image hdr_image_count image target extract_flags
       num_additional_swms)
    (fun t ret =>
       (if has_flag extract_flags WIMLIB_EXTRACT_FLAG_FROM_PIPE
        then table_events t = (if nonzero num_additional_swms then [false] else [])
        else table_events t = [] \/ table_events t = [true; false]) /\
       frees_of_wim t = 0%nat /\
       freed_paths t = allocated_paths t /\
       Forall (fun x => exists path,
                 x.2 = [{| wim_source_path := []; fs_dest_path := path;
                           cmd_extract_flags :=
                             if image =? WIMLIB_ALL_IMAGES Y
                             then Z.lor extract_flags
                                    WIMLIB_EXTRACT_FLAG_MULTI_IMAGE
                             else extract_flags |}])
         (extractions t) /\
       if image =? WIMLIB_ALL_IMAGES Y then
         Forall (fun p => exists subdir,
                   p = target ++ [OS_PREFERRED_PATH_SEPARATOR Y] ++ subdir /\
                   safe_component subdir) (destinations t) /\
         exists done : nat,
           (done <= Z.to_nat hdr_image_count)%nat /\
           (extractions t).*1 = images_from 1 done
       else
         Forall (fun p => p = target) (destinations t) /\
         ((extractions t).*1 = [] \/ (extractions t).*1 = [image])).
Proof.
  unfold do_wimlib_extract_image. entry_step.
  apply (entry_always_mono _
           (fun t ret =>
              frees_of_wim t = 0%nat /\ freed_paths t = [] /\
              allocated_paths t = [] /\ destinations t = [] /\
              extractions t = [] /\
              if has_flag extract_flags WIMLIB_EXTRACT_FLAG_FROM_PIPE
              then table_events t = [] /\ ret = WIMLIB_ERR_SUCCESS
              else table_events t = [] /\ failed ret = true \/
                   ret = WIMLIB_ERR_SUCCESS /\
                   table_events t
                   = if nonzero num_additional_swms then [true] else [])).
  2:{ destruct (has_flag extract_flags WIMLIB_EXTRACT_FLAG_FROM_PIPE); [by cbn|].
      entry_step. entry_step. destruct (failed r) eqn:Hr; [cbn; auto 10|].
      entry_step.
      destruct (nonzero num_additional_swms);
        [apply entry_always_enter; intros []|]; cbn; auto 10. }
  intros t1 ret1 (Hw1 & Hf1 & Ha1 & Hd1 & He1 & Htab1).
  destruct (failed ret1) eqn:Hfail.
  { cbn [entry_always mret entry_mret]. rewrite app_nil_r.
    rewrite Hw1, Hf1, Ha1, Hd1, He1.
    destruct (has_flag extract_flags WIMLIB_EXTRACT_FLAG_FROM_PIPE).
    - destruct Htab1 as [_ ->]. done.
    - destruct Htab1 as [[-> _]|[-> _]]; [|done].
      split; [by left|]. repeat split; try done.
      destruct (image =? WIMLIB_ALL_IMAGES Y); [|by auto].
      split; [done|]. exists 0%nat. split; [lia|done]. }
  assert (Ht1 : table_events t1
                = if has_flag extract_flags WIMLIB_EXTRACT_FLAG_FROM_PIPE then []
                  else if nonzero num_additional_swms then [true] else []).
  { destruct (has_flag extract_flags WIMLIB_EXTRACT_FLAG_FROM_PIPE);
      [by destruct Htab1|].
    destruct Htab1 as [[_ Hf]|[_ ->]]; [|done].
    congruence. }
  clear Htab1.
  entry_step.
  apply (entry_always_mono _
           (fun t ret =>
              table_events t = [] /\ frees_of_wim t = 0%nat /\
              freed_paths t = allocated_paths t /\
              Forall (fun x => exists path,
                        x.2 = [{| wim_source_path := []; fs_dest_path := path;
                                  cmd_extract_flags :=
                                    if image =? WIMLIB_ALL_IMAGES Y
                                    then Z.lor extract_flags
                                           WIMLIB_EXTRACT_FLAG_MULTI_IMAGE
                                    else extract_flags |}])
                (extractions t) /\
              if image =? WIMLIB_ALL_IMAGES Y then
                Forall (fun p => exists subdir,
                          p = target ++ [OS_PREFERRED_PATH_SEPARATOR Y] ++ subdir /\
                          safe_component subdir) (destinations t) /\
                exists done : nat,
                  (done <= Z.to_nat hdr_image_count)%nat /\
                  (extractions t).*1 = images_from 1 done
              else
                Forall (fun p => p = target) (destinations t) /\
                ((extractions t).*1 = [] \/ (extractions t).*1 = [image]))).
  2:{ destruct (image =? WIMLIB_ALL_IMAGES Y).
      - eapply entry_always_mono; [|apply extract_all_images_spec].
        intros t ret (Ht & Hw & Hf & Hd & He & (done & Hle & Himgs & _) & _).
        repeat split; try done. by exists done.
      - eapply entry_always_mono; [|apply extract_single_image_spec].
        intros t ret (Ht & Hw & Hf & Hd & He).
        split; [done|]. split; [done|]. split; [done|].
        rewrite Hd. destruct He as [[-> _]|(path & r & -> & _)].
        + split; [constructor|]. split; [by repeat constructor|by left].
        + cbn. split; [constructor; [by exists path|constructor]|].
          split; [by repeat constructor|by right]. }
  intros t2 ret2 (Ht2 & Hw2 & Hf2 & He2 & Hrest).
  entry_step.
  apply (entry_always_mono _
           (fun t _ => table_events t = [] /\ frees_of_wim t = 0%nat /\
                       freed_paths t = [] /\ allocated_paths t = [] /\
                       destinations t = [] /\ extractions t = [])).
  2:{ destruct (has_flag extract_flags
                  (Z.lor WIMLIB_EXTRACT_FLAG_SYMLINK WIMLIB_EXTRACT_FLAG_HARDLINK));
        [apply entry_always_enter; intros []|]; by cbn. }
  intros t3 _ (Ht3 & Hw3 & Hf3 & Ha3 & Hd3 & He3).
  entry_step.
  apply (entry_always_mono _
           (fun t _ => frees_of_wim t = 0%nat /\
                       freed_paths t = [] /\ allocated_paths t = [] /\
                       destinations t = [] /\ extractions t = [] /\
                       table_events t
                       = if nonzero num_additional_swms then [false] else [])).
  2:{ destruct (nonzero num_additional_swms);
        [apply entry_always_enter; intros []|]; by cbn. }
  intros t4 _ (Hw4 & Hf4 & Ha4 & Hd4 & He4 & Ht4).
  cbn [entry_always mret entry_mret].
  rewrite !table_events_app, !frees_of_wim_app, !freed_paths_app,
    !allocated_paths_app, !destinations_app, !extractions_app.
  rewrite Ht1, Ht2, Ht3, Ht4, Hw1, Hw2, Hw3, Hw4, Hf1, Hf2, Hf3, Hf4,
    Ha1, Ha3, Ha4, Hd1, Hd3, Hd4, He1, He3, He4.
  cbn [app]. rewrite !app_nil_r.
  split.
  { destruct (has_flag extract_flags WIMLIB_EXTRACT_FLAG_FROM_PIPE); [done|].
    destruct (nonzero num_additional_swms); auto. }
  done.
Qed.

Lemma has_flag_set_pow2 x k : 0 <= k -> has_flag (Z.lor x (2 ^ k)) (2 ^ k) = true.
Proof.
  intros Hk. rewrite has_flag_pow2 by done.
  rewrite Z.lor_spec, Z.pow2_bits_true by done. apply orb_true_r.
Qed.

Lemma has_flag_masked_internal f :
  has_flag (Z.land f WIMLIB_EXTRACT_MASK_PUBLIC) WIMLIB_EXTRACT_FLAG_FROM_PIPE = false /\
  has_flag (Z.land f WIMLIB_EXTRACT_MASK_PUBLIC) WIMLIB_EXTRACT_FLAG_MULTI_IMAGE = false.
Proof.
  unfold has_flag. rewrite <- !Z.land_assoc.
  change (Z.land WIMLIB_EXTRACT_MASK_PUBLIC WIMLIB_EXTRACT_FLAG_FROM_PIPE) with 0.
  change (Z.land WIMLIB_EXTRACT_MASK_PUBLIC WIMLIB_EXTRACT_FLAG_MULTI_IMAGE) with 0.
  by rewrite Z.land_0_r.
Qed.

(** [wimlib_extract_image] leaves the lookup tables as it found them (a
    merge is followed by an unmerge, and there is at most one) and frees
    every string it had allocated.  Each time it enters
    [do_wimlib_extract_files] it passes a single command for the whole
    image, whose flags are the caller's public flags, plus MULTI_IMAGE
    exactly when all images were asked for; FROM_PIPE is never among
    them.  For a single image there is at most one such call, for that
    image and the target as given. *)
Theorem wimlib_extract_image_balanced hdr_image_count image target extract_flags
    num_additional_swms :
  entry_always
    (wimlib_extract_image hdr_image_count image target extract_flags
       num_additional_swms)
    (fun t ret =>
       (table_events t = [] \/ table_events t = [true; false]) /\
       freed_paths t = allocated_paths t /\
       Forall (fun x => exists path flags,
                 x.2 = [{| wim_source_path := []; fs_dest_path := path;
                           cmd_extract_flags := flags |}] /\
                 Z.land flags WIMLIB_EXTRACT_MASK_PUBLIC
                 = Z.land extract_flags WIMLIB_EXTRACT_MASK_PUBLIC /\
                 has_flag flags WIMLIB_EXTRACT_FLAG_FROM_PIPE = false /\
                 has_flag flags WIMLIB_EXTRACT_FLAG_MULTI_IMAGE
                 = (image =? WIMLIB_ALL_IMAGES Y))
         (extractions t) /\
       (image <> WIMLIB_ALL_IMAGES Y ->
        Forall (fun p => p = target) (destinations t) /\
        ((extractions t).*1 = [] \/ (extractions t).*1 = [image]))).
Proof.
  unfold wimlib_extract_image.
  eapply entry_always_mono; [|apply do_wimlib_extract_image_spec].
  intros t ret (Htab & _ & Hfreed & Hext & Hrest).
  destruct (has_flag_masked_internal extract_flags) as [Hpipe Hmulti].
  rewrite Hpipe in Htab. split; [done|]. split; [done|]. split.
  - eapply Forall_impl; [exact Hext|]. intros x [path Hx].
    exists path. eexists. split; [exact Hx|].
    destruct (image =? WIMLIB_ALL_IMAGES Y).
    + split.
      { rewrite Z.land_lor_distr_l.
        change (Z.land WIMLIB_EXTRACT_FLAG_MULTI_IMAGE WIMLIB_EXTRACT_MASK_PUBLIC)
          with 0.
        rewrite Z.lor_0_r, <- Z.land_assoc, Z.land_diag. done. }
      split.
      { rewrite has_flag_FROM_PIPE, Z.lor_spec.
        rewrite has_flag_FROM_PIPE in Hpipe. rewrite Hpipe. done. }
      change WIMLIB_EXTRACT_FLAG_MULTI_IMAGE with (2 ^ 31).
      by apply has_flag_set_pow2.
    + split; [by rewrite <- Z.land_assoc, Z.land_diag|]. done.
  - intros Hne. apply Z.eqb_neq in Hne. rewrite Hne in Hrest. exact Hrest.
Qed.

Lemma silent_trace_app t t' :
  silent_trace t -> silent_trace t' -> silent_trace (t ++ t').
Proof.
  intros (H1 & H2 & H3 & H4 & H5 & H6) (H1' & H2' & H3' & H4' & H5' & H6').
  unfold silent_trace.
  by rewrite table_events_app, frees_of_wim_app, freed_paths_app,
    allocated_paths_app, destinations_app, extractions_app,
    H1, H2, H3, H4, H5, H6, H1', H2', H3', H4', H5', H6'.
Qed.

Lemma load_metadata_resources_spec count : forall i image,
  entry_always (load_metadata_resources count i image)
    (fun t ret => silent_trace t).
Proof.
  induction count as [|count IH]; intros i image;
    cbn [load_metadata_resources]; [by cbn|].
  entry_step. entry_step. destruct r; cbn [negb]; [|by cbn].
  entry_step. entry_step. destruct r as [ret flags].
  destruct (failed ret); [by cbn|].
  destruct (has_flag flags WIM_RESHDR_FLAG_METADATA); cbn [negb].
  2:{ entry_step. entry_step. by cbn. }
  entry_step.
  apply (entry_always_mono _ (fun t _ => silent_trace t)).
  2:{ destruct (i =? image); apply entry_always_enter; intros ?; by cbn. }
  intros t1 ret1 Ht1. destruct (failed ret1).
  - cbn [entry_always mret entry_mret]. rewrite app_nil_r.
    apply (silent_trace_app [_]); [done|].
    apply (silent_trace_app [_]); [done|exact Ht1].
  - eapply entry_always_mono; [|apply IH]. intros t2 ret2 Ht2.
    apply (silent_trace_app [_]); [done|].
    apply (silent_trace_app [_]); [done|].
    by apply silent_trace_app.
Qed.

(** The flags that reach the extraction when it comes from a pipe. *)
Lemma from_pipe_flags g :
  has_flag g WIMLIB_EXTRACT_FLAG_TO_STDOUT = false ->
  let f := Z.lor (Z.lor g WIMLIB_EXTRACT_FLAG_SEQUENTIAL)
             WIMLIB_EXTRACT_FLAG_FROM_PIPE in
  forall f', f' = f \/ f' = Z.lor f WIMLIB_EXTRACT_FLAG_MULTI_IMAGE ->
    has_flag f' WIMLIB_EXTRACT_FLAG_FROM_PIPE = true /\
    has_flag f' WIMLIB_EXTRACT_FLAG_SEQUENTIAL = true /\
    has_flag f' WIMLIB_EXTRACT_FLAG_TO_STDOUT = false.
Proof.
  intros Hg f f' Hf'. rewrite has_flag_FLAG in Hg.
  rewrite has_flag_FROM_PIPE, !has_flag_FLAG.
  pose proof (flag_bit_range SEQUENTIAL) as Hs.
  pose proof (flag_bit_range TO_STDOUT) as Ho.
  assert (Hne : flag_bit SEQUENTIAL <> flag_bit TO_STDOUT)
    by (intros H%flag_bit_inj; discriminate H).
  assert (Hbits : forall n, 0 <= n ->
            Z.testbit f n
            = Z.testbit g n || (flag_bit SEQUENTIAL =? n) || (30 =? n)).
  { intros n Hn. subst f.
    change WIMLIB_EXTRACT_FLAG_FROM_PIPE with (2 ^ 30).
    rewrite Z.lor_spec, Z.pow2_bits_eqb, testbit_set_flag by lia. done. }
  assert (Hbits' : forall n, 0 <= n ->
            Z.testbit f' n = Z.testbit f n || (f' =? f) && false
                             || negb (f' =? f) && (31 =? n)
            \/ f' = f).
  { intros n Hn. destruct Hf' as [->| ->]; [by right|].
    destruct (Z.eqb_spec (Z.lor f WIMLIB_EXTRACT_FLAG_MULTI_IMAGE) f) as [He|He];
      [by right|].
    left. change WIMLIB_EXTRACT_FLAG_MULTI_IMAGE with (2 ^ 31).
    rewrite Z.lor_spec, Z.pow2_bits_eqb by lia. cbn. by rewrite orb_false_r. }
  assert (Hf : forall n, 0 <= n -> n < 31 -> Z.testbit f' n = Z.testbit f n).
  { intros n Hn Hlt. destruct (Hbits' n Hn) as [->| ->]; [|done].
    destruct (Z.eqb_spec 31 n); [lia|].
    rewrite !andb_false_r, !orb_false_r. done. }
  rewrite !Hf, !Hbits by lia.
  rewrite Hg, !Z.eqb_refl.
  destruct (Z.eqb_spec (flag_bit SEQUENTIAL) (flag_bit TO_STDOUT)); [done|].
  destruct (Z.eqb_spec 30 (flag_bit TO_STDOUT)); [lia|].
  rewrite ?orb_true_r. cbn. by rewrite ?orb_true_r.
Qed.

Lemma extract_image_from_open_pipe_spec hdr image_num_or_name target extract_flags :
  entry_always
    (extract_image_from_open_pipe hdr image_num_or_name target extract_flags)
    (fun t ret =>
       table_events t = [] /\ frees_of_wim t = 0%nat /\
       freed_paths t = allocated_paths t /\
       Forall (fun x => exists path f,
                 x.2 = [{| wim_source_path := []; fs_dest_path := path;
                           cmd_extract_flags := f |}] /\
                 (f = Z.lor extract_flags WIMLIB_EXTRACT_FLAG_FROM_PIPE \/
                  f = Z.lor (Z.lor extract_flags WIMLIB_EXTRACT_FLAG_FROM_PIPE)
                        WIMLIB_EXTRACT_FLAG_MULTI_IMAGE))
         (extractions t)).
Proof.
  assert (Hstop : forall t : list entry_event,
            silent_trace t ->
            table_events t = [] /\ frees_of_wim t = 0%nat /\
            freed_paths t = allocated_paths t /\
            Forall (fun x => exists path f,
                      x.2 = [{| wim_source_path := []; fs_dest_path := path;
                                cmd_extract_flags := f |}] /\
                      (f = Z.lor extract_flags WIMLIB_EXTRACT_FLAG_FROM_PIPE \/
                       f = Z.lor (Z.lor extract_flags WIMLIB_EXTRACT_FLAG_FROM_PIPE)
                             WIMLIB_EXTRACT_FLAG_MULTI_IMAGE))
              (extractions t)).
  { intros t (H1 & H2 & H3 & H4 & H5 & H6).
    rewrite H1, H2, H3, H4, H6. repeat split; constructor. }
  unfold extract_image_from_open_pipe.
  destruct (magic hdr =? PWM_MAGIC); cbn [negb].
  2:{ entry_step. entry_step. cbn [entry_always mret entry_mret]. by apply Hstop. }
  destruct (part_number hdr =? 1); cbn [negb].
  2:{ entry_step. entry_step. cbn [entry_always mret entry_mret]. by apply Hstop. }
  entry_step. entry_step. destruct r as [ret flags].
  destruct (failed ret); [cbn [entry_always mret entry_mret]; by apply Hstop|].
  destruct (has_flag flags WIM_RESHDR_FLAG_METADATA); cbn [negb].
  2:{ entry_step. entry_step. cbn [entry_always mret entry_mret]. by apply Hstop. }
  entry_step. entry_step. destruct (failed r); [cbn [entry_always mret entry_mret]; by apply Hstop|].
  entry_step. entry_step.
  destruct (r0 =? image_count hdr); cbn [negb].
  2:{ entry_step. entry_step. cbn [entry_always mret entry_mret]. by apply Hstop. }
  entry_step.
  apply (entry_always_mono _ (fun t _ => silent_trace t)).
  2:{ destruct image_num_or_name as [s|].
      - entry_step. entry_step.
        destruct (r1 =? WIMLIB_NO_IMAGE Y); [entry_step; entry_step; by cbn|].
        destruct (r1 =? WIMLIB_ALL_IMAGES Y); [entry_step; entry_step; by cbn|].
        by cbn.
      - destruct (image_count hdr =? 1); cbn [negb]; [by cbn|].
        entry_step. entry_step. by cbn. }
  intros t1 [ret1 image] Ht1.
  assert (Hpre : silent_trace
                   ([Entered read_pwm_stream_header_call (ret, flags)]
                    ++ [Entered read_wim_xml_data r]
                    ++ [Entered wim_info_get_num_images r0] ++ t1)).
  { apply (silent_trace_app [_]); [done|].
    apply (silent_trace_app [_]); [done|].
    apply (silent_trace_app [_]); [done|exact Ht1]. }
  destruct (failed ret1).
  { cbn [entry_always mret entry_mret]. rewrite app_nil_r. by apply Hstop. }
  entry_step. eapply entry_always_mono; [|apply load_metadata_resources_spec].
  intros t2 ret2 Ht2.
  destruct (failed ret2).
  { cbn [entry_always mret entry_mret]. rewrite app_nil_r.
    apply Hstop. rewrite !app_assoc.
    apply silent_trace_app; [|exact Ht2]. by rewrite <- !app_assoc. }
  eapply entry_always_mono; [|apply do_wimlib_extract_image_spec].
  intros t3 ret3 (Htab3 & Hw3 & Hf3 & He3 & _).
  assert (Hpipe : has_flag (Z.lor extract_flags WIMLIB_EXTRACT_FLAG_FROM_PIPE)
                    WIMLIB_EXTRACT_FLAG_FROM_PIPE = true).
  { change WIMLIB_EXTRACT_FLAG_FROM_PIPE with (2 ^ 30).
    by apply has_flag_set_pow2. }
  rewrite Hpipe in Htab3. cbn in Htab3.
  destruct Ht1 as (H1 & H2 & H3 & H4 & _ & H6).
  destruct Ht2 as (H1' & H2' & H3' & H4' & _ & H6').
  rewrite !table_events_app, !frees_of_wim_app, !freed_paths_app,
    !allocated_paths_app, !extractions_app.
  rewrite H1, H2, H3, H4, H6, H1', H2', H3', H4', H6', Htab3, Hw3, Hf3.
  cbn [table_events frees_of_wim freed_paths allocated_paths extractions
       flat_map length Nat.add].
  cbn [app]. split; [done|]. split; [done|]. split; [done|].
  eapply Forall_impl; [exact He3|]. intros x [path Hx].
  exists path. eexists. split; [exact Hx|].
  destruct (image =? WIMLIB_ALL_IMAGES Y); auto.
Qed.

(** [wimlib_extract_image_from_pipe] refuses TO_STDOUT before it reads
    anything: with the flag the call does nothing at all and answers
    INVALID_PARAM.  Without the flag it opens the WIM with FROM_PIPE and
    SPLIT_OK; when that fails nothing else happens and the status is
    handed on; when it succeeds, [wimlib_free] is called exactly once, as
    the last thing, on every path.  The lookup tables are not touched,
    every string allocated is freed, and every command that reaches the
    extraction has FROM_PIPE and SEQUENTIAL and has not TO_STDOUT. *)
Theorem extract_image_from_pipe_frees image_num_or_name target extract_flags :
  entry_always
    (wimlib_extract_image_from_pipe image_num_or_name target extract_flags)
    (fun t ret =>
       (if has_flag extract_flags WIMLIB_EXTRACT_FLAG_TO_STDOUT
        then t = [] /\ ret = WIMLIB_ERR_INVALID_PARAM
        else
          exists r hdr,
            let opened :=
              Entered (open_wim_as_WIMStruct
                         (Z.lor (WIMLIB_OPEN_FLAG_FROM_PIPE Y)
                            (WIMLIB_OPEN_FLAG_SPLIT_OK Y))) (r, hdr) in
            if failed r then t = [opened] /\ ret = r
            else exists t',
              t = opened :: t' ++ [Entered wimlib_free tt] /\
              frees_of_wim t' = 0%nat) /\
       table_events t = [] /\
       freed_paths t = allocated_paths t /\
       Forall (fun x =>
                 Forall (fun cmd =>
                           let f := cmd_extract_flags cmd in
                           has_flag f WIMLIB_EXTRACT_FLAG_FROM_PIPE = true /\
                           has_flag f WIMLIB_EXTRACT_FLAG_SEQUENTIAL = true /\
                           has_flag f WIMLIB_EXTRACT_FLAG_TO_STDOUT = false) x.2)
         (extractions t)).
Proof.
  unfold wimlib_extract_image_from_pipe.
  assert (Hmask : has_flag (Z.land extract_flags WIMLIB_EXTRACT_MASK_PUBLIC)
                    WIMLIB_EXTRACT_FLAG_TO_STDOUT
                  = has_flag extract_flags WIMLIB_EXTRACT_FLAG_TO_STDOUT).
  { rewrite !has_flag_FLAG. pose proof (flag_bit_range TO_STDOUT) as Hr.
    rewrite Z.land_spec.
    change WIMLIB_EXTRACT_MASK_PUBLIC with (Z.ones 30).
    rewrite Z.ones_spec_low by lia. apply andb_true_r. }
  rewrite <- Hmask.
  destruct (has_flag (Z.land extract_flags WIMLIB_EXTRACT_MASK_PUBLIC)
              WIMLIB_EXTRACT_FLAG_TO_STDOUT) eqn:Hout.
  { cbn. split; [done|]. split; [done|]. split; [done|]. constructor. }
  entry_step. entry_step. destruct r as [r hdr].
  destruct (failed r) eqn:Hr.
  { cbn. split; [|by repeat split]. exists r, hdr. cbv zeta. by rewrite Hr. }
  entry_step.
  eapply entry_always_mono; [|apply extract_image_from_open_pipe_spec].
  intros t1 ret1 (Ht1 & Hw1 & Hf1 & He1).
  entry_step. entry_step. destruct r0.
  cbn [entry_always mret entry_mret]. rewrite app_nil_r.
  split.
  { exists r, hdr. cbv zeta. rewrite Hr. exists t1. done. }
  rewrite !table_events_app, !freed_paths_app, !allocated_paths_app,
    !extractions_app, Ht1, Hf1. cbn [app]. rewrite !app_nil_r.
  split; [done|]. split; [done|].
  eapply Forall_impl; [exact He1|]. intros x (path & f & -> & Hf).
  constructor; [|constructor]. cbn [cmd_extract_flags].
  by apply (from_pipe_flags _ Hout).
Qed.

(** ** Mixed linked and unlinked commands *)

Lemma unmixed_mixed cmds :
  (exists c, In c cmds /\ linked_cmd c = true) ->
  (exists c, In c cmds /\ linked_cmd c = false) ->
  unmixed cmds = false.
Proof.
  intros (c1 & Hc1 & Hl1) (c2 & Hc2 & Hl2). unfold unmixed.
  apply negb_false_iff, andb_true_iff. split; apply existsb_exists.
  - by exists c1.
  - exists c2. by rewrite Hl2.
Qed.

Lemma check_extract_commands_first_rejection cmds hdr_flags : forall checked,
  Forall (fun c => command_verdict c = WIMLIB_ERR_SUCCESS) checked ->
  unmixed checked = true ->
  unmixed (checked ++ cmds) = false ->
  always (check_extract_commands cmds hdr_flags
            (existsb linked_cmd checked)
            (existsb (fun c => negb (linked_cmd c)) checked))
    (fun t r => only_tells t /\ first_rejection (checked ++ cmds) r.1).
Proof.
  induction cmds as [|cmd rest IH]; intros checked Hvalid Hun Hmix.
  { rewrite app_nil_r in Hmix. congruence. }
  cbn [check_extract_commands]. apply always_bind.
  eapply always_mono;
    [|exact (always_and _ _ _ (check_extract_command_spec cmd hdr_flags)
               (check_extract_command_verdict_spec cmd hdr_flags))].
  intros t [ret cmd'] [(Ht & _ & _ & _ & _ & Hbits & _) Hv].
  cbn [fst snd] in Hv.
  destruct (failed ret) eqn:Hf.
  { simpl. rewrite app_nil_r. split; [done|].
    exists checked, cmd, rest. split; [done|]. split; [done|]. split; [done|].
    by rewrite <- Hv, Hf. }
  pose proof (failed_false _ Hf) as Hok. specialize (Hbits Hok).
  assert (Hlinked : linked_cmd cmd' = linked_cmd cmd).
  { apply linked_cmd_bits; rewrite Hbits by apply flag_bit_range;
      by apply validated_bit_flag. }
  fold (linked_cmd cmd'). rewrite Hlinked.
  set (fl := existsb linked_cmd checked).
  set (fn := existsb (fun c => negb (linked_cmd c)) checked).
  assert (Hfl : (if linked_cmd cmd then true else fl)
                = existsb linked_cmd (checked ++ [cmd])).
  { rewrite existsb_app. cbn [existsb]. fold fl.
    destruct (linked_cmd cmd), fl; done. }
  assert (Hfn : (if linked_cmd cmd then fn else true)
                = existsb (fun c => negb (linked_cmd c)) (checked ++ [cmd])).
  { rewrite existsb_app. cbn [existsb]. fold fn.
    destruct (linked_cmd cmd), fn; done. }
  rewrite Hfl, Hfn.
  destruct (existsb linked_cmd (checked ++ [cmd])
            && existsb (fun c => negb (linked_cmd c)) (checked ++ [cmd]))
    eqn:Hboth.
  { simpl. split.
    { intros e He. apply in_app_or in He as [He|[<-|[]]]; eauto. }
    exists checked, cmd, rest. split; [done|]. split; [done|]. split; [done|].
    rewrite <- Hv, Hf. split; [|done]. unfold unmixed. by rewrite Hboth. }
  apply always_bind.
  eapply always_mono; [|apply (IH (checked ++ [cmd]))].
  - intros t' [ret' rest'] [Ht' Hrej]. simpl. rewrite app_nil_r. split.
    + intros e He. apply in_app_or in He as [He|He]; eauto.
    + cbn [fst] in Hrej. by rewrite <- app_assoc in Hrej.
  - apply Forall_app. split; [done|]. constructor; [|done]. by rewrite <- Hv.
  - unfold unmixed. by rewrite Hboth.
  - by rewrite <- app_assoc.
Qed.

(** C9 (amended).  The commands that [wimlib_extract_files] hands to
    [do_wimlib_extract_files] carry the flags of the caller's commands
    with [default_extract_flags] added, masked to the public flags.  When
    one of the commands [do_wimlib_extract_files] gets asks for SYMLINK or
    HARDLINK and another for neither, it fails without entering
    [extract_tree] for any command.  The status is that of
    [select_wim_image] or of [wim_checksum_unhashed_streams] when one of
    them fails, and nothing else is called then.  Otherwise the commands
    are validated in order, with messages as the only output, up to the
    first command that is invalid itself or completes the mix: an invalid
    command gives its own verdict (INVALID_PARAM, or UNSUPPORTED for NTFS
    in a build without NTFS-3g), a valid one that completes the mix gives
    INVALID_PARAM. *)
Theorem mixed_link_commands_rejected :
  (forall image cmds default_extract_flags num_additional_swms,
     entry_always
       (wimlib_extract_files image cmds default_extract_flags
          num_additional_swms)
       (fun t _ =>
          Forall (fun x =>
                    x.1 = image /\
                    Forall2 (fun cmd cmd' =>
                               cmd_extract_flags cmd'
                               = Z.land (Z.lor default_extract_flags
                                           (cmd_extract_flags cmd))
                                   WIMLIB_EXTRACT_MASK_PUBLIC)
                      cmds x.2)
            (extractions t))) /\
  (forall hdr_flags image cmds env,
     (exists c, In c cmds /\ linked_cmd c = true) ->
     (exists c, In c cmds /\ linked_cmd c = false) ->
     let r := run (do_wimlib_extract_files hdr_flags image cmds) env in
     failed r.2.1 = true /\
     (forall src dst flags status,
        ~ In (EvCall (extract_tree_call src dst flags) status) r.1) /\
     exists selected,
       if failed selected then
         r.1 = [EvCall (select_wim_image image) selected] /\ r.2.1 = selected
       else
         exists checksummed,
           if failed checksummed then
             r.1 = [EvCall (select_wim_image image) selected;
                    EvCall wim_checksum_unhashed_streams checksummed] /\
             r.2.1 = checksummed
           else
             exists t,
               r.1 = EvCall (select_wim_image image) selected
                     :: EvCall wim_checksum_unhashed_streams checksummed :: t /\
               only_tells t /\ first_rejection cmds r.2.1).
Proof.
  split.
  { intros image cmds default_extract_flags num_additional_swms.
    eapply entry_always_mono; [|apply wimlib_extract_files_spec].
    intros t ret (_ & _ & _ & [->|(cmds' & -> & Hflags)]); [constructor|].
    constructor; [|constructor]. by split. }
  intros hdr_flags image cmds env Hl Hn r. subst r.
  apply (always_run _ (fun t a =>
    failed a.1 = true /\
    (forall src dst flags status,
       ~ In (EvCall (extract_tree_call src dst flags) status) t) /\
    exists selected,
      if failed selected then
        t = [EvCall (select_wim_image image) selected] /\ a.1 = selected
      else
        exists checksummed,
          if failed checksummed then
            t = [EvCall (select_wim_image image) selected;
                 EvCall wim_checksum_unhashed_streams checksummed] /\
            a.1 = checksummed
          else
            exists t',
              t = EvCall (select_wim_image image) selected
                  :: EvCall wim_checksum_unhashed_streams checksummed :: t' /\
              only_tells t' /\ first_rejection cmds a.1)).
  unfold do_wimlib_extract_files. simpl. intros r1.
  destruct (failed r1) eqn:Hf1.
  { simpl. split; [done|]. split.
    - intros ???? [?|[]]. discriminate.
    - exists r1. by rewrite Hf1. }
  simpl. intros r2. destruct (failed r2) eqn:Hf2.
  { simpl. split; [done|]. split.
    - intros ???? [?|[?|[]]]; discriminate.
    - exists r1. rewrite Hf1. exists r2. by rewrite Hf2. }
  apply always_bind.
  eapply always_mono;
    [|apply (check_extract_commands_first_rejection cmds hdr_flags []);
      [constructor|reflexivity|by apply unmixed_mixed]].
  intros t [ret cmds'] [Ht Hrej]. cbn [fst snd app] in Hrej.
  assert (Hfail : failed ret = true).
  { destruct Hrej as (checked & c & rest & _ & _ & _ & Hret).
    destruct (failed (command_verdict c)) eqn:Hc; [by rewrite Hret|].
    by destruct Hret as [_ ->]. }
  rewrite Hfail. simpl. rewrite app_nil_r. split; [done|]. split.
  - intros ???? [?|[?|Hin]]; try discriminate.
    apply Ht in Hin as [? ?]. discriminate.
  - exists r1. rewrite Hf1. exists r2. rewrite Hf2. by exists t.
Qed.

(** ** Extraction to standard output *)
























(** ** The claims about the planning pass *)

Lemma planned_dentries_filter s ds :
  nonzero (hard_links (supported_features (ctx s))) = false \/
  NoDup (map (fun d => d_inode (dentries s d)) (filter (not_skipped s) ds)) ->
  planned_dentries s ds = filter (not_skipped s) ds.
Proof.
  induction ds as [|d ds IH] using rev_ind; intros H; [done|].
  rewrite planned_dentries_snoc, filter_app.
  rewrite IH.
  2:{ destruct H as [H|H]; [by left|right].
      rewrite filter_app, map_app in H. by apply NoDup_app in H as [H _]. }
  unfold plan_step.
  destruct (extraction_skipped (dentries s d)) eqn:Hs.
  - rewrite filter_cons_False by (unfold not_skipped; congruence).
    by rewrite filter_nil, app_nil_r.
  - rewrite (filter_cons_True _ d []) by done. rewrite filter_nil.
    destruct (nonzero _ && bool_decide _) eqn:E; [|done].
    exfalso. apply andb_prop in E as [E1 E2].
    destruct H as [H|H]; [congruence|].
    apply bool_decide_eq_true in E2.
    rewrite filter_app, map_app, (filter_cons_True _ d []), filter_nil in H
      by done.
    apply NoDup_app in H as (_ & Hdisj & _). apply (Hdisj _ E2).
    cbn. apply list_elem_of_here.
Qed.

Lemma planned_references_spec s root :
  every_pair_counted s root ->
  planned_references s root = spec_references s root.
Proof.
  intros (Honce & Hnamed & Henc).
  unfold planned_references, spec_references.
  rewrite (planned_dentries_filter s _ Honce).
  assert (Hin : forall d, d ∈ filter (not_skipped s) (dtree_dentries root) ->
            In d (dtree_dentries root) /\ not_skipped s d).
  { intros d Hd. apply list_elem_of_filter in Hd as [? ?]. split; [|done].
    by apply list_elem_of_In. }
  revert Hin. generalize (filter (not_skipped s) (dtree_dentries root)).
  intros l. induction l as [|d l IH]; intros Hin; [done|].
  unfold references_of in *. cbn [flat_map]. rewrite IH.
  2:{ intros d' Hd'. apply Hin. by apply list_elem_of_further. }
  f_equal. unfold streams_referenced. rewrite Hnamed.
  destruct (Hin d) as [Hd Hs]; [apply list_elem_of_here|].
  by rewrite (Henc d Hd Hs).
Qed.

(** C1 (amended): after a planning pass that started with every reference
    count at zero and no inode marked as visited, and that succeeded, the
    reference count of every blob is, as a 32-bit number, the number of
    references of the dentries the pass counts: those that are not
    skipped, and of the dentries of one inode only the first where the
    backend has hard links; the unnamed stream unless the inode is an
    encrypted directory, and the named streams where they are extracted.
    This is the number of pairs of the specification when no inode is
    left out for one of its dentries, named streams are extracted and
    there is no encrypted directory. *)
Theorem blob_accounting_after_planning root s env :
  (forall B, out_refcnt (ltes s B) = 0) ->
  (forall i, i_visited s i = false) ->
  let r := run (for_dentry_in_tree root dentry_add_streams_to_extract s) env in
  r.2.1 = WIMLIB_ERR_SUCCESS ->
  (forall B, out_refcnt (ltes r.2.2 B)
             = u32 (Z.of_nat (count_occ Nat.eq_dec (planned_references s root) B))) /\
  (every_pair_counted s root ->
   forall B, out_refcnt (ltes r.2.2 B)
             = u32 (Z.of_nat (count_occ Nat.eq_dec (spec_references s root) B))).
Proof.
  intros Hzero Hvis r Hok.
  assert (Hrange : forall B, 0 <= out_refcnt (ltes s B) < 2 ^ 32).
  { intros B. rewrite Hzero. lia. }
  pose proof (always_run _ _ env (planning_pass_spec root s Hrange Hvis)) as H.
  fold r in H. cbv beta in H. rewrite Hok in H. cbn [failed] in H.
  destruct H as (_ & _ & Hcnt).
  assert (Hplanned : forall B, out_refcnt (ltes r.2.2 B)
            = u32 (Z.of_nat (count_occ Nat.eq_dec (planned_references s root) B))).
  { intros B. rewrite Hcnt, Hzero. done. }
  split; [exact Hplanned|].
  intros Hall B. rewrite Hplanned. by rewrite planned_references_spec.
Qed.

(** C2 (amended): one reference to a blob in the planning pass.  When the
    reference count is 0 the blob is appended to the extraction list and
    [num_streams_remaining] is incremented; when it is not 0 neither
    happens.  The size of the blob is added to [total_bytes] on every
    reference of an extraction that is not linked, whatever the count; in
    a linked extraction it is added only when the count is 0 and no file
    was extracted from the blob yet. *)
Theorem first_reference_plans_the_stream lte dentry s env :
  let r := run (ref_stream_to_extract (Some lte) dentry s) env in
  let e := ltes s lte in
  let c := ctx s in
  let c' := ctx r.2.2 in
  let added := u64 (total_bytes (progress c) + wim_resource_size e) in
  (out_refcnt e = 0 ->
   stream_list c' = stream_list c ++ [lte] /\
   num_streams_remaining c' = wrap ulong_bits (num_streams_remaining c + 1) /\
   total_bytes (progress c')
   = if is_linked_extraction c && negb (bool_decide (extracted_file e = None))
     then total_bytes (progress c) else added) /\
  (out_refcnt e <> 0 ->
   stream_list c' = stream_list c /\
   num_streams_remaining c' = num_streams_remaining c /\
   total_bytes (progress c')
   = if is_linked_extraction c then total_bytes (progress c) else added).
Proof.
  intros r e c c' added.
  pose proof (always_run _ _ env (ref_stream_to_extract_spec lte dentry s)) as H.
  fold r in H. cbv beta zeta in H. fold e c c' in H.
  destruct H as (_ & _ & _ & _ & _ & Hlist & Hrem & Hbytes & _).
  split; intros Hcount.
  - rewrite Hcount in Hlist, Hrem, Hbytes. cbn in Hlist, Hrem, Hbytes.
    split; [done|]. split; [done|]. rewrite Hbytes. fold added.
    by destruct (is_linked_extraction c), (bool_decide (extracted_file e = None)).
  - apply Z.eqb_neq in Hcount. rewrite Hcount in Hlist, Hrem, Hbytes.
    cbn [andb] in Hbytes. rewrite orb_false_r in Hbytes.
    split; [done|]. split; [done|]. rewrite Hbytes. fold added.
    by destruct (is_linked_extraction c).
Qed.


(** ** The claim about invalid filenames *)

Lemma bool_decide_elem_of_cons (c x : Z) (l : list Z) :
  bool_decide (c ∈ x :: l) = (c =? x) || bool_decide (c ∈ l).
Proof.
  destruct (Z.eqb_spec c x) as [->|Hne]; cbn [orb].
  - apply bool_decide_eq_true_2. by left.
  - apply bool_decide_ext. rewrite elem_of_cons.
    split; [by intros [?|?]|by right].
Qed.

Lemma bool_decide_elem_of_nil (c : Z) : bool_decide (c ∈ @nil Z) = false.
Proof. apply bool_decide_eq_false_2, not_elem_of_nil. Qed.

Lemma spec_offending_forbidden c : spec_offending c = forbidden_char c.
Proof.
  unfold spec_offending, forbidden_char.
  rewrite !bool_decide_elem_of_cons, !bool_decide_elem_of_nil, !orb_false_r,
    !orb_assoc.
  by destruct (c =? 47), (c =? 0), (WIN32 && _).
Qed.

Lemma file_name_valid_chars_map name :
  (file_name_valid_chars name true).2
  = map (fun c => if forbidden_char c then replacement_char else c) name.
Proof.
  induction name as [|c rest IH]; [done|].
  cbn [file_name_valid_chars map].
  destruct (file_name_valid_chars rest true) as [ok rest'].
  cbn [snd] in IH. subst rest'. by destruct (forbidden_char c).
Qed.

Lemma replaced_space_or_dot c :
  WIN32 = true ->
  (let c' := if forbidden_char c then replacement_char else c in
   (c' =? 32) || (c' =? 46))
  = bool_decide (c ∈ [32; 46]).
Proof.
  intros Hw. cbv zeta.
  rewrite !bool_decide_elem_of_cons, bool_decide_elem_of_nil, orb_false_r.
  destruct (forbidden_char c) eqn:Hf; [|done].
  unfold forbidden_char in Hf. unfold replacement_char. rewrite Hw in Hf |- *.
  destruct (Z.eqb_spec c 32) as [->|_]; [by vm_compute in Hf|].
  destruct (Z.eqb_spec c 46) as [->|_]; [by vm_compute in Hf|]. done.
Qed.

(** The repaired name of the code is the replaced name of the
    specification. *)
Lemma file_name_valid_spec name :
  (file_name_valid name true).2 = spec_replaced_name name.
Proof.
  unfold spec_replaced_name.
  induction name as [|c front _] using rev_ind; [done|].
  rewrite reverse_app, reverse_singleton. cbn [app].
  rewrite reverse_involutive.
  rewrite file_name_valid_repair by (by destruct front).
  cbn [snd]. rewrite file_name_valid_chars_map.
  set (f := fun c => if forbidden_char c then replacement_char else c).
  assert (Hf : forall l, map (fun c => if spec_offending c
                                       then (if WIN32 then 0xfffd else 63)
                                       else c) l
                         = map f l).
  { intros l. apply map_ext. intros x. unfold f, replacement_char.
    by rewrite spec_offending_forbidden. }
  rewrite !Hf. clear Hf.
  assert (Hlast : ends_in_space_or_dot (map f (front ++ [c]))
                  = (f c =? 32) || (f c =? 46)).
  { unfold ends_in_space_or_dot. rewrite map_app. cbn [map].
    rewrite length_app. cbn [length].
    replace (length (map f front) + 1 - 1)%nat with (length (map f front))
      by lia.
    by rewrite nth_middle. }
  rewrite Hlast. destruct WIN32 eqn:Hw; cbn [andb]; [|done].
  rewrite <- (replaced_space_or_dot c Hw). cbv zeta. fold (f c).
  destruct ((f c =? 32) || (f c =? 46)); [|done].
  rewrite map_app. cbn [map]. rewrite length_app. cbn [length].
  replace (length front + 1 - 1)%nat with (length (map f front) + 0)%nat
    by (rewrite length_map; lia).
  rewrite insert_app_r. cbn. unfold replacement_char. by rewrite Hw.
Qed.

(** A name the specification calls invalid fails the check of the code,
    and the other way round. *)
Lemma spec_invalid_name_check name :
  spec_invalid_name name <-> (file_name_valid name false).1 = false.
Proof.
  rewrite file_name_valid_check. cbn [fst]. unfold spec_invalid_name. split.
  - intros [Hbad|(Hw & front & c & -> & Hc)].
    + destruct (allowed_chars name) eqn:Hall; [|done].
      apply allowed_chars_Forall in Hall.
      apply Exists_exists in Hbad as (c & Hin & Hc).
      rewrite Forall_forall in Hall. specialize (Hall c Hin).
      rewrite spec_offending_forbidden in Hc. congruence.
    + rewrite Hw. cbn [andb]. unfold ends_in_space_or_dot.
      rewrite length_app. cbn [length].
      replace (length front + 1 - 1)%nat with (length front) by lia.
      rewrite nth_middle.
      assert (Hlast : (c =? 32) || (c =? 46) = true).
      { rewrite !elem_of_cons, elem_of_nil in Hc.
        destruct Hc as [->|[->|[]]]; done. }
      rewrite Hlast. cbn [negb]. apply andb_false_r.
  - intros Hcheck. apply andb_false_iff in Hcheck as [Hall|Hlast].
    + left. unfold allowed_chars in Hall.
      induction name as [|c rest IH]; [done|]. cbn [forallb] in Hall.
      destruct (forbidden_char c) eqn:Hc; cbn [negb andb] in Hall.
      * left. by rewrite spec_offending_forbidden.
      * right. by apply IH.
    + right. apply negb_false_iff, andb_true_iff in Hlast as [Hw Hlast].
      split; [done|]. unfold ends_in_space_or_dot in Hlast.
      induction name as [|c0 front _] using rev_ind; [by cbn in Hlast|].
      exists front, c0. split; [done|].
      rewrite length_app in Hlast. cbn [length] in Hlast.
      replace (length front + 1 - 1)%nat with (length front) in Hlast by lia.
      rewrite nth_middle in Hlast.
      apply orb_true_iff in Hlast as [H|H]; apply Z.eqb_eq in H as ->;
        [apply list_elem_of_here|apply list_elem_of_further, list_elem_of_here].
Qed.

(** C5 (amended): a dentry that is not the root of the extraction, is not
    skipped already, is supported by the backend, is not named "." or
    "..", and has no case-insensitive conflict where that matters, and
    whose filename is invalid as the specification says.  With
    REPLACE_INVALID_FILENAMES its extraction name is the filename with
    each offending code unit replaced, converted to the encoding of the
    platform, followed by " (invalid filename #N)", where N is the
    counter of the extraction after it was incremented once; unless the
    conversion fails, which ends the call with its status and leaves the
    state alone, or the copy of the name cannot be allocated, which gives
    NOMEM.  Without the flag every dentry of its subtree is marked as
    skipped, the other dentries and the counter stay as they are, and the
    status is success. *)
Theorem invalid_filename_renamed_or_skipped node s env :
  let d := dtree_root node in
  let dentry := dentries s d in
  let c := ctx s in
  d <> extract_root c ->
  extraction_skipped dentry = false ->
  dentry_is_supported (inodes s (d_inode dentry)) (supported_features c) = true ->
  dentry_is_dot_or_dotdot dentry = false ->
  (WIN32 && negb (supports_case_sensitive_filenames (ops c)) = true ->
   case_insensitive_conflict_list dentry = []) ->
  spec_invalid_name (file_name dentry) ->
  let r := run (dentry_calculate_extraction_path node s) env in
  let n := wrap ulong_bits (invalid_sequence c + 1) in
  let replaced := spec_replaced_name (file_name dentry) in
  let converted :=
    if WIN32 then (WIMLIB_ERR_SUCCESS, replaced) else utf16le_to_tstr replaced in
  if has_flag (extract_flags c) WIMLIB_EXTRACT_FLAG_REPLACE_INVALID_FILENAMES
  then
    if failed converted.1 then r.2 = (converted.1, s)
    else
      invalid_sequence (ctx r.2.2) = n /\
      extraction_skipped (dentries r.2.2 d) = false /\
      (forall d', d' <> d -> dentries r.2.2 d' = dentries s d') /\
      (r.2.1 = WIMLIB_ERR_SUCCESS /\
         extraction_name (dentries r.2.2 d)
         = Some (converted.2 ++ invalid_filename_suffix n) \/
       r.2.1 = WIMLIB_ERR_NOMEM /\ extraction_name (dentries r.2.2 d) = None)
  else
    r.2.1 = WIMLIB_ERR_SUCCESS /\
    invalid_sequence (ctx r.2.2) = invalid_sequence c /\
    (forall d', d' ∈ dtree_dentries node ->
                extraction_skipped (dentries r.2.2 d') = true) /\
    (forall d', d' ∉ dtree_dentries node -> dentries r.2.2 d' = dentries s d').
Proof.
  intros d dentry c Hroot Hskip Hsup Hdot Hcase Hname r n replaced converted.
  apply spec_invalid_name_check in Hname.
  pose proof (always_run _ _ env
                (invalid_name_spec node s Hroot Hskip Hsup Hdot Hcase Hname))
    as H.
  fold r in H. cbv beta zeta in H. fold d dentry c n in H.
  assert (Hrep : repaired_name dentry = converted).
  { unfold repaired_name, converted, replaced.
    by rewrite file_name_valid_spec. }
  rewrite Hrep in H.
  destruct (has_flag (extract_flags c) _) eqn:Hflag; rewrite ?Hflag in H.
  - unfold tstring in H |- *. revert H.
    destruct (failed converted.1); [by intros [_ ?]|done].
  - destruct H as (_ & Hret & Hctx & Hd). split; [done|].
    split; [by rewrite Hctx|]. split.
    + intros d' Hin. rewrite Hd, bool_decide_eq_true_2 by done. done.
    + intros d' Hin. by rewrite Hd, bool_decide_eq_false_2.
Qed.

(** ** The claim about the records of a pipe *)

Lemma run_bind {A B} (p : prog A) (f : A -> prog B) env :
  run (prog_bind p f) env
  = let a := run p env in
    let b := run (f a.2) (leftover p env) in (a.1 ++ b.1, b.2).
Proof.
  revert env. induction p as [a|c k IH|c k IH|c k IH]; intros env;
    cbn [prog_bind run leftover]; cbv zeta.
  - cbn [fst snd app]. by destruct (run (f a) env).
  - rewrite IH. cbv zeta. destruct (run (k _) _) as [t a]. cbn [fst snd].
    by destruct (run (f a) _).
  - rewrite IH. cbv zeta. destruct (run (k _) _) as [t a]. cbn [fst snd].
    by destruct (run (f a) _).
  - rewrite IH. cbv zeta. destruct (run k env) as [t a]. cbn [fst snd].
    by destruct (run (f a) _).
Qed.

(** C4 (amended): the loop of [extract_streams_from_pipe] ends with success
    at once when no stream remains, and ends with success only when none
    remains.  While a stream remains, a round that reads a stream record
    goes one of two ways.  If the blob table has a blob for the digest of
    the record, the blob is referenced and the record is not flagged as
    metadata, the blob takes the place of the record in the pipe and its
    copies are written out; when that fails the loop ends with the error,
    otherwise the number of streams that remain goes down by one and the
    loop goes on with the rest of the pipe.  In every other case the bytes
    of the record are read and dropped, nothing is written, the number of
    streams that remain stays, and the loop goes on unless the read
    fails. *)
Theorem pipe_record_extracted_or_skipped reads found s env :
  let r := run (extract_streams_from_pipe_loop (S reads) found s) env in
  (num_streams_remaining (ctx s) = 0 -> r = ([], (WIMLIB_ERR_SUCCESS, s))) /\
  (r.2.1 = WIMLIB_ERR_SUCCESS -> num_streams_remaining (ctx r.2.2) = 0) /\
  forall item rest,
  num_streams_remaining (ctx s) <> 0 ->
  in_fd s = item :: rest ->
  failed (read_status item) = false ->
  hdr_magic (stream_hdr item) <> PWM_MAGIC ->
  hdr_magic (stream_hdr item) = PWM_STREAM_MAGIC ->
  let header := (run (read_pwm_stream_header found true s) []).2 in
  let e := header.1.2 in
  let s1 := set_in_fd rest s in
  let skip := read_partial_wim_resource_seek_only e (wim_resource_size e) in
  let skipped :=
    let status := answer_status (head env) in
    let next := run (extract_streams_from_pipe_loop reads e s1) (tail env) in
    if failed status then r = ([EvCall skip status], (status, s1))
    else r = (EvCall skip status :: next.1, next.2) in
  header = ((WIMLIB_ERR_SUCCESS, e), s1) /\
  lte_hash e = hdr_hash (stream_hdr item) /\
  match lookup_table s !! hdr_hash (stream_hdr item) with
  | Some B =>
      if nonzero (out_refcnt (ltes s B))
         && negb (has_flag (hdr_flags (stream_hdr item)) WIM_RESHDR_FLAG_METADATA)
      then
        let s2 :=
          set_lte B
            (lte_set_resource (resource_entry e) (resource_location e)
               (compression_type e) (is_pipable e) (ltes s1 B)) s1 in
        let instances := extract_stream_instances B false s2 in
        let inst := run instances env in
        let s3 :=
          set_ctx (ctx_set_num_streams_remaining
                     (wrap ulong_bits (num_streams_remaining (ctx inst.2.2) - 1))
                     (ctx inst.2.2)) inst.2.2 in
        let next := run (extract_streams_from_pipe_loop reads e s3)
                      (leftover instances env) in
        num_streams_remaining (ctx s3)
        = wrap ulong_bits (num_streams_remaining (ctx s) - 1) /\
        (if out_refcnt (ltes s B) <? 2
         then Forall (instance_event (ltes s2 B)) inst.1
         else tmp_file_trace (ltes s2 B) inst.1 inst.2.1) /\
        if failed inst.2.1 then r = inst else r = (inst.1 ++ next.1, next.2)
      else skipped
  | None => skipped
  end.
Proof.
  intros r. split; [|split].
  - intros Hzero. unfold r. cbn [extract_streams_from_pipe_loop]. act_unfold.
    cbn [prog_bind]. by rewrite Hzero.
  - pose proof (always_run _ _ env
                  (extract_streams_from_pipe_loop_spec (S reads) found s)) as H.
    fold r in H. by destruct H as (_ & _ & H).
  - intros item rest Hrem Hfd Hread Hwim Hmagic header e s1 skip skipped.
    apply Z.eqb_neq in Hrem, Hwim. apply Z.eqb_eq in Hmagic.
    assert (Hhdr : exists e0,
      read_pwm_stream_header found true s = Ret ((WIMLIB_ERR_SUCCESS, e0), s1) /\
      lte_hash e0 = hdr_hash (stream_hdr item) /\
      re_flags (resource_entry e0) = hdr_flags (stream_hdr item) /\
      resource_location e0 = RESOURCE_IN_WIM).
    { unfold read_pwm_stream_header. act_unfold. cbv zeta. cbn [prog_bind].
      rewrite Hfd. cbn [prog_bind]. rewrite Hread, Hwim, Hmagic.
      cbn [andb negb]. eexists. split; [reflexivity|]. by repeat split. }
    destruct Hhdr as (e0 & Hhdr & Hhash & Hflags & Hloc).
    assert (He : header = ((WIMLIB_ERR_SUCCESS, e0), s1)).
    { unfold header. by rewrite Hhdr. }
    assert (He0 : e = e0) by (unfold e; by rewrite He).
    split; [by rewrite He0|]. split; [by rewrite He0|].
    clearbody e. subst e0. clear header He.
    assert (Hgo : r = run (
      let needed_lte :=
        if negb (has_flag (re_flags (resource_entry e)) WIM_RESHDR_FLAG_METADATA)
        then match lookup_table s1 !! lte_hash e with
             | Some needed =>
                 if nonzero (out_refcnt (ltes s1 needed)) then Some needed else None
             | None => None
             end
        else None in
      match needed_lte with
      | Some needed =>
          prog_bind
            (extract_stream_instances needed false
               (set_lte needed
                  (lte_set_resource (resource_entry e) (resource_location e)
                     (compression_type e) (is_pipable e) (ltes s1 needed)) s1))
            (fun '(ret, s') =>
               if failed ret then Ret (ret, s') else
               extract_streams_from_pipe_loop reads e
                 (set_ctx (ctx_set_num_streams_remaining
                             (wrap ulong_bits (num_streams_remaining (ctx s') - 1))
                             (ctx s')) s'))
      | None =>
          Call skip (fun status =>
            if failed status then Ret (status, s1)
            else extract_streams_from_pipe_loop reads e s1)
      end) env).
    { unfold r. cbn [extract_streams_from_pipe_loop].
      unfold mbind at 1, act_mbind at 1. unfold get_state at 1.
      cbn [prog_bind]. rewrite Hrem.
      unfold mbind at 1, act_mbind at 1. rewrite Hhdr. cbn [prog_bind failed].
      unfold mbind at 1, act_mbind at 1. unfold get_state at 1.
      cbn [prog_bind]. rewrite Hloc.
      rewrite (bool_decide_eq_false_2 (RESOURCE_IN_WIM = RESOURCE_NONEXISTENT))
        by done.
      cbn [negb andb]. cbv zeta.
      destruct (if negb (has_flag _ _) then _ else _) as [needed|].
      - act_unfold. cbn [prog_bind]. rewrite !run_bind. cbv zeta.
        destruct (run (extract_stream_instances _ _ _) env) as [t [ret s']].
        cbn [fst snd]. by destruct (failed ret).
      - unfold skip_pwm_stream. act_unfold. cbn [prog_bind run].
        by destruct (failed (answer_status (head env))). }
    assert (Hskip : r = run (Call skip (fun status =>
                          if failed status then Ret (status, s1)
                          else extract_streams_from_pipe_loop reads e s1)) env ->
                    skipped).
    { intros ->. unfold skipped. cbn [run].
      destruct (failed (answer_status (head env))); [done|].
      by destruct (run _ (tail env)). }
    cbv zeta in Hgo. rewrite Hflags, Hhash in Hgo.
    change (lookup_table s1) with (lookup_table s) in Hgo.
    change (ltes s1) with (ltes s) in Hgo.
    destruct (lookup_table s !! hdr_hash (stream_hdr item)) as [B|];
      [|destruct (negb _) in Hgo; by apply Hskip].
    destruct (has_flag (hdr_flags (stream_hdr item)) WIM_RESHDR_FLAG_METADATA);
      cbn [negb] in Hgo |- *; [rewrite andb_false_r; by apply Hskip|].
    rewrite andb_true_r.
    destruct (nonzero (out_refcnt (ltes s B))); [|by apply Hskip].
    clear Hskip. cbv zeta.
    set (s2 := set_lte B _ s1) in *.
    pose proof (always_run _ _ env (extract_stream_instances_spec B false s2))
      as [Hframe Hev].
    rewrite run_bind in Hgo. cbv zeta in Hgo.
    destruct (run (extract_stream_instances B false s2) env) as [t [ret s']].
    cbn [fst snd] in *. destruct Hframe as (_ & _ & _ & _ & _ & Hnum & _).
    split; [state_simpl; by rewrite Hnum|]. split.
    { cbn [orb] in Hev. replace (out_refcnt (ltes s2 B)) with (out_refcnt (ltes s B))
        in Hev; [exact Hev|].
      unfold s2. cbn [ltes set_lte]. by rewrite fn_lookup_insert. }
    destruct (failed ret); [by rewrite Hgo, app_nil_r|].
    rewrite Hgo. by destruct (run _ _).
Qed.

End Extract.

(** * Concrete runs *)

Lemma sample_flag_layout_ok : flag_layout_ok sample_flag_bit = true.
Proof. reflexivity. Qed.

(** C7, at a subtree: the command extracts the directory "dir", not a
    full image, gives neither RPFIX nor NORPFIX, and the header has
    [WIM_HDR_FLAG_RP_FIX]; validation turns RPFIX on. *)
Lemma check_extract_command_rpfix_default_witness :
  wim_source_path subtree_cmd <> [] /\
  has_flag
    (cmd_extract_flags
       (run (check_extract_command posix_build subtree_cmd 0x80) []).2.2)
    (FLAG posix_build RPFIX) = true.
Proof.
  split; [discriminate|].
  rewrite (check_extract_command_rpfix_default posix_build sample_flag_layout_ok
             subtree_cmd 0x80 []); reflexivity.
Defined.

Lemma unix_data_disables_sequential_witness :
  has_flag
    (cmd_extract_flags
       (run (check_extract_command posix_build unix_sequential_cmd 0) []).2.2)
    (FLAG posix_build SEQUENTIAL) = false.
Proof.
  apply (unix_data_disables_sequential posix_build sample_flag_layout_ok
           unix_sequential_cmd 0 []); reflexivity.
Defined.

(** C9, runs: a HARDLINK command before a plain one, and the same two
    before an NTFS command that is never reached. *)
Lemma mixed_link_commands_rejected_witness :
  let r := run (do_wimlib_extract_files posix_build 0 1
                  [hardlink_cmd; plain_cmd; ntfs_hardlink_cmd]) [] in
  failed r.2.1 = true /\
  r.2.1 = WIMLIB_ERR_INVALID_PARAM /\
  first_rejection posix_build [hardlink_cmd; plain_cmd; ntfs_hardlink_cmd]
    WIMLIB_ERR_INVALID_PARAM.
Proof.
  intros r.
  destruct (proj2 (mixed_link_commands_rejected posix_build sample_flag_layout_ok)
              0 1 [hardlink_cmd; plain_cmd; ntfs_hardlink_cmd] [])
    as (Hfail & _ & selected & Hsel).
  - exists hardlink_cmd. split; [by left|reflexivity].
  - exists plain_cmd. split; [right; by left|reflexivity].
  - split; [exact Hfail|]. split; [vm_compute; reflexivity|].
    destruct (failed selected) eqn:Hs.
    + destruct Hsel as [Ht _]. vm_compute in Ht.
      injection Ht as <-. discriminate Hs.
    + destruct Hsel as (checksummed & Hsum).
      destruct (failed checksummed) eqn:Hc.
      * destruct Hsum as [Ht _]. vm_compute in Ht. discriminate Ht.
      * destruct Hsum as (t & _ & _ & Hrej).
        change (run _ _).2.1 with WIMLIB_ERR_INVALID_PARAM in Hrej.
        exact Hrej.
Defined.

(** C9 as stated fails: the first command asks for HARDLINK, the second
    for no link, and the call returns UNSUPPORTED, not INVALID_PARAM,
    because the first command also carries NTFS in a build without
    NTFS-3g. *)
Lemma mixed_link_commands_unsupported_first :
  has_flag (cmd_extract_flags ntfs_hardlink_cmd) (FLAG posix_build HARDLINK) = true /\
  has_flag (cmd_extract_flags plain_cmd)
    (Z.lor (FLAG posix_build SYMLINK) (FLAG posix_build HARDLINK)) = false /\
  (run (do_wimlib_extract_files posix_build 0 1
          [ntfs_hardlink_cmd; plain_cmd]) []).2.1 = WIMLIB_ERR_UNSUPPORTED /\
  WIMLIB_ERR_UNSUPPORTED <> WIMLIB_ERR_INVALID_PARAM.
Proof. repeat split; try reflexivity. discriminate. Qed.

(** C6, run: HARDLINK is asked of a backend without hard links. *)
Lemma feature_check_hard_errors_witness :
  (run (extract_tree (posix_image (all_features 0) sample_tree) []
          (tstr "out") 0x2 false (sample_state 0 (all_features 0))) []).2.1
  = WIMLIB_ERR_UNSUPPORTED.
Proof.
  destruct (proj2 (feature_check_hard_errors
                     (posix_image (all_features 0) sample_tree)
                     sample_flag_layout_ok)
              [] (tstr "out") 0x2 false sample_tree
              (sample_state 0 (all_features 0)) [] eq_refl eq_refl)
    as (_ & _ & [H|H]); [exact H|reflexivity].
Defined.


(** The descriptions used above tell runs apart.  In this list the NTFS
    command comes after the mix is complete, and UNSUPPORTED is not a
    status [first_rejection] allows. *)
Lemma first_rejection_not_unsupported :
  ~ first_rejection posix_build [hardlink_cmd; plain_cmd; ntfs_hardlink_cmd]
      WIMLIB_ERR_UNSUPPORTED.
Proof.
  intros (checked & c & rest & Heq & _ & Hun & H).
  destruct checked as [|c1 [|c2 [|c3 checked]]]; cbn in Heq.
  - injection Heq as <- <-. vm_compute in H. destruct H as [H _]. discriminate H.
  - injection Heq as <- <- <-. vm_compute in H. destruct H as [_ H].
    discriminate H.
  - injection Heq as <- <- <- <-. vm_compute in Hun. discriminate Hun.
  - injection Heq as _ _ _ Heq. by destruct checked.
Qed.

(** For a root that is a regular file, a run that writes nothing and ends
    with NOT_A_REGULAR_FILE is not an outcome [stdout_outcome] allows. *)
Lemma stdout_outcome_not_silent :
  ~ stdout_outcome (posix_image (all_features 1) sample_file) sample_file
      (sample_state 0 (all_features 1)) [] WIMLIB_ERR_NOT_A_REGULAR_FILE.
Proof.
  intros (t_prep & t_out & t_end & Ht & _ & _ & H).
  symmetry in Ht. apply app_eq_nil in Ht as [-> Ht].
  apply app_eq_nil in Ht as [-> ->].
  destruct H as [(_ & _ & Hwhy)|(s_out & status & [Hd Hi] & _ & Hout)].
  - destruct Hwhy as [H|[[H _]|(_ & d & name & _ & _ & H)]].
    + inversion H.
    + discriminate H.
    + discriminate H.
  - unfold root_inode in Hout. rewrite Hi, (proj1 (Hd _)) in Hout.
    cbn in Hout. discriminate Hout.
Qed.

(** Planning [sample_tree] for a backend with hard links: the two names of
    the shared inode count once. *)
Lemma planning_pass_reference_counts_witness :
  let s := sample_state 0 (all_features 1) in
  let r := run (for_dentry_in_tree sample_tree
                  (dentry_add_streams_to_extract
                     (posix_image (all_features 1) sample_tree)) s) [] in
  r.2.1 = WIMLIB_ERR_SUCCESS /\ out_refcnt (ltes r.2.2 0%nat) = 1.
Proof.
  intros s r.
  assert (Hrange : forall B, 0 <= out_refcnt (ltes s B) < 2 ^ 32).
  { intros [|B]; vm_compute; split; congruence. }
  assert (Hvis : forall i, i_visited s i = false) by reflexivity.
  destruct (planning_pass_reference_counts
              (posix_image (all_features 1) sample_tree) sample_tree s []
              Hrange Hvis) as (H1 & _ & H3).
  fold r in H1, H3. split; [apply H1; vm_compute; reflexivity|].
  rewrite (H3 (H1 eq_refl) 0%nat). vm_compute. reflexivity.
Defined.

(** An NTFS command in a build without NTFS-3g. *)
Lemma check_extract_command_verdict_witness :
  (run (check_extract_command posix_build ntfs_hardlink_cmd 0) []).2.1
  = WIMLIB_ERR_UNSUPPORTED.
Proof.
  destruct (check_extract_command_verdict posix_build sample_flag_layout_ok
              ntfs_hardlink_cmd 0 []) as [H _].
  rewrite H. reflexivity.
Defined.

(** The file "a/b" on a POSIX backend, without and with the flag. *)
Lemma invalid_name_skipped_or_replaced_witness :
  let X := posix_image (all_features 1) sample_tree in
  let s flags := set_dentry 1%nat (mk_dentry 1%nat "a/b" 0%nat)
                   (sample_state flags (all_features 1)) in
  extraction_skipped
    (dentries (run (dentry_calculate_extraction_path X (DNode 1%nat []) (s 0)) []).2.2
       1%nat) = true /\
  extraction_name
    (dentries (run (dentry_calculate_extraction_path X (DNode 1%nat []) (s 0x800))
                 []).2.2 1%nat)
  = Some (tstr "a?b (invalid filename #1)").
Proof.
  intros X s. split.
  - pose proof (invalid_name_skipped_or_replaced X (DNode 1%nat []) (s 0) []) as H.
    cbv zeta in H.
    specialize (H ltac:(vm_compute; congruence) eq_refl eq_refl eq_refl
                  ltac:(vm_compute; congruence) eq_refl).
    change (has_flag _ _) with false in H. cbv iota in H.
    destruct H as (_ & _ & _ & H). rewrite (H 1%nat). reflexivity.
  - pose proof (invalid_name_skipped_or_replaced X (DNode 1%nat []) (s 0x800) []) as H.
    cbv zeta in H.
    specialize (H ltac:(vm_compute; congruence) eq_refl eq_refl eq_refl
                  ltac:(vm_compute; congruence) eq_refl).
    change (has_flag _ _) with true in H. cbv iota in H.
    change (failed _) with false in H. cbv iota in H.
    change (dtree_root (DNode 1%nat [])) with 1%nat in H.
    destruct H as (_ & _ & _ & [[_ H]|[H _]]).
    + rewrite H. vm_compute. reflexivity.
    + vm_compute in H. discriminate H.
Defined.


(** A pipe with one record.  With one stream to extract the call takes
    the record for it and succeeds with nothing left to extract; with two
    it takes the record and then fails to read. *)
Lemma extract_streams_from_pipe_needs_records_witness :
  let short := run (extract_streams_from_pipe posix_build (sample_pipe_state 2)) [] in
  let full := run (extract_streams_from_pipe posix_build (sample_pipe_state 1)) [] in
  0 <= 2 < 2 ^ ulong_bits posix_build /\
  failed short.2.1 = true /\ short.2.1 = WIMLIB_ERR_READ /\
  in_fd short.2.2 = [] /\
  full.2.1 = WIMLIB_ERR_SUCCESS /\ in_fd full.2.2 = [] /\
  num_streams_remaining (ctx full.2.2) = 0.
Proof.
  intros short full.
  assert (Hrange : 0 <= 2 < 2 ^ ulong_bits posix_build) by (cbn; lia).
  split; [exact Hrange|]. split.
  { apply (proj2 (extract_streams_from_pipe_needs_records posix_build
                    (sample_pipe_state 2) [] Hrange)).
    cbn. lia. }
  repeat split; vm_compute; reflexivity.
Defined.

(** Two images, the first named "base", the second "a/b": the first
    goes to "out/base", the second, whose name has a slash, to "out/2". *)
Lemma extract_all_images_destinations_witness :
  let p := extract_all_images posix_build sample_entry_constants 2
             (tstr "out") 0 in
  let r := entry_run p named_answers in
  r.2 = WIMLIB_ERR_SUCCESS /\
  image_names_asked r.1 = [(1, Some (tstr "base")); (2, Some (tstr "a/b"))] /\
  destinations r.1 = [tstr "out/base"; tstr "out/2"] /\
  Forall2 (fun p x => exists subdir,
             p = tstr "out" ++ [47] ++ subdir /\
             image_directory posix_build x.1 x.2 subdir /\
             safe_component posix_build subdir)
    (destinations r.1) (image_names_asked r.1).
Proof.
  intros p r.
  split; [vm_compute; reflexivity|].
  split; [vm_compute; reflexivity|].
  split; [vm_compute; reflexivity|].
  pose proof (entry_always_run p _
                (extract_all_images_destinations posix_build
                   sample_entry_constants 2 (tstr "out") 0)
                named_answers 0%nat) as (_ & _ & H & _).
  exact H.
Defined.

(** A run from a pipe in which every call succeeds: the WIM is opened,
    the XML data and the metadata of the one image are read, the target is
    copied, the image is extracted with SEQUENTIAL and FROM_PIPE, the copy
    is freed and the WIM is freed last. *)
Lemma extract_image_from_pipe_frees_witness :
  let p := wimlib_extract_image_from_pipe posix_build sample_entry_constants
             None (tstr "out") 0 in
  let r := entry_run p sample_answers in
  flag_layout_ok (flag_bit posix_build) = true /\
  r.2 = WIMLIB_ERR_SUCCESS /\
  allocated_paths r.1 = [tstr "out"] /\
  extractions r.1
  = [(1, [{| wim_source_path := []; fs_dest_path := tstr "out";
             cmd_extract_flags :=
               Z.lor (FLAG posix_build SEQUENTIAL)
                 WIMLIB_EXTRACT_FLAG_FROM_PIPE |}])] /\
  last r.1 = Some (Entered wimlib_free tt) /\
  table_events r.1 = [] /\
  freed_paths r.1 = allocated_paths r.1.
Proof.
  intros p r. split; [exact sample_flag_layout_ok|].
  split; [vm_compute; reflexivity|].
  split; [vm_compute; reflexivity|].
  split; [vm_compute; reflexivity|].
  split; [vm_compute; reflexivity|].
  pose proof (entry_always_run p _
                (extract_image_from_pipe_frees posix_build sample_flag_layout_ok
                   sample_entry_constants None (tstr "out") 0)
                sample_answers 0%nat) as (_ & Htab & Hfreed & _).
  split; [exact Htab|exact Hfreed].
Defined.

(** C1 as stated fails where the backend has hard links: in [sample_tree]
    the dentries "x" and "y" are two names of inode 1, none is skipped,
    and both refer to blob 0 through the unnamed stream, which makes two
    pairs; the planning pass leaves the count of blob 0 at 1. *)
Lemma blob_accounting_shared_inode :
  let X := posix_image (all_features 1) sample_tree in
  let s := sample_state 0 (all_features 1) in
  let r := run (for_dentry_in_tree sample_tree
                  (dentry_add_streams_to_extract X) s) [] in
  r.2.1 = WIMLIB_ERR_SUCCESS /\
  count_occ Nat.eq_dec (spec_references X s sample_tree) 0%nat = 2%nat /\
  out_refcnt (ltes r.2.2 0%nat) = 1 /\
  out_refcnt (ltes r.2.2 0%nat) <> 2.
Proof.
  intros X s r. split; [vm_compute; reflexivity|].
  split; [vm_compute; reflexivity|].
  split; [vm_compute; reflexivity|]. vm_compute. congruence.
Qed.

(** C1, run: the file of [sample_file] has the unnamed stream in blob 0
    and a named stream in blob 1; both are counted. *)
Lemma blob_accounting_after_planning_witness :
  let X := posix_image (all_features 1) sample_file in
  let s := sample_state 0 (all_features 1) in
  let r := run (for_dentry_in_tree sample_file
                  (dentry_add_streams_to_extract X) s) [] in
  every_pair_counted X s sample_file /\
  out_refcnt (ltes r.2.2 0%nat) = 1 /\ out_refcnt (ltes r.2.2 1%nat) = 1.
Proof.
  intros X s r.
  assert (Hzero : forall B, out_refcnt (ltes s B) = 0) by (by intros [|B]).
  assert (Hvis : forall i, i_visited s i = false) by reflexivity.
  assert (Hok : r.2.1 = WIMLIB_ERR_SUCCESS) by (vm_compute; reflexivity).
  assert (Hall : every_pair_counted X s sample_file).
  { split; [right; vm_compute; repeat constructor; apply not_elem_of_nil|].
    split; [reflexivity|]. intros d [<-|[]] _. reflexivity. }
  split; [exact Hall|].
  destruct (blob_accounting_after_planning X sample_file s [] Hzero Hvis Hok)
    as [_ H].
  cbv zeta in H. fold r in H.
  rewrite (H Hall 0%nat), (H Hall 1%nat). split; vm_compute; reflexivity.
Defined.

(** C2 as stated fails in an extraction that is not linked: blob 0 has
    been referenced once, and the second reference adds its five bytes to
    the total again, while the list and the number of streams stay. *)
Lemma second_reference_adds_to_total_bytes :
  let X := posix_image (all_features 1) sample_tree in
  let s := sample_referenced_state in
  let r := run (ref_stream_to_extract X (Some 0%nat) 2%nat s) [] in
  out_refcnt (ltes s 0%nat) <> 0 /\
  total_bytes (progress (ctx s)) = 0 /\
  total_bytes (progress (ctx r.2.2)) = 5 /\
  stream_list (ctx r.2.2) = stream_list (ctx s).
Proof.
  intros X s r. split; [vm_compute; congruence|].
  repeat split; vm_compute; reflexivity.
Qed.

(** C2, runs: the first reference to blob 0 and the second. *)
Lemma first_reference_plans_the_stream_witness :
  let X := posix_image (all_features 1) sample_tree in
  let first := run (ref_stream_to_extract X (Some 0%nat) 1%nat
                      (sample_state 0 (all_features 1))) [] in
  let second := run (ref_stream_to_extract X (Some 0%nat) 2%nat
                       sample_referenced_state) [] in
  stream_list (ctx first.2.2) = [0%nat] /\
  num_streams_remaining (ctx first.2.2) = 1 /\
  stream_list (ctx second.2.2) = [] /\
  num_streams_remaining (ctx second.2.2) = 0.
Proof.
  intros X first second.
  destruct (proj1 (first_reference_plans_the_stream X 0%nat 1%nat
                     (sample_state 0 (all_features 1)) []) eq_refl)
    as (Hl1 & Hn1 & _).
  destruct (proj2 (first_reference_plans_the_stream X 0%nat 2%nat
                     sample_referenced_state [])
              ltac:(vm_compute; congruence))
    as (Hl2 & Hn2 & _).
  split; [exact Hl1|]. split; [exact Hn1|]. split; [exact Hl2|exact Hn2].
Defined.


(** C5 as stated fails for a dentry the backend cannot extract: "a/b" is
    a reparse point, the backend has no reparse points, and
    REPLACE_INVALID_FILENAMES is set; the dentry is marked as skipped,
    gets no extraction name, and the counter stays at 0. *)
Lemma unsupported_invalid_filename_skipped :
  let X := posix_image (all_features 0) sample_tree in
  let s := sample_invalid_name_state 0x800 (all_features 0) 0x400 in
  let r := run (dentry_calculate_extraction_path X (DNode 1%nat []) s) [] in
  1%nat <> extract_root (ctx s) /\
  spec_invalid_name X (file_name (dentries s 1%nat)) /\
  has_flag (extract_flags (ctx s)) (FLAG X REPLACE_INVALID_FILENAMES) = true /\
  r.2.1 = WIMLIB_ERR_SUCCESS /\
  extraction_name (dentries r.2.2 1%nat) = None /\
  extraction_skipped (dentries r.2.2 1%nat) = true /\
  invalid_sequence (ctx r.2.2) = 0.
Proof.
  intros X s r. split; [vm_compute; congruence|]. split.
  { left. apply Exists_cons_tl, Exists_cons_hd. vm_compute. reflexivity. }
  repeat split; vm_compute; reflexivity.
Qed.

(** C5, runs: the file "a/b" on a POSIX backend that supports it, with the
    flag and without. *)
Lemma invalid_filename_renamed_or_skipped_witness :
  let X := posix_image (all_features 0) sample_tree in
  let s flags := sample_invalid_name_state flags (all_features 0) 0 in
  let renamed := run (dentry_calculate_extraction_path X (DNode 1%nat [])
                        (s 0x800)) [] in
  let skipped := run (dentry_calculate_extraction_path X (DNode 1%nat [])
                        (s 0)) [] in
  spec_invalid_name X (tstr "a/b") /\
  spec_replaced_name X (tstr "a/b") = tstr "a?b" /\
  extraction_name (dentries renamed.2.2 1%nat)
  = Some (tstr "a?b (invalid filename #1)") /\
  invalid_sequence (ctx renamed.2.2) = 1 /\
  extraction_skipped (dentries skipped.2.2 1%nat) = true /\
  invalid_sequence (ctx skipped.2.2) = 0.
Proof.
  intros X s renamed skipped.
  assert (Hname : spec_invalid_name X (tstr "a/b")).
  { left. apply Exists_cons_tl, Exists_cons_hd. vm_compute. reflexivity. }
  split; [exact Hname|]. split; [vm_compute; reflexivity|].
  pose proof (invalid_filename_renamed_or_skipped X (DNode 1%nat []) (s 0x800) [])
    as Hr.
  pose proof (invalid_filename_renamed_or_skipped X (DNode 1%nat []) (s 0) [])
    as Hs.
  cbv zeta in Hr, Hs.
  specialize (Hr ltac:(vm_compute; congruence) eq_refl eq_refl eq_refl
                 ltac:(vm_compute; congruence) Hname).
  specialize (Hs ltac:(vm_compute; congruence) eq_refl eq_refl eq_refl
                 ltac:(vm_compute; congruence) Hname).
  change (has_flag _ _) with true in Hr. cbv iota in Hr.
  change (failed _) with false in Hr. cbv iota in Hr.
  change (has_flag _ _) with false in Hs. cbv iota in Hs.
  change (dtree_root (DNode 1%nat [])) with 1%nat in Hr.
  destruct Hr as (Hseq & _ & _ & [[_ Hn]|[Hn _]]);
    [|vm_compute in Hn; discriminate Hn].
  destruct Hs as (_ & Hseq' & Hskip & _). unfold renamed, skipped.
  split; [rewrite Hn; vm_compute; reflexivity|].
  split; [rewrite Hseq; vm_compute; reflexivity|].
  split; [apply Hskip; left|rewrite Hseq'; reflexivity].
Defined.

(** C4 as stated fails for a record flagged as metadata: the digest of
    the record is the one of blob 0, which is referenced once, and one
    stream remains.  The record is read and dropped, nothing is
    extracted, and the number of streams that remain is still 1 when the
    pipe has run dry. *)
Lemma metadata_record_is_skipped :
  let s := sample_metadata_pipe_state in
  let r := run (extract_streams_from_pipe posix_build s) [] in
  (exists item, in_fd s = [item] /\
     lookup_table s !! hdr_hash (stream_hdr item) = Some 0%nat) /\
  0 < out_refcnt (ltes s 0%nat) /\
  num_streams_remaining (ctx s) = 1 /\
  (exists e,
     lte_hash e = 7 /\
     r.1 = [EvCall new_lookup_table_entry WIMLIB_ERR_SUCCESS;
            EvCall (read_partial_wim_resource_seek_only e 5) WIMLIB_ERR_SUCCESS;
            EvTell (LOG LERROR "Error reading pipable WIM from pipe" [])]) /\
  r.2.1 = WIMLIB_ERR_READ /\
  num_streams_remaining (ctx r.2.2) = 1.
Proof.
  intros s r. split.
  { eexists. split; [reflexivity|]. vm_compute. reflexivity. }
  split; [vm_compute; reflexivity|]. split; [reflexivity|]. split.
  { eexists. split; cycle 1.
    - vm_compute. reflexivity.
    - reflexivity. }
  split; vm_compute; reflexivity.
Qed.

(** C4, runs: a pipe with the record of blob 0 when two files need it,
    and the same record flagged as metadata. *)
Lemma pipe_record_extracted_or_skipped_witness :
  let X := posix_image (all_features 1) sample_tree in
  let needed := run (extract_streams_from_pipe_loop X 2 null_lte
                       sample_repeated_pipe_state)
                  [AData (inr (tstr "tmp"))] in
  let unneeded := run (extract_streams_from_pipe_loop X 2 null_lte
                         sample_metadata_pipe_state) [] in
  (needed.2.1 = WIMLIB_ERR_SUCCESS /\
   num_streams_remaining (ctx needed.2.2) = 0 /\
   in_fd needed.2.2 = [] /\
   let e := lte_set_resource
              {| re_size := 5; re_flags := 0; re_offset := 0;
                 re_original_size := 5 |}
              RESOURCE_IN_WIM 0 true (ltes sample_repeated_state 0%nat) in
     needed.1
     = [EvData ttempnam (inr (tstr "tmp"));
        EvCall (memdup_lte e) WIMLIB_ERR_SUCCESS;
        EvCall (topen (tstr "tmp")) WIMLIB_ERR_SUCCESS;
        EvCall (extract_wim_resource_to_fd e (TMP_FILE (tstr "tmp")) 5)
          WIMLIB_ERR_SUCCESS;
        EvCall (filedes_close (TMP_FILE (tstr "tmp"))) WIMLIB_ERR_SUCCESS;
        EvCall (extract_unnamed_stream (tstr "out/x")
                  (lte_set_file_on_disk (tstr "tmp") e)) WIMLIB_ERR_SUCCESS;
        EvCall (extract_unnamed_stream (tstr "out/y")
                  (lte_set_file_on_disk (tstr "tmp") e)) WIMLIB_ERR_SUCCESS;
        EvTell (tunlink (tstr "tmp"))]) /\
  (unneeded.2.1 = WIMLIB_ERR_READ /\
   num_streams_remaining (ctx unneeded.2.2) = 1 /\
   exists e,
     lte_hash e = 7 /\
     unneeded.1
     = [EvCall (read_partial_wim_resource_seek_only e 5) WIMLIB_ERR_SUCCESS;
        EvTell (LOG LERROR "Error reading pipable WIM from pipe" [])]).
Proof.
  intros X needed unneeded. split.
  - destruct (pipe_record_extracted_or_skipped X 1 null_lte
                sample_repeated_pipe_state [AData (inr (tstr "tmp"))])
      as (_ & Hexit & Hround).
    fold needed in Hexit, Hround.
    specialize (Hround _ [] ltac:(vm_compute; congruence) eq_refl eq_refl
                       ltac:(vm_compute; congruence) eq_refl).
    cbv zeta in Hround. destruct Hround as (_ & _ & Hround).
    change (lookup_table sample_repeated_pipe_state !! _) with (Some 0%nat)
      in Hround.
    cbv iota beta in Hround.
    change (nonzero _ && negb _) with true in Hround. cbv iota in Hround.
    destruct Hround as (Hnum & Hev & Hrun).
    change (failed _) with false in Hrun. cbv iota in Hrun.
    assert (Hok : needed.2.1 = WIMLIB_ERR_SUCCESS).
    { rewrite Hrun. vm_compute. reflexivity. }
    split; [exact Hok|]. split; [exact (Hexit Hok)|].
    split; [rewrite Hrun; vm_compute; reflexivity|].
    rewrite Hrun. vm_compute. reflexivity.
  - destruct (pipe_record_extracted_or_skipped X 1 null_lte
                sample_metadata_pipe_state [])
      as (_ & _ & Hround).
    fold unneeded in Hround.
    specialize (Hround _ [] ltac:(vm_compute; congruence) eq_refl eq_refl
                       ltac:(vm_compute; congruence) eq_refl).
    cbv zeta in Hround. destruct Hround as (_ & _ & Hround).
    change (lookup_table sample_metadata_pipe_state !! _) with (Some 0%nat)
      in Hround.
    cbv iota beta in Hround.
    change (nonzero _ && negb _) with false in Hround. cbv iota in Hround.
    change (failed _) with false in Hround. cbv iota in Hround.
    rewrite Hround. split; [vm_compute; reflexivity|].
    split; [vm_compute; reflexivity|]. eexists. split; cycle 1.
    + vm_compute. reflexivity.
    + reflexivity.
Defined.

(** * Properties of [wim.c] *)

Section WimFacts.

Import Wim.

Variable K : constants.

Lemma wim_ctype_info_default_nonsolid_valid ctype :
  Forall (fun c => is_power_of_2 K c = true) [32768; 131072; 67108864] ->
  wim_chunk_size_valid K (wim_default_nonsolid_chunk_size K ctype) ctype = true.
Proof.
  intros HK. apply Forall_cons in HK as [H15 HK].
  apply Forall_cons in HK as [H17 _].
  unfold wim_chunk_size_valid, wim_default_nonsolid_chunk_size, wim_ctype_info.
  destruct (unsigned ctype =? WIMLIB_COMPRESSION_TYPE_LZMS K);
    [cbn; rewrite H17; reflexivity|].
  destruct (unsigned ctype =? WIMLIB_COMPRESSION_TYPE_LZX K);
    [cbn; rewrite H15; reflexivity|].
  destruct (unsigned ctype =? WIMLIB_COMPRESSION_TYPE_XPRESS K);
    [cbn; rewrite H15; reflexivity|].
  destruct (unsigned ctype =? WIMLIB_COMPRESSION_TYPE_NONE K); reflexivity.
Qed.

Lemma wim_ctype_info_default_solid_valid ctype :
  Forall (fun c => is_power_of_2 K c = true) [32768; 131072; 67108864] ->
  wim_chunk_size_valid K (wim_default_solid_chunk_size K ctype) ctype = true.
Proof.
  intros HK. apply Forall_cons in HK as [H15 HK].
  apply Forall_cons in HK as [_ HK]. apply Forall_cons in HK as [H26 _].
  unfold wim_chunk_size_valid, wim_default_solid_chunk_size, wim_ctype_info.
  destruct (unsigned ctype =? WIMLIB_COMPRESSION_TYPE_LZMS K);
    [cbn; rewrite H26; reflexivity|].
  destruct (unsigned ctype =? WIMLIB_COMPRESSION_TYPE_LZX K);
    [cbn; rewrite H15; reflexivity|].
  destruct (unsigned ctype =? WIMLIB_COMPRESSION_TYPE_XPRESS K);
    [cbn; rewrite H15; reflexivity|].
  destruct (unsigned ctype =? WIMLIB_COMPRESSION_TYPE_NONE K); reflexivity.
Qed.

(** The four setters of the output settings keep them consistent: as long
    as [is_power_of_2] accepts the default chunk sizes of the table, a
    [WIMStruct] whose compression types are valid and whose chunk sizes
    are valid for them stays so after any call, accepted or rejected, and
    a rejected call changes nothing. *)
Theorem output_settings_stay_consistent wim :
  Forall (fun c => is_power_of_2 K c = true) [32768; 131072; 67108864] ->
  output_settings_ok K wim ->
  forall r,
    (exists ctype, r = wimlib_set_output_compression_type K wim ctype) \/
    (exists ctype, r = wimlib_set_output_pack_compression_type K wim ctype) \/
    (exists size, r = wimlib_set_output_chunk_size K wim size) \/
    (exists size, r = wimlib_set_output_pack_chunk_size K wim size) ->
    output_settings_ok K r.2 /\ (r.1 <> WIMLIB_ERR_SUCCESS -> r.2 = wim).
Proof.
  intros HK (Hc & Hcs & Hs & Hss) r Hr.
  pose proof (wim_ctype_info_default_nonsolid_valid) as Hdn.
  pose proof (wim_ctype_info_default_solid_valid) as Hds.
  destruct Hr as [[ctype ->]|[[ctype ->]|[[size ->]|[size ->]]]].
  - unfold wimlib_set_output_compression_type.
    destruct (wim_compression_type_valid K ctype) eqn:Hv; cbn [negb].
    + split; [|done]. cbn [snd set_out_compression_type out_chunk_size].
      destruct (wim_chunk_size_valid K (out_chunk_size wim) ctype) eqn:Hsz;
        cbn [negb]; repeat split; cbn; auto.
    + split; [|done]. repeat split; assumption.
  - unfold wimlib_set_output_pack_compression_type.
    destruct (wim_compression_type_valid K ctype) eqn:Hv; cbn [negb].
    + destruct (ctype =? WIMLIB_COMPRESSION_TYPE_NONE K).
      { split; [|done]. repeat split; assumption. }
      split; [|done].
      cbn [snd set_out_solid_compression_type out_solid_chunk_size].
      destruct (wim_chunk_size_valid K (out_solid_chunk_size wim) ctype) eqn:Hsz;
        cbn [negb]; repeat split; cbn; auto.
    + split; [|done]. repeat split; assumption.
  - unfold wimlib_set_output_chunk_size.
    destruct (size =? 0).
    { split; [|done]. repeat split; cbn; auto. }
    destruct (wim_chunk_size_valid K size (out_compression_type wim)) eqn:Hsz;
      cbn [negb].
    + split; [|done]. repeat split; cbn; auto.
    + split; [|done]. repeat split; assumption.
  - unfold wimlib_set_output_pack_chunk_size.
    destruct (size =? 0).
    { split; [|done]. repeat split; cbn; auto. }
    destruct (wim_chunk_size_valid K size (out_solid_compression_type wim)) eqn:Hsz;
      cbn [negb].
    + split; [|done]. repeat split; cbn; auto.
    + split; [|done]. repeat split; assumption.
Qed.

Lemma testbit_lor_clear f m n :
  Z.testbit m n = false -> Z.testbit (Z.lor f m) n = Z.testbit f n.
Proof. intros H. rewrite Z.lor_spec, H. apply orb_false_r. Qed.

Lemma testbit_land_lnot_clear f m n :
  0 <= n -> Z.testbit m n = false ->
  Z.testbit (Z.land f (Z.lnot m)) n = Z.testbit f n.
Proof.
  intros Hn H. rewrite Z.land_spec, Z.lnot_spec, H by assumption.
  apply andb_true_r.
Qed.

(** [wimlib_set_wim_info] changes only what was asked for: a rejected
    call changes nothing; an accepted one leaves the image count and the
    output settings alone, touches no header flag besides READONLY and
    RP_FIX, changes the boot index and the GUID only when their bit is in
    [which], and never leaves a boot index above the image count where
    there was none. *)
Theorem set_wim_info_changes_only_what_was_asked wim info which :
  hdr_boot_idx wim <= hdr_image_count wim ->
  let r := wimlib_set_wim_info K wim info which in
  (r.1 <> WIMLIB_ERR_SUCCESS -> r.2 = wim) /\
  hdr_image_count r.2 = hdr_image_count wim /\
  hdr_boot_idx r.2 <= hdr_image_count r.2 /\
  hdr_boot_idx r.2
  = (if is_error r.1 then hdr_boot_idx wim
     else if has_flag which (WIMLIB_CHANGE_BOOT_INDEX K) then boot_index info
     else hdr_boot_idx wim) /\
  hdr_guid r.2
  = (if is_error r.1 then hdr_guid wim
     else if has_flag which (WIMLIB_CHANGE_GUID K) then guid info
     else hdr_guid wim) /\
  (forall n, 0 <= n ->
     Z.testbit (WIM_HDR_FLAG_READONLY K) n = false ->
     Z.testbit (WIM_HDR_FLAG_RP_FIX K) n = false ->
     Z.testbit (hdr_flags r.2) n = Z.testbit (hdr_flags wim) n) /\
  out_compression_type r.2 = out_compression_type wim /\
  out_chunk_size r.2 = out_chunk_size wim /\
  out_solid_compression_type r.2 = out_solid_compression_type wim /\
  out_solid_chunk_size r.2 = out_solid_chunk_size wim.
Proof.
  intros Hboot r. subst r. unfold wimlib_set_wim_info.
  destruct (Z.land which _ =? 0); cbn [negb]; [|by repeat split].
  destruct (has_flag which (WIMLIB_CHANGE_BOOT_INDEX K)) eqn:Hb; cbn [andb].
  - destruct (hdr_image_count wim <? boot_index info) eqn:Hlt;
      [by repeat split|].
    apply Z.ltb_ge in Hlt.
    destruct (has_flag which (WIMLIB_CHANGE_READONLY_FLAG K)),
      (has_flag which (WIMLIB_CHANGE_GUID K)),
      (has_flag which (WIMLIB_CHANGE_RPFIX_FLAG K)),
      (is_marked_readonly info), (has_rpfix info); cbn;
      repeat split; try done; intros n Hn H1 H2;
      repeat first [ rewrite testbit_lor_clear by assumption
                   | rewrite testbit_land_lnot_clear by assumption ];
      reflexivity.
  - destruct (has_flag which (WIMLIB_CHANGE_READONLY_FLAG K)),
      (has_flag which (WIMLIB_CHANGE_GUID K)),
      (has_flag which (WIMLIB_CHANGE_RPFIX_FLAG K)),
      (is_marked_readonly info), (has_rpfix info); cbn;
      repeat split; try done; intros n Hn H1 H2;
      repeat first [ rewrite testbit_lor_clear by assumption
                   | rewrite testbit_land_lnot_clear by assumption ];
      reflexivity.
Qed.

Lemma resolve_image_name_spec wim s n i :
  let r := resolve_image_name K wim s i n in
  r = WIMLIB_NO_IMAGE K /\
    (forall j, i <= j < i + Z.of_nat n -> image_names wim j <> s) \/
  (i <= r < i + Z.of_nat n /\ image_names wim r = s /\
   forall j, i <= j < r -> image_names wim j <> s).
Proof.
  revert i. induction n as [|n IH]; intros i; cbn [resolve_image_name].
  - left. split; [done|]. intros j Hj. lia.
  - case_bool_decide as Heq.
    + right. split; [lia|]. split; [done|]. intros j Hj. lia.
    + destruct (IH (i + 1)) as [[-> Hno]|(Hr & Hname & Hfirst)].
      * left. split; [done|]. intros j Hj.
        destruct (decide (j = i)) as [->|Hne]; [congruence|].
        apply Hno. lia.
      * right. split; [lia|]. split; [done|]. intros j Hj.
        destruct (decide (j = i)) as [->|Hne]; [congruence|].
        apply Hfirst. lia.
Qed.

(** [wimlib_resolve_image], case by case.  An empty string gives
    NO_IMAGE; "all" and "*", compared without case, give ALL_IMAGES; a
    string that reads as a positive number from its first to its last
    character gives that number when the WIM has that many images and
    NO_IMAGE when it has not, and the names of the images are not looked
    at; any other string gives the first image of that name, and NO_IMAGE
    when no image has the name. *)
Theorem resolve_image_in_range wim s :
  0 <= hdr_image_count wim ->
  let r := wimlib_resolve_image K wim (Some s) in
  let numeric :=
    negb ((tstrtol K s).2 =? 0)%nat && ((tstrtol K s).2 =? length s)%nat
    && (0 <? (tstrtol K s).1) in
  if tstring_is_empty s then r = WIMLIB_NO_IMAGE K
  else if tstrcasecmp_equal K s (tstr "all") || tstrcasecmp_equal K s (tstr "*")
  then r = WIMLIB_ALL_IMAGES K
  else if numeric then
    if (tstrtol K s).1 <=? hdr_image_count wim
    then r = (tstrtol K s).1 /\ 1 <= r <= hdr_image_count wim
    else r = WIMLIB_NO_IMAGE K
  else
    (r = WIMLIB_NO_IMAGE K /\
     forall j, 1 <= j <= hdr_image_count wim -> image_names wim j <> s) \/
    (1 <= r <= hdr_image_count wim /\ image_names wim r = s /\
     forall j, 1 <= j < r -> image_names wim j <> s).
Proof.
  intros Hcount r numeric. subst r numeric. unfold wimlib_resolve_image.
  destruct (tstring_is_empty s) eqn:He; [done|].
  destruct (tstrcasecmp_equal K s (tstr "all")
            || tstrcasecmp_equal K s (tstr "*")); [done|].
  destruct (tstrtol K s) as [image consumed] eqn:Hnum. cbn [fst snd].
  destruct (negb (consumed =? 0)%nat && (consumed =? length s)%nat
            && (0 <? image)) eqn:Hn.
  - apply andb_prop in Hn as [_ Hpos]. apply Z.ltb_lt in Hpos.
    destruct (Z.ltb_spec (hdr_image_count wim) image) as [Hlt|Hge];
      destruct (Z.leb_spec image (hdr_image_count wim)) as [Hle|Hgt];
      try lia; done.
  - pose proof (resolve_image_name_spec wim s
                  (Z.to_nat (hdr_image_count wim)) 1) as H.
    cbv zeta in H. rewrite Z2Nat.id in H by assumption.
    destruct H as [[-> Hno]|(Hr & Hname & Hfirst)].
    + left. split; [done|]. intros j Hj. apply Hno. lia.
    + right. split; [lia|]. split; [done|]. intros j Hj.
      apply Hfirst. lia.
Qed.

Ltac init_events Hn Hwin :=
  let H := fresh "H" in
  intros H;
  repeat first [ rewrite elem_of_app in H | rewrite elem_of_cons in H
               | rewrite elem_of_nil in H ];
  repeat match goal with
         | H : _ \/ _ |- _ => destruct H as [H|H]
         end;
  try done; try (apply Hn in H; done); try (apply Hwin in H; done).

(** [wimlib_global_init] takes the lock at most once and gives it back on
    every path that took it.  A call that succeeds leaves the library
    initialized, and any later call then succeeds without doing anything;
    a call that fails leaves it uninitialized and has not run the part of
    the initialization that follows the checks.  Flags outside the
    documented ones, or both case-sensitivity flags together, are
    rejected before anything is initialized. *)
Theorem global_init_once init_flags codeset win32_ret g :
  let r := wimlib_global_init K init_flags codeset win32_ret g in
  let ret := r.1.1 in
  let g' := r.1.2 in
  let both := Z.lor (WIMLIB_INIT_FLAG_DEFAULT_CASE_SENSITIVE K)
                (WIMLIB_INIT_FLAG_DEFAULT_CASE_INSENSITIVE K) in
  (r.2 = [] \/
   exists mid, r.2 = pthread_mutex_lock :: mid ++ [pthread_mutex_unlock] /\
               (pthread_mutex_lock ∉ mid) /\ (pthread_mutex_unlock ∉ mid)) /\
  (ret = WIMLIB_ERR_SUCCESS ->
   lib_initialized g' = true /\
   forall init_flags' codeset' win32_ret',
     wimlib_global_init K init_flags' codeset' win32_ret' g'
     = (WIMLIB_ERR_SUCCESS, g', [])) /\
  (ret <> WIMLIB_ERR_SUCCESS ->
   lib_initialized g' = false /\ default_ignore_case g' = default_ignore_case g /\
   (iconv_global_init ∉ r.2) /\ (init_upcase ∉ r.2)) /\
  (lib_initialized g = false -> Z.land init_flags both = both ->
   ret = WIMLIB_ERR_INVALID_PARAM /\ g' = g /\
   r.2 = [pthread_mutex_lock; pthread_mutex_unlock]).
Proof.
  intros r ret g' both. subst r ret g' both. unfold wimlib_global_init.
  destruct (lib_initialized g) eqn:Hinit.
  { cbn [fst snd]. split; [by left|]. split; [|split].
    - intros _. split; [done|]. intros. by rewrite Hinit.
    - done.
    - done. }
  assert (Hnil : forall e : init_event, e ∉ @nil init_event)
    by (intros e; apply not_elem_of_nil).
  assert (Hmid0 : exists mid : list init_event,
             [pthread_mutex_lock; pthread_mutex_unlock]
             = pthread_mutex_lock :: mid ++ [pthread_mutex_unlock] /\
             (pthread_mutex_lock ∉ mid) /\ (pthread_mutex_unlock ∉ mid))
    by (exists []; auto).
  destruct (Z.land init_flags (Z.lnot _) =? 0); cbn [negb].
  2:{ cbn [fst snd]. repeat split; try done; auto.
      - rewrite !elem_of_cons. intros [?|[?|?%elem_of_nil]]; done.
      - rewrite !elem_of_cons. intros [?|[?|?%elem_of_nil]]; done. }
  destruct (Z.land init_flags _ =? _) eqn:Hboth.
  { cbn [fst snd]. repeat split; try done; auto.
    - rewrite !elem_of_cons. intros [?|[?|?%elem_of_nil]]; done.
    - rewrite !elem_of_cons. intros [?|[?|?%elem_of_nil]]; done. }
  apply Z.eqb_neq in Hboth.
  cbv zeta.
  set (utf8 := if has_flag init_flags (WIMLIB_INIT_FLAG_ASSUME_UTF8 K)
               then wimlib_mbs_is_utf8 g else test_locale_ctype_utf8 K codeset).
  set (ntfs := (if negb (has_flag init_flags (WIMLIB_INIT_FLAG_ASSUME_UTF8 K))
                   && WITH_NTFS_3G K && negb utf8
                then [libntfs3g_global_init] else []) : list init_event).
  set (win := (if WIN32 K then [win32_global_init init_flags] else [])
              : list init_event).
  assert (Hn : forall e, e ∈ ntfs -> e = libntfs3g_global_init).
  { intros e H. subst ntfs. destruct (_ && _ && _).
    - by apply list_elem_of_singleton in H.
    - by apply elem_of_nil in H. }
  assert (Hwin : forall e, e ∈ win -> e = win32_global_init init_flags).
  { intros e H. subst win. destruct (WIN32 K).
    - by apply list_elem_of_singleton in H.
    - by apply elem_of_nil in H. }
  clearbody ntfs win.
  destruct (WIN32 K && is_error win32_ret) eqn:Hw; cbn [fst snd].
  - split.
    { right. exists (xml_global_init :: ntfs ++ win).
      split; [reflexivity|]. split; init_events Hn Hwin. }
    split.
    { intros ->. apply andb_prop in Hw as [_ Hw]. done. }
    split; [|done].
    intros _. repeat split; try done; init_events Hn Hwin.
  - split.
    { right.
      exists (xml_global_init :: (ntfs ++ win) ++ [iconv_global_init; init_upcase]).
      split; [cbn; by rewrite <- ?app_assoc|]. split; init_events Hn Hwin. }
    split; [|split; [done|]].
    + intros _. split; [done|]. intros. reflexivity.
    + intros _ Hb. done.
Qed.

(** [strstr] finds exactly the strings that occur. *)
Lemma is_prefix_spec p s :
  is_prefix p s = true <-> exists rest, s = (p ++ rest)%string.
Proof.
  revert s. induction p as [|a p IH]; intros s; cbn.
  - split; [intros _; by exists s|done].
  - destruct s as [|b s]; [split; [done|intros [? ?]; done]|].
    rewrite andb_true_iff, Ascii.eqb_eq, IH. split.
    + intros [-> [rest ->]]. by exists rest.
    + intros [rest [= -> ->]]. split; [done|by exists rest].
Qed.

Lemma strstr_spec haystack needle :
  strstr haystack needle = true
  <-> exists before after, haystack = (before ++ needle ++ after)%string.
Proof.
  induction haystack as [|c h IH]; cbn [strstr].
  - rewrite orb_false_r, is_prefix_spec. split.
    + intros [rest ->]. by exists EmptyString, rest.
    + intros [[|? before] [after H]]; [by exists after|done].
  - rewrite orb_true_iff, is_prefix_spec, IH. split.
    + intros [[rest ->]|(before & after & ->)].
      * by exists EmptyString, rest.
      * by exists (String c before), after.
    + intros [[|c' before] [after H]].
      * left. by exists after.
      * right. injection H as -> ->. by exists before, after.
Qed.

(** Outside Windows [test_locale_ctype_utf8] takes the character set for
    UTF-8 as soon as one of the four spellings is missing from its name,
    so also when none of them occurs in it. *)
Theorem test_locale_ctype_utf8_missing_spelling ctype spelling :
  WIN32 K = false ->
  spelling ∈ ["UTF-8"; "UTF8"; "utf8"; "utf-8"]%string ->
  (forall before after, ctype <> (before ++ spelling ++ after)%string) ->
  test_locale_ctype_utf8 K ctype = true.
Proof.
  intros Hw Hin Hno. unfold test_locale_ctype_utf8. rewrite Hw.
  assert (Hs : strstr ctype spelling = false).
  { destruct (strstr ctype spelling) eqn:H; [|done].
    apply strstr_spec in H as (b & a & ->). by destruct (Hno b a). }
  rewrite !elem_of_cons in Hin.
  destruct Hin as [->|[->|[->|[->|H]]]]; [..|by apply elem_of_nil in H];
    rewrite Hs; cbn; rewrite ?orb_true_r; reflexivity.
Qed.

End WimFacts.

Lemma output_settings_stay_consistent_witness :
  let r := Wim.wimlib_set_output_compression_type Wim.sample_constants
             Wim.sample_wim 0 in
  Wim.out_chunk_size r.2 = 0 /\
  Wim.output_settings_ok Wim.sample_constants r.2 /\
  (r.1 <> Wim.WIMLIB_ERR_SUCCESS -> r.2 = Wim.sample_wim).
Proof.
  intros r. split; [reflexivity|].
  apply (output_settings_stay_consistent Wim.sample_constants Wim.sample_wim).
  - repeat constructor.
  - repeat split; reflexivity.
  - left. exists 0. reflexivity.
Defined.

Lemma set_wim_info_changes_only_what_was_asked_witness :
  let info := {| Wim.guid := [7]; Wim.boot_index := 2;
                 Wim.is_marked_readonly := true; Wim.has_rpfix := false |} in
  let r := Wim.wimlib_set_wim_info Wim.sample_constants Wim.sample_wim info 5 in
  r.1 = Wim.WIMLIB_ERR_SUCCESS /\ Wim.hdr_boot_idx r.2 = 2 /\
  Wim.hdr_guid r.2 = [] /\ Wim.hdr_flags r.2 = 4.
Proof.
  intros info r.
  pose proof (set_wim_info_changes_only_what_was_asked Wim.sample_constants
                Wim.sample_wim info 5) as H.
  cbv zeta in H. destruct H as (_ & _ & _ & Hboot & Hguid & _).
  - cbn. lia.
  - split; [reflexivity|]. split; [exact Hboot|]. split; [exact Hguid|].
    reflexivity.
Defined.

Lemma resolve_image_in_range_witness :
  Wim.image_names Wim.sample_wim 1 = tstr "2" /\
  Wim.wimlib_resolve_image Wim.sample_constants Wim.sample_wim (Some (tstr "2"))
  = 2 /\
  Wim.wimlib_resolve_image Wim.sample_constants Wim.sample_wim (Some (tstr "9"))
  = 0 /\
  Wim.wimlib_resolve_image Wim.sample_constants Wim.sample_wim
    (Some (tstr "base")) = 2.
Proof.
  split; [reflexivity|].
  pose proof (resolve_image_in_range Wim.sample_constants Wim.sample_wim
                (tstr "2") ltac:(cbn; lia)) as H2.
  pose proof (resolve_image_in_range Wim.sample_constants Wim.sample_wim
                (tstr "9") ltac:(cbn; lia)) as H9.
  pose proof (resolve_image_in_range Wim.sample_constants Wim.sample_wim
                (tstr "base") ltac:(cbn; lia)) as Hb.
  cbv zeta in H2, H9, Hb.
  split; [exact (proj1 H2)|]. split; [exact H9|].
  destruct Hb as [[_ Hno]|(Hr & Hname & _)].
  - exfalso. apply (Hno 2); [cbn; lia|reflexivity].
  - change (Wim.hdr_image_count Wim.sample_wim) with 2 in Hr.
    set (r := Wim.wimlib_resolve_image _ _ _) in *.
    assert (Hne : r <> 1).
    { intros E. rewrite E in Hname. discriminate Hname. }
    lia.
Defined.

Lemma test_locale_ctype_utf8_missing_spelling_witness :
  Wim.test_locale_ctype_utf8 Wim.sample_constants "ISO-8859-1" = true.
Proof.
  apply (test_locale_ctype_utf8_missing_spelling Wim.sample_constants
           "ISO-8859-1" "utf8").
  - reflexivity.
  - apply list_elem_of_further, list_elem_of_further, list_elem_of_here.
  - intros before after H.
    assert (Hs : Wim.strstr "ISO-8859-1" "utf8" = true)
      by (apply strstr_spec; eauto).
    discriminate Hs.
Defined.

(** * Properties of [xml.c] *)

Section XmlFacts.

Import Xml.

Lemma slot_lookup {A} (array : list A) (i : Z) :
  0 <= i -> slot array i = array !! Z.to_nat i.
Proof. intros H. unfold slot. destruct (Z.ltb_spec i 0); [lia|done]. Qed.

Lemma set_slot_insert {A} (array : list A) (i : Z) (v : A) :
  0 <= i < Z.of_nat (length array) ->
  set_slot array i v = Some (<[Z.to_nat i := v]> array).
Proof.
  intros H. unfold set_slot.
  destruct (Z.leb_spec 0 i); [|lia]. destruct (Z.ltb_spec i (Z.of_nat (length array))); [done|lia].
Qed.

Lemma lookup_in_range {A} (array : list A) (i : Z) :
  0 <= i < Z.of_nat (length array) -> exists x, array !! Z.to_nat i = Some x.
Proof. intros H. apply lookup_lt_is_Some. lia. Qed.

Lemma shift_images_spec count : forall array i,
  0 <= i -> i + Z.of_nat count < Z.of_nat (length array) ->
  exists array',
    shift_images array i count = Some array' /\
    length array' = length array /\
    forall k : nat,
      array' !! k
      = if decide (Z.of_nat k < i) then array !! k
        else if decide (Z.of_nat k < i + Z.of_nat count)
             then renumbered <$> array !! S k
             else array !! k.
Proof.
  induction count as [|c IH]; intros array i Hi Hlen; cbn [shift_images].
  - exists array. split; [done|]. split; [done|]. intros k.
    destruct (decide (Z.of_nat k < i)); [done|].
    destruct (decide (Z.of_nat k < i + Z.of_nat 0)); [lia|done].
  - rewrite slot_lookup by lia.
    destruct (lookup_in_range array (i + 1)) as [next Hnext]; [lia|].
    rewrite Hnext. cbn [mbind option_bind].
    rewrite set_slot_insert by lia. cbn [mbind option_bind].
    destruct (IH (<[Z.to_nat i := set_index (u64 (index next - 1)) next]> array)
                (i + 1)) as (array' & -> & Hl & Hk).
    { lia. } { rewrite length_insert. lia. }
    exists array'. split; [done|]. rewrite length_insert in Hl.
    split; [done|]. intros k. rewrite Hk.
    destruct (decide (Z.of_nat k < i + 1)) as [Hlt|Hge].
    + destruct (decide (Z.of_nat k < i)) as [Hlt'|Heq].
      * rewrite list_lookup_insert_ne by lia. done.
      * assert (k = Z.to_nat i) as -> by lia.
        rewrite list_lookup_insert_eq by lia.
        destruct (decide (Z.of_nat (Z.to_nat i) < i + Z.of_nat (S c))); [|lia].
        replace (S (Z.to_nat i)) with (Z.to_nat (i + 1)) by lia.
        rewrite Hnext. done.
    + destruct (decide (Z.of_nat k < i)); [lia|].
      destruct (decide (Z.of_nat k < i + 1 + Z.of_nat c)),
        (decide (Z.of_nat k < i + Z.of_nat (S c))); try lia.
      * rewrite list_lookup_insert_ne by lia. done.
      * rewrite list_lookup_insert_ne by lia. done.
Qed.

(** Deleting an image closes the gap and keeps the numbering: the images
    after the deleted one move down one place and get the index of their
    new place, nothing else in any image changes, and the information is
    given up altogether when the last image goes. *)
Theorem delete_image_renumbers wi image :
  0 <= num_images wi <= Z.of_nat (length (images wi)) ->
  num_images wi < 2 ^ 64 ->
  1 <= image <= num_images wi ->
  numbered (live_images wi) ->
  match xml_delete_image (Some wi) image with
  | None => False
  | Some None => num_images wi = 1
  | Some (Some wi') =>
      num_images wi' = num_images wi - 1 /\
      0 < num_images wi' <= Z.of_nat (length (images wi')) /\
      numbered (live_images wi') /\
      set_index 0 <$> live_images wi'
      = delete (Z.to_nat (image - 1)) (set_index 0 <$> live_images wi)
  end.
Proof.
  intros Hn H64 Himage Hnum. unfold xml_delete_image. cbn [mbind option_bind].
  destruct (Z.leb_spec 1 image); [|lia].
  destruct (Z.leb_spec image (num_images wi)); [|lia]. cbn [andb negb].
  rewrite slot_lookup by lia.
  destruct (lookup_in_range (images wi) (image - 1)) as [old Hold]; [lia|].
  rewrite Hold. cbn [mbind option_bind].
  rewrite set_slot_insert by lia. cbn [mbind option_bind].
  destruct (shift_images_spec (Z.to_nat (num_images wi - image))
              (<[Z.to_nat (image - 1) := destroy_image_info old]> (images wi))
              (image - 1)) as (array' & -> & Hl & Hk).
  { lia. } { rewrite length_insert. lia. }
  rewrite length_insert in Hl. cbn [mbind option_bind].
  destruct (Z.eqb_spec (num_images wi - 1) 0) as [H1|H1]; [lia|].
  cbn [num_images images]. split; [done|]. split; [lia|].
  assert (Hlive : forall k : nat,
             live_images {| num_images := num_images wi - 1; images := array' |} !! k
             = if decide (Z.of_nat k < image - 1) then live_images wi !! k
               else renumbered <$> live_images wi !! S k).
  { intros k. unfold live_images. cbn [num_images images].
    destruct (decide (Z.of_nat k < num_images wi - 1)) as [Hlt|Hge].
    - rewrite lookup_take_lt by lia. rewrite Hk.
      destruct (decide (Z.of_nat k < image - 1)).
      + rewrite list_lookup_insert_ne by lia.
        rewrite lookup_take_lt by lia. done.
      + destruct (decide (Z.of_nat k < image - 1
                          + Z.of_nat (Z.to_nat (num_images wi - image)))); [|lia].
        rewrite list_lookup_insert_ne by lia.
        rewrite lookup_take_lt by lia. done.
    - rewrite lookup_take_ge by lia.
      destruct (decide (Z.of_nat k < image - 1)); [lia|].
      rewrite lookup_take_ge by lia. done. }
  split.
  - intros k x. rewrite Hlive.
    destruct (decide (Z.of_nat k < image - 1)); [apply Hnum|].
    destruct (live_images wi !! S k) as [y|] eqn:Hy; [|done].
    intros [= <-].
    assert (Hk' : Z.of_nat (S k) <= num_images wi).
    { apply lookup_lt_Some in Hy. unfold live_images in Hy.
      rewrite length_take in Hy. lia. }
    apply Hnum in Hy. cbn. rewrite Hy.
    unfold u64, wrap. rewrite Z.mod_small by lia. lia.
  - apply list_eq. intros k. rewrite list_lookup_fmap, Hlive.
    destruct (decide (Z.of_nat k < image - 1)).
    + rewrite list_lookup_delete_lt by lia. by rewrite list_lookup_fmap.
    + rewrite list_lookup_delete_ge by lia. rewrite list_lookup_fmap.
      by destruct (live_images wi !! S k).
Qed.

Lemma name_used_from_spec array n skip count : forall i,
  1 <= i ->
  (forall j, i <= j < i + Z.of_nat count -> j <> skip ->
     exists x, array !! Z.to_nat (j - 1) = Some x /\ is_Some (name x)) ->
  exists r,
    name_used_from array n skip i count = Some r /\
    match r with
    | None =>
        forall j x, i <= j < i + Z.of_nat count -> j <> skip ->
          array !! Z.to_nat (j - 1) = Some x -> name x <> Some n
    | Some j =>
        i <= j < i + Z.of_nat count /\ j <> skip /\
        exists x, array !! Z.to_nat (j - 1) = Some x /\ name x = Some n
    end.
Proof.
  induction count as [|c IH]; intros i Hi Hslots; cbn [name_used_from].
  - exists None. split; [done|]. intros j x Hj. lia.
  - destruct (IH (i + 1)) as (r & Hr & Hspec); [lia| |].
    { intros j Hj. apply Hslots. lia. }
    destruct (Z.eqb_spec i skip) as [Heq|Hne].
    + exists r. split; [done|]. destruct r as [j|].
      * destruct Hspec as (? & ? & ?). split; [lia|done].
      * intros j x Hj Hjs. apply Hspec; [|done].
        destruct (decide (j = i)); [congruence|lia].
    + destruct (Hslots i) as (x & Hx & [s Hs]); [lia|done|].
      rewrite slot_lookup by lia. rewrite Hx. cbn [mbind option_bind].
      unfold strcmp_equal. rewrite Hs. cbn [mbind option_bind].
      destruct (String.eqb_spec s n) as [->|Hsn].
      * exists (Some i). split; [done|]. split; [lia|]. split; [done|].
        by exists x.
      * exists r. split; [done|]. destruct r as [j|].
        -- destruct Hspec as (? & ? & ?). split; [lia|done].
        -- intros j y Hj Hjs Hy. destruct (decide (j = i)) as [->|Hji].
           ++ rewrite Hx in Hy. injection Hy as <-. congruence.
           ++ apply (Hspec j); [lia|done|done].
Qed.

Lemma live_images_lookup wi (k : nat) :
  Z.of_nat k < num_images wi -> live_images wi !! k = images wi !! k.
Proof. intros H. unfold live_images. apply lookup_take_lt. lia. Qed.

Lemma info_ok_slots w wi :
  info w = Some wi -> info_ok w ->
  forall j, 1 <= j <= hdr_image_count w ->
    exists x, images wi !! Z.to_nat (j - 1) = Some x /\ is_Some (name x).
Proof.
  intros Hwi Hok j Hj. unfold info_ok in Hok. rewrite Hwi in Hok.
  destruct Hok as (Hlen & Hcount & Hnames).
  destruct (lookup_in_range (images wi) (j - 1)) as [x Hx]; [lia|].
  exists x. split; [done|].
  rewrite Forall_lookup in Hnames. apply (Hnames (Z.to_nat (j - 1))).
  rewrite live_images_lookup by lia. done.
Qed.

Lemma get_image_name_in_range w wi j :
  info w = Some wi -> 1 <= j <= hdr_image_count w ->
  wimlib_get_image_name w j = name <$> images wi !! Z.to_nat (j - 1).
Proof.
  intros Hwi Hj. unfold wimlib_get_image_name.
  destruct (Z.ltb_spec j 1); [lia|].
  destruct (Z.ltb_spec (hdr_image_count w) j); [lia|]. cbn [orb].
  rewrite Hwi. cbn [mbind option_bind]. rewrite slot_lookup by lia.
  by destruct (images wi !! Z.to_nat (j - 1)).
Qed.

Lemma get_image_name_out_of_range w j :
  ~ 1 <= j <= hdr_image_count w -> wimlib_get_image_name w j = Some None.
Proof.
  intros Hj. unfold wimlib_get_image_name.
  destruct (Z.ltb_spec j 1); [done|].
  destruct (Z.ltb_spec (hdr_image_count w) j); [done|lia].
Qed.

(** Renaming an image: the call answers for every argument; a call that
    does not succeed changes nothing; the name is taken exactly when it is
    not empty, the image exists, no other image has it and the copy can be
    allocated, and IMAGE_NAME_COLLISION says exactly that another image
    has it.  After success the image has the new name, the others keep
    theirs, and names that were pairwise distinct still are. *)
Theorem set_image_name_round_trip w image n strdup_ok :
  info_ok w ->
  match wimlib_set_image_name (Some w) image (Some n) strdup_ok with
  | Some (ret, Some w') =>
      info_ok w' /\
      hdr_image_count w' = hdr_image_count w /\
      (ret <> WIMLIB_ERR_SUCCESS -> w' = w) /\
      (ret = WIMLIB_ERR_SUCCESS ->
       wimlib_get_image_name w' image = Some (Some n) /\
       (forall j, j <> image ->
          wimlib_get_image_name w' j = wimlib_get_image_name w j) /\
       (NoDup (image_names w) -> NoDup (image_names w'))) /\
      (ret = WIMLIB_ERR_IMAGE_NAME_COLLISION <->
       n <> EmptyString /\ 1 <= image <= hdr_image_count w /\
       exists j, j <> image /\ wimlib_get_image_name w j = Some (Some n)) /\
      (ret = WIMLIB_ERR_SUCCESS <->
       n <> EmptyString /\ 1 <= image <= hdr_image_count w /\
       (forall j, j <> image -> wimlib_get_image_name w j <> Some (Some n)) /\
       strdup_ok = true)
  | _ => False
  end.
Proof.
  intros Hok. unfold wimlib_set_image_name.
  destruct n as [|a n'].
  { repeat split; try done; try (intros (? & _); done). }
  set (n := String a n').
  destruct (Z.ltb_spec image 1) as [Hlow|Hlow].
  { cbn [orb]. repeat split; try done; try (intros (_ & ? & _); lia). }
  destruct (Z.ltb_spec (hdr_image_count w) image) as [Hhigh|Hhigh].
  { cbn [orb]. repeat split; try done; try (intros (_ & ? & _); lia). }
  cbn [orb].
  destruct (info w) as [wi|] eqn:Hwi.
  2:{ unfold info_ok in Hok. rewrite Hwi in Hok. lia. }
  cbn [mbind option_bind].
  pose proof (info_ok_slots w wi Hwi Hok) as Hslots.
  pose proof Hok as Hok'. unfold info_ok in Hok'. rewrite Hwi in Hok'.
  destruct Hok' as (Hlen & Hcount & Hnames).
  destruct (name_used_from_spec (images wi) n image
              (Z.to_nat (hdr_image_count w)) 1) as (r & -> & Hr); [lia| |].
  { intros j Hj _. apply Hslots. lia. }
  cbn [mbind option_bind].
  assert (Hget : forall j, 1 <= j <= hdr_image_count w ->
            wimlib_get_image_name w j = name <$> images wi !! Z.to_nat (j - 1))
    by (intros; by apply get_image_name_in_range).
  destruct r as [j|].
  - (* another image has the name *)
    destruct Hr as (Hj & Hne & x & Hx & Hxn).
    rewrite bool_decide_true by eauto.
    split; [done|]. split; [done|]. split; [done|]. split; [done|]. split.
    + split; [|done]. intros _. split; [done|]. split; [lia|].
      exists j. split; [done|]. rewrite Hget by lia. rewrite Hx. cbn. by rewrite Hxn.
    + split; [done|]. intros (_ & _ & Hno & _). exfalso. apply (Hno j Hne).
      rewrite Hget by lia. rewrite Hx. cbn. by rewrite Hxn.
  - rewrite bool_decide_false by (intros [? ?]; done).
    assert (Hfree : forall j, j <> image ->
              wimlib_get_image_name w j <> Some (Some n)).
    { intros j Hne. destruct (decide (1 <= j <= hdr_image_count w)) as [Hj|Hj].
      - rewrite Hget by done.
        destruct (images wi !! Z.to_nat (j - 1)) as [x|] eqn:Hx; [|done].
        cbn. intros [= Hxn]. apply (Hr j x); [lia|done|done|done].
      - rewrite get_image_name_out_of_range by done. done. }
    destruct strdup_ok; cbn [negb].
    2:{ split; [done|]. split; [done|]. split; [done|]. split; [done|]. split.
        - split; [done|]. intros (_ & _ & j & Hne & Hj). by apply Hfree in Hj.
        - split; [done|]. intros (_ & _ & _ & ?). done. }
    rewrite slot_lookup by lia.
    destruct (lookup_in_range (images wi) (image - 1)) as [old Hold]; [lia|].
    rewrite Hold. cbn [mbind option_bind].
    rewrite set_slot_insert by lia. cbn [mbind option_bind].
    set (array := <[Z.to_nat (image - 1) := set_name (Some n) old]> (images wi)).
    set (w' := set_info (Some {| num_images := num_images wi; images := array |}) w).
    assert (Hget' : forall j, 1 <= j <= hdr_image_count w ->
              wimlib_get_image_name w' j = name <$> array !! Z.to_nat (j - 1)).
    { intros j Hj.
      by apply (get_image_name_in_range w'
                  {| num_images := num_images wi; images := array |} j). }
    assert (Hnames' : image_names w'
                      = <[Z.to_nat (image - 1) := Some n]> (image_names w)).
    { unfold image_names. rewrite Hwi. subst w'. cbn [info set_info].
      unfold live_images. cbn [num_images images]. subst array.
      apply list_eq. intros k.
      rewrite list_lookup_fmap.
      destruct (decide (Z.of_nat k < num_images wi)) as [Hk|Hk].
      - rewrite lookup_take_lt by lia.
        destruct (decide (k = Z.to_nat (image - 1))) as [->|Hki].
        + rewrite !list_lookup_insert_eq; [done| |lia].
          rewrite length_fmap, length_take. lia.
        + rewrite !list_lookup_insert_ne by done.
          rewrite list_lookup_fmap, lookup_take_lt by lia. done.
      - rewrite lookup_take_ge by lia.
        rewrite list_lookup_insert_ne by lia.
        rewrite list_lookup_fmap, lookup_take_ge by lia. done. }
    split.
    { unfold info_ok. subst w'. cbn [info set_info hdr_image_count].
      cbn [num_images images]. subst array. rewrite length_insert.
      split; [done|]. split; [done|].
      apply Forall_lookup. intros k x.
      unfold live_images. cbn [num_images images]. intros Hx.
      assert (Hk : Z.of_nat k < num_images wi).
      { apply lookup_lt_Some in Hx. rewrite length_take in Hx. lia. }
      rewrite lookup_take_lt in Hx by lia.
      destruct (decide (k = Z.to_nat (image - 1))) as [->|Hki].
      - rewrite list_lookup_insert_eq in Hx by lia. injection Hx as <-. by eexists.
      - rewrite list_lookup_insert_ne in Hx by done.
        rewrite Forall_lookup in Hnames. apply (Hnames k).
        by rewrite live_images_lookup. }
    split; [done|]. split; [done|]. split.
    { intros _. split; [|split].
      - rewrite Hget' by lia. subst array.
        rewrite list_lookup_insert_eq by lia. done.
      - intros j Hne.
        destruct (decide (1 <= j <= hdr_image_count w)) as [Hj|Hj].
        + rewrite Hget', Hget by done. subst array.
          rewrite list_lookup_insert_ne by lia. done.
        + rewrite !get_image_name_out_of_range by done. done.
      - rewrite Hnames'. rewrite !NoDup_alt. intros Hnd i1 i2 v H1 H2.
        assert (Hother : forall i : nat, i <> Z.to_nat (image - 1) ->
                  image_names w !! i <> Some (Some n)).
        { intros i Hi Hv. unfold image_names in Hv. rewrite Hwi in Hv.
          rewrite list_lookup_fmap in Hv.
          destruct (live_images wi !! i) as [x|] eqn:Hx; [|done].
          assert (Hk : Z.of_nat i < num_images wi).
          { apply lookup_lt_Some in Hx. unfold live_images in Hx.
            rewrite length_take in Hx. lia. }
          rewrite live_images_lookup in Hx by done.
          injection Hv as Hv.
          apply (Hr (Z.of_nat i + 1) x); [lia|lia| |done].
          replace (Z.to_nat (Z.of_nat i + 1 - 1)) with i by lia. done. }
        destruct (decide (i1 = Z.to_nat (image - 1))) as [->|Hi1],
                 (decide (i2 = Z.to_nat (image - 1))) as [->|Hi2]; [done|..].
        + rewrite list_lookup_insert_ne in H2 by done.
          apply list_lookup_insert_Some in H1 as [(_ & <- & _)|[? _]]; [|done].
          by apply Hother in H2.
        + rewrite list_lookup_insert_ne in H1 by done.
          apply list_lookup_insert_Some in H2 as [(_ & <- & _)|[? _]]; [|done].
          by apply Hother in H1.
        + rewrite list_lookup_insert_ne in H1, H2 by done. by apply (Hnd i1 i2 v). }
    split.
    + split; [done|]. intros (_ & _ & j & Hne & Hj). by apply Hfree in Hj.
    + split; [|done]. intros _. repeat split; try done; lia.
Qed.

Lemma u64_add_l a b : u64 (u64 a + b) = u64 (a + b).
Proof. unfold u64, wrap. apply Z.add_mod_idemp_l. lia. Qed.

Lemma u64_idem a : u64 (u64 a) = u64 a.
Proof. unfold u64, wrap. apply Z.mod_mod. lia. Qed.

Lemma u64_small a : 0 <= a < 2 ^ 64 -> u64 a = a.
Proof. intros H. unfold u64, wrap. by apply Z.mod_small. Qed.

Lemma u64_range a : 0 <= u64 a < 2 ^ 64.
Proof. unfold u64, wrap. apply Z.mod_pos_bound. lia. Qed.

Lemma counted_snoc seen d :
  counted (seen ++ [d]) = counted seen ++ (if is_root d then [] else [d]).
Proof.
  unfold counted. rewrite List.filter_app. cbn. by destruct (is_root d).
Qed.

Lemma sum_sizes_snoc l d : sum_sizes (l ++ [d]) = sum_sizes l + unnamed_size d.
Proof. induction l as [|x l IH]; cbn; [lia|]. fold (sum_sizes (l ++ [d])). rewrite IH. fold (sum_sizes l). lia. Qed.

Lemma named_streams_not_counted lc ads i :
  forallb (fun a => negb (negb (stream_name_len a =? 0)
                          && bool_decide (is_Some (stream_lte a)))) ads = true ->
  fold_left
    (fun i a =>
       if negb (stream_name_len a =? 0) then
         match stream_lte a with
         | Some size =>
             set_counts (dir_count i) (file_count i) (total_bytes i)
               (u64 (hard_link_bytes i + u64 (lc * size))) i
         | None => i
         end
       else i) ads i = i.
Proof.
  revert i. induction ads as [|a ads IH]; intros i H; [done|].
  cbn in H. apply andb_prop in H as [Ha H]. cbn [fold_left].
  destruct (negb (stream_name_len a =? 0)); [|by apply IH].
  destruct (stream_lte a) as [size|]; [|by apply IH].
  exfalso. rewrite bool_decide_true in Ha by eauto. done.
Qed.

Lemma named_streams_fields lc ads : forall i,
  let r := fold_left
    (fun i a =>
       if negb (stream_name_len a =? 0) then
         match stream_lte a with
         | Some size =>
             set_counts (dir_count i) (file_count i) (total_bytes i)
               (u64 (hard_link_bytes i + u64 (lc * size))) i
         | None => i
         end
       else i) ads i in
  (0 <= hard_link_bytes i < 2 ^ 64 -> 0 <= hard_link_bytes r < 2 ^ 64) /\
  set_counts 0 0 0 0 r = set_counts 0 0 0 0 i /\
  dir_count r = dir_count i /\ file_count r = file_count i /\
  total_bytes r = total_bytes i.
Proof.
  induction ads as [|a ads IH]; intros i; cbn [fold_left]; [done|].
  destruct (negb (stream_name_len a =? 0)); [|apply IH].
  destruct (stream_lte a) as [size|]; [|apply IH].
  cbv zeta in IH.
  destruct (IH (set_counts (dir_count i) (file_count i) (total_bytes i)
                  (u64 (hard_link_bytes i + u64 (lc * size))) i))
    as (Hr & Hs & Hd & Hf & Ht).
  cbv zeta. split; [|by rewrite Hs, Hd, Hf, Ht].
  intros _. apply Hr. cbn. apply u64_range.
Qed.

Lemma calculate_dentry_statistics_step seen old d i :
  statistics_of seen old i ->
  statistics_of (seen ++ [d]) old (calculate_dentry_statistics d i).
Proof.
  intros ((Hrd & Hrf & Hrt & Hrh) & Hcount & Htotal & Hlinks & Hrest).
  unfold statistics_of, calculate_dentry_statistics. rewrite !counted_snoc.
  destruct (is_root d) eqn:Hroot.
  { rewrite !app_nil_r. done. }
  set (i1 := if is_directory (d_inode d)
             then set_counts (u64 (dir_count i + 1)) (file_count i)
                    (total_bytes i) (hard_link_bytes i) i
             else set_counts (dir_count i) (u64 (file_count i + 1))
                    (total_bytes i) (hard_link_bytes i) i).
  set (i2 := match unnamed_lte (d_inode d) with
             | Some size =>
                 let i := set_counts (dir_count i1) (file_count i1)
                            (u64 (total_bytes i1 + size)) (hard_link_bytes i1) i1 in
                 if negb (is_first_in_inode d)
                 then set_counts (dir_count i) (file_count i) (total_bytes i)
                        (u64 (hard_link_bytes i + size)) i
                 else i
             | None => i1
             end).
  assert (H1 : (0 <= dir_count i1 < 2 ^ 64 /\ 0 <= file_count i1 < 2 ^ 64) /\
               u64 (dir_count i1 + file_count i1)
               = u64 (Z.of_nat (length (counted seen ++ [d]))) /\
               total_bytes i1 = total_bytes i /\
               hard_link_bytes i1 = hard_link_bytes i /\
               set_counts 0 0 0 0 i1 = set_counts 0 0 0 0 i).
  { rewrite length_app. cbn [length].
    replace (Z.of_nat (length (counted seen) + 1))
      with (Z.of_nat (length (counted seen)) + 1) by lia.
    rewrite <- (u64_add_l (Z.of_nat _)), <- Hcount, u64_add_l.
    subst i1. destruct (is_directory (d_inode d)); cbn.
    - pose proof (u64_range (dir_count i + 1)).
      repeat split; try done; try lia.
      rewrite u64_add_l. f_equal. lia.
    - pose proof (u64_range (file_count i + 1)).
      repeat split; try done; try lia.
      rewrite (Z.add_comm (dir_count i)), u64_add_l. f_equal. lia. }
  destruct H1 as ((Hrd1 & Hrf1) & Hcount1 & Ht1 & Hh1 & Hs1).
  assert (H2 : dir_count i2 = dir_count i1 /\ file_count i2 = file_count i1 /\
               total_bytes i2 = u64 (total_bytes i + unnamed_size d) /\
               hard_link_bytes i2
               = u64 (hard_link_bytes i
                      + if is_first_in_inode d then 0 else unnamed_size d) /\
               set_counts 0 0 0 0 i2 = set_counts 0 0 0 0 i).
  { subst i2. unfold unnamed_size.
    destruct (unnamed_lte (d_inode d)) as [size|]; cbn [default].
    - destruct (is_first_in_inode d); cbn; rewrite ?Ht1, ?Hh1.
      + rewrite Z.add_0_r, (u64_small (hard_link_bytes i)) by done. done.
      + done.
    - destruct (is_first_in_inode d); rewrite !Z.add_0_r, Ht1, Hh1;
        rewrite !u64_small by done; done. }
  destruct H2 as (Hd2 & Hf2 & Ht2 & Hh2 & Hs2).
  set (r := if (2 <=? link_count (d_inode d)) && is_first_in_inode d
            then fold_left _ (ads_entries (d_inode d)) i2 else i2).
  assert (H3 : (0 <= hard_link_bytes r < 2 ^ 64) /\
               set_counts 0 0 0 0 r = set_counts 0 0 0 0 i2 /\
               dir_count r = dir_count i2 /\ file_count r = file_count i2 /\
               total_bytes r = total_bytes i2 /\
               (counts_named_streams d = false -> r = i2)).
  { assert (Hr2 : 0 <= hard_link_bytes i2 < 2 ^ 64)
      by (rewrite Hh2; apply u64_range).
    subst r. unfold counts_named_streams.
    destruct ((2 <=? link_count (d_inode d)) && is_first_in_inode d).
    2:{ repeat split; try done; lia. }
    pose proof (named_streams_fields (link_count (d_inode d))
                  (ads_entries (d_inode d)) i2) as Hf.
    cbv zeta in Hf. destruct Hf as (Hr & Hs & Hd & Hfc & Ht).
    repeat split; auto; try (apply Hr; lia).
    cbn [andb]. intros Hno. apply named_streams_not_counted.
    clear -Hno. induction (ads_entries (d_inode d)) as [|a l IH]; [done|].
    cbn in *. apply orb_false_elim in Hno as [-> Hno]. cbn. by apply IH. }
  destruct H3 as (Hrh3 & Hs3 & Hd3 & Hf3 & Ht3 & Hsame).
  assert (Hfields : set_counts 0 0 0 0 r = set_counts 0 0 0 0 i)
    by (by rewrite Hs3, Hs2).
  split.
  { rewrite Hd3, Hf3, Ht3, Hd2, Hf2, Ht2. repeat split; try lia;
      apply u64_range. }
  split; [by rewrite Hd3, Hf3, Hd2, Hf2|].
  split.
  { rewrite Ht3, Ht2, Htotal, sum_sizes_snoc, u64_add_l. done. }
  split.
  { rewrite Forall_app, Forall_singleton. intros [Hall Hd].
    rewrite (Hsame Hd), Hh2, Ht2, List.filter_app. cbn [List.filter].
    specialize (Hlinks Hall).
    destruct (is_first_in_inode d).
    - rewrite Z.add_0_r, (u64_small (hard_link_bytes i)) by done.
      rewrite sum_sizes_snoc, Z.add_assoc.
      rewrite <- u64_add_l, Hlinks. done.
    - rewrite app_nil_r, u64_add_l.
      rewrite <- Z.add_assoc, (Z.add_comm (unnamed_size d)), Z.add_assoc.
      rewrite <- u64_add_l, Hlinks. done. }
  destruct Hrest as (? & ? & ? & ? & ? & ? & ? & ?).
  injection Hfields as -> -> -> -> -> -> -> ->. done.
Qed.

Lemma statistics_walk tree : forall seen old i,
  statistics_of seen old i ->
  statistics_of (seen ++ tree) old
    (fold_left (fun i d => calculate_dentry_statistics d i) tree i).
Proof.
  induction tree as [|d tree IH]; intros seen old i H; cbn [fold_left].
  - by rewrite app_nil_r.
  - replace (seen ++ d :: tree) with ((seen ++ [d]) ++ tree)
      by (by rewrite <- app_assoc).
    apply IH. by apply calculate_dentry_statistics_step.
Qed.

Lemma xml_update_image_info_spec w image now wi old tree :
  info w = Some wi ->
  1 <= image ->
  images wi !! Z.to_nat (image - 1) = Some old ->
  image_metadata w !! Z.to_nat (image - 1) = Some tree ->
  exists new,
    xml_update_image_info w image now
    = Some (set_info
              (Some {| num_images := num_images wi;
                       images := <[Z.to_nat (image - 1) := new]> (images wi) |})
              w) /\
    statistics_of tree old (set_last_modification_time (last_modification_time old) new) /\
    last_modification_time new = now.
Proof.
  intros Hwi Himage Hold Htree. unfold xml_update_image_info.
  rewrite Hwi. cbn [mbind option_bind].
  rewrite !slot_lookup by lia. rewrite Hold, Htree. cbn [mbind option_bind].
  rewrite set_slot_insert
    by (apply lookup_lt_Some in Hold; lia).
  cbn [mbind option_bind].
  eexists. split; [reflexivity|].
  pose proof (statistics_walk tree [] (set_counts 0 0 0 0 old)
                (set_counts 0 0 0 0 old)) as H.
  cbn [app] in H.
  split; [|done].
  destruct H as (Hr & Hcount & Htotal & Hlinks & Hrest).
  { repeat split; cbn; try done; try lia. }
  set (r := fold_left _ tree _) in *.
  split; [exact Hr|]. split; [exact Hcount|]. split; [exact Htotal|].
  split; [exact Hlinks|].
  destruct Hrest as (? & ? & ? & ? & ? & ? & ? & ?). by repeat split.
Qed.

(** Refreshing the statistics of an image touches only that image and
    only its four counts and its modification time.  Afterwards the
    directory and file counts together count the dentries of the tree
    other than the root, the total bytes are the sizes of their unnamed
    streams, and, unless the named streams of a multiply linked inode
    were counted, the hard link bytes are the total bytes without the
    first link of each inode; all of this as 64-bit numbers. *)
Theorem update_image_info_statistics w image now wi old tree :
  info w = Some wi ->
  1 <= image ->
  images wi !! Z.to_nat (image - 1) = Some old ->
  image_metadata w !! Z.to_nat (image - 1) = Some tree ->
  exists new,
    xml_update_image_info w image now
    = Some (set_info
              (Some {| num_images := num_images wi;
                       images := <[Z.to_nat (image - 1) := new]> (images wi) |})
              w) /\
    u64 (dir_count new + file_count new) = u64 (Z.of_nat (length (counted tree))) /\
    total_bytes new = u64 (sum_sizes (counted tree)) /\
    (Forall (fun d => counts_named_streams d = false) (counted tree) ->
     u64 (hard_link_bytes new
          + sum_sizes (List.filter is_first_in_inode (counted tree)))
     = total_bytes new) /\
    last_modification_time new = now /\
    set_last_modification_time 0 (set_counts 0 0 0 0 new)
    = set_last_modification_time 0 (set_counts 0 0 0 0 old).
Proof.
  intros Hwi Himage Hold Htree.
  destruct (xml_update_image_info_spec w image now wi old tree)
    as (new & Hrun & Hstat & Hnow); [done..|].
  exists new. split; [done|].
  destruct Hstat as (_ & Hcount & Htotal & Hlinks & Hi & Hc & Hm & Hn & Hd
                     & Hdn & Hdd & Hf).
  split; [exact Hcount|]. split; [exact Htotal|]. split; [exact Hlinks|].
  split; [done|].
  destruct new, old; cbn in *. unfold set_last_modification_time, set_counts; cbn.
  by rewrite Hi, Hc, Hn, Hd, Hdn, Hdd, Hf.
Qed.

Lemma insert_snoc {A} (l : list A) (x v : A) (k : nat) :
  length l = k -> <[k := v]> (l ++ [x]) = l ++ [v].
Proof.
  intros <-. rewrite insert_app_r_alt by lia. by rewrite Nat.sub_diag.
Qed.

Lemma lookup_snoc {A} (l : list A) (x : A) (k : nat) :
  length l = k -> (l ++ [x]) !! k = Some x.
Proof. intros <-. rewrite lookup_app_r by lia. by rewrite Nat.sub_diag. Qed.

Lemma take_snoc {A} (l : list A) (x : A) (k : nat) :
  length l = k -> take k (l ++ [x]) = l /\ take (k + 1) (l ++ [x]) = l ++ [x].
Proof.
  intros <-. split; [apply take_app_length|].
  apply take_ge. rewrite length_app. cbn. lia.
Qed.

(** Adding an image answers SUCCESS exactly when every allocation it
    needs succeeds, and NOMEM otherwise.  On success the images in use
    are the old ones followed by the new one, which has the given name,
    the next index, the first timestamp as creation time and the second
    as modification time.  When the copy of the name fails, or the first
    image of a WIM cannot be allocated, the images in use are as before.
    When the array cannot be extended for a WIM that already has XML
    information, the array is left alone but the count of images in use
    comes out one lower than it was. *)
Theorem add_image_outcomes w n calloc_info_ok calloc_images_ok strdup_ok
    created modified :
  match info w with
  | Some wi => 0 <= num_images wi <= Z.of_nat (length (images wi))
  | None => True
  end ->
  is_Some (image_metadata w !! length (live_images_of w)) ->
  match xml_add_image w n calloc_info_ok calloc_images_ok strdup_ok
          created modified with
  | None => False
  | Some (ret, w') =>
      hdr_image_count w' = hdr_image_count w /\
      image_metadata w' = image_metadata w /\
      (ret = WIMLIB_ERR_SUCCESS \/ ret = WIMLIB_ERR_NOMEM) /\
      (ret = WIMLIB_ERR_SUCCESS <->
       (info w = None -> calloc_info_ok = true) /\
       calloc_images_ok = true /\ strdup_ok = true) /\
      match ret, info w with
      | WIMLIB_ERR_SUCCESS, _ =>
          exists new,
            live_images_of w' = live_images_of w ++ [new] /\
            name new = Some n /\
            index new = Z.of_nat (length (live_images_of w)) + 1 /\
            creation_time new = created /\
            last_modification_time new = modified /\
            description new = None /\ flags new = None
      | _, None => w' = w
      | _, Some wi =>
          if calloc_images_ok then live_images_of w' = live_images_of w
          else info w' = Some {| num_images := num_images wi - 1;
                                 images := images wi |}
      end
  end.
Proof.
  intros Harr Hmeta. unfold xml_add_image.
  set (wi0 := default {| num_images := 0; images := [] |} (info w)).
  assert (Hwi0 : 0 <= num_images wi0 <= Z.of_nat (length (images wi0)) /\
                 live_images_of w = live_images wi0).
  { subst wi0. unfold live_images_of. destruct (info w); cbn; [done|].
    split; [lia|done]. }
  destruct Hwi0 as [Hrange Hlive].
  assert (Hlen : length (live_images wi0) = Z.to_nat (num_images wi0))
    by (unfold live_images; rewrite length_take; lia).
  rewrite Hlive, Hlen in Hmeta. destruct Hmeta as [tree Htree].
  destruct (bool_decide (info w = None) && negb calloc_info_ok) eqn:Hfirst.
  { apply andb_prop in Hfirst as [Hnone Hc]. apply bool_decide_eq_true in Hnone.
    rewrite Hnone. destruct calloc_info_ok; [done|].
    repeat split; try done; auto. intros (? & _). by discriminate H. }
  assert (Hinfo_ok : info w = None -> calloc_info_ok = true).
  { intros Hnone. rewrite Hnone, bool_decide_true in Hfirst by done.
    by destruct calloc_info_ok. }
  unfold add_image_info_struct.
  destruct calloc_images_ok; cbn [negb].
  2:{ cbn [mbind option_bind].
      destruct (info w) eqn:Hwi; cbn [default] in *;
        repeat split; try done; auto; intros (_ & ? & _); done. }
  destruct (Z.ltb_spec (Z.of_nat (length (images wi0))) (num_images wi0)); [lia|].
  cbn [mbind option_bind num_images images].
  fold (live_images wi0).
  replace (num_images wi0 + 1 - 1) with (num_images wi0) by lia.
  destruct strdup_ok; cbn [negb].
  - rewrite slot_lookup by lia. rewrite (lookup_snoc _ _ _ Hlen).
    cbn [mbind option_bind].
    rewrite set_slot_insert by (rewrite length_app, Hlen; cbn; lia).
    cbn [mbind option_bind]. rewrite (insert_snoc _ _ _ _ Hlen).
    set (new0 := set_creation_time created _).
    set (w1 := set_info _ w).
    destruct (xml_update_image_info_spec w1 (num_images wi0 + 1) modified
                {| num_images := num_images wi0 + 1;
                   images := live_images wi0 ++ [new0] |}
                new0 tree) as (new & -> & Hstat & Hnow).
    { done. } { lia. }
    { cbn [images]. replace (Z.to_nat (num_images wi0 + 1 - 1))
        with (Z.to_nat (num_images wi0)) by lia.
      by apply lookup_snoc. }
    { subst w1. cbn [image_metadata set_info].
      replace (Z.to_nat (num_images wi0 + 1 - 1))
        with (Z.to_nat (num_images wi0)) by lia. done. }
    cbn [mbind option_bind].
    split; [done|]. split; [done|]. split; [by left|]. split; [done|].
    exists new. rewrite Hlive.
    unfold live_images_of at 1. cbn [info set_info].
    unfold live_images at 1. cbn [num_images images].
    replace (Z.to_nat (num_images wi0 + 1 - 1))
      with (Z.to_nat (num_images wi0)) by lia.
    rewrite (insert_snoc _ _ _ _ Hlen).
    replace (Z.to_nat (num_images wi0 + 1))
      with (Z.to_nat (num_images wi0) + 1)%nat by lia.
    split; [by apply take_snoc|].
    destruct Hstat as (_ & _ & _ & _ & Hi & Hc & _ & Hn & Hd & _ & _ & Hf).
    cbn in Hi, Hc, Hn, Hd, Hf. rewrite Hlen.
    repeat split; try done. rewrite Hi. lia.
  - rewrite set_slot_insert by (rewrite length_app, Hlen; cbn; lia).
    cbn [mbind option_bind]. rewrite (insert_snoc _ _ _ _ Hlen).
    destruct (info w) as [wi|] eqn:Hwi.
    + split; [done|]. split; [done|]. split; [by right|].
      split; [split; [done|by intros (_ & _ & ?)]|].
      rewrite Hlive. unfold live_images_of at 1. cbn [info set_info].
      unfold live_images at 1. cbn [num_images images].
      replace (num_images wi0 + 1 - 1) with (num_images wi0) by lia.
      by apply take_snoc.
    + split; [done|]. split; [done|]. split; [by right|].
      split; [split; [done|by intros (_ & _ & ?)]|]. done.
Qed.

Lemma max_name_len_from_spec array count : forall i len,
  0 <= i ->
  (forall k, i <= k < i + Z.of_nat count ->
     exists x, array !! Z.to_nat k = Some x /\ is_Some (name x)) ->
  exists m,
    max_name_len_from array i count len = Some m /\ len <= m /\
    (forall k x s, i <= k < i + Z.of_nat count ->
       array !! Z.to_nat k = Some x -> name x = Some s ->
       Z.of_nat (String.length s) <= m) /\
    (m = len \/
     exists k x s, i <= k < i + Z.of_nat count /\
       array !! Z.to_nat k = Some x /\ name x = Some s /\
       Z.of_nat (String.length s) = m).
Proof.
  induction count as [|c IH]; intros i len Hi Hslots; cbn [max_name_len_from].
  - exists len. split; [done|]. split; [lia|]. split; [|by left].
    intros k x s Hk. lia.
  - destruct (Hslots i) as (x & Hx & [s Hs]); [lia|].
    rewrite slot_lookup by done. rewrite Hx. cbn [mbind option_bind].
    rewrite Hs. cbn [mbind option_bind].
    destruct (IH (i + 1) (Z.max len (Z.of_nat (String.length s))))
      as (m & -> & Hle & Hall & Hmax); [lia| |].
    { intros k Hk. apply Hslots. lia. }
    exists m. split; [done|]. split; [lia|]. split.
    + intros k y t Hk Hy Ht. destruct (decide (k = i)) as [->|Hne].
      * rewrite Hx in Hy. injection Hy as <-. rewrite Hs in Ht.
        injection Ht as <-. lia.
      * apply (Hall k y t); [lia|done|done].
    + destruct Hmax as [->|(k & y & t & Hk & Hy & Ht & Hm)].
      * destruct (Z.max_spec len (Z.of_nat (String.length s))) as [[_ ->]|[_ ->]].
        -- right. exists i, x, s. repeat split; try done; lia.
        -- by left.
      * right. exists k, y, t. repeat split; try done; lia.
Qed.

(** [xml_get_max_image_name_len] answers the length of a longest image
    name: no image in use has a longer name, and unless the answer is 0
    some image has a name of exactly that length. *)
Theorem max_image_name_len_is_max w wi :
  info w = Some wi ->
  0 <= num_images wi <= Z.of_nat (length (images wi)) ->
  Forall (fun i => is_Some (name i)) (live_images wi) ->
  exists m,
    xml_get_max_image_name_len w = Some m /\
    (forall s, Some s ∈ image_names w -> Z.of_nat (String.length s) <= m) /\
    (m = 0 \/
     exists s, Some s ∈ image_names w /\ Z.of_nat (String.length s) = m).
Proof.
  intros Hwi Hlen Hnames. unfold xml_get_max_image_name_len, image_names.
  rewrite Hwi. cbn [mbind option_bind].
  destruct (max_name_len_from_spec (images wi) (Z.to_nat (num_images wi)) 0 0)
    as (m & -> & _ & Hall & Hmax); [lia| |].
  { intros k Hk.
    destruct (lookup_in_range (images wi) k) as [x Hx]; [lia|].
    exists x. split; [done|]. rewrite Forall_lookup in Hnames.
    apply (Hnames (Z.to_nat k)). rewrite live_images_lookup by lia. done. }
  exists m. split; [done|]. split.
  - intros s Hs. apply list_elem_of_fmap in Hs as (x & Hx & Hin).
    apply list_elem_of_lookup in Hin as [k Hk].
    assert (Hlt : Z.of_nat k < num_images wi).
    { apply lookup_lt_Some in Hk. unfold live_images in Hk.
      rewrite length_take in Hk. lia. }
    rewrite live_images_lookup in Hk by done.
    apply (Hall (Z.of_nat k) x s); [lia| |done].
    by rewrite Nat2Z.id.
  - destruct Hmax as [->|(k & x & s & Hk & Hx & Hs & Hm)]; [by left|].
    right. exists s. split; [|done].
    apply list_elem_of_fmap. exists x. split; [done|].
    apply list_elem_of_lookup. exists (Z.to_nat k).
    rewrite live_images_lookup by lia. done.
Qed.

End XmlFacts.

Lemma sample_info_numbered : Xml.numbered (Xml.live_images Xml.sample_info).
Proof.
  intros k i Hk. destruct k as [|[|[|k]]]; cbn in Hk;
    try (injection Hk as <-; reflexivity). discriminate Hk.
Qed.

Lemma sample_wim_info_ok : Xml.info_ok Xml.sample_wim.
Proof.
  unfold Xml.info_ok. cbn. split; [lia|]. split; [reflexivity|].
  repeat constructor; by eexists.
Qed.

Lemma delete_image_renumbers_witness :
  match Xml.xml_delete_image (Some Xml.sample_info) 2 with
  | None => False
  | Some None => Xml.num_images Xml.sample_info = 1
  | Some (Some wi') =>
      Xml.num_images wi' = Xml.num_images Xml.sample_info - 1 /\
      0 < Xml.num_images wi' <= Z.of_nat (length (Xml.images wi')) /\
      Xml.numbered (Xml.live_images wi') /\
      Xml.set_index 0 <$> Xml.live_images wi'
      = delete (Z.to_nat (2 - 1))
          (Xml.set_index 0 <$> Xml.live_images Xml.sample_info)
  end.
Proof.
  apply (delete_image_renumbers Xml.sample_info 2).
  - cbn. lia.
  - cbn. lia.
  - cbn. lia.
  - exact sample_info_numbered.
Defined.

Lemma set_image_name_round_trip_witness :
  match Xml.wimlib_set_image_name (Some Xml.sample_wim) 2 (Some "extras"%string)
          true with
  | Some (ret, Some w') =>
      ret = Xml.WIMLIB_ERR_SUCCESS /\
      Xml.wimlib_get_image_name w' 2 = Some (Some "extras"%string) /\
      Xml.wimlib_get_image_name w' 3 = Xml.wimlib_get_image_name Xml.sample_wim 3
  | _ => False
  end.
Proof.
  pose proof (set_image_name_round_trip Xml.sample_wim 2 "extras" true
                sample_wim_info_ok) as H.
  destruct (Xml.wimlib_set_image_name _ 2 _ true) as [[ret [w'|]]|];
    [|exact H..].
  destruct H as (_ & _ & _ & Hsucc & _ & Hiff).
  assert (Hret : ret = Xml.WIMLIB_ERR_SUCCESS).
  { apply Hiff. split; [done|]. split; [cbn; lia|]. split; [|done].
    intros j Hj. unfold Xml.wimlib_get_image_name. cbn.
    destruct (j <? 1) eqn:H1; cbn; [done|].
    destruct (3 <? j) eqn:H3; cbn; [done|].
    apply Z.ltb_ge in H1, H3.
    assert (j = 1 \/ j = 3) as [->| ->] by lia; cbn; done. }
  split; [exact Hret|]. destruct (Hsucc Hret) as (Hget & Hothers & _).
  split; [exact Hget|]. apply Hothers. lia.
Defined.

Lemma update_image_info_statistics_witness :
  exists new,
    Xml.xml_update_image_info Xml.sample_wim 3 77
    = Some (Xml.set_info
              (Some {| Xml.num_images := 3;
                       Xml.images := <[2%nat := new]> (Xml.images Xml.sample_info) |})
              Xml.sample_wim) /\
    Xml.total_bytes new = 200 /\ Xml.last_modification_time new = 77.
Proof.
  destruct (update_image_info_statistics Xml.sample_wim 3 77 Xml.sample_info
              (Xml.sample_image 3 "full")
              (default [] (Xml.image_metadata Xml.sample_wim !! 2%nat)))
    as (new & Hrun & _ & Htotal & _ & Hnow & _);
    [reflexivity|lia|reflexivity|reflexivity|].
  exists new. split; [exact Hrun|]. split; [exact Htotal|exact Hnow].
Defined.

Lemma add_image_outcomes_witness :
  let w := {| Xml.hdr_image_count := 3; Xml.info := Some Xml.sample_info;
              Xml.image_metadata := [[]; []; []; []] |} in
  match Xml.xml_add_image w "new" true false true 5 6 with
  | Some (ret, w') =>
      ret = Xml.WIMLIB_ERR_NOMEM /\
      Xml.info w' = Some {| Xml.num_images := 2;
                            Xml.images := Xml.images Xml.sample_info |}
  | None => False
  end.
Proof.
  intros w.
  pose proof (add_image_outcomes w "new" true false true 5 6) as H.
  destruct (Xml.xml_add_image w "new" true false true 5 6) as [[ret w']|].
  - destruct H as (_ & _ & Hret & Hiff & Hcase).
    + cbn. lia.
    + by eexists.
    + destruct Hret as [->| ->].
      * destruct Hiff as [Hiff _]. destruct (Hiff eq_refl) as (_ & ? & _).
        discriminate.
      * split; [reflexivity|]. exact Hcase.
  - apply H; [cbn; lia|by eexists].
Defined.

Lemma max_image_name_len_is_max_witness :
  exists m, Xml.xml_get_max_image_name_len Xml.sample_wim = Some m /\
            exists s, Some s ∈ Xml.image_names Xml.sample_wim /\
                      Z.of_nat (String.length s) = m.
Proof.
  destruct (max_image_name_len_is_max Xml.sample_wim Xml.sample_info)
    as (m & Hrun & Hall & Hmax).
  - reflexivity.
  - cbn. lia.
  - repeat constructor; by eexists.
  - exists m. split; [exact Hrun|]. destruct Hmax as [->|Hs]; [|exact Hs].
    exfalso. specialize (Hall "base"%string). cbn in Hall.
    assert (4 <= 0); [|lia]. apply Hall. apply list_elem_of_here.
Defined.

(** * Properties of [textfile.c] *)

Section TextfileFacts.

Import Textfile.

Variable K : constants.

(** A string set that has room for what it holds keeps it: appending
    fails only when the set is full and cannot be reallocated, and then
    changes nothing; otherwise the string is added at the end, the
    capacity does not shrink and still covers the strings.  The allocator
    is not asked as long as there is room. *)
Theorem string_set_append_keeps_room set str :
  string_set_ok K set ->
  let r := string_set_append K set str in
  (r.1 = WIMLIB_ERR_SUCCESS /\
   strings r.2 = strings set ++ [str] /\
   Z.of_nat (length (strings r.2)) <= num_alloc_strings r.2 /\
   num_alloc_strings set <= num_alloc_strings r.2 \/
   r.1 = WIMLIB_ERR_NOMEM /\ r.2 = set /\
   Z.of_nat (length (strings set)) = num_alloc_strings set) /\
  (Z.of_nat (length (strings set)) < num_alloc_strings set ->
   r.1 = WIMLIB_ERR_SUCCESS /\ num_alloc_strings r.2 = num_alloc_strings set).
Proof.
  intros [Hroom Hmax] r. subst r. unfold string_set_append.
  destruct (Z.eqb_spec (Z.of_nat (length (strings set))) (num_alloc_strings set))
    as [Hfull|Hfree].
  - split; [|lia].
    destruct (REALLOC K _); cbn [negb fst snd]; [left|right; done].
    split; [done|]. cbn [strings num_alloc_strings].
    rewrite length_app. cbn [length].
    assert (Hgrow : size_t K (num_alloc_strings set + 4) = num_alloc_strings set + 4).
    { unfold size_t, wrap. apply Z.mod_small. lia. }
    rewrite Hgrow. split; [done|]. lia.
  - split.
    + left. cbn [fst snd strings num_alloc_strings]. split; [done|].
      split; [done|]. rewrite length_app. cbn [length]. lia.
    + intros _. done.
Qed.

Lemma tmemchr_split_lines rest : forall line,
  split_lines line rest
  = match tmemchr rest 10 with
    | None => []
    | Some nl => (rev line ++ take nl rest) :: split_lines [] (drop (S nl) rest)
    end.
Proof.
  induction rest as [|c rest IH]; intros line; cbn [split_lines tmemchr]; [done|].
  destruct (c =? 10); [by rewrite app_nil_r|].
  rewrite IH. destruct (tmemchr rest 10) as [nl|]; cbn; [|done].
  by rewrite <- app_assoc.
Qed.

Lemma tmemchr_bound rest c nl : tmemchr rest c = Some nl -> (nl < length rest)%nat.
Proof.
  revert nl. induction rest as [|x rest IH]; intros nl; cbn; [done|].
  destruct (x =? c); [intros [= <-]; lia|].
  destruct (tmemchr rest c) as [k|]; cbn; [|done].
  intros [= <-]. specialize (IH k eq_refl). lia.
Qed.

Lemma string_set_append_strings set str :
  (forall n, REALLOC K n = true) ->
  (string_set_append K set str).1 = WIMLIB_ERR_SUCCESS /\
  strings (string_set_append K set str).2 = strings set ++ [str].
Proof.
  intros Hok. unfold string_set_append.
  destruct (_ =? _); [rewrite Hok|]; done.
Qed.

Lemma parse_lines_list_file rounds : forall rest nm set flags line_no,
  (length rest <= rounds)%nat ->
  (forall n, REALLOC K n = true) ->
  has_flag flags (LOAD_TEXT_FILE_REMOVE_QUOTES K) = false ->
  exists set',
    parse_lines K rounds rest [{| name := nm; section_strings := set |}]
      flags None false 0 line_no
    = (WIMLIB_ERR_SUCCESS, [{| name := nm; section_strings := set' |}], []) /\
    strings set'
    = strings set
      ++ (cstr <$> List.filter is_entry
                     ((fun l => skip_trailing K (skip_leading K l))
                        <$> split_lines [] rest)).
Proof.
  induction rounds as [|rounds IH]; intros rest nm set flags line_no Hlen Hok Hq.
  - destruct rest; [|cbn in Hlen; lia]. exists set. cbn. by rewrite app_nil_r.
  - cbn [parse_lines]. destruct rest as [|c rest'] eqn:Hrest.
    { exists set. cbn. by rewrite app_nil_r. }
    rewrite <- Hrest in *. rewrite tmemchr_split_lines.
    destruct (tmemchr rest 10) as [nl|] eqn:Hnl.
    2:{ exists set. cbn. by rewrite app_nil_r. }
    pose proof (tmemchr_bound _ _ _ Hnl) as Hbound.
    cbn [rev app fmap list_fmap List.filter].
    unfold parse_line.
    set (line := skip_trailing K (skip_leading K (take nl rest))).
    assert (Hnext : forall set1,
      exists set',
        parse_lines K rounds (drop (S nl) rest)
          [{| name := nm; section_strings := set1 |}] flags None false 0
          (wrap (ulong_bits K) (line_no + 1))
        = (WIMLIB_ERR_SUCCESS, [{| name := nm; section_strings := set' |}], []) /\
        strings set'
        = strings set1
          ++ (cstr <$> List.filter is_entry
                         ((fun l => skip_trailing K (skip_leading K l))
                            <$> split_lines [] (drop (S nl) rest)))).
    { intros set1. apply IH; [|done|done]. rewrite length_drop. lia. }
    destruct line as [|first line'] eqn:Hline.
    { cbv beta iota zeta.
      destruct (Hnext set) as (set' & Hrun & Hs). exists set'. rewrite Hrun.
      split; [done|]. cbn [is_entry]. done. }
    cbn [is_entry].
    destruct ((first =? 59) || (first =? 35)) eqn:Hcomment; cbn [negb].
    { cbv beta iota zeta.
      destruct (Hnext set) as (set' & Hrun & Hs). exists set'. rewrite Hrun.
      by split. }
    rewrite andb_false_r. change (0 <? 0) with false. cbv iota.
    rewrite Hq. cbn [andb].
    change ([{| name := nm; section_strings := set |}] !! Z.to_nat 0)
      with (Some {| name := nm; section_strings := set |}).
    cbv beta iota. cbn [section_strings].
    destruct (string_set_append_strings set (cstr (first :: line')) Hok)
      as [Hret Hstr].
    destruct (string_set_append K set (cstr (first :: line'))) as [ret set1].
    cbn [fst snd] in Hret, Hstr. subst ret.
    cbv beta iota zeta.
    change (<[Z.to_nat 0 := ?x]> [?y]) with [x].
    unfold set_section_strings. cbn [name].
    destruct (Hnext set1) as (set' & Hrun & Hs). exists set'. rewrite Hrun.
    split; [done|].
    rewrite Hs, Hstr. cbn [fmap list_fmap]. by rewrite <- app_assoc.
Qed.

(** A file read as a plain list (one section without a name, no quote
    removal, no callback, an allocator that does not fail) is parsed
    without warnings or errors, and adds to the section, in the order of
    the file, every line that ends in a newline and that, once the
    whitespace around it is gone, is neither empty nor starts with [;] or
    [#].  What follows the last newline is left out. *)
Theorem parse_text_file_plain_list buf nm set flags :
  tstring_is_empty nm = true ->
  (forall n, REALLOC K n = true) ->
  has_flag flags (LOAD_TEXT_FILE_REMOVE_QUOTES K) = false ->
  exists set',
    parse_text_file K buf [{| name := nm; section_strings := set |}] flags None
    = (WIMLIB_ERR_SUCCESS, [{| name := nm; section_strings := set' |}], []) /\
    strings set'
    = strings set
      ++ (cstr <$> List.filter is_entry
                     ((fun l => skip_trailing K (skip_leading K l))
                        <$> split_lines [] buf)).
Proof.
  intros Hnm Hok Hq. unfold parse_text_file. cbn [scan_sections name].
  rewrite Hnm. cbn [negb]. by apply parse_lines_list_file.
Qed.

Lemma sections_extend_refl l : sections_extend l l.
Proof. apply Forall_Forall2_diag, Forall_forall. intros s _. by split. Qed.

Lemma sections_extend_trans l1 l2 l3 :
  sections_extend l1 l2 -> sections_extend l2 l3 -> sections_extend l1 l3.
Proof.
  unfold sections_extend. intros H12. revert l3.
  induction H12 as [|s1 s2 l1 l2 [Hn Hp] _ IH]; intros l3 H23.
  - by apply Forall2_nil_inv_l in H23 as ->.
  - apply Forall2_cons_inv_l in H23 as (s3 & l3' & [Hn' Hp'] & H23 & ->).
    constructor; [|by apply IH]. split; [congruence|by etrans].
Qed.

Lemma string_set_append_extends set str :
  strings set `prefix_of` strings (string_set_append K set str).2 /\
  ((string_set_append K set str).1 = WIMLIB_ERR_SUCCESS \/
   (string_set_append K set str).1 = WIMLIB_ERR_NOMEM).
Proof.
  unfold string_set_append.
  destruct (_ =? _); [destruct (REALLOC K _)|]; cbn;
    (split; [try done; by apply prefix_app_r|auto]).
Qed.

Lemma sections_extend_insert l (i : nat) s set :
  l !! i = Some s ->
  strings (section_strings s) `prefix_of` strings set ->
  sections_extend l (<[i := set_section_strings set s]> l).
Proof.
  intros Hi Hp. unfold sections_extend. apply Forall2_same_length_lookup.
  split; [by rewrite length_insert|]. intros k x y Hx Hy.
  destruct (decide (k = i)) as [->|Hne].
  - rewrite list_lookup_insert_eq in Hy by (by eapply lookup_lt_Some).
    rewrite Hi in Hx. injection Hx as <-. injection Hy as <-. by split.
  - rewrite list_lookup_insert_ne in Hy by done. rewrite Hx in Hy.
    injection Hy as <-. by split.
Qed.

Lemma parse_line_extends line sections flags mangle_line have current line_no :
  let r := parse_line K line sections flags mangle_line have current line_no in
  sections_extend sections r.1.2 /\
  (mangle_line = None ->
   r.1.1.1 = None \/ r.1.1.1 = Some WIMLIB_ERR_NOMEM).
Proof.
  unfold parse_line.
  destruct (skip_trailing K (skip_leading K line)) as [|first rest];
    [split; [apply sections_extend_refl|auto]|].
  destruct ((first =? 59) || (first =? 35));
    [split; [apply sections_extend_refl|auto]|].
  destruct ((first =? 91) && _ && have);
    [split; [apply sections_extend_refl|auto]|].
  destruct (current <? 0); [split; [apply sections_extend_refl|auto]|].
  set (line' := if has_flag flags (LOAD_TEXT_FILE_REMOVE_QUOTES K) && _ && _ && _
                then removelast (tl (first :: rest)) else first :: rest).
  destruct mangle_line as [f|].
  - destruct (f (cstr line') line_no) as [ret str].
    split; [|done].
    destruct ret; cbn; try apply sections_extend_refl.
    destruct (sections !! Z.to_nat current) as [s|] eqn:Hs;
      [|apply sections_extend_refl].
    pose proof (string_set_append_extends (section_strings s) str) as [Hp _].
    destruct (string_set_append K (section_strings s) str) as [ret set].
    cbn. by apply sections_extend_insert.
  - destruct (sections !! Z.to_nat current) as [s|] eqn:Hs;
      [|split; [apply sections_extend_refl|auto]].
    pose proof (string_set_append_extends (section_strings s) (cstr line'))
      as [Hp Hret].
    destruct (string_set_append K (section_strings s) (cstr line')) as [ret set].
    cbn in *. split; [by apply sections_extend_insert|].
    intros _. destruct Hret as [->| ->]; auto.
Qed.

Lemma parse_lines_extends rounds :
  forall rest sections flags mangle_line have current line_no,
  let r := parse_lines K rounds rest sections flags mangle_line have current
             line_no in
  sections_extend sections r.1.2 /\
  (mangle_line = None ->
   r.1.1 = WIMLIB_ERR_SUCCESS \/ r.1.1 = WIMLIB_ERR_NOMEM).
Proof.
  induction rounds as [|rounds IH];
    intros rest sections flags mangle_line have current line_no;
    cbn [parse_lines].
  { split; [apply sections_extend_refl|auto]. }
  destruct rest as [|c rest']; [split; [apply sections_extend_refl|auto]|].
  destruct (tmemchr (c :: rest') 10) as [nl|];
    [|split; [apply sections_extend_refl|auto]].
  pose proof (parse_line_extends (take nl (c :: rest')) sections flags
                mangle_line have current line_no) as Hline.
  destruct (parse_line K (take nl (c :: rest')) sections flags mangle_line have
              current line_no) as [[[ret current'] sections'] warnings].
  cbn [fst snd] in Hline. destruct Hline as [Hext Hret].
  destruct ret as [ret|].
  { cbn [fst snd]. split; [done|]. intros Hm.
    destruct (Hret Hm) as [?|[= ->]]; [done|auto]. }
  pose proof (IH (drop (S nl) (c :: rest')) sections' flags mangle_line have
                current' (wrap (ulong_bits K) (line_no + 1))) as Hrest.
  destruct (parse_lines K rounds (drop (S nl) (c :: rest')) sections' flags
              mangle_line have current'
              (wrap (ulong_bits K) (line_no + 1))) as [[ret sections''] more].
  cbn [fst snd] in *. destruct Hrest as [Hext' Hret'].
  split; [by eapply sections_extend_trans|done].
Qed.

(** Parsing only adds: whatever the buffer, the sections, the flags and
    the callback, the sections keep their number, order and names, and the
    strings a section held are still there, in front of those added.
    Without a callback the only failure is NOMEM. *)
Theorem parse_text_file_only_adds buf sections flags mangle_line :
  let r := parse_text_file K buf sections flags mangle_line in
  name <$> r.1.2 = name <$> sections /\
  Forall2 (fun s s' => strings (section_strings s)
                         `prefix_of` strings (section_strings s'))
    sections r.1.2 /\
  (mangle_line = None ->
   r.1.1 = WIMLIB_ERR_SUCCESS \/ r.1.1 = WIMLIB_ERR_NOMEM).
Proof.
  unfold parse_text_file.
  destruct (scan_sections sections 0 false NOT_IN_SECTION) as [have current].
  pose proof (parse_lines_extends (length buf) buf sections flags mangle_line
                have current 1) as [Hext Hret].
  cbv zeta. split; [|split; [|done]].
  - clear Hret. induction Hext as [|s s' l l' [Hn _] _ IH]; [done|].
    cbn. by rewrite Hn, IH.
  - eapply Forall2_impl; [exact Hext|]. by intros s s' [_ ?].
Qed.

End TextfileFacts.

Lemma string_set_append_keeps_room_witness :
  let set := {| Textfile.strings := [tstr "a"; tstr "b"];
                Textfile.num_alloc_strings := 2 |} in
  let r := Textfile.string_set_append Textfile.sample_constants set (tstr "c") in
  Textfile.string_set_ok Textfile.sample_constants set /\
  r.1 = Textfile.WIMLIB_ERR_SUCCESS /\
  Z.of_nat (length (Textfile.strings r.2)) <= Textfile.num_alloc_strings r.2.
Proof.
  intros set r.
  assert (Hok : Textfile.string_set_ok Textfile.sample_constants set).
  { split; [cbn; lia|]. vm_compute. reflexivity. }
  split; [exact Hok|].
  destruct (string_set_append_keeps_room Textfile.sample_constants set
              (tstr "c") Hok) as [[(Hret & _ & Hroom & _)|(Hret & _)] _].
  - split; [exact Hret|exact Hroom].
  - discriminate Hret.
Defined.

Lemma parse_text_file_plain_list_witness :
  exists set',
    Textfile.parse_text_file Textfile.sample_constants
      (tstr ("  /Windows  " ++ String (ascii_of_nat 10)
               ("; comment" ++ String (ascii_of_nat 10)
                  (String (ascii_of_nat 10)
                     ("/Users" ++ String (ascii_of_nat 10) "tail")))))
      [{| Textfile.name := [];
          Textfile.section_strings :=
            {| Textfile.strings := []; Textfile.num_alloc_strings := 0 |} |}]
      0 None
    = (Textfile.WIMLIB_ERR_SUCCESS,
       [{| Textfile.name := []; Textfile.section_strings := set' |}], []) /\
    Textfile.strings set' = [tstr "/Windows"; tstr "/Users"].
Proof.
  destruct (parse_text_file_plain_list Textfile.sample_constants
              (tstr ("  /Windows  " ++ String (ascii_of_nat 10)
               ("; comment" ++ String (ascii_of_nat 10)
                  (String (ascii_of_nat 10)
                     ("/Users" ++ String (ascii_of_nat 10) "tail")))))
              []
              {| Textfile.strings := []; Textfile.num_alloc_strings := 0 |} 0)
    as (set' & Hrun & Hs); [reflexivity|reflexivity|reflexivity|].
  exists set'. split; [exact Hrun|]. rewrite Hs. vm_compute. reflexivity.
Defined.
